(** * X/Y/Z plot: a shallow embedding of [scripts/xyz_grid.py]

    The sweep engine of the X/Y/Z plot script: axis value parsing
    ([process_axis]), the loop-nesting planner, the per-cell closure [cell],
    the grid builder [draw_xyz_grid] and the three result-shaping branches of
    [Script.run] (paged, individual images, plain grid).

    Python strings are sequences of code points; the model keeps the code
    points below 256 (Rocq's [string]).  Python objects that are shared and
    mutated in place (the request [p], its [styles] list, its
    [override_settings] dictionary) live in an explicit heap and are passed
    by reference. *)

From Stdlib Require Import ZArith String Ascii List Lia QArith.
From Stdlib Require DecimalString.
From stdpp Require Import base gmap list strings.

Open Scope string_scope.
Open Scope Z_scope.
Open Scope list_scope.

(** ** Exceptions *)

Inductive exn : Type :=
| ValueError
| IndexError
| KeyError
| TypeError
| AttributeError
| RuntimeError
| AssertionError
| ZeroDivisionError
| csv_Error
| OtherException (name : string).

Inductive result (A : Type) : Type :=
| Ok (a : A)
| Raise (e : exn).
Arguments Ok {A} a.
Arguments Raise {A} e.

Definition rbind {A B : Type} (m : result A) (k : A → result B) : result B :=
  match m with
  | Ok a => k a
  | Raise e => Raise e
  end.

Declare Scope res_scope.
Delimit Scope res_scope with res.
Notation "x <- m ;; k" := (rbind m (fun x => k))
  (at level 100, m at level 99, k at level 200, right associativity) : res_scope.
Notation "m ;; k" := (rbind m (fun _ => k))
  (at level 100, k at level 200, right associativity) : res_scope.

Definition of_option {A : Type} (e : exn) (o : option A) : result A :=
  match o with
  | Some a => Ok a
  | None => Raise e
  end.

(** A [for] loop whose body may raise. *)
Fixpoint rmapM {A B : Type} (f : A → result B) (l : list A) : result (list B) :=
  match l with
  | [] => Ok []
  | a :: t => (b <- f a ;; bs <- rmapM f t ;; Ok (b :: bs))%res
  end.

(** ** Characters and the string builtins the parser uses *)

Definition chars (s : string) : list ascii := list_ascii_of_string s.
Definition str (l : list ascii) : string := string_of_list_ascii l.

Definition code (c : ascii) : nat := nat_of_ascii c.

(** [str.isspace] / the regex class [\s] on code points below 256. *)
Definition is_space (c : ascii) : bool :=
  let n := code c in
  ((9 <=? n)%nat && (n <=? 13)%nat) || ((28 <=? n)%nat && (n <=? 32)%nat)
  || (n =? 133)%nat || (n =? 160)%nat.

(** The regex class [\d] on code points below 256. *)
Definition is_digit (c : ascii) : bool :=
  let n := code c in (48 <=? n)%nat && (n <=? 57)%nat.

Definition is_sign (c : ascii) : bool :=
  Ascii.eqb c "+" || Ascii.eqb c "-".

Fixpoint lstrip (p : ascii → bool) (s : list ascii) : list ascii :=
  match s with
  | c :: t => if p c then lstrip p t else s
  | [] => []
  end.

Definition rstrip (p : ascii → bool) (s : list ascii) : list ascii :=
  rev (lstrip p (rev s)).

(** [str.strip()] *)
Definition strip (s : string) : string :=
  str (rstrip is_space (lstrip is_space (chars s))).

(** The blanks [int()] skips around a number: those of C's [isspace] and,
    above the ASCII range, the Unicode blanks. *)
Definition is_int_space (c : ascii) : bool :=
  let n := code c in
  ((9 <=? n)%nat && (n <=? 13)%nat) || (n =? 32)%nat
  || (n =? 133)%nat || (n =? 160)%nat.

Definition digit_val (c : ascii) : Z := Z.of_nat (code c) - 48.

(** The digits of a decimal literal as [int()] reads them: single
    underscores are allowed between digits. *)
Fixpoint int_digits (acc : Z) (after_digit : bool) (s : list ascii) : option Z :=
  match s with
  | [] => if after_digit then Some acc else None
  | c :: t =>
      if is_digit c then int_digits (10 * acc + digit_val c) true t
      else if Ascii.eqb c "_" && after_digit then
        match t with
        | d :: _ => if is_digit d then int_digits acc false t else None
        | [] => None
        end
      else None
  end.

(** [int(s)] for a string [s]: surrounding blanks are dropped, one sign is
    allowed, and it must be directly followed by the digits. *)
Definition py_int (s : string) : result Z :=
  of_option ValueError
    match rstrip is_int_space (lstrip is_int_space (chars s)) with
    | c :: t =>
        if Ascii.eqb c "-" then Z.opp <$> int_digits 0 false t
        else if Ascii.eqb c "+" then int_digits 0 false t
        else int_digits 0 false (c :: t)
    | [] => None
    end.

(** [list(range(start, stop, step))] *)
Definition py_range (start stop step : Z) : result (list Z) :=
  if step =? 0 then Raise ValueError
  else
    let n :=
      if 0 <? step then
        if start <? stop then (stop - start - 1) / step + 1 else 0
      else
        if stop <? start then (start - stop - 1) / (- step) + 1 else 0 in
    Ok ((λ i, start + i * step) <$> seqZ 0 n).

(** ** Regular expressions

    The fragment of [re] that the four patterns of the script use, matched
    by backtracking with the priorities of [re]: repetition and option are
    greedy, and the first complete match wins. *)

Inductive regex : Type :=
| Eps
| Chr (p : ascii → bool)
| Star (p : ascii → bool)
| Seq (r1 r2 : regex)
| Opt (r : regex)
| Grp (i : nat) (r : regex).

Definition captures : Type := list (option string).

Fixpoint star {R : Type} (p : ascii → bool) (k : list ascii → option R)
    (s : list ascii) : option R :=
  match s with
  | c :: t =>
      if p c then
        match star p k t with
        | Some r => Some r
        | None => k s
        end
      else k s
  | [] => k []
  end.

Fixpoint rmatch (r : regex) (s : list ascii) (cs : captures)
    (k : list ascii → captures → option captures) : option captures :=
  match r with
  | Eps => k s cs
  | Chr p =>
      match s with
      | c :: t => if p c then k t cs else None
      | [] => None
      end
  | Star p => star p (λ s', k s' cs) s
  | Seq a b => rmatch a s cs (λ s' cs', rmatch b s' cs' k)
  | Opt a =>
      match rmatch a s cs k with
      | Some r => Some r
      | None => k s cs
      end
  | Grp i a =>
      rmatch a s cs
        (λ s' cs', k s' (<[i := Some (str (take (length s - length s') s))]> cs'))
  end.

(** [pattern.fullmatch(s)]: [None], or the groups 1..3 of the match
    (a group that took no part in the match is [None]). *)
Definition fullmatch (r : regex) (s : string) : option captures :=
  rmatch r (chars s) (replicate 4 None)
    (λ s' cs, match s' with [] => Some cs | _ => None end).

Definition group (m : captures) (i : nat) : option string :=
  default None (m !! i).

Definition lit (c : ascii) : regex := Chr (Ascii.eqb c).
Definition ws : regex := Star is_space.
Definition digits : regex := Seq (Chr is_digit) (Star is_digit).
(** An unescaped dot: any character but a newline. *)
Definition any_char : regex := Chr (λ c, negb (Ascii.eqb c "010")).
Infix "⋅" := Seq (at level 40, left associativity).

(** The number of the integer patterns: an optional sign, blanks, digits
    (in the notation of [re]: [+-]? \s* \d+). *)
Definition int_number : regex := Opt (Chr is_sign) ⋅ ws ⋅ digits.

(** The number of the float patterns: as [int_number], then optionally any
    character and more digits (the dot of the pattern is not escaped). *)
Definition float_number : regex :=
  Opt (Chr is_sign) ⋅ ws ⋅ digits ⋅ Opt (any_char ⋅ Star is_digit).

(** [re_range]: blanks, group 1 (a number), blanks, a minus sign, blanks,
    group 2 (a number), optionally { blanks, an opening parenthesis, group 3
    (a sign and digits, the sign being required), blanks, a closing
    parenthesis }, blanks. *)
Definition re_range : regex :=
  ws ⋅ Grp 1 int_number ⋅ ws ⋅ lit "-" ⋅ ws ⋅ Grp 2 int_number
  ⋅ Opt (ws ⋅ lit "(" ⋅ Grp 3 (Chr is_sign ⋅ digits) ⋅ ws ⋅ lit ")")
  ⋅ ws.

(** [re_range_float]: as [re_range], over the float numbers. *)
Definition re_range_float : regex :=
  ws ⋅ Grp 1 float_number ⋅ ws ⋅ lit "-" ⋅ ws ⋅ Grp 2 float_number
  ⋅ Opt (ws ⋅ lit "("
         ⋅ Grp 3 (Chr is_sign ⋅ digits ⋅ Opt (any_char ⋅ Star is_digit))
         ⋅ ws ⋅ lit ")")
  ⋅ ws.

(** [re_range_count]: as [re_range], the optional part being { blanks, an
    opening square bracket, group 3 (digits), blanks, a closing square
    bracket }. *)
Definition re_range_count : regex :=
  ws ⋅ Grp 1 int_number ⋅ ws ⋅ lit "-" ⋅ ws ⋅ Grp 2 int_number
  ⋅ Opt (ws ⋅ lit "[" ⋅ Grp 3 digits ⋅ ws ⋅ lit "]")
  ⋅ ws.

(** [re_range_count_float]: as [re_range_count], over the float numbers. *)
Definition re_range_count_float : regex :=
  ws ⋅ Grp 1 float_number ⋅ ws ⋅ lit "-" ⋅ ws ⋅ Grp 2 float_number
  ⋅ Opt (ws ⋅ lit "["
         ⋅ Grp 3 (digits ⋅ Opt (any_char ⋅ Star is_digit))
         ⋅ ws ⋅ lit "]")
  ⋅ ws.

(** ** The [csv] reader

    [csv.reader(StringIO(data), skipinitialspace=True)] in the default
    dialect: delimiter comma, quote character the double quote with
    doubling, no escape character, not strict. *)

Definition dquote : ascii := "034".
Definition LF : ascii := "010".
Definition CR : ascii := "013".

(** Iterating over a [StringIO]: the lines, each with its terminating
    newline. *)
Fixpoint split_lines (cur : list ascii) (s : list ascii) : list (list ascii) :=
  match s with
  | [] => match cur with [] => [] | _ => [rev cur] end
  | c :: t =>
      if Ascii.eqb c LF then rev (c :: cur) :: split_lines [] t
      else split_lines (c :: cur) t
  end.

Inductive csv_state : Type :=
| START_RECORD
| START_FIELD
| IN_FIELD
| IN_QUOTED_FIELD
| QUOTE_IN_QUOTED_FIELD
| EAT_CRNL.

Record csv_reader : Type := {
  csv_fields : list string;
  csv_field : list ascii;
  csv_st : csv_state;
}.

Definition csv_reset : csv_reader :=
  {| csv_fields := []; csv_field := []; csv_st := START_RECORD |}.

Definition parse_save_field (r : csv_reader) (st : csv_state) : csv_reader :=
  {| csv_fields := csv_fields r ++ [str (csv_field r)]; csv_field := [];
     csv_st := st |}.

Definition parse_add_char (r : csv_reader) (c : ascii) (st : csv_state) : csv_reader :=
  {| csv_fields := csv_fields r; csv_field := csv_field r ++ [c]; csv_st := st |}.

Definition set_csv_state (r : csv_reader) (st : csv_state) : csv_reader :=
  {| csv_fields := csv_fields r; csv_field := csv_field r; csv_st := st |}.

Definition is_newline (c : ascii) : bool := Ascii.eqb c LF || Ascii.eqb c CR.

(** One step of the reader on a character, or on the end of the line
    ([None]). *)
Definition parse_process_char (r : csv_reader) (c : option ascii) : result csv_reader :=
  let start_field :=
    match c with
    | None => Ok (parse_save_field r START_RECORD)
    | Some c =>
        if is_newline c then Ok (parse_save_field r EAT_CRNL)
        else if Ascii.eqb c dquote then Ok (set_csv_state r IN_QUOTED_FIELD)
        else if Ascii.eqb c " " then Ok (set_csv_state r START_FIELD)
        else if Ascii.eqb c "," then Ok (parse_save_field r START_FIELD)
        else Ok (parse_add_char r c IN_FIELD)
    end in
  match csv_st r with
  | START_RECORD =>
      match c with
      | None => Ok r
      | Some c' => if is_newline c' then Ok (set_csv_state r EAT_CRNL) else start_field
      end
  | START_FIELD => start_field
  | IN_FIELD =>
      match c with
      | None => Ok (parse_save_field r START_RECORD)
      | Some c =>
          if is_newline c then Ok (parse_save_field r EAT_CRNL)
          else if Ascii.eqb c "," then Ok (parse_save_field r START_FIELD)
          else Ok (parse_add_char r c IN_FIELD)
      end
  | IN_QUOTED_FIELD =>
      match c with
      | None => Ok r
      | Some c =>
          if Ascii.eqb c dquote then Ok (set_csv_state r QUOTE_IN_QUOTED_FIELD)
          else Ok (parse_add_char r c IN_QUOTED_FIELD)
      end
  | QUOTE_IN_QUOTED_FIELD =>
      match c with
      | None => Ok (parse_save_field r START_RECORD)
      | Some c =>
          if Ascii.eqb c dquote then Ok (parse_add_char r c IN_QUOTED_FIELD)
          else if Ascii.eqb c "," then Ok (parse_save_field r START_FIELD)
          else if is_newline c then Ok (parse_save_field r EAT_CRNL)
          else Ok (parse_add_char r c IN_FIELD)
      end
  | EAT_CRNL =>
      match c with
      | None => Ok (set_csv_state r START_RECORD)
      | Some c => if is_newline c then Ok r else Raise csv_Error
      end
  end.

Fixpoint csv_line (r : csv_reader) (l : list ascii) : result csv_reader :=
  match l with
  | [] => parse_process_char r None
  | c :: t => (r' <- parse_process_char r (Some c) ;; csv_line r' t)%res
  end.

(** The rows the reader yields: a row ends when a line leaves the reader at
    the start of a record; at the end of the input an open field is saved. *)
Fixpoint csv_rows (r : csv_reader) (lines : list (list ascii)) : result (list (list string)) :=
  match lines with
  | [] =>
      match csv_field r, csv_st r with
      | [], IN_QUOTED_FIELD | _ :: _, _ => Ok [csv_fields (parse_save_field r START_RECORD)]
      | [], _ => Ok []
      end
  | l :: rest =>
      (r' <- csv_line r l ;;
       match csv_st r' with
       | START_RECORD => rows <- csv_rows csv_reset rest ;; Ok (csv_fields r' :: rows)
       | _ => csv_rows r' rest
       end)%res
  end.

Definition csv_reader_rows (data : string) : result (list (list string)) :=
  csv_rows csv_reset (split_lines [] (chars data)).

Definition csv_string_to_list_strip (data_str : string) : result (list string) :=
  (rows <- csv_reader_rows data_str ;; Ok (strip <$> concat rows))%res.

(** ** Values of the Python runtime

    What the script takes from the interpreter and from numpy without saying
    how it is computed: the floats, their conversions and their printing. *)

Class PyRuntime : Type := {
  float : Type;
  (** [float(s)] for a string *)
  py_float : string → result float;
  (** [float(n)] for an integer *)
  float_of_int : Z → float;
  float_add : float → float → float;
  (** [int(x)] for a float *)
  float_trunc : float → result Z;
  (** [round(x, 8)] *)
  float_round8 : float → float;
  (** [str(x)] for a float, a tuple of strings, an object *)
  float_str : float → string;
  tuple_str : list string → string;
  object_str : nat → string;
  (** [np.arange(start, stop, step).tolist()] *)
  np_arange : float → float → float → result (list float);
  (** [np.linspace(start=start, stop=stop, num=num).tolist()] *)
  np_linspace : float → float → Z → result (list float);
}.

(** References: positions in the heap. *)
Abbreviation loc := nat.

Section Values.
Context `{PyRuntime}.

Inductive value : Type :=
| VNone
| VBool (b : bool)
| VInt (n : Z)
| VFloat (x : float)
| VStr (s : string)
| VTuple (t : list string)
| VRef (l : loc).

Definition Z_str (n : Z) : string :=
  DecimalString.NilZero.string_of_int (Z.to_int n).

(** [str(v)], as an f-string formats a value. *)
Definition py_str (v : value) : string :=
  match v with
  | VNone => "None"
  | VBool true => "True"
  | VBool false => "False"
  | VInt n => Z_str n
  | VFloat x => float_str x
  | VStr s => s
  | VTuple t => tuple_str t
  | VRef l => object_str l
  end.

End Values.

(** ** Images

    Pillow and [modules.images]: the script only moves images around, asks
    for their mode and size, and calls the grid and annotation helpers. *)

Class Imaging `{PyRuntime} : Type := {
  image : Type;
  image_mode : image → string;
  image_size : image → Z * Z;
  (** [Image.new(mode, size)] *)
  Image_new : string → Z * Z → image;
  (** the nested [draw_label_on_image], applied to a copy of the image *)
  draw_label_on_image : image → string → image;
  (** [images.image_grid(imgs, rows=rows)] *)
  image_grid : list image → nat → image;
  (** [images.draw_grid_annotations(im, width, height, hor_texts, ver_texts, margin)],
      each annotation given by its text *)
  draw_grid_annotations :
    image → Z → Z → list (list value) → list (list value) → Z → image;
}.

(** ** The host application *)

Class World : Type := {
  world : Type;
  (** [shared.state.interrupted] and [state.stopping_generation] *)
  interrupted : world → bool;
  stopping_generation : world → bool;
  (** [opts.grid_save] *)
  grid_save : world → bool;
}.

Section Heap.
Context `{Imaging} `{World}.

(** A result object ([modules.processing.Processed]): the attributes the
    script reads and writes.  [None] entries are the unfilled slots of the
    grid container. *)
Record Processed : Type := mkProcessed {
  images : list (option image);
  all_prompts : list (option string);
  all_seeds : list (option Z);
  infotexts : list (option string);
  prompt : string;
  seed : Z;
  width : Z;
  height : Z;
  index_of_first_image : Z;
}.

Definition set_images (r : Processed) (v : list (option image)) : Processed :=
  mkProcessed v (all_prompts r) (all_seeds r) (infotexts r) (prompt r) (seed r)
    (width r) (height r) (index_of_first_image r).
Definition set_all_prompts (r : Processed) (v : list (option string)) : Processed :=
  mkProcessed (images r) v (all_seeds r) (infotexts r) (prompt r) (seed r)
    (width r) (height r) (index_of_first_image r).
Definition set_all_seeds (r : Processed) (v : list (option Z)) : Processed :=
  mkProcessed (images r) (all_prompts r) v (infotexts r) (prompt r) (seed r)
    (width r) (height r) (index_of_first_image r).
Definition set_infotexts (r : Processed) (v : list (option string)) : Processed :=
  mkProcessed (images r) (all_prompts r) (all_seeds r) v (prompt r) (seed r)
    (width r) (height r) (index_of_first_image r).
Definition set_index_of_first_image (r : Processed) (v : Z) : Processed :=
  mkProcessed (images r) (all_prompts r) (all_seeds r) (infotexts r) (prompt r)
    (seed r) (width r) (height r) v.

(** Objects that are shared by reference. *)
Inductive hobj : Type :=
| HObj (attrs : gmap string value)
| HList (items : list value)
| HDict (entries : gmap string value)
| HProcessed (r : Processed).

Record state : Type := mkState {
  heap : list hobj;
  wld : world;
}.

(** Statements: they read and write the state, and return or raise. *)
Definition M (A : Type) : Type := state → result A * state.

Definition ret {A : Type} (a : A) : M A := λ s, (Ok a, s).
Definition raise {A : Type} (e : exn) : M A := λ s, (Raise e, s).
Definition bind {A B : Type} (m : M A) (k : A → M B) : M B :=
  λ s, match m s with
       | (Ok a, s') => k a s'
       | (Raise e, s') => (Raise e, s')
       end.
Definition lift {A : Type} (r : result A) : M A := λ s, (r, s).
Definition get_state : M state := λ s, (Ok s, s).

(** [try: body except Exception: handler] *)
Definition try_except {A : Type} (body : M A) (handler : exn → M A) : M A :=
  λ s, match body s with
       | (Ok a, s') => (Ok a, s')
       | (Raise e, s') => handler e s'
       end.

(** [with ...: body], the exit action running however the body ends. *)
Definition finally {A : Type} (body : M A) (exit : M unit) : M A :=
  λ s, match body s with
       | (r, s') =>
           match exit s' with
           | (Ok _, s'') => (r, s'')
           | (Raise e, s'') => (Raise e, s'')
           end
       end.

End Heap.

Declare Scope m_scope.
Delimit Scope m_scope with M.
Notation "x <- m ;; k" := (bind m (fun x => k))
  (at level 100, m at level 99, k at level 200, right associativity) : m_scope.
Notation "m ;; k" := (bind m (fun _ => k))
  (at level 100, k at level 200, right associativity) : m_scope.

Section Script.
Context `{Imaging} `{World}.
Local Open Scope m_scope.

(** ** Python objects in the heap *)

Definition alloc (o : hobj) : M loc :=
  λ s, (Ok (length (heap s)), mkState (heap s ++ [o]) (wld s)).

Definition load (l : loc) : M hobj :=
  λ s, (of_option (OtherException "ReferenceError") (heap s !! l), s).

Definition store (l : loc) (o : hobj) : M unit :=
  λ s, (Ok (), mkState (<[l := o]> (heap s)) (wld s)).

(** [o.name] *)
Definition getattr (o : loc) (name : string) : M value :=
  obj <- load o ;;
  match obj with
  | HObj attrs => lift (of_option AttributeError (attrs !! name))
  | _ => raise AttributeError
  end.

(** [o.name = v] *)
Definition setattr (o : loc) (name : string) (v : value) : M unit :=
  obj <- load o ;;
  match obj with
  | HObj attrs => store o (HObj (<[name := v]> attrs))
  | _ => raise AttributeError
  end.

(** The attribute [name] of the object [o] in the state [s], for stating
    properties ([None] when there is no such attribute). *)
Definition attr_of (s : state) (o : loc) (name : string) : option value :=
  match heap s !! o with
  | Some (HObj attrs) => attrs !! name
  | _ => None
  end.

(** [copy(o)]: a new object with the same attributes (or items); what the
    attributes refer to is shared with [o]. *)
Definition copy (o : loc) : M loc :=
  obj <- load o ;; alloc obj.

(** [v[:]] *)
Definition slice_all (v : value) : M value :=
  match v with
  | VRef l =>
      obj <- load l ;;
      match obj with
      | HList items => l' <- alloc (HList items) ;; ret (VRef l')
      | _ => raise TypeError
      end
  | VStr s => ret (VStr s)
  | VTuple t => ret (VTuple t)
  | _ => raise TypeError
  end.

(** [s.split(",")] *)
Fixpoint split_comma (cur : list ascii) (s : list ascii) : list string :=
  match s with
  | [] => [str (rev cur)]
  | c :: t =>
      if Ascii.eqb c "," then str (rev cur) :: split_comma [] t
      else split_comma (c :: cur) t
  end.

(** [s.lower()] on code points below 256 *)
Definition lower_char (c : ascii) : ascii :=
  let n := code c in
  if ((65 <=? n)%nat && (n <=? 90)%nat)
     || ((192 <=? n)%nat && (n <=? 222)%nat && negb (n =? 215)%nat)
  then ascii_of_nat (n + 32) else c.

Definition lower (s : string) : string := str (lower_char <$> chars s).

(** ** Axis options *)

Inductive axis_type : Type := TInt | TFloat | TStr | TPermutations.

Record AxisOption : Type := mkAxisOption {
  label : string;
  type : axis_type;
  (** [apply(p, x, xs)] *)
  apply : loc → value → list value → M unit;
  (** [format_value(p, opt, x)], the option given by its label *)
  format_value : loc → string → value → result value;
  (** [confirm(p, xs)] *)
  confirm : option (loc → list value → result unit);
  cost : Q;
  choices : option (world → list string);
  prepare : option (string → result (list string));
}.

Definition apply_field (field : string) (p : loc) (x : value) (xs : list value) : M unit :=
  setattr p field x.

Definition apply_styles (p : loc) (x : value) (xs : list value) : M unit :=
  v <- getattr p "styles" ;;
  match v with
  | VRef l =>
      obj <- load l ;;
      match obj, x with
      | HList items, VStr s =>
          store l (HList (items ++ (VStr <$> split_comma [] (chars s))))
      | _, _ => raise AttributeError
      end
  | _ => raise AttributeError
  end.

(** [d[key] = v] for the dictionary [d] *)
Definition dict_setitem (d : value) (key : string) (v : value) : M unit :=
  match d with
  | VRef l =>
      obj <- load l ;;
      match obj with
      | HDict entries => store l (HDict (<[key := v]> entries))
      | _ => raise TypeError
      end
  | _ => raise TypeError
  end.

Definition apply_uni_pc_order (p : loc) (x : value) (xs : list value) : M unit :=
  steps <- getattr p "steps" ;;
  match x, steps with
  | VInt n, VInt st =>
      d <- getattr p "override_settings" ;;
      dict_setitem d "uni_pc_order" (VInt (Z.min n (st - 1)))
  | _, _ => raise TypeError
  end.

Definition apply_override (field : string) (boolean : bool)
    (p : loc) (x : value) (xs : list value) : M unit :=
  x' <- (if boolean then
           match x with
           | VStr s => ret (VBool (String.eqb (lower s) "true"))
           | _ => raise AttributeError
           end
         else ret x) ;;
  d <- getattr p "override_settings" ;;
  dict_setitem d field x'.

Definition do_nothing (p : loc) (x : value) (xs : list value) : M unit :=
  ret ().

(** [s.partition("x")]: the text before the first "x", and the text after
    it (empty when there is none). *)
Fixpoint partition_x (cur : list ascii) (s : list ascii) : string * string :=
  match s with
  | [] => (str (rev cur), "")
  | c :: t =>
      if Ascii.eqb c "x" then (str (rev cur), str t)
      else partition_x (c :: cur) t
  end.

Definition apply_size (p : loc) (x : value) (xs : list value) : M unit :=
  match x with
  | VStr s =>
      let wh := partition_x [] (chars s) in
      match py_int (strip wh.1), py_int (strip wh.2) with
      | Ok width, Ok height =>
          setattr p "width" (VInt width) ;;
          setattr p "height" (VInt height)
      | _, _ => ret ()
      end
  | _ => raise AttributeError
  end.

Definition format_value_add_label (p : loc) (opt_label : string) (x : value) : result value :=
  let x := match x with VFloat f => VFloat (float_round8 f) | _ => x end in
  Ok (VStr (opt_label +:+ ": " +:+ py_str x)).

Definition format_value_ (p : loc) (opt_label : string) (x : value) : result value :=
  Ok match x with VFloat f => VFloat (float_round8 f) | _ => x end.

Fixpoint join (sep : string) (l : list string) : string :=
  match l with
  | [] => ""
  | [a] => a
  | a :: t => a +:+ sep +:+ join sep t
  end.

Definition format_value_join_list (p : loc) (opt_label : string) (x : value) : result value :=
  match x with
  | VTuple t => Ok (VStr (join ", " t))
  | _ => Raise TypeError
  end.

Definition format_nothing (p : loc) (opt_label : string) (x : value) : result value :=
  Ok (VStr "").

(** [confirm_range(min_val, max_val, axis_label)] *)
Definition confirm_range (min_val max_val : Z) (axis_label : string)
    (p : loc) (xs : list value) : result unit :=
  (rmapM (λ x, match x with
               | VInt n => if (n <=? max_val) && (min_val <=? n) then Ok ()
                           else Raise ValueError
               | _ => Raise TypeError
               end) xs ;; Ok ())%res.

(** The entries of [axis_options] that the examples below use, with the
    defaults of [AxisOption.__init__]. *)
Definition axis_option (label : string) (type : axis_type)
    (apply : loc → value → list value → M unit) : AxisOption :=
  mkAxisOption label type apply format_value_add_label None 0 None None.

Definition opt_Nothing : AxisOption :=
  mkAxisOption "Nothing" TStr do_nothing format_nothing None 0 None None.
Definition opt_Seed : AxisOption := axis_option "Seed" TInt (apply_field "seed").
Definition opt_Steps : AxisOption := axis_option "Steps" TInt (apply_field "steps").
Definition opt_CFG_Scale : AxisOption :=
  axis_option "CFG Scale" TFloat (apply_field "cfg_scale").
Definition opt_Prompt_order_with (apply_order : loc → value → list value → M unit) : AxisOption :=
  mkAxisOption "Prompt order" TPermutations apply_order format_value_join_list
    None 0 None None.
Definition opt_Clip_skip : AxisOption :=
  axis_option "Clip skip" TInt (apply_override "CLIP_stop_at_last_layers" false).
Definition opt_Styles_with (styles : world → list string) : AxisOption :=
  mkAxisOption "Styles" TStr apply_styles format_value_add_label None 0
    (Some styles) None.
Definition opt_Size : AxisOption := axis_option "Size" TStr apply_size.
Definition opt_UniPC_Order : AxisOption :=
  mkAxisOption "UniPC Order" TInt apply_uni_pc_order format_value_add_label
    None (1 # 2) None None.

(** ** The axis value parser *)

(** [itertools.permutations(l)], in its order: by the position of the first
    element taken, then of the second, and so on. *)
Fixpoint picks {A : Type} (l : list A) : list (A * list A) :=
  match l with
  | [] => []
  | a :: t => (a, t) :: ((λ br, (br.1, a :: br.2)) <$> picks t)
  end.

Fixpoint permutations_n {A : Type} (n : nat) (l : list A) : list (list A) :=
  match n with
  | O => [[]]
  | S n' => flat_map (λ ar, cons ar.1 <$> permutations_n n' ar.2) (picks l)
  end.

Definition py_permutations {A : Type} (l : list A) : list (list A) :=
  permutations_n (length l) l.

Definition group_int (g : option string) : result Z :=
  match g with
  | Some s => py_int s
  | None => Raise TypeError
  end.

Definition group_float (g : option string) : result float :=
  match g with
  | Some s => py_float s
  | None => Raise TypeError
  end.

(** The body of the loop over the tokens of an integer axis: what the token
    adds to [valslist_ext]. *)
Definition expand_int (val : string) : result (list value) :=
  (if String.eqb (strip val) "" then Ok []
   else
     let m := fullmatch re_range val in
     let mc := fullmatch re_range_count val in
     match m, mc with
     | Some m, _ =>
         start <- group_int (group m 1) ;;
         end_ <- group_int (group m 2) ;;
         step <- match group m 3 with Some g => py_int g | None => Ok 1 end ;;
         l <- py_range start (end_ + 1) step ;;
         Ok (VInt <$> l)
     | None, Some mc =>
         start <- group_int (group mc 1) ;;
         end_ <- group_int (group mc 2) ;;
         num <- match group mc 3 with Some g => py_int g | None => Ok 1 end ;;
         l <- np_linspace (float_of_int start) (float_of_int end_) num ;;
         l' <- rmapM float_trunc l ;;
         Ok (VInt <$> l')
     | None, None => Ok [VStr val]
     end)%res.

(** The same for a float axis. *)
Definition expand_float (val : string) : result (list value) :=
  (if String.eqb (strip val) "" then Ok []
   else
     let m := fullmatch re_range_float val in
     let mc := fullmatch re_range_count_float val in
     match m, mc with
     | Some m, _ =>
         start <- group_float (group m 1) ;;
         end_ <- group_float (group m 2) ;;
         step <- match group m 3 with
                 | Some g => py_float g
                 | None => Ok (float_of_int 1)
                 end ;;
         l <- np_arange start (float_add end_ step) step ;;
         Ok (VFloat <$> l)
     | None, Some mc =>
         start <- group_float (group mc 1) ;;
         end_ <- group_float (group mc 2) ;;
         num <- match group mc 3 with Some g => py_int g | None => Ok 1 end ;;
         l <- np_linspace start end_ num ;;
         Ok (VFloat <$> l)
     | None, None => Ok [VStr val]
     end)%res.

(** [opt.type(x)] *)
Definition coerce (t : axis_type) (x : value) : result value :=
  match t, x with
  | TInt, VInt n => Ok (VInt n)
  | TInt, VStr s => (n <- py_int s ;; Ok (VInt n))%res
  | TInt, VFloat f => (n <- float_trunc f ;; Ok (VInt n))%res
  | TInt, VBool b => Ok (VInt (if b then 1 else 0))
  | TInt, _ => Raise TypeError
  | TFloat, VFloat f => Ok (VFloat f)
  | TFloat, VStr s => (f <- py_float s ;; Ok (VFloat f))%res
  | TFloat, VInt n => Ok (VFloat (float_of_int n))
  | TFloat, VBool b => Ok (VFloat (float_of_int (if b then 1 else 0)))
  | TFloat, _ => Raise TypeError
  | TStr, _ => Ok (VStr (py_str x))
  | TPermutations, _ => Ok x
  end.

Definition process_axis (p : loc) (csv_mode : bool)
    (opt : AxisOption) (vals : string) (vals_dropdown : list string)
    : result (list value) :=
  (if String.eqb (label opt) "Nothing" then Ok [VInt 0]
   else
     valslist <-
       (match choices opt, csv_mode, prepare opt with
        | Some _, false, _ => Ok vals_dropdown
        | _, _, Some prep => prep vals
        | _, _, None => csv_string_to_list_strip vals
        end) ;;
     valslist <-
       (match type opt with
        | TInt => l <- rmapM expand_int valslist ;; Ok (concat l)
        | TFloat => l <- rmapM expand_float valslist ;; Ok (concat l)
        | TPermutations => Ok (VTuple <$> py_permutations valslist)
        | TStr => Ok (VStr <$> valslist)
        end) ;;
     valslist <- rmapM (coerce (type opt)) valslist ;;
     match confirm opt with
     | Some c => c p valslist
     | None => Ok ()
     end ;;
     Ok valslist)%res.

(** ** The planner: which axes the outer two loops run over *)

Definition Qlt_bool (a b : Q) : bool := negb (Qle_bool b a).

(** The values of [first_axes_processed] and [second_axes_processed]. *)
Definition axes_processed (x_opt y_opt z_opt : AxisOption) : string * string :=
  if Qlt_bool (cost y_opt) (cost x_opt) && Qlt_bool (cost z_opt) (cost x_opt) then
    ("x", if Qlt_bool (cost z_opt) (cost y_opt) then "y" else "z")
  else if Qlt_bool (cost x_opt) (cost y_opt) && Qlt_bool (cost z_opt) (cost y_opt) then
    ("y", if Qlt_bool (cost z_opt) (cost x_opt) then "x" else "z")
  else if Qlt_bool (cost x_opt) (cost z_opt) && Qlt_bool (cost y_opt) (cost z_opt) then
    ("z", if Qlt_bool (cost y_opt) (cost x_opt) then "x" else "y")
  else ("z", "y").

(** ** The renderer and the other services of the host *)

Class Webui : Type := {
  (** [process_images(pc)] *)
  process_images : loc → M Processed;
  (** [Processed(p, images_list, seed, info)] *)
  new_Processed : state → loc → list image → value → string → Processed;
  new_Processed_images :
    ∀ s p l sd info, images (new_Processed s p l sd info) = Some <$> l;
  (** [processing.create_infotext(pc, all_prompts, all_seeds, all_subseeds)] *)
  create_infotext : loc → value → value → value → M string;
  (** [images.save_image(image, p.outpath_grids, name, info=, extension=opts.grid_format,
      prompt=, seed=, grid=, p=)] *)
  save_image :
    image → string → option string → option string → option Z → bool → M unit;
  (** [errors.display(e, task)] *)
  errors_display : exn → world → world;
  (** [modules.sd_models.reload_model_weights()], [modules.sd_vae.reload_vae_weights()] *)
  reload_model_weights : world → world;
  reload_vae_weights : world → world;
}.

Context `{Webui}.

Definition on_world (f : world → world) : M unit :=
  λ s, (Ok (), mkState (heap s) (f (wld s))).

(** [l[i]] and [l[i] = v] for an index that is not negative *)
Definition py_index {A : Type} (l : list A) (i : nat) : result A :=
  of_option IndexError (l !! i).

Definition py_setitem {A : Type} (l : list A) (i : nat) (v : A) : result (list A) :=
  if (i <? length l)%nat then Ok (<[i := v]> l) else Raise IndexError.

(** [l.insert(i, v)] for an index that is not negative *)
Definition py_insert {A : Type} (l : list A) (i : nat) (v : A) : list A :=
  take i l ++ v :: drop i l.

(** [l[a:b]] for bounds that are not negative *)
Definition py_slice {A : Type} (l : list A) (a b : nat) : list A :=
  take (b - a) (drop a l).

(** [enumerate(l)] *)
Definition enumerate {A : Type} (l : list A) : list (nat * A) :=
  zip (seq 0 (length l)) l.

(** [for a in l: body], the body updating the variables [v]. *)
Fixpoint for_each {A V : Type} (l : list A) (body : A → V → M V) (v : V) : M V :=
  match l with
  | [] => ret v
  | a :: t => v' <- body a v ;; for_each t body v'
  end.

(** [o.name += n] for an integer [n] *)
Definition iadd_attr (o : loc) (name : string) (n : Z) : M unit :=
  v <- getattr o name ;;
  match v with
  | VInt m => setattr o name (VInt (m + n))
  | VBool b => setattr o name (VInt ((if b then 1 else 0) + n))
  | VFloat f => setattr o name (VFloat (float_add f (float_of_int n)))
  | _ => raise TypeError
  end.

Definition nl : string := String LF "".

(** ** The closure [cell] of [Script.run] *)

Section Cell.
Variables (p : loc) (x_opt y_opt z_opt : AxisOption) (xs ys zs : list value).
Variables (x_values y_values z_values : string).
Variables (vary_seeds_x vary_seeds_y vary_seeds_z : bool).
Variables (draw_individual_labels no_fixed_seeds : bool).
(** the list [grid_infotext] *)
Variable grid_infotext : loc.

Definition title : string := "X/Y/Z plot".

Definition is_seed_label (l : string) : bool :=
  String.eqb l "Seed" || String.eqb l "Var. seed".

(** The entries one axis adds to [pc.extra_generation_params]. *)
Definition axis_generation_params (d : value) (axis : string) (opt : AxisOption)
    (values : string) (vs : list value) : M unit :=
  if negb (String.eqb (label opt) "Nothing") then
    dict_setitem d (axis +:+ " Type") (VStr (label opt)) ;;
    dict_setitem d (axis +:+ " Values") (VStr values) ;;
    if is_seed_label (label opt) && negb no_fixed_seeds then
      dict_setitem d ("Fixed " +:+ axis +:+ " Values") (VStr (join ", " (py_str <$> vs)))
    else ret ()
  else ret ().

Definition copy_extra_generation_params (pc : loc) : M value :=
  d <- getattr pc "extra_generation_params" ;;
  match d with
  | VRef l => l' <- copy l ;; setattr pc "extra_generation_params" (VRef l') ;; ret (VRef l')
  | _ => raise TypeError
  end.

Definition pc_infotext (pc : loc) : M string :=
  ap <- getattr pc "all_prompts" ;;
  asd <- getattr pc "all_seeds" ;;
  ass <- getattr pc "all_subseeds" ;;
  create_infotext pc ap asd ass.

Definition grid_infotext_get (i : nat) : M value :=
  g <- load grid_infotext ;;
  match g with
  | HList items => lift (py_index items i)
  | _ => raise TypeError
  end.

Definition grid_infotext_set (i : nat) (v : value) : M unit :=
  g <- load grid_infotext ;;
  match g with
  | HList items => items' <- lift (py_setitem items i v) ;; store grid_infotext (HList items')
  | _ => raise TypeError
  end.

Definition is_None (v : value) : bool :=
  match v with VNone => true | _ => false end.

Definition failed_cell : M Processed :=
  sd <- getattr p "seed" ;;
  s <- get_state ;;
  ret (new_Processed s p [] sd "").

(** The body of the [try] block: the renderer, then the label drawn on the
    first image. *)
Definition render_cell (pc : loc) (x y z : value) (ix iy iz : nat) : M Processed :=
  res <- process_images pc ;;
  match draw_individual_labels, images res with
  | true, first :: _ =>
      img <- lift (of_option AttributeError first) ;;
      lx <- lift (format_value x_opt p (label x_opt) x) ;;
      ly <- lift (format_value y_opt p (label y_opt) y) ;;
      lz <- lift (format_value z_opt p (label z_opt) z) ;;
      let text := "X: " +:+ py_str lx +:+ nl +:+ "Y: " +:+ py_str ly +:+ nl
                  +:+ "Z: " +:+ py_str lz in
      let labeled_image := draw_label_on_image img text in
      let filename := "xyz_grid_x" +:+ Z_str (Z.of_nat ix) +:+ "_y"
                      +:+ Z_str (Z.of_nat iy) +:+ "_z" +:+ Z_str (Z.of_nat iz) in
      s <- get_state ;;
      (if grid_save (wld s) then
         info <- lift (py_index (infotexts res) 0) ;;
         pr <- lift (py_index (all_prompts res) 0) ;;
         sd <- lift (py_index (all_seeds res) 0) ;;
         save_image labeled_image filename info pr sd false
       else ret ()) ;;
      ret (set_images res (<[0%nat := Some labeled_image]> (images res)))
  | _, _ => ret res
  end.

(** [pc = copy(p); pc.styles = pc.styles[:]] *)
Definition clone_request : M loc :=
  pc <- copy p ;;
  st <- getattr pc "styles" ;;
  st' <- slice_all st ;;
  setattr pc "styles" st' ;;
  ret pc.

(** The three calls of [apply], X then Y then Z. *)
Definition apply_axes (pc : loc) (x y z : value) : M unit :=
  apply x_opt pc x xs ;;
  apply y_opt pc y ys ;;
  apply z_opt pc z zs.

(** The seed offsets of the axes that vary the seed. *)
Definition vary_seed (pc : loc) (ix iy iz : nat) : M unit :=
  let xdim := if vary_seeds_x then Z.of_nat (length xs) else 1 in
  let ydim := if vary_seeds_y then Z.of_nat (length ys) else 1 in
  (if vary_seeds_x then iadd_attr pc "seed" (Z.of_nat ix) else ret ()) ;;
  (if vary_seeds_y then iadd_attr pc "seed" (Z.of_nat iy * xdim) else ret ()) ;;
  (if vary_seeds_z then iadd_attr pc "seed" (Z.of_nat iz * xdim * ydim) else ret ()).

(** The bookkeeping after the [try] block: the infotexts of the grids. *)
Definition record_grid_infotext (pc : loc) (ix iy iz : nat) : M unit :=
  let subgrid_index := (1 + iz)%nat in
  g <- grid_infotext_get subgrid_index ;;
  (if is_None g && (ix =? 0)%nat && (iy =? 0)%nat then
     d <- copy_extra_generation_params pc ;;
     dict_setitem d "Script" (VStr title) ;;
     axis_generation_params d "X" x_opt x_values xs ;;
     axis_generation_params d "Y" y_opt y_values ys ;;
     info <- pc_infotext pc ;;
     grid_infotext_set subgrid_index (VStr info)
   else ret ()) ;;
  g0 <- grid_infotext_get 0 ;;
  (if is_None g0 && (ix =? 0)%nat && (iy =? 0)%nat && (iz =? 0)%nat then
     d <- copy_extra_generation_params pc ;;
     axis_generation_params d "Z" z_opt z_values zs ;;
     info <- pc_infotext pc ;;
     grid_infotext_set 0 (VStr info)
   else ret ()).

(** [try: ... except Exception as e: ...] around the renderer *)
Definition try_render (pc : loc) (x y z : value) (ix iy iz : nat) : M Processed :=
  try_except (render_cell pc x y z ix iy iz)
    (λ e, on_world (errors_display e) ;; failed_cell).

(** The request of a cell: the clone, the axis values applied, the seed
    offset. *)
Definition cell_request (x y z : value) (ix iy iz : nat) : M loc :=
  pc <- clone_request ;;
  apply_axes pc x y z ;;
  vary_seed pc ix iy iz ;;
  ret pc.

Definition cell (x y z : value) (ix iy iz : nat) : M Processed :=
  s <- get_state ;;
  if interrupted (wld s) || stopping_generation (wld s) then failed_cell
  else
    pc <- cell_request x y z ix iy iz ;;
    res <- try_render pc x y z ix iy iz ;;
    record_grid_infotext pc ix iy iz ;;
    ret res.

End Cell.

(** ** [draw_xyz_grid] *)

Fixpoint unwrap_images (l : list (option image)) : result (list image) :=
  match l with
  | [] => Ok []
  | Some i :: t => (r <- unwrap_images t ;; Ok (i :: r))%res
  | None :: _ => Raise AttributeError
  end.

(** [map(max, zip( *(img.size for img in imgs)))], unpacked into two names *)
Definition max_size (imgs : list image) : result (Z * Z) :=
  match imgs with
  | [] => Raise ValueError
  | i :: t =>
      Ok (foldl (λ wh j, (Z.max wh.1 (image_size j).1, Z.max wh.2 (image_size j).2))
            (image_size i) t)
  end.

(** The truth value of an entry of the image list: an image is true. *)
Definition truthy {A : Type} (o : option A) : bool :=
  match o with Some _ => true | None => false end.

Section Draw.
Variables (p : loc) (xs ys zs : list value).
Variables (x_labels y_labels z_labels : list value).
Variable cell : value → value → value → nat → nat → nat → M Processed.
Variables (draw_legend draw_individual_labels : bool).
Variables (first_axes_processed second_axes_processed : string).
Variable margin_size : Z.
(** The arguments [include_lone_images] and [include_sub_grids] are not
    used by the function.  The writes to the progress display
    ([state.job_count] at the start, [state.job] before each call of the
    cell) are left out: [world] holds what the script reads of the shared
    state, and the script reads neither; a host function that reads the
    display is outside the model.  What is proved of [draw_xyz_grid] is
    about its result and about the calls of the cell; nothing is said of
    the display. *)

Definition hor_texts : list (list value) := (λ x, [x]) <$> x_labels.
Definition ver_texts : list (list value) := (λ y, [y]) <$> y_labels.
Definition title_texts : list (list value) := (λ z, [z]) <$> z_labels.

Definition list_size : nat := (length xs * length ys * length zs)%nat.

Definition index (ix iy iz : nat) : nat :=
  (ix + iy * length xs + iz * length xs * length ys)%nat.

(** The container made from the first result: a copy of it whose four
    lists are fresh, [list_size] long and unfilled. *)
Definition template (processed : Processed) : Processed :=
  mkProcessed (replicate list_size None) (replicate list_size None)
    (replicate list_size None) (replicate list_size None)
    (prompt processed) (seed processed) (width processed) (height processed) 1.

(** What [process_cell] does with the result of the cell: it goes into
    slot [index ix iy iz] of the container, which the first result makes. *)
Definition store_cell (processed : Processed) (ix iy iz : nat)
    (processed_result : option Processed) : result (option Processed) :=
  (let r := match processed_result with
            | None => template processed
            | Some r => r
            end in
   let idx := index ix iy iz in
   match images processed with
   | process_image :: _ =>
       process_image <-
         (if draw_individual_labels then
            img <- of_option AttributeError process_image ;;
            lx <- py_index x_labels ix ;;
            ly <- py_index y_labels iy ;;
            lz <- py_index z_labels iz ;;
            let text := "X: " +:+ py_str lx +:+ nl +:+ "Y: " +:+ py_str ly +:+ nl
                        +:+ "Z: " +:+ py_str lz in
            Ok (Some (draw_label_on_image img text))
          else Ok process_image) ;;
       imgs <- py_setitem (images r) idx process_image ;;
       prompts <- py_setitem (all_prompts r) idx (Some (prompt processed)) ;;
       seeds <- py_setitem (all_seeds r) idx (Some (seed processed)) ;;
       info <- py_index (infotexts processed) 0 ;;
       infos <- py_setitem (infotexts r) idx info ;;
       Ok (Some (set_infotexts (set_all_seeds (set_all_prompts (set_images r imgs)
                                                  prompts) seeds) infos))
   | [] =>
       first <- py_index (images r) 0 ;;
       let cell_mode := match first with Some i => image_mode i | None => "P" end in
       let cell_size := match first with
                        | Some i => image_size i
                        | None => (width r, height r)
                        end in
       imgs <- py_setitem (images r) idx (Some (Image_new cell_mode cell_size)) ;;
       Ok (Some (set_images r imgs))
   end)%res.

Definition process_cell (x y z : value) (ix iy iz : nat)
    (processed_result : option Processed) : M (option Processed) :=
  processed <- cell x y z ix iy iz ;;
  lift (store_cell processed ix iy iz processed_result).

(** The three nested loops, in the order the two names ask for. *)
Definition loops : M (option Processed) :=
  let over_x (body : nat → value → option Processed → M (option Processed)) :=
    for_each (enumerate xs) (λ ixx, body ixx.1 ixx.2) in
  let over_y (body : nat → value → option Processed → M (option Processed)) :=
    for_each (enumerate ys) (λ iyy, body iyy.1 iyy.2) in
  let over_z (body : nat → value → option Processed → M (option Processed)) :=
    for_each (enumerate zs) (λ izz, body izz.1 izz.2) in
  if String.eqb first_axes_processed "x" then
    over_x (λ ix x,
      if String.eqb second_axes_processed "y" then
        over_y (λ iy y, over_z (λ iz z, process_cell x y z ix iy iz))
      else
        over_z (λ iz z, over_y (λ iy y, process_cell x y z ix iy iz))) None
  else if String.eqb first_axes_processed "y" then
    over_y (λ iy y,
      if String.eqb second_axes_processed "x" then
        over_x (λ ix x, over_z (λ iz z, process_cell x y z ix iy iz))
      else
        over_z (λ iz z, over_x (λ ix x, process_cell x y z ix iy iz))) None
  else if String.eqb first_axes_processed "z" then
    over_z (λ iz z,
      if String.eqb second_axes_processed "x" then
        over_x (λ ix x, over_y (λ iy y, process_cell x y z ix iy iz))
      else
        over_y (λ iy y, over_x (λ ix x, process_cell x y z ix iy iz))) None
  else ret None.

(** One round of the loop over [range(z_count)]: the grid of slice [i] is
    put at position [i] of the four lists. *)
Definition insert_sub_grid (i : nat) (r : Processed) : M Processed :=
  let start_index := (i * length xs * length ys + i)%nat in
  let end_index := (start_index + length xs * length ys)%nat in
  imgs <- lift (unwrap_images (py_slice (images r) start_index end_index)) ;;
  let grid := image_grid imgs (length ys) in
  grid <- (if draw_legend then
             wh <- lift (max_size imgs) ;;
             ret (draw_grid_annotations grid wh.1 wh.2 hor_texts ver_texts margin_size)
           else ret grid) ;;
  let images' := py_insert (images r) i (Some grid) in
  pr <- lift (py_index (all_prompts r) start_index) ;;
  let prompts' := py_insert (all_prompts r) i pr in
  sd <- lift (py_index (all_seeds r) start_index) ;;
  let seeds' := py_insert (all_seeds r) i sd in
  info <- lift (py_index (infotexts r) start_index) ;;
  let infos' := py_insert (infotexts r) i info in
  ret (set_infotexts (set_all_seeds (set_all_prompts (set_images r images') prompts')
                        seeds') infos').

(** The grid of the slice grids, put in front of the images and of the
    infotexts. *)
Definition insert_z_grid (r : Processed) : M Processed :=
  let z_count := length zs in
  imgs <- lift (unwrap_images (take z_count (images r))) ;;
  let z_grid := image_grid imgs 1 in
  wh <- lift (max_size imgs) ;;
  let z_grid := if draw_legend
                then draw_grid_annotations z_grid wh.1 wh.2 title_texts [[VStr ""]] 0
                else z_grid in
  let images' := py_insert (images r) 0 (Some z_grid) in
  info <- lift (py_index (infotexts r) 0) ;;
  ret (set_infotexts (set_images r images') (py_insert (infotexts r) 0 info)).

Definition empty_Processed : M Processed :=
  s <- get_state ;; ret (new_Processed s p [] (VInt (-1)) "").

Definition draw_xyz_grid : M Processed :=
  processed_result <- loops ;;
  match processed_result with
  | None => empty_Processed
  | Some r =>
      if negb (existsb truthy (images r)) then empty_Processed
      else
        r <- for_each (seq 0 (length zs)) insert_sub_grid r ;;
        insert_z_grid r
  end.

End Draw.

(** ** [Script.run], from the planner on

    The arguments are the three parsed axes and the options of the form.
    The step count that is only reported to the progress bar is left out. *)

(** A [for] loop whose body may [break]: the body returns [true] to leave
    the loop. *)
Fixpoint for_break {A V : Type} (l : list A) (body : A → V → M (bool * V)) (v : V) : M V :=
  match l with
  | [] => ret v
  | a :: t =>
      r <- body a v ;;
      if r.1 then ret r.2 else for_break t body r.2
  end.

(** [[values[i : i + n] for i in range(0, length, n)]], for [n] at least 1 *)
Fixpoint chunks_fuel {A : Type} (fuel : nat) (n : nat) (values : list A) : list (list A) :=
  match fuel, values with
  | O, _ | _, [] => []
  | S fuel', _ => take n values :: chunks_fuel fuel' n (drop n values)
  end.

Definition chunks {A : Type} (n : nat) (values : list A) : list (list A) :=
  chunks_fuel (length values) n values.

(** [[l[0]] + l[z_count + 1 :]] *)
Definition keep_lone {A : Type} (z_count : nat) (l : list A) : result (list A) :=
  (x <- py_index l 0 ;; Ok (x :: drop (z_count + 1) l))%res.

(** [[l[0]]] *)
Definition keep_first {A : Type} (l : list A) : result (list A) :=
  (x <- py_index l 0 ;; Ok [x])%res.

(** [[l[0]] + (l[1 : z_count + 1] if include_sub_grids else []) + l[z_count + 1 :]] *)
Definition keep_all {A : Type} (include_sub_grids : bool) (z_count : nat)
    (l : list A) : result (list A) :=
  (x <- py_index l 0 ;;
   Ok (x :: (if include_sub_grids then py_slice l 1 (z_count + 1) else [])
         ++ drop (z_count + 1) l))%res.

Definition load_Processed (l : loc) : M Processed :=
  o <- load l ;;
  match o with
  | HProcessed r => ret r
  | _ => raise AttributeError
  end.

Definition opt_str (v : value) : option string :=
  match v with VStr s => Some s | _ => None end.

(** [save_image] on entry [i] of the four lists of [r] *)
Definition save_entry (r : Processed) (i : nat) (name : string) (grid : bool) : M unit :=
  img <- lift (py_index (images r) i) ;;
  info <- lift (py_index (infotexts r) i) ;;
  pr <- lift (py_index (all_prompts r) i) ;;
  sd <- lift (py_index (all_seeds r) i) ;;
  img <- lift (of_option AttributeError img) ;;
  save_image img name info pr sd grid.

Section Run.
Variables (p : loc) (x_opt y_opt z_opt : AxisOption) (xs ys zs : list value).
Variables (x_values y_values z_values : string).
Variables (draw_legend draw_individual_labels skip_grid : bool).
Variable items_per_grid : Z.
Variables (include_lone_images include_sub_grids no_fixed_seeds : bool).
Variables (vary_seeds_x vary_seeds_y vary_seeds_z : bool).
Variable margin_size : Z.

(** [if skip_grid: include_lone_images = True; include_sub_grids = False] *)
Definition lone_images : bool := if skip_grid then true else include_lone_images.
Definition sub_grids : bool := if skip_grid then false else include_sub_grids.

Definition labels (opt : AxisOption) (vs : list value) : M (list value) :=
  lift (rmapM (format_value opt p (label opt)) vs).

(** The axis with the most values, the first one on a tie. *)
Definition main_axis : string :=
  let lx := length xs in
  let ly := length ys in
  let lz := length zs in
  if (ly <=? lx)%nat && (lz <=? lx)%nat then "x"
  else if (lz <=? ly)%nat then "y" else "z".

Section WithCell.
(** the closure [cell], and the names the planner set *)
Variable the_cell : value → value → value → nat → nat → nat → M Processed.
Variables (first_axes second_axes : string).
Variable grid_infotext : loc.

Definition draw (xs' ys' zs' : list value) : M Processed :=
  x_labels <- labels x_opt xs' ;;
  y_labels <- labels y_opt ys' ;;
  z_labels <- labels z_opt zs' ;;
  draw_xyz_grid p xs' ys' zs' x_labels y_labels z_labels the_cell draw_legend
    draw_individual_labels first_axes second_axes margin_size.

(** What one chunk yields: its grid, trimmed to the data that is kept. *)
Definition chunk_output (chunk : list value) : M Processed :=
  let xs' := if String.eqb main_axis "x" then chunk else xs in
  let ys' := if String.eqb main_axis "y" then chunk else ys in
  let zs' := if String.eqb main_axis "z" then chunk else zs in
  r <- draw xs' ys' zs' ;;
  if lone_images then
    let z_count := length zs' in
    imgs <- lift (keep_lone z_count (images r)) ;;
    infos <- lift (keep_lone z_count (infotexts r)) ;;
    prompts <- lift (keep_lone z_count (all_prompts r)) ;;
    seeds <- lift (keep_lone z_count (all_seeds r)) ;;
    ret (set_all_seeds (set_all_prompts (set_infotexts (set_images r imgs) infos)
                          prompts) seeds)
  else
    imgs <- lift (keep_first (images r)) ;;
    prompts <- lift (keep_first (all_prompts r)) ;;
    seeds <- lift (keep_first (all_seeds r)) ;;
    infos <- lift (keep_first (infotexts r)) ;;
    ret (set_infotexts (set_all_seeds (set_all_prompts (set_images r imgs) prompts)
                          seeds) infos).

Definition save_chunk (chunk_idx : nat) (r : Processed) : M unit :=
  for_each (seq 0 (length (images r)))
    (λ i _,
       let suffix := if (i =? 0)%nat then "" else "_" +:+ Z_str (Z.of_nat i) in
       save_entry r i ("xyz_grid_" +:+ Z_str (Z.of_nat chunk_idx + 1) +:+ suffix)
         (i =? 0)%nat) ().

Definition clear (r : Processed) : Processed :=
  set_infotexts (set_all_seeds (set_all_prompts (set_images r []) []) []) [].

Definition extend (final chunk : Processed) : Processed :=
  set_infotexts
    (set_all_seeds
       (set_all_prompts (set_images final (images final ++ images chunk))
          (all_prompts final ++ all_prompts chunk))
       (all_seeds final ++ all_seeds chunk))
    (infotexts final ++ infotexts chunk).

(** The body of the loop over the chunks.  [chunk_processed] and
    [final_processed] name objects: after the first round both name the
    same one. *)
Definition chunk_round (ic : nat * list value) (final_processed : option loc)
    : M (option loc) :=
  r <- chunk_output ic.2 ;;
  chunk_processed <- alloc (HProcessed r) ;;
  s <- get_state ;;
  (if grid_save (wld s) then save_chunk ic.1 r else ret ()) ;;
  final_processed <-
    (if (ic.1 =? 0)%nat then ret (Some chunk_processed)
     else
       match final_processed with
       | Some fp =>
           f <- load_Processed fp ;;
           c <- load_Processed chunk_processed ;;
           store fp (HProcessed (extend f c)) ;;
           ret (Some fp)
       | None => raise (OtherException "UnboundLocalError")
       end) ;;
  c <- load_Processed chunk_processed ;;
  store chunk_processed (HProcessed (clear c)) ;;
  ret final_processed.

Definition run_chunked (values : list value) : M Processed :=
  final_processed <-
    for_each (enumerate (chunks (Z.to_nat items_per_grid) values)) chunk_round None ;;
  match final_processed with
  | Some fp => load_Processed fp
  | None => raise (OtherException "UnboundLocalError")
  end.

(** The individual images of [skip_grid]. *)
Definition skip_grid_round (x y z : value) (ix iy iz : nat) (processed : Processed)
    : M (bool * Processed) :=
  s <- get_state ;;
  if interrupted (wld s) then ret (true, processed)
  else
    proc <- the_cell x y z ix iy iz ;;
    match images proc with
    | _ :: _ =>
        ret (false,
             set_all_seeds
               (set_all_prompts
                  (set_infotexts (set_images processed (images processed ++ images proc))
                     (infotexts processed ++ infotexts proc))
                  (all_prompts processed ++ all_prompts proc))
               (all_seeds processed ++ all_seeds proc))
    | [] => ret (false, processed)
    end.

Definition run_skip_grid : M Processed :=
  processed <- failed_cell p ;;
  let processed := clear processed in
  processed <-
    for_each (enumerate zs) (λ izz,
      for_each (enumerate ys) (λ iyy,
        for_break (enumerate xs) (λ ixx,
          skip_grid_round ixx.2 iyy.2 izz.2 ixx.1 iyy.1 izz.1))) processed ;;
  s <- get_state ;;
  (if grid_save (wld s) then
     for_each (seq 0 (length (images processed)))
       (λ i _, save_entry processed i ("xyz_image_" +:+ Z_str (Z.of_nat i + 1)) false) ()
   else ret ()) ;;
  ret processed.

(** [zip(images, infos, prompts, seeds)] of the individual images, saved. *)
Fixpoint save_lone (idx : nat) (imgs : list (option image)) (infos : list (option string))
    (prompts : list (option string)) (seeds : list (option Z)) : M unit :=
  match imgs, infos, prompts, seeds with
  | img :: imgs', info :: infos', pr :: prompts', sd :: seeds' =>
      img <- lift (of_option AttributeError img) ;;
      save_image img ("xyz_grid_image_" +:+ Z_str (Z.of_nat idx + 1)) info pr sd false ;;
      save_lone (S idx) imgs' infos' prompts' seeds'
  | _, _, _, _ => ret ()
  end.

Definition run_plain : M Processed :=
  processed <- draw xs ys zs ;;
  match images processed with
  | [] => ret processed
  | _ :: _ =>
      let z_count := length zs in
      g <- load grid_infotext ;;
      g <- match g with HList items => ret items | _ => raise TypeError end ;;
      let processed :=
        set_infotexts processed
          ((opt_str <$> take (1 + z_count) g) ++ drop (1 + z_count) (infotexts processed)) in
      s <- get_state ;;
      (if grid_save (wld s) then
         save_entry processed 0 "xyz_grid" true ;;
         (if sub_grids then
            for_each (seq 1 z_count)
              (λ idx _, save_entry processed idx ("xyz_grid_z_" +:+ Z_str (Z.of_nat idx)) true) ()
          else ret ()) ;;
         (if lone_images then
            save_lone 0 (drop (z_count + 1) (images processed))
              (drop (z_count + 1) (infotexts processed))
              (drop (z_count + 1) (all_prompts processed))
              (drop (z_count + 1) (all_seeds processed))
          else ret ())
       else ret ()) ;;
      if lone_images then
        imgs <- lift (keep_all sub_grids z_count (images processed)) ;;
        infos <- lift (keep_all sub_grids z_count (infotexts processed)) ;;
        prompts <- lift (keep_all sub_grids z_count (all_prompts processed)) ;;
        seeds <- lift (keep_all sub_grids z_count (all_seeds processed)) ;;
        ret (set_all_seeds (set_all_prompts (set_infotexts (set_images processed imgs)
                                               infos) prompts) seeds)
      else if sub_grids then
        ret (set_all_seeds
               (set_all_prompts
                  (set_infotexts (set_images processed (take (z_count + 1) (images processed)))
                     (take (z_count + 1) (infotexts processed)))
                  (take (z_count + 1) (all_prompts processed)))
               (take (z_count + 1) (all_seeds processed)))
      else
        imgs <- lift (keep_first (images processed)) ;;
        infos <- lift (keep_first (infotexts processed)) ;;
        prompts <- lift (keep_first (all_prompts processed)) ;;
        seeds <- lift (keep_first (all_seeds processed)) ;;
        ret (set_all_seeds (set_all_prompts (set_infotexts (set_images processed imgs)
                                               infos) prompts) seeds)
  end.

(** The body of [with SharedSettingsStackHelper()]. *)
Definition run_body : M Processed :=
  let values := if String.eqb main_axis "x" then xs
                else if String.eqb main_axis "y" then ys else zs in
  if (0 <? items_per_grid) && negb skip_grid && (1 <? length values)%nat then
    run_chunked values
  else if skip_grid then run_skip_grid
  else run_plain.

End WithCell.

Definition run : M Processed :=
  let fs := axes_processed x_opt y_opt z_opt in
  grid_infotext <- alloc (HList (replicate (1 + length zs) VNone)) ;;
  let the_cell :=
    cell p x_opt y_opt z_opt xs ys zs x_values y_values z_values
      vary_seeds_x vary_seeds_y vary_seeds_z draw_individual_labels no_fixed_seeds
      grid_infotext in
  finally (run_body the_cell fs.1 fs.2 grid_infotext)
    (on_world reload_model_weights ;; on_world reload_vae_weights).

End Run.

End Script.

(** * A small host to run examples on

    Floats are the rationals (of the float literals only the integer ones
    are read), images are terms over the imaging operations, and the
    renderer draws one image of the requested size, unless the request is
    too large (it raises) or asks for no steps (it returns no image). *)

Module Demo.

Definition Q_linspace (start stop : Q) (num : Z) : result (list Q) :=
  if num <? 0 then Raise ValueError
  else if num =? 1 then Ok [start]
  else Ok ((λ i, start + inject_Z i * ((stop - start) / inject_Z (num - 1)))%Q <$> seqZ 0 num).

Definition Q_arange (start stop step : Q) : result (list Q) :=
  if Qeq_bool step 0 then Raise ZeroDivisionError
  else
    let d := ((stop - start) / step)%Q in
    let n := (Qnum d + Z.pos (Qden d) - 1) / Z.pos (Qden d) in
    Ok ((λ i, start + inject_Z i * step)%Q <$> seqZ 0 n).

#[export] Instance runtime : PyRuntime := {|
  float := Q;
  py_float := λ s, (n <- py_int s ;; Ok (inject_Z n))%res;
  float_of_int := inject_Z;
  float_add := Qplus;
  float_trunc := λ x, Ok (Z.quot (Qnum x) (Z.pos (Qden x)));
  float_round8 := λ x, x;
  float_str := λ x, Z_str (Qnum x) +:+ "/" +:+ Z_str (Z.pos (Qden x));
  tuple_str := λ t, "(" +:+ String.concat ", " t +:+ ")";
  object_str := λ l, "<object " +:+ Z_str (Z.of_nat l) +:+ ">";
  np_arange := Q_arange;
  np_linspace := Q_linspace;
|}.

#[warnings="-register-all"]
Inductive img : Type :=
| Rendered (mode : string) (size : Z * Z) (id : Z)
| Blank (mode : string) (size : Z * Z)
| Labelled (i : img) (text : string)
| Grid (imgs : list img) (rows : nat)
| Annotated (i : img) (w h : Z) (hor ver : list (list value)) (margin : Z).

Fixpoint img_mode (i : img) : string :=
  match i with
  | Rendered m _ _ | Blank m _ => m
  | Labelled i _ | Annotated i _ _ _ _ _ => img_mode i
  | Grid imgs _ => match imgs with j :: _ => img_mode j | [] => "RGB" end
  end.

Fixpoint img_size (i : img) : Z * Z :=
  match i with
  | Rendered _ s _ | Blank _ s => s
  | Labelled i _ | Annotated i _ _ _ _ _ => img_size i
  | Grid imgs rows =>
      match imgs with
      | j :: _ =>
          let cols := (Z.of_nat (length imgs) + Z.of_nat rows - 1) / Z.of_nat rows in
          (cols * (img_size j).1, Z.of_nat rows * (img_size j).2)
      | [] => (0, 0)
      end
  end.

#[export] Instance imaging : Imaging := {|
  image := img;
  image_mode := img_mode;
  image_size := img_size;
  Image_new := Blank;
  draw_label_on_image := Labelled;
  image_grid := Grid;
  draw_grid_annotations := Annotated;
|}.

Record demo_world : Type := mkWorld {
  w_interrupted : bool;
  w_stopping : bool;
  w_grid_save : bool;
  (** the names of the files saved, the last one first *)
  w_saved : list string;
  (** the requests the renderer was called on *)
  w_rendered : list loc;
}.

#[export] Instance the_world : World := {|
  world := demo_world;
  interrupted := w_interrupted;
  stopping_generation := w_stopping;
  grid_save := w_grid_save;
|}.

Local Open Scope m_scope.

Definition attr_int (o : loc) (name : string) : M Z :=
  v <- getattr o name ;;
  match v with VInt n => ret n | _ => raise TypeError end.

Definition attr_str (o : loc) (name : string) : M string :=
  v <- getattr o name ;;
  match v with VStr s => ret s | _ => raise TypeError end.

Definition log_render (pc : loc) : M unit :=
  on_world (λ w, mkWorld (w_interrupted w) (w_stopping w) (w_grid_save w) (w_saved w)
                   (w_rendered w ++ [pc])).

Definition demo_process_images (pc : loc) : M Processed :=
  log_render pc ;;
  w <- attr_int pc "width" ;;
  h <- attr_int pc "height" ;;
  sd <- attr_int pc "seed" ;;
  pr <- attr_str pc "prompt" ;;
  steps <- attr_int pc "steps" ;;
  if 4096 <? w * h then raise (OtherException "OutOfMemoryError")
  else
    let info := pr +:+ ", Seed: " +:+ Z_str sd in
    setattr pc "all_prompts" (VStr pr) ;;
    setattr pc "all_seeds" (VInt sd) ;;
    if steps =? 0 then ret (mkProcessed [] [Some pr] [Some sd] [] pr sd w h 0)
    else ret (mkProcessed [Some (Rendered "RGB" (w, h) sd)] [Some pr] [Some sd]
                [Some info] pr sd w h 0).

Definition demo_new_Processed (s : state) (p : loc) (l : list image) (sd : value)
    (info : string) : Processed :=
  let pr := match attr_of s p "prompt" with Some (VStr t) => t | _ => "" end in
  let sd := match sd with VInt n => n | _ => -1 end in
  let w := match attr_of s p "width" with Some (VInt n) => n | _ => 0 end in
  let h := match attr_of s p "height" with Some (VInt n) => n | _ => 0 end in
  mkProcessed (Some <$> l) [Some pr] [Some sd] (replicate (length l) (Some info))
    pr sd w h 0.

Definition demo_save_image (i : image) (name : string) (info pr : option string)
    (sd : option Z) (grid : bool) : M unit :=
  on_world (λ w, mkWorld (w_interrupted w) (w_stopping w) (w_grid_save w)
                   (name :: w_saved w) (w_rendered w)).

#[export] Instance webui : Webui := {|
  process_images := demo_process_images;
  new_Processed := demo_new_Processed;
  new_Processed_images := λ _ _ _ _ _, eq_refl;
  create_infotext := λ pc ap asd ass,
    pr <- attr_str pc "prompt" ;; sd <- attr_int pc "seed" ;;
    ret (pr +:+ ", Seed: " +:+ Z_str sd);
  save_image := demo_save_image;
  errors_display := λ e w, w;
  reload_model_weights := λ w, w;
  reload_vae_weights := λ w, w;
|}.

(** The template request: object 0, its style list object 1, its override
    settings object 2, its extra generation parameters object 3. *)
Definition template_request : hobj :=
  HObj (list_to_map
    [("prompt", VStr "a cat"); ("negative_prompt", VStr ""); ("seed", VInt 5);
     ("steps", VInt 20); ("width", VInt 64); ("height", VInt 64);
     ("styles", VRef 1%nat); ("override_settings", VRef 2%nat);
     ("extra_generation_params", VRef 3%nat);
     ("all_prompts", VNone); ("all_seeds", VNone); ("all_subseeds", VNone)]).

Definition world0 : demo_world := mkWorld false false false [] [].

Definition state0 : state :=
  mkState [template_request; HList []; HDict ∅; HDict ∅] world0.

Definition p0 : loc := 0%nat.

End Demo.

(** * Properties *)

Import Demo.

(** ** The planner *)

Section Planner.
Context `{Webui}.

Lemma Qlt_bool_iff (a b : Q) : Qlt_bool a b = true ↔ (a < b)%Q.
Proof.
  unfold Qlt_bool. rewrite negb_true_iff.
  split.
  - intros Hle. apply Qnot_le_lt. intros Hba.
    apply Qle_bool_iff in Hba. congruence.
  - intros Hlt. destruct (Qle_bool b a) eqn:E; [|done].
    apply Qle_bool_iff in E. exfalso. eapply Qlt_not_le; eauto.
Qed.

Lemma Qlt_bool_false (a b : Q) : Qlt_bool a b = false ↔ ¬ (a < b)%Q.
Proof.
  rewrite <- Qlt_bool_iff. destruct (Qlt_bool a b); split; congruence.
Qed.

(** An axis has strictly the highest cost. *)
Definition dearest (c c1 c2 : Q) : Prop := (c1 < c)%Q ∧ (c2 < c)%Q.

Lemma dearest_bool (c c1 c2 : Q) :
  Qlt_bool c1 c && Qlt_bool c2 c = true ↔ dearest c c1 c2.
Proof. unfold dearest. rewrite andb_true_iff, !Qlt_bool_iff. tauto. Qed.

Lemma dearest_excl (a b c : Q) : dearest a b c → ¬ dearest b a c.
Proof.
  intros [Hba _] [Hab _]. eapply Qlt_irrefl, Qlt_trans; eauto.
Qed.

Ltac qcontra :=
  exfalso;
  first
    [ contradiction
    | match goal with
      | Hab : (?a < ?b)%Q, Hba : (?b < ?a)%Q |- _ =>
          exact (Qlt_irrefl _ (Qlt_trans _ _ _ Hab Hba))
      end
    | match goal with
      | Hn : ¬ (_ ∧ _) |- _ => apply Hn; split; assumption
      end ].

(** C5. The axis whose cost is strictly the highest is processed first and
    the dearer of the other two second; when no axis is strictly the
    dearest, Z is processed first and Y second. *)
Theorem planner_order (x_opt y_opt z_opt : AxisOption) :
  let cx := cost x_opt in
  let cy := cost y_opt in
  let cz := cost z_opt in
  let fs := axes_processed x_opt y_opt z_opt in
  (dearest cx cy cz →
     fs.1 = "x" ∧ ((cz < cy)%Q → fs.2 = "y") ∧ ((cy < cz)%Q → fs.2 = "z"))
  ∧ (dearest cy cx cz →
     fs.1 = "y" ∧ ((cz < cx)%Q → fs.2 = "x") ∧ ((cx < cz)%Q → fs.2 = "z"))
  ∧ (dearest cz cx cy →
     fs.1 = "z" ∧ ((cy < cx)%Q → fs.2 = "x") ∧ ((cx < cy)%Q → fs.2 = "y"))
  ∧ (¬ dearest cx cy cz → ¬ dearest cy cx cz → ¬ dearest cz cx cy →
     fs = ("z", "y")).
Proof.
  intros cx cy cz fs. subst fs. unfold axes_processed, dearest. fold cx cy cz.
  destruct (Qlt_bool cy cx) eqn:Eyx, (Qlt_bool cz cx) eqn:Ezx,
    (Qlt_bool cx cy) eqn:Exy, (Qlt_bool cz cy) eqn:Ezy,
    (Qlt_bool cx cz) eqn:Exz, (Qlt_bool cy cz) eqn:Eyz; simpl;
    repeat match goal with
      | E : Qlt_bool _ _ = true |- _ => apply Qlt_bool_iff in E
      | E : Qlt_bool _ _ = false |- _ => apply Qlt_bool_false in E
      end;
    repeat split; intros; destruct_and?; first [done | qcontra].
Qed.

End Planner.

(** ** The seed of a cell *)

Section Seed.
Context `{Webui}.

(** The offset that the axes which vary the seed add, as the
    specification words it. *)
Definition seed_offset (vary_x vary_y vary_z : bool) (nx ny ix iy iz : nat) : Z :=
  let xdim := if vary_x then Z.of_nat nx else 1 in
  let ydim := if vary_y then Z.of_nat ny else 1 in
  (if vary_x then Z.of_nat ix else 0)
  + (if vary_y then Z.of_nat iy * xdim else 0)
  + (if vary_z then Z.of_nat iz * xdim * ydim else 0).

(** The state in which attribute [name] of the object [o] is [v]. *)
Definition with_attr (s : state) (o : loc) (attrs : gmap string value)
    (name : string) (v : value) : state :=
  mkState (<[o := HObj (<[name := v]> attrs)]> (heap s)) (wld s).

Lemma with_attr_id s o attrs name v :
  heap s !! o = Some (HObj attrs) → attrs !! name = Some v →
  with_attr s o attrs name v = s.
Proof.
  intros Ho Hn. unfold with_attr. rewrite (insert_id attrs name v Hn).
  rewrite (list_insert_id _ _ _ Ho). by destruct s.
Qed.

Lemma iadd_attr_with_attr s o attrs name m n :
  heap s !! o = Some (HObj attrs) →
  iadd_attr o name n (with_attr s o attrs name (VInt m))
  = (Ok (), with_attr s o attrs name (VInt (m + n))).
Proof.
  intros Ho. pose proof (lookup_lt_Some _ _ _ Ho) as Hlt.
  cbv [iadd_attr bind getattr setattr load store lift with_attr heap wld].
  rewrite list_lookup_insert_eq by done. cbv [of_option].
  rewrite lookup_insert_eq.
  rewrite list_lookup_insert_eq by done.
  by rewrite list_insert_insert_eq, insert_insert_eq.
Qed.

Lemma vary_seed_with_attr xs ys vx vy vz s pc attrs b ix iy iz :
  heap s !! pc = Some (HObj attrs) →
  vary_seed xs ys vx vy vz pc ix iy iz (with_attr s pc attrs "seed" (VInt b))
  = (Ok (), with_attr s pc attrs "seed"
              (VInt (b + seed_offset vx vy vz (length xs) (length ys) ix iy iz))).
Proof.
  intros Ho. unfold vary_seed, seed_offset.
  destruct vx, vy, vz; unfold bind, ret;
    repeat (rewrite iadd_attr_with_attr by done);
    do 3 f_equal; lia.
Qed.

(** C6 (amended). The seed of a cell's request is the seed the clone has
    once the three axis values are applied (the template's seed unless an
    axis writes the seed) plus the offsets of the axes that vary the seed:
    [ix], [iy * xdim], [iz * xdim * ydim]. *)
Theorem cell_seed_offsets p x_opt y_opt z_opt xs ys zs vx vy vz
    x y z ix iy iz (s s1 : state) pc attrs b :
  bind (clone_request p) (λ pc, bind (apply_axes x_opt y_opt z_opt xs ys zs pc x y z)
                                  (λ _, ret pc)) s = (Ok pc, s1) →
  heap s1 !! pc = Some (HObj attrs) →
  attrs !! "seed" = Some (VInt b) →
  cell_request p x_opt y_opt z_opt xs ys zs vx vy vz x y z ix iy iz s
  = (Ok pc, with_attr s1 pc attrs "seed"
              (VInt (b + seed_offset vx vy vz (length xs) (length ys) ix iy iz))).
Proof.
  intros Hpre Ho Hb. unfold cell_request.
  unfold bind in Hpre |- *.
  destruct (clone_request p s) as [[pc'|e] s0]; [|done].
  destruct (apply_axes x_opt y_opt z_opt xs ys zs pc' x y z s0) as [[[]|e] s1'];
    [|done].
  unfold ret in Hpre. injection Hpre as -> ->.
  rewrite <- (with_attr_id s1 pc attrs "seed" (VInt b)) at 1 by done.
  by rewrite vary_seed_with_attr.
Qed.

End Seed.

(** ** Examples on the small host *)

(** Evaluate the left-hand side of an equation (and only it: the types of
    the goal mention the whole host). *)
Ltac vm_lhs :=
  match goal with
  | |- ?l = _ => let v := eval vm_compute in l in change l with v
  | |- ?l ≠ _ => let v := eval vm_compute in l in change l with v
  end.
Ltac vm_eq := vm_lhs; reflexivity.

Definition nothing : list value := [VInt 0].

(** Witness of [planner_order]: an axis of cost 1/2 beside two of cost 0. *)
Lemma planner_order_witness :
  (axes_processed opt_UniPC_Order opt_Seed opt_Nothing).1 = "x".
Proof.
  apply (proj1 (planner_order opt_UniPC_Order opt_Seed opt_Nothing)).
  split; reflexivity.
Defined.

(** Witness of [cell_seed_offsets], the example of the specification:
    X and Z vary the seed, Y does not, X has four values, and the cell
    (2, 1, 1) gets the seed 5 + 6. *)
Lemma cell_seed_offsets_witness :
  ∃ pc s',
    cell_request p0 opt_Steps opt_Clip_skip opt_Size
      [VInt 10; VInt 20; VInt 30; VInt 40] [VInt 1; VInt 2]
      [VStr "32x32"; VStr "64x64"] true false true
      (VInt 30) (VInt 2) (VStr "64x64") 2 1 1 state0 = (Ok pc, s')
    ∧ attr_of s' pc "seed" = Some (VInt (5 + 6)).
Proof.
  eexists _, _. split.
  - eapply cell_seed_offsets.
    + vm_eq.
    + vm_eq.
    + vm_eq.
  - vm_eq.
Defined.

(** C6, as stated, fails when an axis writes the seed: with the Seed axis
    at the value 100, no axis varying the seed and a template whose seed is
    5, the seed of the cell is 100, not 5 plus an offset of 0. *)
Lemma cell_seed_is_not_template_seed_plus_offset :
  attr_of state0 p0 "seed" = Some (VInt 5)
  ∧ seed_offset false false false 1 1 0 0 0 = 0
  ∧ ∃ pc s',
      cell_request p0 opt_Seed opt_Nothing opt_Nothing [VInt 100] nothing nothing
        false false false (VInt 100) (VInt 0) (VInt 0) 0 0 0 state0 = (Ok pc, s')
      ∧ attr_of s' pc "seed" = Some (VInt 100)
      ∧ attr_of s' pc "seed"
        ≠ Some (VInt (5 + seed_offset false false false 1 1 0 0 0)).
Proof.
  split; [vm_eq|]. split; [reflexivity|].
  eexists _, _. split; [vm_eq|].
  split; [vm_eq|]. vm_lhs. discriminate.
Qed.

(** C2 at its failing input.  The axis Clip skip writes
    [p.override_settings], a dictionary the clone shares with the template:
    preparing the request of the first cell leaves the value 1 in the
    template's dictionary (object 2), while the style list (object 1), which
    the clone copies, is not touched by the Styles axis. *)
Lemma cell_request_changes_template_override_settings :
  let s1 :=
    (cell_request p0 opt_Clip_skip (opt_Styles_with (λ _, ["anime"])) opt_Nothing
       [VInt 1; VInt 2] [VStr "anime"] nothing false false false
       (VInt 1) (VStr "anime") (VInt 0) 0 0 0 state0).2 in
  attr_of state0 p0 "override_settings" = Some (VRef 2)
  ∧ heap state0 !! 2%nat = Some (HDict ∅)
  ∧ attr_of s1 p0 "override_settings" = Some (VRef 2)
  ∧ heap s1 !! 2%nat = Some (HDict {[ "CLIP_stop_at_last_layers" := VInt 1 ]})
  ∧ attr_of s1 p0 "styles" = Some (VRef 1)
  ∧ heap s1 !! 1%nat = Some (HList [])
  ∧ heap state0 !! 1%nat = Some (HList []).
Proof. intros s1. repeat split; vm_eq. Qed.

(** C1 at its failing input.  One cell (X the seed 7, Y and Z nothing),
    plain grid with the individual images kept: the result has three images
    and three infotexts, but two prompts and two seeds, since the grid of
    grids is put in front of the images and of the infotexts only. *)
Lemma run_result_lists_differ_in_length :
  ∃ r s',
    run p0 opt_Seed opt_Nothing opt_Nothing [VInt 7] nothing nothing "7" "" ""
      false false false 0 true true false false false false 0 state0 = (Ok r, s')
    ∧ length (images r) = 3%nat ∧ length (infotexts r) = 3%nat
    ∧ length (all_prompts r) = 2%nat ∧ length (all_seeds r) = 2%nat.
Proof. eexists _, _. split; [vm_eq|]. repeat split. Qed.

(** ** The axis value parser *)

Section Parser.
Context `{Webui}.

(** *** Characters *)

Definition field_char (c : ascii) : bool :=
  negb (is_newline c || Ascii.eqb c dquote || Ascii.eqb c "," || is_space c).

Lemma is_digit_facts c :
  is_digit c = true →
  is_space c = false ∧ is_int_space c = false ∧ is_sign c = false
  ∧ Ascii.eqb c "-" = false ∧ Ascii.eqb c "+" = false ∧ Ascii.eqb c "(" = false
  ∧ field_char c = true.
Proof.
  destruct c as [[] [] [] [] [] [] [] []]; vm_compute; intros; try discriminate;
    repeat split.
Qed.

Lemma is_sign_facts c :
  is_sign c = true →
  is_space c = false ∧ is_int_space c = false ∧ is_digit c = false
  ∧ field_char c = true ∧ (c = "+"%char ∨ c = "-"%char).
Proof.
  destruct c as [[] [] [] [] [] [] [] []]; vm_compute; intros; try discriminate;
    repeat split; auto.
Qed.

(** *** Literals and range tokens *)

Definition all_digits (ds : list ascii) : Prop :=
  ds ≠ [] ∧ Forall (λ c, is_digit c = true) ds.

Definition digits_value (ds : list ascii) : Z :=
  foldl (λ acc c, 10 * acc + digit_val c) 0 ds.

(** A literal with an explicit sign, and its value. *)
Inductive signed_literal : list ascii → Z → Prop :=
| literal_plus ds : all_digits ds → signed_literal ("+"%char :: ds) (digits_value ds)
| literal_minus ds : all_digits ds → signed_literal ("-"%char :: ds) (- digits_value ds).

(** An integer literal: digits, or a signed literal. *)
Inductive int_literal : list ascii → Z → Prop :=
| literal_digits ds : all_digits ds → int_literal ds (digits_value ds)
| literal_signed l n : signed_literal l n → int_literal l n.

(** The range tokens: "a-b" (the step is 1) and "a-b(s)" with a signed
    step [s]. *)
Inductive range_token : string → Z → Z → Z → Prop :=
| token_plain A a B b :
    int_literal A a → int_literal B b →
    range_token (str (A ++ "-"%char :: B)) a b 1
| token_step A a B b S s :
    int_literal A a → int_literal B b → signed_literal S s →
    range_token (str (A ++ "-"%char :: B ++ "("%char :: S ++ [")"%char])) a b s.

Lemma chars_str l : chars (str l) = l.
Proof. apply list_ascii_of_string_of_list_ascii. Qed.

Lemma str_chars s : str (chars s) = s.
Proof. apply string_of_list_ascii_of_string. Qed.

Lemma signed_literal_chars l n :
  signed_literal l n →
  ∃ c ds, l = c :: ds ∧ is_sign c = true ∧ all_digits ds.
Proof. intros [ds Hd|ds Hd]; eexists _, ds; (split; [done|]); (split; [done|]); done. Qed.

Lemma all_digits_field ds : all_digits ds → Forall (λ c, field_char c = true) ds.
Proof.
  intros [_ Hd]. eapply Forall_impl; [exact Hd|]. intros c Hc.
  by apply is_digit_facts in Hc as (_ & _ & _ & _ & _ & _ & Hf).
Qed.

Lemma signed_literal_field l n :
  signed_literal l n → l ≠ [] ∧ Forall (λ c, field_char c = true) l.
Proof.
  intros (c & ds & -> & Hc & Hd)%signed_literal_chars. split; [done|].
  constructor; [|by apply all_digits_field].
  by apply is_sign_facts in Hc as (_ & _ & _ & Hf & _).
Qed.

Lemma int_literal_field l n :
  int_literal l n → l ≠ [] ∧ Forall (λ c, field_char c = true) l.
Proof.
  intros [ds Hd|l' n' Hs]; [|by eapply signed_literal_field].
  split; [apply Hd|by apply all_digits_field].
Qed.

Lemma range_token_field tok a b s :
  range_token tok a b s →
  ∃ l, tok = str l ∧ l ≠ [] ∧ Forall (λ c, field_char c = true) l.
Proof.
  intros [A a' B b' HA HB|A a' B b' S s' HA HB HS]; eexists; (split; [done|]).
  - apply int_literal_field in HA as [HA1 HA2], HB as [HB1 HB2].
    split; [by destruct A|].
    apply Forall_app; split; [done|]. by constructor.
  - apply int_literal_field in HA as [HA1 HA2], HB as [HB1 HB2].
    apply signed_literal_field in HS as [HS1 HS2].
    split; [by destruct A|].
    apply Forall_app; split; [done|]. constructor; [done|].
    apply Forall_app; split; [done|]. constructor; [done|].
    apply Forall_app; split; [done|]. by constructor.
Qed.

(** *** [strip] and [int] on literals *)

Lemma lstrip_head p c l : p c = false → lstrip p (c :: l) = c :: l.
Proof. intros Hc. simpl. by rewrite Hc. Qed.

Lemma strip_ends p l :
  Forall (λ c, p c = false) l → rstrip p (lstrip p l) = l.
Proof.
  intros Hl. assert (∀ l, Forall (λ c, p c = false) l → lstrip p l = l) as Hls.
  { intros [|c l'] Hf; [done|]. apply lstrip_head. by inversion Hf. }
  unfold rstrip. rewrite (Hls l Hl), Hls, rev_involutive; [done|].
  by apply Forall_rev.
Qed.

Lemma field_char_not_space c : field_char c = true → is_space c = false.
Proof.
  unfold field_char. rewrite negb_true_iff, !orb_false_iff. tauto.
Qed.

Lemma strip_field l :
  Forall (λ c, field_char c = true) l → strip (str l) = str l.
Proof.
  intros Hl. unfold strip. rewrite chars_str, strip_ends; [done|].
  eapply Forall_impl; [exact Hl|]. apply field_char_not_space.
Qed.

Lemma int_digits_all ds acc b :
  Forall (λ c, is_digit c = true) ds → (ds ≠ [] ∨ b = true) →
  int_digits acc b ds = Some (foldl (λ acc c, 10 * acc + digit_val c) acc ds).
Proof.
  intros Hd. revert acc b. induction Hd as [|d ds Hc Hd IH]; intros acc b Hb.
  - simpl. destruct Hb as [? | ->]; done.
  - simpl. rewrite Hc. apply IH. by right.
Qed.

Lemma py_int_literal l n : int_literal l n → py_int (str l) = Ok n.
Proof.
  intros Hl. unfold py_int. rewrite chars_str.
  assert (Forall (λ c, is_int_space c = false) l) as Hns.
  { destruct Hl as [ds [_ Hd]|l n Hs].
    - eapply Forall_impl; [exact Hd|]. intros c Hc.
      by apply is_digit_facts in Hc as (_ & ? & _).
    - apply signed_literal_chars in Hs as (c & ds & -> & Hc & _ & Hd).
      constructor; [by apply is_sign_facts in Hc as (_ & ? & _)|].
      eapply Forall_impl; [exact Hd|]. intros c' Hc'.
      by apply is_digit_facts in Hc' as (_ & ? & _). }
  rewrite strip_ends by done.
  destruct Hl as [ds [Hne Hd]|l n [ds [Hne Hd]|ds [Hne Hd]]].
  - destruct ds as [|d ds]; [done|].
    pose proof (Forall_inv Hd) as Hc.
    apply is_digit_facts in Hc as (_ & _ & _ & -> & -> & _).
    by rewrite int_digits_all by (done || by left).
  - simpl. by rewrite int_digits_all by (done || by left).
  - simpl. by rewrite int_digits_all by (done || by left).
Qed.

(** *** The csv reader on one plain field *)

Lemma split_lines_no_LF (cur l : list ascii) :
  Forall (λ c, field_char c = true) l → (cur ++ l)%list ≠ [] →
  split_lines cur l = [(rev cur ++ l)%list].
Proof.
  intros Hl. revert cur. induction Hl as [|c l Hc Hl IH]; intros cur Hne.
  - simpl. rewrite !app_nil_r in *. by destruct cur.
  - simpl. assert (Ascii.eqb c LF = false) as ->.
    { unfold field_char, is_newline in Hc.
      rewrite negb_true_iff, !orb_false_iff in Hc. tauto. }
    rewrite IH by done. simpl. by rewrite <- app_assoc.
Qed.

Lemma csv_line_in_field (fs : list string) (cur l : list ascii) :
  Forall (λ c, field_char c = true) l →
  csv_line {| csv_fields := fs; csv_field := cur; csv_st := IN_FIELD |} l
  = Ok {| csv_fields := (fs ++ [str (cur ++ l)%list])%list; csv_field := [];
          csv_st := START_RECORD |}.
Proof.
  intros Hl. revert cur. induction Hl as [|c l Hc Hl IH]; intros cur.
  - simpl. by rewrite app_nil_r.
  - simpl. unfold parse_process_char. simpl.
    unfold field_char in Hc. rewrite negb_true_iff, !orb_false_iff in Hc.
    destruct Hc as (((-> & _) & ->) & _). simpl.
    unfold parse_add_char. simpl. rewrite IH. by rewrite <- app_assoc.
Qed.

Lemma csv_line_start (l : list ascii) :
  l ≠ [] → Forall (λ c, field_char c = true) l →
  csv_line csv_reset l
  = Ok {| csv_fields := [str l]; csv_field := []; csv_st := START_RECORD |}.
Proof.
  intros Hne Hl. destruct l as [|c l]; [done|].
  pose proof (Forall_inv Hl) as Hc. pose proof (Forall_inv_tail Hl) as Hl'.
  assert (parse_process_char csv_reset (Some c)
          = Ok {| csv_fields := []; csv_field := [c]; csv_st := IN_FIELD |}) as Hstep.
  { unfold parse_process_char. cbn [csv_st csv_reset].
    pose proof Hc as Hc'. unfold field_char in Hc'.
    rewrite negb_true_iff, !orb_false_iff in Hc'.
    destruct Hc' as (((-> & ->) & ->) & Hsp).
    assert (Ascii.eqb c " " = false) as ->; [|done].
    destruct (Ascii.eqb_spec c " ") as [->|]; [|done]. by vm_compute in Hsp. }
  cbn [csv_line]. rewrite Hstep. cbn [rbind].
  by rewrite csv_line_in_field.
Qed.

Lemma csv_plain_field (l : list ascii) :
  l ≠ [] → Forall (λ c, field_char c = true) l →
  csv_string_to_list_strip (str l) = Ok [str l].
Proof.
  intros Hne Hl. unfold csv_string_to_list_strip, csv_reader_rows.
  rewrite chars_str, split_lines_no_LF by done.
  cbn [rev app csv_rows]. rewrite csv_line_start by done.
  cbn. by rewrite strip_field.
Qed.

(** *** The regular expression on a range token *)

(** The repetition stops in front of [s]. *)
Definition stops (p : ascii → bool) (s : list ascii) : Prop :=
  match s with c :: _ => p c = false | [] => True end.

Lemma star_stop {R : Type} p (k : list ascii → option R) s :
  stops p s → star p k s = k s.
Proof. destruct s as [|c s]; simpl; [done|]. by intros ->. Qed.

Lemma star_all {R : Type} p (k : list ascii → option R) ds rest r :
  Forall (λ c, p c = true) ds → stops p rest → k rest = Some r →
  star p k (ds ++ rest) = Some r.
Proof.
  intros Hd Hst Hk. induction Hd as [|d ds Hc Hd IH]; simpl.
  - by rewrite star_stop.
  - by rewrite Hc, IH.
Qed.

Lemma rmatch_ws_stop s cs k :
  stops is_space s → rmatch ws s cs k = k s cs.
Proof. intros Hs. unfold ws. simpl. by rewrite star_stop. Qed.

Lemma rmatch_lit c s cs k : rmatch (lit c) (c :: s) cs k = k s cs.
Proof. unfold lit. simpl. by rewrite Ascii.eqb_refl. Qed.

Lemma rmatch_digits ds rest cs k r :
  all_digits ds → stops is_digit rest → k rest cs = Some r →
  rmatch digits (ds ++ rest) cs k = Some r.
Proof.
  intros [Hne Hd] Hst Hk. destruct ds as [|d ds]; [done|].
  unfold digits. simpl. rewrite (Forall_inv Hd).
  apply star_all; [by eapply Forall_inv_tail|done..].
Qed.

Lemma rmatch_int_number l n rest cs k r :
  int_literal l n → stops is_digit rest → k rest cs = Some r →
  rmatch int_number (l ++ rest) cs k = Some r.
Proof.
  intros Hl Hst Hk. unfold int_number.
  change (rmatch (Opt (Chr is_sign) ⋅ ws ⋅ digits) (l ++ rest) cs k)
    with (rmatch (Opt (Chr is_sign)) (l ++ rest) cs
            (λ s1 cs1, rmatch ws s1 cs1 (λ s2 cs2, rmatch digits s2 cs2 k))).
  assert (∀ ds, all_digits ds →
            rmatch ws (ds ++ rest) cs (λ s2 cs2, rmatch digits s2 cs2 k) = Some r)
    as Hds.
  { intros ds Hd. rewrite rmatch_ws_stop; [by apply rmatch_digits|].
    destruct Hd as [Hne Hd]. destruct ds as [|d ds]; [done|]. simpl.
    pose proof (Forall_inv Hd) as Hc.
    by apply is_digit_facts in Hc as (? & _). }
  destruct Hl as [ds Hd|l n [ds Hd|ds Hd]].
  - pose proof Hd as [Hne Hd']. destruct ds as [|d ds]; [done|].
    pose proof (Forall_inv Hd') as Hc.
    apply is_digit_facts in Hc as (_ & _ & Hc & _).
    cbn [rmatch app]. rewrite Hc. by apply (Hds (d :: ds)).
  - cbn [rmatch app]. change (is_sign "+") with true. cbv iota.
    by rewrite (Hds ds).
  - cbn [rmatch app]. change (is_sign "-") with true. cbv iota.
    by rewrite (Hds ds).
Qed.

Lemma rmatch_Grp i a s cs k :
  rmatch (Grp i a) s cs k
  = rmatch a s cs
      (λ s' cs', k s' (<[i := Some (str (take (length s - length s') s))]> cs')).
Proof. done. Qed.

Lemma take_consumed (l rest : list ascii) :
  take (length (l ++ rest) - length rest) (l ++ rest) = l.
Proof.
  rewrite length_app, Nat.add_sub. by rewrite take_app_length.
Qed.

Lemma rmatch_group_int i l n rest cs k r :
  int_literal l n → stops is_digit rest →
  k rest (<[i := Some (str l)]> cs) = Some r →
  rmatch (Grp i int_number) (l ++ rest) cs k = Some r.
Proof.
  intros Hl Hst Hk. rewrite rmatch_Grp.
  eapply rmatch_int_number; [done..|]. by rewrite take_consumed.
Qed.

Lemma int_literal_head l n : int_literal l n → stops is_space l.
Proof.
  intros [ds [Hne Hd]|l' n' (c & ds & -> & Hc & _)%signed_literal_chars].
  - destruct ds as [|d ds]; [done|]. simpl.
    pose proof (Forall_inv Hd) as Hc.
    by apply is_digit_facts in Hc as (? & _).
  - simpl. by apply is_sign_facts in Hc as (? & _).
Qed.

Lemma stops_app p l rest : l ≠ [] → stops p l → stops p (l ++ rest).
Proof. by destruct l. Qed.

Lemma rmatch_Seq a b s cs k :
  rmatch (a ⋅ b) s cs k = rmatch a s cs (λ s' cs', rmatch b s' cs' k).
Proof. done. Qed.

Lemma rmatch_Opt_some a s cs k r :
  rmatch a s cs k = Some r → rmatch (Opt a) s cs k = Some r.
Proof. intros Ha. simpl. by rewrite Ha. Qed.

Lemma rmatch_Opt_none a s cs k :
  rmatch a s cs k = None → rmatch (Opt a) s cs k = k s cs.
Proof. intros Ha. simpl. by rewrite Ha. Qed.

Lemma rmatch_sign c s cs k :
  is_sign c = true → rmatch (Chr is_sign) (c :: s) cs k = k s cs.
Proof. intros Hc. simpl. by rewrite Hc. Qed.

Definition range_groups (A B : list ascii) (S : option (list ascii)) : captures :=
  [None; Some (str A); Some (str B); str <$> S].

Lemma fullmatch_plain A a B b :
  int_literal A a → int_literal B b →
  fullmatch re_range (str (A ++ "-"%char :: B)) = Some (range_groups A B None).
Proof.
  intros HA HB. unfold fullmatch, re_range. rewrite chars_str.
  pose proof (int_literal_field _ _ HA) as [HAne _].
  pose proof (int_literal_field _ _ HB) as [HBne _].
  rewrite !rmatch_Seq.
  rewrite rmatch_ws_stop by (apply stops_app; [done|by eapply int_literal_head]).
  eapply rmatch_group_int; [done|done|].
  rewrite rmatch_ws_stop by done. rewrite rmatch_lit.
  rewrite rmatch_ws_stop by (by eapply int_literal_head).
  rewrite <- (app_nil_r B) at 1.
  eapply rmatch_group_int; [done|done|].
  rewrite rmatch_Opt_none by done.
  by rewrite rmatch_ws_stop.
Qed.

Lemma fullmatch_step A a B b S s :
  int_literal A a → int_literal B b → signed_literal S s →
  fullmatch re_range (str (A ++ "-"%char :: B ++ "("%char :: S ++ [")"%char]))
  = Some (range_groups A B (Some S)).
Proof.
  intros HA HB HS. unfold fullmatch, re_range. rewrite chars_str.
  pose proof (int_literal_field _ _ HA) as [HAne _].
  pose proof (int_literal_field _ _ HB) as [HBne _].
  rewrite !rmatch_Seq.
  rewrite rmatch_ws_stop by (apply stops_app; [done|by eapply int_literal_head]).
  eapply rmatch_group_int; [done|done|].
  rewrite rmatch_ws_stop by done. rewrite rmatch_lit.
  rewrite rmatch_ws_stop by (apply stops_app; [done|by eapply int_literal_head]).
  eapply rmatch_group_int; [done|done|].
  apply rmatch_Opt_some. rewrite !rmatch_Seq.
  rewrite rmatch_ws_stop by done. rewrite rmatch_lit.
  rewrite rmatch_Grp, rmatch_Seq.
  pose proof HS as (c & ds & -> & Hc & Hd)%signed_literal_chars.
  cbn [app]. rewrite rmatch_sign by done.
  eapply rmatch_digits; [done|done|].
  change (c :: ds ++ [")"%char])%list with ((c :: ds) ++ [")"%char])%list.
  rewrite (take_consumed (c :: ds) [")"%char]).
  rewrite rmatch_ws_stop by done. rewrite rmatch_lit.
  by rewrite rmatch_ws_stop.
Qed.

(** *** [expand_int] and [process_axis] on a range token *)

Lemma str_nonempty (l : list ascii) : l ≠ [] → String.eqb (str l) "" = false.
Proof. by destruct l. Qed.

Lemma expand_int_range_token tok a b s :
  range_token tok a b s →
  expand_int tok = (l <- py_range a (b + 1) s ;; Ok (VInt <$> l))%res.
Proof.
  intros Htok. pose proof (range_token_field _ _ _ _ Htok) as (l & Hl & Hne & Hf).
  unfold expand_int. rewrite Hl at 1. rewrite strip_field, str_nonempty by done.
  destruct Htok as [A a B b HA HB|A a B b S s HA HB HS].
  - rewrite (fullmatch_plain A a B b) by done.
    change (group (range_groups A B None) 1) with (Some (str A)).
    change (group (range_groups A B None) 2) with (Some (str B)).
    change (group (range_groups A B None) 3) with (@None string).
    cbn [group_int].
    by rewrite (py_int_literal A a), (py_int_literal B b) by done.
  - rewrite (fullmatch_step A a B b S s) by done.
    change (group (range_groups A B (Some S)) 1) with (Some (str A)).
    change (group (range_groups A B (Some S)) 2) with (Some (str B)).
    change (group (range_groups A B (Some S)) 3) with (Some (str S)).
    cbn [group_int].
    rewrite (py_int_literal A a), (py_int_literal B b) by done.
    by rewrite (py_int_literal S s) by (by constructor).
Qed.

Lemma rmapM_coerce_int (l : list Z) :
  rmapM (coerce TInt) (VInt <$> l) = Ok (VInt <$> l).
Proof.
  induction l as [|n l IH]; [done|].
  rewrite fmap_cons. cbn [rmapM coerce rbind]. by rewrite IH.
Qed.

(** The elements of [range(start, stop, step)]: the terms of the arithmetic
    sequence from [start] that lie before [stop]. *)
Lemma py_range_elem start stop step l v :
  py_range start stop step = Ok l →
  v ∈ l ↔ ∃ k, 0 ≤ k ∧ v = start + k * step
               ∧ (0 < step → v < stop) ∧ (step < 0 → stop < v).
Proof.
  unfold py_range. destruct (Z.eqb_spec step 0) as [|Hstep]; [done|].
  intros [= <-]. rewrite list_elem_of_fmap.
  setoid_rewrite elem_of_seqZ.
  destruct (Z.ltb_spec 0 step) as [Hpos|Hneg].
  - destruct (Z.ltb_spec start stop) as [Hlt|Hge].
    + pose proof (Z.div_mod (stop - start - 1) step ltac:(lia)) as Hdm.
      pose proof (Z.mod_pos_bound (stop - start - 1) step Hpos) as Hmod.
      split.
      * intros (k & -> & Hk). exists k. split; [lia|]. split; [done|]. split; [|lia].
        intros _. nia.
      * intros (k & Hk & -> & Hlt' & _). exists k. split; [done|].
        specialize (Hlt' Hpos). nia.
    + split.
      * intros (k & -> & Hk). lia.
      * intros (k & Hk & -> & Hlt' & _). specialize (Hlt' Hpos). nia.
  - assert (step < 0) as Hneg' by lia.
    destruct (Z.ltb_spec stop start) as [Hlt|Hge].
    + pose proof (Z.div_mod (start - stop - 1) (- step) ltac:(lia)) as Hdm.
      pose proof (Z.mod_pos_bound (start - stop - 1) (- step) ltac:(lia)) as Hmod.
      split.
      * intros (k & -> & Hk). exists k. split; [lia|]. split; [done|]. split; [lia|].
        intros _. nia.
      * intros (k & Hk & -> & _ & Hlt'). exists k. split; [done|].
        specialize (Hlt' Hneg'). nia.
    + split.
      * intros (k & -> & Hk). lia.
      * intros (k & Hk & -> & _ & Hlt'). specialize (Hlt' Hneg'). nia.
Qed.

Definition confirmed (p : loc) (opt : AxisOption) (vs : list value) : result (list value) :=
  (match confirm opt with Some c => c p vs | None => Ok () end ;; Ok vs)%res.

(** C4 (amended). On an integer axis read from free text, a range token
    "a-b" or "a-b(s)", the step [s] written with its sign, expands to
    [range(a, b + 1, s)] (the step is 1 when there is none): the terms
    [a + k * s] up to [b] when the step is positive, and those above [b + 1]
    when it is negative. *)
Theorem process_axis_range_token p csv_mode opt tok a b s dropdown :
  type opt = TInt → label opt ≠ "Nothing" →
  choices opt = None ∨ csv_mode = true → prepare opt = None →
  range_token tok a b s →
  process_axis p csv_mode opt tok dropdown
  = (l <- py_range a (b + 1) s ;; confirmed p opt (VInt <$> l))%res
  ∧ ∀ l, py_range a (b + 1) s = Ok l →
      ∀ v, v ∈ l ↔ ∃ k, 0 ≤ k ∧ v = a + k * s
                        ∧ (0 < s → v ≤ b) ∧ (s < 0 → b + 1 < v).
Proof.
  intros Hty Hlab Hcsv Hprep Htok. split.
  - unfold process_axis.
    destruct (String.eqb_spec (label opt) "Nothing") as [|_]; [done|].
    rewrite Hprep, Hty.
    assert (match choices opt, csv_mode with
            | Some _, false => Ok dropdown
            | _, _ => csv_string_to_list_strip tok
            end = Ok [tok]) as ->.
    { pose proof (range_token_field _ _ _ _ Htok) as (l & -> & Hne & Hf).
      rewrite csv_plain_field by done.
      destruct Hcsv as [->| ->]; [done|]. by destruct (choices opt). }
    cbn [rbind rmapM]. rewrite (expand_int_range_token tok a b s) by done.
    destruct (py_range a (b + 1) s) as [l|e]; [|done].
    cbn [rbind concat]. rewrite app_nil_r, rmapM_coerce_int. done.
  - intros l Hl v. rewrite (py_range_elem _ _ _ _ _ Hl).
    split; intros (k & Hk & -> & Hpos & Hneg); exists k; repeat split; try done;
      intros Hs; try specialize (Hpos Hs); try specialize (Hneg Hs); lia.
Qed.

(** C8 (amended). The axis "Nothing" parses to the one placeholder 0
    whatever the text.  For any other axis an empty specification, be it
    the empty text or the empty selection, parses to no value at all for an
    integer, float or string axis, and to the one empty tuple for the
    permutation axis (the validator of the option, if any, is run on that
    list); with an axis of no value the sweep has no cell. *)
Theorem process_axis_empty p csv_mode opt vals dropdown :
  (label opt = "Nothing" → process_axis p csv_mode opt vals dropdown = Ok [VInt 0])
  ∧ (label opt ≠ "Nothing" → prepare opt = None →
     let vs := match type opt with TPermutations => [VTuple []] | _ => [] end in
     process_axis p csv_mode opt "" [] = confirmed p opt vs
     ∧ (type opt ≠ TPermutations → ∀ ys zs, list_size vs ys zs = 0%nat)).
Proof.
  split.
  - intros Hlab. unfold process_axis. by rewrite Hlab.
  - intros Hlab Hprep vs. split.
    + unfold process_axis.
      destruct (String.eqb_spec (label opt) "Nothing") as [|_]; [done|].
      rewrite Hprep.
      assert (match choices opt, csv_mode with
              | Some _, false => Ok []
              | _, _ => csv_string_to_list_strip ""
              end = Ok []) as ->.
      { destruct (choices opt), csv_mode; done. }
      subst vs. by destruct (type opt).
    + intros Hty ys zs. subst vs. by destruct (type opt).
Qed.

End Parser.

(** *** Examples *)

Lemma all_digits_1 : all_digits ["1"%char].
Proof. split; [done|]. by repeat constructor. Qed.
Lemma all_digits_2 : all_digits ["2"%char].
Proof. split; [done|]. by repeat constructor. Qed.
Lemma all_digits_5 : all_digits ["5"%char].
Proof. split; [done|]. by repeat constructor. Qed.

Lemma range_token_1_5_2 : range_token "1-5(+2)" 1 5 2.
Proof.
  exact (token_step ["1"%char] 1 ["5"%char] 5 ["+"%char; "2"%char] 2
           (literal_digits _ all_digits_1) (literal_digits _ all_digits_5)
           (literal_plus _ all_digits_2)).
Qed.

(** Witness of [process_axis_range_token]: on the axis Steps the token
    "1-5(+2)" gives 1, 3, 5. *)
Lemma process_axis_range_token_witness :
  process_axis p0 false opt_Steps "1-5(+2)" [] = Ok [VInt 1; VInt 3; VInt 5]
  ∧ ∀ v, v ∈ [1; 3; 5] ↔ ∃ k, 0 ≤ k ∧ v = 1 + k * 2
                              ∧ (0 < 2 → v ≤ 5) ∧ (2 < 0 → 5 + 1 < v).
Proof.
  destruct (process_axis_range_token p0 false opt_Steps "1-5(+2)" 1 5 2 []
              eq_refl ltac:(discriminate) (or_introl eq_refl) eq_refl
              range_token_1_5_2) as [Heq Hel].
  split.
  - exact (eq_trans Heq eq_refl).
  - exact (Hel [1; 3; 5] eq_refl).
Defined.

(** C4, as stated, fails on its own example: the step of "1-5(2)" has no
    sign, the token matches neither pattern, and converting it to an
    integer raises, while [range(1, 5 + 1, 2)] is 1, 3, 5. *)
Lemma unsigned_step_is_not_a_range :
  fullmatch re_range "1-5(2)" = None
  ∧ process_axis p0 false opt_Steps "1-5(2)" [] = Raise ValueError
  ∧ py_range 1 (5 + 1) 2 = Ok [1; 3; 5].
Proof. repeat split; vm_eq. Qed.

(** Witness of [process_axis_empty]: the axis Nothing with some text, and
    the axis Seed with none. *)
Lemma process_axis_empty_witness :
  process_axis p0 false opt_Nothing "1,2" [] = Ok [VInt 0]
  ∧ process_axis p0 false opt_Seed "" [] = Ok [].
Proof.
  split.
  - exact (proj1 (process_axis_empty p0 false opt_Nothing "1,2" []) eq_refl).
  - exact (proj1 (proj2 (process_axis_empty p0 false opt_Seed "" [])
                    ltac:(discriminate) eq_refl)).
Defined.

(** C8, as stated, fails for the axes that are not "Nothing": the empty
    text on the axis Seed parses to no value, not to one placeholder, and
    the sweep over it has no cell. *)
Lemma empty_specification_has_no_value :
  process_axis p0 false opt_Seed "" [] = Ok []
  ∧ length ([] : list value) ≠ 1%nat
  ∧ list_size [] nothing nothing = 0%nat.
Proof. repeat split; try vm_eq. discriminate. Qed.

(** ** Loops *)

Section Loops.
Context `{Webui}.

Lemma bind_Ok {A B : Type} (m : M A) (k : A → M B) s a s' :
  m s = (Ok a, s') → bind m k s = k a s'.
Proof. intros Hm. unfold bind. by rewrite Hm. Qed.

Lemma bind_Raise {A B : Type} (m : M A) (k : A → M B) s e s' :
  m s = (Raise e, s') → bind m k s = (Raise e, s').
Proof. intros Hm. unfold bind. by rewrite Hm. Qed.

Lemma bind_inv {A B : Type} (m : M A) (k : A → M B) s b s' :
  bind m k s = (Ok b, s') → ∃ a s1, m s = (Ok a, s1) ∧ k a s1 = (Ok b, s').
Proof.
  unfold bind. destruct (m s) as [[a|e] s1]; [|done]. intros Hk. by exists a, s1.
Qed.

(** A property of the variables that every round keeps holds after the
    loop. *)
Lemma for_each_inv {A V : Type} (P : V → Prop) (l : list A) (body : A → V → M V) :
  (∀ a v s v' s', P v → body a v s = (Ok v', s') → P v') →
  ∀ v s v' s', P v → for_each l body v s = (Ok v', s') → P v'.
Proof.
  intros Hbody. induction l as [|a l IH]; intros v s v' s' Hv Hloop.
  - unfold for_each, ret in Hloop. by injection Hloop as <- _.
  - cbn [for_each] in Hloop. apply bind_inv in Hloop as (v1 & s1 & Hb & Hrest).
    eapply IH; [|exact Hrest]. by eapply Hbody.
Qed.

Lemma for_break_inv {A V : Type} (P : V → Prop) (l : list A)
    (body : A → V → M (bool * V)) :
  (∀ a v s r s', P v → body a v s = (Ok r, s') → P r.2) →
  ∀ v s v' s', P v → for_break l body v s = (Ok v', s') → P v'.
Proof.
  intros Hbody. induction l as [|a l IH]; intros v s v' s' Hv Hloop.
  - unfold for_break, ret in Hloop. by injection Hloop as <- _.
  - cbn [for_break] in Hloop. apply bind_inv in Hloop as (r & s1 & Hb & Hrest).
    pose proof (Hbody _ _ _ _ _ Hv Hb) as Hr.
    destruct r as [[] v1]; simpl in *.
    + unfold ret in Hrest. by injection Hrest as <- _.
    + by eapply IH.
Qed.

(** A loop whose rounds all return, and keep [P], returns and keeps [P]. *)
Lemma for_each_total {A V : Type} (P : V → state → Prop) (l : list A)
    (body : A → V → M V) :
  (∀ a v s, a ∈ l → P v s → ∃ v' s', body a v s = (Ok v', s') ∧ P v' s') →
  ∀ v s, P v s → ∃ v' s', for_each l body v s = (Ok v', s') ∧ P v' s'.
Proof.
  induction l as [|a l IH]; intros Hbody v s Hv.
  - by exists v, s.
  - destruct (Hbody a v s) as (v1 & s1 & Hb & Hv1); [apply list_elem_of_here|done|].
    destruct (IH (λ a' v' s' Ha', Hbody a' v' s' (list_elem_of_further _ _ _ Ha')) v1 s1 Hv1)
      as (v' & s' & Hloop & Hv').
    exists v', s'. split; [|done]. cbn [for_each]. unfold bind. by rewrite Hb.
Qed.

Lemma for_break_total {A V : Type} (P : V → state → Prop) (l : list A)
    (body : A → V → M (bool * V)) :
  (∀ a v s, P v s → ∃ r s', body a v s = (Ok r, s') ∧ P r.2 s') →
  ∀ v s, P v s → ∃ v' s', for_break l body v s = (Ok v', s') ∧ P v' s'.
Proof.
  intros Hbody. induction l as [|a l IH]; intros v s Hv.
  - by exists v, s.
  - destruct (Hbody a v s Hv) as ([b v1] & s1 & Hb & Hv1). cbn [snd] in Hv1.
    cbn [for_break]. unfold bind. rewrite Hb. cbn [fst snd].
    destruct b; [by exists v1, s1|]. by apply IH.
Qed.

End Loops.

(** ** Individual images ([skip_grid]) *)

Section SkipGrid.
Context `{Webui}.

(** The four lists of a result have the same length. *)
Definition same_lengths (r : Processed) : Prop :=
  length (infotexts r) = length (images r)
  ∧ length (all_prompts r) = length (images r)
  ∧ length (all_seeds r) = length (images r).

Lemma failed_cell_images p s r s' :
  failed_cell p s = (Ok r, s') → images r = [].
Proof.
  unfold failed_cell. intros (sd & s1 & _ & Hr)%bind_inv.
  apply bind_inv in Hr as (s2 & s3 & _ & Hr). unfold ret in Hr.
  injection Hr as <- _. by rewrite new_Processed_images.
Qed.

Lemma failed_cell_seed p s sd :
  attr_of s p "seed" = Some sd → failed_cell p s = (Ok (new_Processed s p [] sd ""), s).
Proof.
  unfold attr_of, failed_cell, getattr, load, bind, lift, get_state, ret.
  destruct (heap s !! p) as [[attrs| | |]|]; try done.
  cbn [of_option]. by intros ->.
Qed.

(** An interrupted cell is not rendered: it is the empty result. *)
Lemma cell_interrupted p x_opt y_opt z_opt xs ys zs xv yv zv vx vy vz dl nfs gi
    x y z ix iy iz s :
  interrupted (wld s) || stopping_generation (wld s) = true →
  cell p x_opt y_opt z_opt xs ys zs xv yv zv vx vy vz dl nfs gi x y z ix iy iz s
  = failed_cell p s.
Proof. intros Hi. unfold cell, bind, get_state. by rewrite Hi. Qed.

Lemma clear_lists r :
  images (clear r) = [] ∧ infotexts (clear r) = [] ∧ all_prompts (clear r) = []
  ∧ all_seeds (clear r) = [].
Proof. done. Qed.

Section Round.
Variable the_cell : value → value → value → nat → nat → nat → M Processed.

Lemma skip_grid_round_inv x y z ix iy iz acc s r s' :
  skip_grid_round the_cell x y z ix iy iz acc s = (Ok r, s') →
  (interrupted (wld s) = true ∧ r = (true, acc) ∧ s' = s)
  ∨ (interrupted (wld s) = false
     ∧ ∃ proc, the_cell x y z ix iy iz s = (Ok proc, s')
        ∧ ((images proc = [] ∧ r = (false, acc))
           ∨ (images proc ≠ []
              ∧ r.1 = false
              ∧ images r.2 = images acc ++ images proc
              ∧ infotexts r.2 = infotexts acc ++ infotexts proc
              ∧ all_prompts r.2 = all_prompts acc ++ all_prompts proc
              ∧ all_seeds r.2 = all_seeds acc ++ all_seeds proc))).
Proof.
  unfold skip_grid_round, bind, get_state, ret.
  destruct (interrupted (wld s)) eqn:Hi.
  - intros [= <- <-]. by left.
  - destruct (the_cell x y z ix iy iz s) as [[proc|e] s1] eqn:Hc; [|done].
    destruct (images proc) as [|i imgs] eqn:Himg; intros [= <- <-]; right;
      (split; [done|]); exists proc; (split; [done|]).
    + by left.
    + right. by rewrite Himg.
Qed.

Section Total.
Variables (p : loc) (xs ys zs : list value).
Variable inv : state → Prop.

(** In the states of [inv] the cell returns; a result that has images has
    four lists of one length, and none of its images is missing. *)
Definition cell_returns : Prop :=
  ∀ x y z ix iy iz s, inv s →
    ∃ proc s', the_cell x y z ix iy iz s = (Ok proc, s') ∧ inv s'
               ∧ (images proc ≠ [] →
                  same_lengths proc ∧ Forall (λ oi, is_Some oi) (images proc)).

Definition save_returns : Prop :=
  ∀ img name info pr sd grid s, inv s →
    ∃ s', save_image img name info pr sd grid s = (Ok (), s') ∧ inv s'.

Definition has_seed : Prop := ∀ s, inv s → is_Some (attr_of s p "seed").

Definition saveable (r : Processed) : Prop :=
  same_lengths r ∧ Forall (λ oi, is_Some oi) (images r).

Lemma skip_grid_round_total x y z ix iy iz acc s :
  cell_returns → inv s → saveable acc →
  ∃ r s', skip_grid_round the_cell x y z ix iy iz acc s = (Ok r, s')
          ∧ inv s' ∧ saveable r.2.
Proof.
  intros Hcell Hs Hacc. unfold skip_grid_round, bind, get_state, ret.
  destruct (interrupted (wld s)); [by exists (true, acc), s|].
  destruct (Hcell x y z ix iy iz s Hs) as (proc & s' & -> & Hs' & Hproc).
  destruct (images proc) as [|i imgs] eqn:Himg; [by exists (false, acc), s'|].
  eexists _, s'. split; [reflexivity|]. split; [done|].
  destruct Hproc as ((Hf & Hp & Hsd) & Hall); [done|].
  destruct Hacc as ((Hf' & Hp' & Hsd') & Hall').
  unfold saveable, same_lengths. cbn. rewrite Himg in *.
  rewrite !length_app. cbn in *. repeat split; try lia. by apply Forall_app.
Qed.

Lemma save_entry_total r i name grid s :
  save_returns → inv s → saveable r → (i < length (images r))%nat →
  ∃ s', save_entry r i name grid s = (Ok (), s') ∧ inv s'.
Proof.
  intros Hsave Hs ((Hf & Hp & Hsd) & Hall) Hi. unfold save_entry, bind, lift, py_index.
  destruct (lookup_lt_is_Some_2 (images r) i Hi) as [oi Hoi].
  destruct (lookup_lt_is_Some_2 (infotexts r) i ltac:(lia)) as [info Hinfo].
  destruct (lookup_lt_is_Some_2 (all_prompts r) i ltac:(lia)) as [pr Hpr].
  destruct (lookup_lt_is_Some_2 (all_seeds r) i ltac:(lia)) as [sd Hsd'].
  rewrite Hoi, Hinfo, Hpr, Hsd'. cbn [of_option].
  rewrite Forall_forall in Hall.
  destruct (Hall oi (list_elem_of_lookup_2 _ _ _ Hoi)) as [img ->]. cbn [of_option].
  by apply Hsave.
Qed.

(** The run returns. *)
Lemma run_skip_grid_total s :
  cell_returns → save_returns → has_seed → inv s →
  ∃ r s', run_skip_grid p xs ys zs the_cell s = (Ok r, s') ∧ same_lengths r.
Proof.
  intros Hcell Hsave Hseed Hs. unfold run_skip_grid.
  destruct (Hseed s Hs) as [sd Hsd]. unfold bind at 1.
  rewrite (failed_cell_seed p s sd Hsd).
  set (start := clear (new_Processed s p [] sd "")).
  destruct (for_each_total (λ acc s, inv s ∧ saveable acc) (enumerate zs)
              (λ izz, for_each (enumerate ys) (λ iyy,
                 for_break (enumerate xs) (λ ixx,
                   skip_grid_round the_cell ixx.2 iyy.2 izz.2 ixx.1 iyy.1 izz.1)))
              ) with (v := start) (s := s) as (r & s1 & Hloop & Hs1 & Hr).
  { intros izz acc s0 _ Hacc. apply for_each_total; [|done].
    intros iyy acc1 s2 _ Hacc1. apply for_break_total; [|done].
    intros ixx acc2 s3 (Hs3 & Hacc2).
    destruct (skip_grid_round_total ixx.2 iyy.2 izz.2 ixx.1 iyy.1 izz.1 acc2 s3)
      as (r & s' & Hround & Hs' & Hr); [done..|].
    by exists r, s'. }
  { split; [done|]. split; [done|]. constructor. }
  unfold bind at 1. rewrite Hloop. unfold bind at 1, get_state.
  destruct (grid_save (wld s1)).
  - destruct (for_each_total (λ _ s, inv s) (seq 0 (length (images r)))
                (λ i _, save_entry r i ("xyz_image_" +:+ Z_str (Z.of_nat i + 1)) false))
      with (v := ()) (s := s1) as ([] & s2 & Hsaved & _); [|done|].
    { intros i [] s0 Hi%elem_of_seq Hs0.
      destruct (save_entry_total r i ("xyz_image_" +:+ Z_str (Z.of_nat i + 1)) false s0)
        as (s' & Hentry & Hs'); [done..|lia|]. by exists (), s'. }
    unfold bind. rewrite Hsaved. exists r, s2. split; [done|]. apply Hr.
  - exists r, s1. split; [done|]. apply Hr.
Qed.

End Total.

(** C10. In the mode of individual images a cell that yields no image, be
    it interrupted, left out by the interruption check or failed, adds
    nothing to the four lists of the output; when the results that have
    images carry four lists of one length, so does the output, which may
    thus hold fewer entries than there are cells.  The run returns such an
    output when every call of the cell and of the saving returns. *)
Theorem skip_grid_empty_cell_adds_nothing p xs ys zs :
  (∀ x y z ix iy iz acc s,
     interrupted (wld s) = true →
     skip_grid_round the_cell x y z ix iy iz acc s = (Ok (true, acc), s))
  ∧ (∀ x y z ix iy iz acc s proc s',
       interrupted (wld s) = false →
       the_cell x y z ix iy iz s = (Ok proc, s') → images proc = [] →
       skip_grid_round the_cell x y z ix iy iz acc s = (Ok (false, acc), s'))
  ∧ ((∀ x y z ix iy iz s proc s',
        the_cell x y z ix iy iz s = (Ok proc, s') → images proc ≠ [] →
        same_lengths proc) →
     ∀ s r s', run_skip_grid p xs ys zs the_cell s = (Ok r, s') → same_lengths r)
  ∧ (∀ inv s,
       cell_returns inv → save_returns inv → has_seed p inv → inv s →
       ∃ r s', run_skip_grid p xs ys zs the_cell s = (Ok r, s') ∧ same_lengths r).
Proof.
  split; [|split; [|split]]; [| | |intros inv s; apply run_skip_grid_total].
  - intros * Hi. unfold skip_grid_round, bind, get_state. by rewrite Hi.
  - intros * Hi Hc Himg. unfold skip_grid_round, bind, get_state.
    by rewrite Hi, Hc, Himg.
  - intros Hcell s r s' Hrun. unfold run_skip_grid in Hrun.
    apply bind_inv in Hrun as (r0 & s0 & _ & Hrun).
    apply bind_inv in Hrun as (r1 & s1 & Hloop & Hrun).
    apply bind_inv in Hrun as (s2 & s3 & _ & Hrun).
    apply bind_inv in Hrun as (u & s4 & _ & Hrun).
    unfold ret in Hrun. injection Hrun as <- _.
    revert Hloop. apply for_each_inv; [|done].
    intros izz v sa v' sa' Hv. apply for_each_inv; [|done].
    clear Hv. intros iyy v0 sb v0' sb' Hv0. apply for_break_inv; [|done].
    clear Hv0. intros ixx acc sc res sc' Hacc Hround.
    apply skip_grid_round_inv in Hround
      as [(_ & -> & _)|(_ & proc & Hc & [(_ & ->)|(Hne & _ & Hi & Hf & Hp & Hs)])];
      [done..|].
    destruct (Hcell _ _ _ _ _ _ _ _ _ Hc Hne) as (Hf' & Hp' & Hs').
    destruct Hacc as (Hfa & Hpa & Hsa).
    unfold same_lengths. rewrite Hi, Hf, Hp, Hs, !length_app. lia.
Qed.

End Round.

End SkipGrid.

Lemma skip_grid_example_cell :
  let the_cell :=
    cell p0 opt_Steps opt_Nothing opt_Nothing [VInt 20; VInt 0; VInt 20] nothing nothing
      "20,0,20" "" "" false false false false false 4%nat in
  let s := (alloc (HList (replicate 2 VNone)) state0).2 in
  ∃ proc s', the_cell (VInt 0) (VInt 0) (VInt 0) 1%nat 0%nat 0%nat s = (Ok proc, s')
             ∧ images proc = [].
Proof. intros the_cell s. eexists _, _. split; [vm_eq|done]. Qed.

(** Witness of [skip_grid_empty_cell_adds_nothing]: of three cells the
    second asks for no steps and yields no image; it leaves the lists as
    they are, and the run returns two entries in each list. *)
Lemma skip_grid_empty_cell_adds_nothing_witness :
  let the_cell :=
    cell p0 opt_Steps opt_Nothing opt_Nothing [VInt 20; VInt 0; VInt 20] nothing nothing
      "20,0,20" "" "" false false false false false 4%nat in
  let s := (alloc (HList (replicate 2 VNone)) state0).2 in
  (∃ s', ∀ acc,
     skip_grid_round the_cell (VInt 0) (VInt 0) (VInt 0) 1 0 0 acc s = (Ok (false, acc), s'))
  ∧ ∃ r s',
      run p0 opt_Steps opt_Nothing opt_Nothing [VInt 20; VInt 0; VInt 20] nothing nothing
        "20,0,20" "" "" false false true 0 false false false false false false 0 state0
      = (Ok r, s')
      ∧ length (images r) = 2%nat ∧ length (infotexts r) = 2%nat
      ∧ length (all_prompts r) = 2%nat ∧ length (all_seeds r) = 2%nat
      ∧ list_size [VInt 20; VInt 0; VInt 20] nothing nothing = 3%nat.
Proof.
  intros the_cell s. split.
  - destruct skip_grid_example_cell as (proc & s' & Hc & Himg).
    exists s'. intros acc.
    exact (proj1 (proj2 (skip_grid_empty_cell_adds_nothing the_cell p0 [] [] []))
             _ _ _ _ _ _ acc s proc s' eq_refl Hc Himg).
  - eexists _, _. split; [vm_eq|]. by repeat split.
Defined.

(** ** The order of the cells *)

Section Orders.
Context `{Webui}.

Lemma for_each_app {A V : Type} (l1 l2 : list A) (body : A → V → M V) v s :
  for_each (l1 ++ l2) body v s = bind (for_each l1 body v) (for_each l2 body) s.
Proof.
  revert v s. induction l1 as [|a l1 IH]; intros v s; [reflexivity|].
  cbn [app for_each]. unfold bind.
  destruct (body a v s) as [[v1|e] s1]; [|done]. apply IH.
Qed.

Lemma for_each_ext {A V : Type} (l : list A) (body body' : A → V → M V) v s :
  (∀ a v s, body a v s = body' a v s) →
  for_each l body v s = for_each l body' v s.
Proof.
  intros Hb. revert v s. induction l as [|a l IH]; intros v s; [reflexivity|].
  cbn [for_each]. unfold bind. rewrite Hb.
  destruct (body' a v s) as [[v1|e] s1]; [|done]. apply IH.
Qed.

Lemma for_each_fmap {A B V : Type} (g : A → B) (l : list A) (body : B → V → M V) v s :
  for_each (g <$> l) body v s = for_each l (λ a, body (g a)) v s.
Proof.
  revert v s. induction l as [|a l IH]; intros v s; [reflexivity|].
  rewrite fmap_cons. cbn [for_each]. unfold bind.
  destruct (body (g a) v s) as [[v1|e] s1]; [|done]. apply IH.
Qed.

(** Nested loops run over the cells of the comprehension. *)
Lemma for_each_bind {A B V : Type} (l : list A) (g : A → list B)
    (body : B → V → M V) v s :
  for_each (l ≫= g) body v s = for_each l (λ a, for_each (g a) body) v s.
Proof.
  revert v s. induction l as [|a l IH]; intros v s; [reflexivity|].
  rewrite bind_cons, for_each_app. cbn [for_each]. unfold bind.
  destruct (for_each (g a) body v s) as [[v1|e] s1]; [|done]. apply IH.
Qed.

(** A cell: its three values and its three indices. *)
Record coords : Type := mkCoords {
  cx : value; cy : value; cz : value;
  cix : nat; ciy : nat; ciz : nat;
}.

Definition at_ (ixx iyy izz : nat * value) : coords :=
  mkCoords ixx.2 iyy.2 izz.2 ixx.1 iyy.1 izz.1.

Section Axes.
Variables xs ys zs : list value.

(** The six orders of the loops: the axis named first is the outer one,
    the one named second the middle one. *)
Definition order_xyz : list coords :=
  ixx ← enumerate xs; iyy ← enumerate ys; izz ← enumerate zs; [at_ ixx iyy izz].
Definition order_xzy : list coords :=
  ixx ← enumerate xs; izz ← enumerate zs; iyy ← enumerate ys; [at_ ixx iyy izz].
Definition order_yxz : list coords :=
  iyy ← enumerate ys; ixx ← enumerate xs; izz ← enumerate zs; [at_ ixx iyy izz].
Definition order_yzx : list coords :=
  iyy ← enumerate ys; izz ← enumerate zs; ixx ← enumerate xs; [at_ ixx iyy izz].
Definition order_zxy : list coords :=
  izz ← enumerate zs; ixx ← enumerate xs; iyy ← enumerate ys; [at_ ixx iyy izz].
Definition order_zyx : list coords :=
  izz ← enumerate zs; iyy ← enumerate ys; ixx ← enumerate xs; [at_ ixx iyy izz].

Definition order (first_axes second_axes : string) : list coords :=
  if String.eqb first_axes "x" then
    if String.eqb second_axes "y" then order_xyz else order_xzy
  else if String.eqb first_axes "y" then
    if String.eqb second_axes "x" then order_yxz else order_yzx
  else if String.eqb first_axes "z" then
    if String.eqb second_axes "x" then order_zxy else order_zyx
  else [].

End Axes.

(** *** The orders are rearrangements of one another *)

Lemma bind_app_Permutation {A B : Type} (f g : A → list B) (l : list A) :
  l ≫= (λ a, f a ++ g a) ≡ₚ (l ≫= f) ++ (l ≫= g).
Proof.
  induction l as [|a l IH]; [done|].
  rewrite !bind_cons, IH. solve_Permutation.
Qed.

Lemma bind_Permutation_ext {A B : Type} (f g : A → list B) (l : list A) :
  (∀ a, f a ≡ₚ g a) → l ≫= f ≡ₚ l ≫= g.
Proof.
  intros Hfg. induction l as [|a l IH]; [done|]. by rewrite !bind_cons, Hfg, IH.
Qed.

Lemma bind_swap {A B C : Type} (h : A → B → list C) (la : list A) (lb : list B) :
  (a ← la; b ← lb; h a b) ≡ₚ (b ← lb; a ← la; h a b).
Proof.
  induction la as [|a la IH].
  - assert (∀ lb : list B, (b ← lb; ([] : list A) ≫= (λ a, h a b)) = []) as ->;
      [|done].
    intros lb'. induction lb' as [|b lb' IHb]; [done|]. by rewrite bind_cons, IHb.
  - rewrite bind_cons, IH. rewrite <- bind_app_Permutation. reflexivity.
Qed.


Lemma order_zxy_zyx xs ys zs : order_zxy xs ys zs ≡ₚ order_zyx xs ys zs.
Proof.
  unfold order_zxy, order_zyx. apply bind_Permutation_ext. intros izz.
  apply (bind_swap (λ ixx iyy, [at_ ixx iyy izz])).
Qed.

Lemma order_yzx_zyx xs ys zs : order_yzx xs ys zs ≡ₚ order_zyx xs ys zs.
Proof.
  unfold order_yzx, order_zyx.
  apply (bind_swap (λ iyy izz, ixx ← enumerate xs; [at_ ixx iyy izz])).
Qed.

Lemma order_xzy_zxy xs ys zs : order_xzy xs ys zs ≡ₚ order_zxy xs ys zs.
Proof.
  unfold order_xzy, order_zxy.
  apply (bind_swap (λ ixx izz, iyy ← enumerate ys; [at_ ixx iyy izz])).
Qed.

Lemma order_yxz_yzx xs ys zs : order_yxz xs ys zs ≡ₚ order_yzx xs ys zs.
Proof.
  unfold order_yxz, order_yzx. apply bind_Permutation_ext. intros iyy.
  apply (bind_swap (λ ixx izz, [at_ ixx iyy izz])).
Qed.

Lemma order_xyz_yxz xs ys zs : order_xyz xs ys zs ≡ₚ order_yxz xs ys zs.
Proof.
  unfold order_xyz, order_yxz.
  apply (bind_swap (λ ixx iyy, izz ← enumerate zs; [at_ ixx iyy izz])).
Qed.

(** A pair of names the planner can give. *)
Definition planned (first_axes second_axes : string) : Prop :=
  (first_axes = "x" ∧ (second_axes = "y" ∨ second_axes = "z"))
  ∨ (first_axes = "y" ∧ (second_axes = "x" ∨ second_axes = "z"))
  ∨ (first_axes = "z" ∧ (second_axes = "x" ∨ second_axes = "y")).

Lemma order_Permutation xs ys zs first_axes second_axes :
  planned first_axes second_axes →
  order xs ys zs first_axes second_axes ≡ₚ order_zyx xs ys zs.
Proof.
  intros [[-> [-> | ->]]|[[-> [-> | ->]]|[-> [-> | ->]]]]; unfold order; simpl.
  - by rewrite order_xyz_yxz, order_yxz_yzx, order_yzx_zyx.
  - by rewrite order_xzy_zxy, order_zxy_zyx.
  - by rewrite order_yxz_yzx, order_yzx_zyx.
  - by rewrite order_yzx_zyx.
  - by rewrite order_zxy_zyx.
  - done.
Qed.

Lemma bind_const_nil {A B : Type} (l : list A) (g : A → list B) :
  (∀ a, g a = []) → l ≫= g = [].
Proof. intros Hg. induction l as [|a l IH]; [done|]. by rewrite bind_cons, Hg, IH. Qed.

Ltac solve_nil := repeat first [reflexivity | apply bind_const_nil; intros ?].

(** With an axis of no value there is no cell. *)
Lemma order_nil xs ys zs first_axes second_axes :
  xs = [] ∨ ys = [] ∨ zs = [] → order xs ys zs first_axes second_axes = [].
Proof.
  unfold order, order_xyz, order_xzy, order_yxz, order_yzx, order_zxy, order_zyx.
  intros [-> | [-> | ->]]; repeat case_match; solve_nil.
Qed.

Lemma order_zyx_nil xs ys zs :
  xs = [] ∨ ys = [] ∨ zs = [] → order_zyx xs ys zs = [].
Proof. apply (order_nil xs ys zs "z" "y"). Qed.

(** Every order starts with the cell (0, 0, 0). *)
Lemma order_head xs ys zs first_axes second_axes :
  planned first_axes second_axes →
  head (order xs ys zs first_axes second_axes) = head (order_zyx xs ys zs).
Proof.
  intros Hp. destruct xs as [|x xs'], ys as [|y ys'], zs as [|z zs'];
    try (by rewrite order_nil, order_zyx_nil by naive_solver).
  destruct Hp as [[-> [-> | ->]]|[[-> [-> | ->]]|[-> [-> | ->]]]]; reflexivity.
Qed.

End Orders.

Section Flat.
Context `{Webui}.

Lemma for_each_singleton {A V : Type} (a : A) (body : A → V → M V) v s :
  for_each [a] body v s = body a v s.
Proof.
  cbn [for_each]. unfold bind, ret. by destruct (body a v s) as [[v1|e] s1].
Qed.

Lemma for_each_nest3 {A B C D V : Type} (la : list A) (lb : list B) (lc : list C)
    (mk : A → B → C → D) (body : D → V → M V) v s :
  for_each (a ← la; b ← lb; c ← lc; [mk a b c]) body v s
  = for_each la (λ a, for_each lb (λ b, for_each lc (λ c, body (mk a b c)))) v s.
Proof.
  rewrite for_each_bind. apply for_each_ext. intros a v1 s1.
  rewrite for_each_bind. apply for_each_ext. intros b v2 s2.
  rewrite for_each_bind. apply for_each_ext. intros c v3 s3.
  apply for_each_singleton.
Qed.

Section Draw.
Variables (xs ys zs x_labels y_labels z_labels : list value).
Variable cell : value → value → value → nat → nat → nat → M Processed.
Variable draw_individual_labels : bool.

(** [process_cell] on a cell *)
Definition visit (c : coords) : option Processed → M (option Processed) :=
  process_cell xs ys zs x_labels y_labels z_labels cell draw_individual_labels
    (cx c) (cy c) (cz c) (cix c) (ciy c) (ciz c).

(** The loops visit the cells in the order the two names ask for. *)
Lemma loops_order first_axes second_axes s :
  loops xs ys zs x_labels y_labels z_labels cell draw_individual_labels
    first_axes second_axes s
  = for_each (order xs ys zs first_axes second_axes) visit None s.
Proof.
  unfold loops, order.
  destruct (String.eqb first_axes "x"); [|destruct (String.eqb first_axes "y");
    [|destruct (String.eqb first_axes "z"); [|done]]];
    destruct (String.eqb second_axes _); symmetry.
  - exact (for_each_nest3 (enumerate xs) (enumerate ys) (enumerate zs)
             (λ a b c, at_ a b c) visit None s).
  - exact (for_each_nest3 (enumerate xs) (enumerate zs) (enumerate ys)
             (λ a c b, at_ a b c) visit None s).
  - exact (for_each_nest3 (enumerate ys) (enumerate xs) (enumerate zs)
             (λ b a c, at_ a b c) visit None s).
  - exact (for_each_nest3 (enumerate ys) (enumerate zs) (enumerate xs)
             (λ b c a, at_ a b c) visit None s).
  - exact (for_each_nest3 (enumerate zs) (enumerate xs) (enumerate ys)
             (λ c a b, at_ a b c) visit None s).
  - exact (for_each_nest3 (enumerate zs) (enumerate ys) (enumerate xs)
             (λ c b a, at_ a b c) visit None s).
Qed.

End Draw.

(** *** The canonical order counts the slots *)

Definition idx (xs ys : list value) (c : coords) : nat :=
  index xs ys (cix c) (ciy c) (ciz c).

(** The values of a cell are those at its indices. *)
Definition valid (xs ys zs : list value) (c : coords) : Prop :=
  xs !! cix c = Some (cx c) ∧ ys !! ciy c = Some (cy c) ∧ zs !! ciz c = Some (cz c).

Lemma enumerate_fst {A : Type} (l : list A) : (enumerate l).*1 = seq 0 (length l).
Proof. unfold enumerate. apply fst_zip. by rewrite length_seq. Qed.

Lemma elem_of_enumerate {A : Type} (l : list A) (ia : nat * A) :
  ia ∈ enumerate l → l !! ia.1 = Some ia.2.
Proof.
  intros (j & Hj)%list_elem_of_lookup. unfold enumerate in Hj.
  destruct ia as [i a]. apply lookup_zip_with_Some in Hj as (i' & a' & [= <- <-] & Hi & Ha).
  apply lookup_seq in Hi as [-> _]. done.
Qed.

Lemma bind_enumerate {A B : Type} (l : list A) (F : nat → list B) :
  enumerate l ≫= (λ ia, F ia.1) = seq 0 (length l) ≫= F.
Proof. by rewrite <- enumerate_fst, list_fmap_bind. Qed.

Lemma seq_bind_block (m w b : nat) :
  seq 0 m ≫= (λ i, seq (b + i * w) w) = seq b (m * w).
Proof.
  induction m as [|m IH]; [done|].
  rewrite seq_S, bind_app, IH. cbn [plus]. rewrite bind_singleton.
  rewrite <- seq_app. f_equal. lia.
Qed.

Lemma fmap_bind {A B C : Type} (f : B → C) (g : A → list B) (l : list A) :
  f <$> (l ≫= g) = l ≫= (λ a, f <$> g a).
Proof.
  induction l as [|a l IH]; [done|]. by rewrite !bind_cons, fmap_app, IH.
Qed.

Lemma order_zyx_idx xs ys zs :
  idx xs ys <$> order_zyx xs ys zs = seq 0 (list_size xs ys zs).
Proof.
  unfold order_zyx, list_size. rewrite fmap_bind.
  transitivity (seq 0 (length zs) ≫= (λ iz, seq (0 + iz * (length xs * length ys))
                                             (length xs * length ys))).
  2: { rewrite seq_bind_block. f_equal. lia. }
  rewrite <- bind_enumerate. apply list_bind_ext; [|done]. intros izz.
  rewrite fmap_bind.
  transitivity (seq 0 (length ys) ≫= (λ iy, seq (izz.1 * (length xs * length ys)
                                                  + iy * length xs) (length xs))).
  2: { rewrite seq_bind_block. f_equal; lia. }
  rewrite <- bind_enumerate. apply list_bind_ext; [|done]. intros iyy.
  rewrite fmap_bind.
  transitivity (seq 0 (length xs) ≫= (λ ix, [izz.1 * (length xs * length ys)
                                              + iyy.1 * length xs + ix]%nat)).
  2: { generalize (izz.1 * (length xs * length ys) + iyy.1 * length xs)%nat.
       intros b. replace (seq b (length xs)) with (seq (b + 0) (length xs))
         by (f_equal; lia).
       rewrite <- fmap_add_seq.
       induction (seq 0 (length xs)) as [|i l IH]; [done|].
       by rewrite bind_cons, fmap_cons, IH. }
  rewrite <- bind_enumerate. apply list_bind_ext; [|done]. intros ixx.
  unfold idx, index, at_. simpl. f_equal. lia.
Qed.

Lemma order_zyx_valid xs ys zs : Forall (valid xs ys zs) (order_zyx xs ys zs).
Proof.
  apply Forall_forall. intros c. unfold order_zyx.
  intros (izz & Hc & Hz)%list_elem_of_bind.
  apply list_elem_of_bind in Hc as (iyy & Hc & Hy).
  apply list_elem_of_bind in Hc as (ixx & Hc & Hx).
  apply list_elem_of_singleton in Hc as ->.
  apply elem_of_enumerate in Hx, Hy, Hz. done.
Qed.

(** A valid cell is found from its slot. *)
Definition cell_at (xs ys zs : list value) (k : nat) : coords :=
  let ix := (k mod length xs)%nat in
  let iy := ((k / length xs) mod length ys)%nat in
  let iz := (k / (length xs * length ys))%nat in
  mkCoords (default VNone (xs !! ix)) (default VNone (ys !! iy))
    (default VNone (zs !! iz)) ix iy iz.

Lemma cell_at_idx xs ys zs c : valid xs ys zs c → cell_at xs ys zs (idx xs ys c) = c.
Proof.
  destruct c as [x y z ix iy iz]. intros (Hx & Hy & Hz). simpl in *.
  pose proof (lookup_lt_Some _ _ _ Hx) as Hix.
  pose proof (lookup_lt_Some _ _ _ Hy) as Hiy.
  unfold cell_at, idx, index. simpl.
  set (nx := length xs) in *. set (ny := length ys) in *.
  assert ((ix + iy * nx + iz * nx * ny) mod nx = ix)%nat as ->.
  { replace (ix + iy * nx + iz * nx * ny)%nat with (ix + (iy + iz * ny) * nx)%nat by lia.
    rewrite Nat.Div0.mod_add. by apply Nat.mod_small. }
  assert ((ix + iy * nx + iz * nx * ny) / nx = iy + iz * ny)%nat as ->.
  { replace (ix + iy * nx + iz * nx * ny)%nat with (ix + (iy + iz * ny) * nx)%nat by lia.
    rewrite Nat.div_add by lia. rewrite Nat.div_small by done. lia. }
  assert ((iy + iz * ny) mod ny = iy)%nat as ->.
  { rewrite Nat.Div0.mod_add. by apply Nat.mod_small. }
  assert ((ix + iy * nx + iz * nx * ny) / (nx * ny) = iz)%nat as ->.
  { replace (ix + iy * nx + iz * nx * ny)%nat with ((ix + iy * nx) + iz * (nx * ny))%nat by lia.
    rewrite Nat.div_add by (apply Nat.neq_mul_0; lia).
    rewrite Nat.div_small; [done|].
    pose proof (Nat.mul_le_mono_r (S iy) ny nx ltac:(lia)). lia. }
  by rewrite Hx, Hy, Hz.
Qed.

End Flat.

(** ** The container of the results *)

Section Container.
Context `{Webui}.
Variables (xs ys zs x_labels y_labels z_labels : list value).
Variable draw_individual_labels : bool.

Abbreviation n := (list_size xs ys zs).
Abbreviation store_cell' :=
  (store_cell xs ys zs x_labels y_labels z_labels draw_individual_labels).

(** The four lists have one slot per cell. *)
Definition sized (r : Processed) : Prop :=
  length (images r) = n ∧ length (all_prompts r) = n
  ∧ length (all_seeds r) = n ∧ length (infotexts r) = n.

(** A result has no image, or a first image and a first infotext. *)
Definition well_formed (r : Processed) : Prop :=
  images r = [] ∨ ∃ i rest, images r = Some i :: rest ∧ infotexts r ≠ [].

Definition labels_fit : Prop :=
  draw_individual_labels = true →
  length x_labels = length xs ∧ length y_labels = length ys
  ∧ length z_labels = length zs.

Definition in_range (c : coords) : Prop :=
  (cix c < length xs)%nat ∧ (ciy c < length ys)%nat ∧ (ciz c < length zs)%nat.

Lemma valid_in_range c : valid xs ys zs c → in_range c.
Proof. intros (Hx & Hy & Hz). repeat split; by eapply lookup_lt_Some. Qed.

Lemma index_lt c : in_range c → (idx xs ys c < n)%nat.
Proof.
  intros (Hx & Hy & Hz). unfold idx, index, list_size.
  pose proof (Nat.mul_le_mono_r (S (ciy c)) (length ys) (length xs) ltac:(lia)).
  pose proof (Nat.mul_le_mono_r (S (ciz c)) (length zs) (length xs * length ys)
                ltac:(lia)).
  lia.
Qed.

Lemma template_sized r : sized (template xs ys zs r).
Proof. unfold sized, template. simpl. by rewrite !length_replicate. Qed.

Definition label_text (c : coords) : string :=
  "X: " +:+ py_str (default VNone (x_labels !! cix c)) +:+ nl
  +:+ "Y: " +:+ py_str (default VNone (y_labels !! ciy c)) +:+ nl
  +:+ "Z: " +:+ py_str (default VNone (z_labels !! ciz c)).

(** The image that is kept of a result: its first one, labelled when the
    labels are asked for. *)
Definition shown (processed : Processed) (c : coords) : option image :=
  match images processed with
  | Some i :: _ =>
      Some (if draw_individual_labels then draw_label_on_image i (label_text c) else i)
  | _ => None
  end.

(** The placeholder of a cell without image: of the mode and size of the
    image in slot 0, or of mode "P" and the size of the container when that
    slot is still empty. *)
Definition placeholder (slot0 : option image) (w h : Z) : option image :=
  Some (Image_new (match slot0 with Some i => image_mode i | None => "P" end)
          (match slot0 with Some i => image_size i | None => (w, h) end)).

(** The container once the result of the cell [c] is stored. *)
Definition stored (r : Processed) (processed : Processed) (c : coords) : Processed :=
  let k := idx xs ys c in
  match images processed with
  | [] =>
      set_images r
        (<[k := placeholder (default None (images r !! 0%nat)) (width r) (height r)]>
           (images r))
  | _ =>
      set_infotexts
        (set_all_seeds
           (set_all_prompts (set_images r (<[k := shown processed c]> (images r)))
              (<[k := Some (prompt processed)]> (all_prompts r)))
           (<[k := Some (seed processed)]> (all_seeds r)))
        (<[k := default None (infotexts processed !! 0%nat)]> (infotexts r))
  end.

Definition base_of (pr : option Processed) (processed : Processed) : Processed :=
  match pr with
  | None => template xs ys zs processed
  | Some r => r
  end.

Lemma stored_sized r processed c : sized r → sized (stored r processed c).
Proof.
  intros (Hi & Hp & Hs & Hf). unfold sized, stored.
  destruct (images processed); simpl; rewrite ?length_insert; done.
Qed.

Lemma py_setitem_Ok {A : Type} (l : list A) (i : nat) (v : A) :
  (i < length l)%nat → py_setitem l i v = Ok (<[i := v]> l).
Proof. intros Hi. unfold py_setitem. by apply Nat.ltb_lt in Hi as ->. Qed.

Lemma py_index_Ok {A : Type} (l : list A) (i : nat) (a : A) :
  l !! i = Some a → py_index l i = Ok a.
Proof. intros Hl. unfold py_index. by rewrite Hl. Qed.

(** What [store_cell] does, when nothing can raise. *)
Lemma store_cell_stored processed c pr :
  well_formed processed → labels_fit → in_range c → sized (base_of pr processed) →
  store_cell' processed (cix c) (ciy c) (ciz c) pr
  = Ok (Some (stored (base_of pr processed) processed c)).
Proof.
  intros Hwf Hlab Hc Hsz. pose proof (index_lt c Hc) as Hk.
  destruct Hsz as (Hi & Hp & Hs & Hf).
  unfold store_cell. fold (base_of pr processed). fold (idx xs ys c).
  set (r := base_of pr processed) in *. unfold stored. fold r.
  destruct Hwf as [Hno|(i & rest & Himg & Hinfo)].
  - rewrite Hno.
    destruct (images r !! 0%nat) as [first|] eqn:Hslot.
    2: { apply lookup_ge_None in Hslot. lia. }
    rewrite (py_index_Ok _ _ _ Hslot). cbn [rbind default].
    rewrite py_setitem_Ok by lia. cbn [rbind]. unfold placeholder.
    by destruct first.
  - rewrite Himg. unfold shown. rewrite Himg.
    destruct (infotexts processed) as [|info infos] eqn:Hinf; [done|].
    assert (∀ (l : list value) j, (j < length l)%nat →
              py_index l j = Ok (default VNone (l !! j))) as Hidx.
    { intros l j Hj. destruct (l !! j) as [v|] eqn:Hl; [by apply py_index_Ok|].
      apply lookup_ge_None in Hl. lia. }
    destruct draw_individual_labels eqn:Hd.
    + destruct (Hlab Hd) as (Hlx & Hly & Hlz). destruct Hc as (Hx & Hy & Hz).
      cbn [of_option rbind]. rewrite !Hidx by lia. cbn [rbind].
      rewrite !py_setitem_Ok by lia. cbn [rbind py_index lookup list_lookup of_option].
      rewrite py_setitem_Ok by lia. done.
    + cbn [rbind].
      rewrite !py_setitem_Ok by lia. cbn [rbind py_index lookup list_lookup of_option].
      rewrite py_setitem_Ok by lia. done.
Qed.

(** *** A renderer that never raises: the loop reaches every cell *)

Section Stateful.
Variable cell : value → value → value → nat → nat → nat → M Processed.

Abbreviation visit' :=
  (visit xs ys zs x_labels y_labels z_labels cell draw_individual_labels).

(** The cell called on every coordinate of [o], in order. *)
Definition attempts (o : list coords) : M unit :=
  for_each o
    (λ c _, bind (cell (cx c) (cy c) (cz c) (cix c) (ciy c) (ciz c)) (λ _, ret ()))
    ().

(** In the states that satisfy [inv] the cell returns, what it returns is
    well formed, and [inv] still holds. *)
Definition total_cell (inv : state → Prop) : Prop :=
  ∀ x y z ix iy iz s, inv s →
    ∃ r s', cell x y z ix iy iz s = (Ok r, s') ∧ well_formed r ∧ inv s'.

Definition sized_opt (pr : option Processed) : Prop :=
  ∀ r, pr = Some r → sized r.

Lemma visits_total inv (o : list coords) pr s :
  total_cell inv → inv s → labels_fit → Forall in_range o → sized_opt pr →
  ∃ pr', for_each o visit' pr s = (Ok pr', (attempts o s).2)
         ∧ sized_opt pr' ∧ (is_Some pr ∨ o ≠ [] → is_Some pr').
Proof.
  intros Hcell Hs Hlab Ho. revert pr s Hs.
  induction Ho as [|c o Hc Ho IH]; intros pr s Hs Hpr.
  - exists pr. split; [reflexivity|]. split; [done|]. by intros [?|?].
  - destruct (Hcell (cx c) (cy c) (cz c) (cix c) (ciy c) (ciz c) s Hs)
      as (r & s1 & Hr & Hwf & Hs1).
    assert (sized (base_of pr r)) as Hb.
    { destruct pr as [r0|]; [by apply Hpr|apply template_sized]. }
    destruct (IH (Some (stored (base_of pr r) r c)) s1 Hs1) as (pr' & Hloop & Hsz & Hsome).
    { intros r' [= <-]. by apply stored_sized. }
    exists pr'. split; [|split; [done|]].
    + unfold attempts. cbn [for_each]. unfold visit at 1, process_cell, bind, lift.
      rewrite Hr. rewrite (store_cell_stored r c pr) by done.
      rewrite Hloop. unfold attempts, ret. done.
    + intros _. apply Hsome. by left.
Qed.

End Stateful.

(** *** A renderer that is a function of the cell: the closed form *)

Section Pure.
Variable f : coords → Processed.

Abbreviation here k := (cell_at xs ys zs k).

Definition first_result : Processed := f (here 0%nat).

(** Slot 0 of the container, once the first cell is stored. *)
Definition slot0 : option image :=
  match images first_result with
  | [] => placeholder None (width first_result) (height first_result)
  | _ => shown first_result (here 0%nat)
  end.

(** The image in the slot of the cell of index [k]. *)
Definition entry_image (k : nat) : option image :=
  match images (f (here k)) with
  | [] =>
      placeholder (match k with O => None | S _ => slot0 end)
        (width first_result) (height first_result)
  | _ => shown (f (here k)) (here k)
  end.

Definition entry_prompt (k : nat) : option string :=
  match images (f (here k)) with
  | [] => None
  | _ => Some (prompt (f (here k)))
  end.

Definition entry_seed (k : nat) : option Z :=
  match images (f (here k)) with
  | [] => None
  | _ => Some (seed (f (here k)))
  end.

Definition entry_infotext (k : nat) : option string :=
  match images (f (here k)) with
  | [] => None
  | _ => default None (infotexts (f (here k)) !! 0%nat)
  end.

(** The slots of the cells in [V] are filled, the others are empty. *)
Definition tab {A : Type} (V : list nat) (g : nat → option A) : list (option A) :=
  (λ k, if decide (k ∈ V) then g k else None) <$> seq 0 n.

Definition container (V : list nat) : Processed :=
  mkProcessed (tab V entry_image) (tab V entry_prompt) (tab V entry_seed)
    (tab V entry_infotext) (prompt first_result) (seed first_result)
    (width first_result) (height first_result) 1.

Definition state_of (V : list nat) : option Processed :=
  match V with
  | [] => None
  | _ => Some (container V)
  end.

(** The container once every cell is stored. *)
Definition filled : Processed :=
  mkProcessed (entry_image <$> seq 0 n) (entry_prompt <$> seq 0 n)
    (entry_seed <$> seq 0 n) (entry_infotext <$> seq 0 n)
    (prompt first_result) (seed first_result)
    (width first_result) (height first_result) 1.

(** What is kept of the cell [c]: its image, or its placeholder. *)
Definition image_of (c : coords) : option image :=
  match images (f c) with
  | [] =>
      placeholder (match idx xs ys c with O => None | S _ => slot0 end)
        (width first_result) (height first_result)
  | _ => shown (f c) c
  end.

Definition prompt_of (c : coords) : option string :=
  match images (f c) with
  | [] => None
  | _ => Some (prompt (f c))
  end.

Definition seed_of (c : coords) : option Z :=
  match images (f c) with
  | [] => None
  | _ => Some (seed (f c))
  end.

Definition infotext_of (c : coords) : option string :=
  match images (f c) with
  | [] => None
  | _ => default None (infotexts (f c) !! 0%nat)
  end.

Lemma length_tab {A : Type} V (g : nat → option A) : length (tab V g) = n.
Proof. unfold tab. by rewrite length_fmap, length_seq. Qed.

Lemma tab_lookup {A : Type} V (g : nat → option A) k :
  (k < n)%nat → tab V g !! k = Some (if decide (k ∈ V) then g k else None).
Proof.
  intros Hk. unfold tab. rewrite list_lookup_fmap, lookup_seq_lt by done. done.
Qed.

Lemma tab_nil {A : Type} (g : nat → option A) : tab [] g = replicate n None.
Proof.
  unfold tab. generalize 0%nat as b. generalize n as m.
  induction m as [|m IH]; intros b; [done|]. cbn [seq fmap list_fmap replicate].
  f_equal. apply IH.
Qed.

Lemma tab_insert {A : Type} V (g : nat → option A) k :
  (k < n)%nat → <[k := g k]> (tab V g) = tab (k :: V) g.
Proof.
  intros Hk. apply list_eq. intros j.
  destruct (decide (j < n)%nat) as [Hj|Hj].
  - destruct (decide (j = k)) as [->|Hjk].
    + rewrite list_lookup_insert_eq by (by rewrite length_tab).
      rewrite tab_lookup by done. rewrite decide_True by (apply elem_of_cons; auto). done.
    + rewrite list_lookup_insert_ne by done. rewrite !tab_lookup by done.
      destruct (decide (j ∈ V)).
      * rewrite decide_True by (apply elem_of_cons; auto). done.
      * rewrite decide_False by (intros [?|?]%elem_of_cons; done). done.
  - rewrite !(lookup_ge_None_2 _ j); [done| |];
      rewrite ?length_insert, length_tab; lia.
Qed.

Lemma tab_cons_None {A : Type} V (g : nat → option A) k :
  g k = None → tab (k :: V) g = tab V g.
Proof.
  intros Hg. unfold tab. apply list_fmap_ext. intros _ j _.
  destruct (decide (j = k)) as [->|Hjk].
  - rewrite decide_True by (apply elem_of_cons; auto). rewrite Hg. by destruct (decide _).
  - destruct (decide (j ∈ V)).
    + rewrite decide_True by (apply elem_of_cons; auto). done.
    + rewrite decide_False by (intros [?|?]%elem_of_cons; done). done.
Qed.

Lemma tab_all {A : Type} V (g : nat → option A) :
  (∀ k, (k < n)%nat → k ∈ V) → tab V g = g <$> seq 0 n.
Proof.
  intros HV. unfold tab. apply list_fmap_ext. intros i j Hj.
  apply lookup_seq in Hj as [Hj Hi]. rewrite decide_True; [done|]. apply HV. lia.
Qed.

Lemma container_nil : container [] = template xs ys zs first_result.
Proof. unfold container, template. by rewrite !tab_nil. Qed.

Lemma container_sized V : sized (container V).
Proof. unfold sized, container. simpl. by rewrite !length_tab. Qed.

(** Storing the result of a cell that was not stored yet. *)
Lemma store_cell_container c V :
  labels_fit → valid xs ys zs c → well_formed (f c) →
  idx xs ys c ∉ V →
  match V with [] => idx xs ys c = 0%nat | _ => 0%nat ∈ V end →
  store_cell' (f c) (cix c) (ciy c) (ciz c) (state_of V)
  = Ok (state_of (idx xs ys c :: V)).
Proof.
  intros Hlab Hc Hwf HkV HV.
  pose proof (valid_in_range c Hc) as Hin. pose proof (index_lt c Hin) as Hk.
  pose proof (cell_at_idx xs ys zs c Hc) as Hat.
  assert (base_of (state_of V) (f c) = container V) as Hbase.
  { destruct V as [|v V]; [|done]. cbn [state_of base_of].
    rewrite container_nil. unfold first_result. by rewrite <- HV, Hat. }
  rewrite store_cell_stored; [|done..|rewrite Hbase; apply container_sized].
  rewrite Hbase. cbn [state_of]. do 2 f_equal.
  set (k := idx xs ys c) in *.
  unfold stored. fold k.
  unfold container, set_images, set_all_prompts, set_all_seeds, set_infotexts.
  cbn [images all_prompts all_seeds infotexts prompt seed width height
         index_of_first_image].
  destruct (images (f c)) as [|oi rest] eqn:Himg.
  - assert (entry_prompt k = None ∧ entry_seed k = None ∧ entry_infotext k = None)
      as (Hp & Hs & Ht).
    { unfold entry_prompt, entry_seed, entry_infotext. by rewrite Hat, Himg. }
    rewrite (tab_cons_None V entry_prompt), (tab_cons_None V entry_seed),
      (tab_cons_None V entry_infotext) by done.
    rewrite <- (tab_insert V entry_image k) by done.
    do 2 f_equal. unfold entry_image. rewrite Hat, Himg. f_equal.
    rewrite tab_lookup by lia. cbn [default].
    destruct V as [|v V].
    + rewrite HV. by rewrite decide_False by (by intros ?%elem_of_nil).
    + rewrite decide_True by done.
      destruct k as [|k']; [done|]. unfold entry_image, slot0, first_result.
      by destruct (images (f (here 0%nat))).
  - rewrite <- (tab_insert V entry_image k), <- (tab_insert V entry_prompt k),
      <- (tab_insert V entry_seed k), <- (tab_insert V entry_infotext k) by done.
    unfold entry_image, entry_prompt, entry_seed, entry_infotext.
    by rewrite Hat, Himg.
Qed.

(** The result of the renderer is a function of the cell, in every state
    that satisfies [inv], whatever the renderer does to the state as long as
    it keeps [inv]. *)
Definition determined (inv : state → Prop)
    (cell : value → value → value → nat → nat → nat → M Processed) : Prop :=
  ∀ x y z ix iy iz s, inv s →
    (cell x y z ix iy iz s).1 = Ok (f (mkCoords x y z ix iy iz))
    ∧ inv (cell x y z ix iy iz s).2.

Lemma visits_determined inv cell (o : list coords) V s :
  determined inv cell → inv s → labels_fit →
  Forall (valid xs ys zs) o → Forall (λ c, well_formed (f c)) o →
  NoDup (idx xs ys <$> o) → (∀ c, c ∈ o → idx xs ys c ∉ V) →
  match V with
  | [] => match o with [] => True | c :: _ => idx xs ys c = 0%nat end
  | _ => 0%nat ∈ V
  end →
  (for_each o (visit xs ys zs x_labels y_labels z_labels cell draw_individual_labels)
     (state_of V) s).1
  = Ok (state_of (rev (idx xs ys <$> o) ++ V)).
Proof.
  intros Hcell Hs Hlab Hval. revert V s Hs.
  induction Hval as [|c o Hc Hval IH]; intros V s Hs Hwf Hnd Hnew HV; [done|].
  apply Forall_cons in Hwf as [Hwfc Hwf]. rewrite fmap_cons in Hnd.
  apply NoDup_cons in Hnd as [Hco Hnd].
  assert (idx xs ys c ∉ V) as HcV by (apply Hnew, elem_of_cons; by left).
  assert ((cell (cx c) (cy c) (cz c) (cix c) (ciy c) (ciz c) s).1 = Ok (f c)
          ∧ inv (cell (cx c) (cy c) (cz c) (cix c) (ciy c) (ciz c) s).2)
    as [Hf Hs1] by (destruct c; by apply Hcell).
  cbn [for_each]. unfold visit at 1, process_cell, bind, lift.
  destruct (cell (cx c) (cy c) (cz c) (cix c) (ciy c) (ciz c) s) as [r s1].
  cbn [fst snd] in Hf, Hs1. subst r.
  rewrite (store_cell_container c V) by (done || by destruct V).
  rewrite (IH (idx xs ys c :: V)); [|done..| |].
  - rewrite fmap_cons. cbn [rev]. by rewrite <- app_assoc.
  - intros c' Hc' [Heq|Hin]%elem_of_cons.
    + apply Hco. rewrite <- Heq. by apply list_elem_of_fmap_2.
    + apply (Hnew c'); [by apply elem_of_cons; right|done].
  - destruct V as [|v V]; [rewrite HV|]; apply elem_of_cons; [by left|by right].
Qed.

(** Whatever the order the planner chose, the loops fill the same container. *)
Lemma loops_filled inv cell first_axes second_axes s :
  determined inv cell → inv s → labels_fit → planned first_axes second_axes →
  (∀ c, valid xs ys zs c → well_formed (f c)) →
  (loops xs ys zs x_labels y_labels z_labels cell draw_individual_labels
     first_axes second_axes s).1
  = Ok (if decide (n = 0%nat) then None else Some filled).
Proof.
  intros Hcell Hs Hlab Hplan Hwf. rewrite loops_order.
  set (o := order xs ys zs first_axes second_axes).
  pose proof (order_Permutation xs ys zs _ _ Hplan) as Hperm. fold o in Hperm.
  pose proof (order_head xs ys zs _ _ Hplan) as Hhead. fold o in Hhead.
  pose proof (order_zyx_idx xs ys zs) as Hidx.
  assert (idx xs ys <$> o ≡ₚ seq 0 n) as Hpi by (by rewrite Hperm, Hidx).
  assert (Forall (valid xs ys zs) o) as Hval.
  { rewrite Hperm. apply order_zyx_valid. }
  change None with (state_of []).
  rewrite (visits_determined inv cell o [] s); [|done..| | | |].
  - rewrite app_nil_r. f_equal.
    destruct (decide (n = 0%nat)) as [Hn|Hn].
    + rewrite Hn in Hpi. apply Permutation_nil_r in Hpi. by rewrite Hpi.
    + destruct (rev (idx xs ys <$> o)) as [|k V] eqn:HV.
      * apply (f_equal length) in HV. rewrite length_rev in HV.
        apply Permutation_length in Hpi. rewrite length_seq in Hpi.
        simpl in HV. lia.
      * cbn [state_of]. f_equal. rewrite <- HV. unfold container, filled.
        assert (∀ k, (k < n)%nat → k ∈ rev (idx xs ys <$> o)) as Hall.
        { intros j Hj. rewrite rev_alt. apply (elem_of_reverse j).
          rewrite Hpi. apply elem_of_seq. lia. }
        by rewrite !tab_all.
  - eapply Forall_impl; [exact Hval|]. intros c Hc. by apply Hwf.
  - rewrite Hpi. apply NoDup_seq.
  - by intros c _ ?%elem_of_nil.
  - destruct o as [|c o'] eqn:Ho; [done|].
    destruct (order_zyx xs ys zs) as [|c0 o0] eqn:Hz; [done|].
    injection Hhead as ->.
    rewrite fmap_cons in Hidx. destruct n; [done|]. by injection Hidx.
Qed.

(** Every slot of the filled container holds an image. *)
Lemma filled_images_truthy :
  (∀ c, valid xs ys zs c → well_formed (f c)) →
  Forall (λ oi, truthy oi = true) (images filled).
Proof.
  intros Hwf. unfold filled. cbn [images]. apply Forall_fmap, Forall_forall.
  intros k Hk%elem_of_seq. change (truthy (entry_image k) = true).
  unfold entry_image.
  assert (valid xs ys zs (here k)) as Hv.
  { assert (k ∈ idx xs ys <$> order_zyx xs ys zs) as Hin.
    { rewrite order_zyx_idx. apply elem_of_seq. lia. }
    apply list_elem_of_fmap_1 in Hin as (c & -> & Hc).
    pose proof (order_zyx_valid xs ys zs) as Hall.
    rewrite Forall_forall in Hall. rewrite cell_at_idx by auto. auto. }
  destruct (Hwf _ Hv) as [Hno|(i & rest & Himg & _)].
  - by rewrite Hno.
  - unfold shown. by rewrite Himg.
Qed.

(** The slot of a cell is the one its indices give, and it holds what is
    kept of that cell. *)
Lemma filled_lookup c :
  valid xs ys zs c →
  images filled !! index xs ys (cix c) (ciy c) (ciz c) = Some (image_of c)
  ∧ all_prompts filled !! index xs ys (cix c) (ciy c) (ciz c) = Some (prompt_of c)
  ∧ all_seeds filled !! index xs ys (cix c) (ciy c) (ciz c) = Some (seed_of c)
  ∧ infotexts filled !! index xs ys (cix c) (ciy c) (ciz c) = Some (infotext_of c).
Proof.
  intros Hc. pose proof (index_lt c (valid_in_range c Hc)) as Hk.
  pose proof (cell_at_idx xs ys zs c Hc) as Hat.
  fold (idx xs ys c). unfold filled. cbn [images all_prompts all_seeds infotexts].
  rewrite !list_lookup_fmap, !lookup_seq_lt by done.
  cbn [fmap option_fmap option_map Nat.add].
  unfold entry_image, entry_prompt, entry_seed, entry_infotext,
    image_of, prompt_of, seed_of, infotext_of.
  rewrite Hat. done.
Qed.

End Pure.

End Container.

(** ** Composition does not depend on the traversal *)

Section Stateless.
Context `{Webui}.

(** A statement that neither reads nor writes the state. *)
Definition stateless {A : Type} (m : M A) : Prop :=
  ∃ v : result A, ∀ s, m s = (v, s).

Lemma stateless_ret {A : Type} (a : A) : stateless (ret a).
Proof. by exists (Ok a). Qed.

Lemma stateless_lift {A : Type} (r : result A) : stateless (lift r).
Proof. by exists r. Qed.

Lemma stateless_bind {A B : Type} (m : M A) (k : A → M B) :
  stateless m → (∀ a, stateless (k a)) → stateless (bind m k).
Proof.
  intros [v Hm] Hk. destruct v as [a|e].
  - destruct (Hk a) as [w Hw]. exists w. intros s. unfold bind. by rewrite Hm, Hw.
  - exists (Raise e). intros s. unfold bind. by rewrite Hm.
Qed.

Lemma stateless_for_each {A V : Type} (l : list A) (body : A → V → M V) v :
  (∀ a v, stateless (body a v)) → stateless (for_each l body v).
Proof.
  intros Hbody. revert v. induction l as [|a l IH]; intros v.
  - apply stateless_ret.
  - cbn [for_each]. apply stateless_bind; [apply Hbody|apply IH].
Qed.

Lemma stateless_result {A : Type} (m : M A) s s' :
  stateless m → (m s).1 = (m s').1.
Proof. intros [v Hm]. by rewrite !Hm. Qed.

Ltac stateless :=
  repeat first
    [ apply stateless_ret | apply stateless_lift
    | apply stateless_bind; [|intros ?]
    | apply stateless_for_each; intros ? ? ].

Lemma stateless_insert_sub_grid xs ys x_labels y_labels draw_legend margin_size i r :
  stateless (insert_sub_grid xs ys x_labels y_labels draw_legend margin_size i r).
Proof. unfold insert_sub_grid. destruct draw_legend; stateless. Qed.

Lemma stateless_insert_z_grid zs z_labels draw_legend r :
  stateless (insert_z_grid zs z_labels draw_legend r).
Proof. unfold insert_z_grid. stateless. Qed.

End Stateless.

(** ** The nesting order of the planner and the composed result *)

Section Traversal.
Context `{Webui}.

(** The planner only gives nestings of two different axes. *)
Lemma axes_processed_planned (x_opt y_opt z_opt : AxisOption) :
  planned (axes_processed x_opt y_opt z_opt).1 (axes_processed x_opt y_opt z_opt).2.
Proof.
  unfold axes_processed, planned.
  repeat match goal with
         | |- context [if ?b then _ else _] => destruct b
         end; cbn [fst snd]; naive_solver.
Qed.

Lemma list_size_0 (xs ys zs : list value) :
  list_size xs ys zs = 0%nat → xs = [] ∨ ys = [] ∨ zs = [].
Proof.
  unfold list_size. intros Hn.
  apply Nat.eq_mul_0 in Hn as [Hn|Hn]; [apply Nat.eq_mul_0 in Hn as [Hn|Hn]|];
    apply length_zero_iff_nil in Hn; auto.
Qed.

Variables (p : loc) (xs ys zs x_labels y_labels z_labels : list value).
Variables (draw_legend draw_individual_labels : bool) (margin_size : Z).
Variable cell : value → value → value → nat → nat → nat → M Processed.
Variable f : coords → Processed.
Variable inv : state → Prop.

(** C9. For a renderer whose result is a function of the cell, the loops
    fill the same container whatever the nesting order the planner chose:
    what is kept of the cell (x, y, z) is in slot ix + iy*|X| + iz*|X|*|Y| of
    the four lists, and [draw_xyz_grid] returns the same result for any two
    nesting orders. *)
Theorem draw_xyz_grid_any_order first_axes second_axes first_axes' second_axes' s :
  determined f inv cell → inv s →
  labels_fit xs ys zs x_labels y_labels z_labels draw_individual_labels →
  (∀ c, valid xs ys zs c → well_formed (f c)) →
  planned first_axes second_axes → planned first_axes' second_axes' →
  let container := filled xs ys zs x_labels y_labels z_labels draw_individual_labels f in
  (loops xs ys zs x_labels y_labels z_labels cell draw_individual_labels
     first_axes second_axes s).1
  = Ok (if decide (list_size xs ys zs = 0%nat) then None else Some container)
  ∧ (∀ c, valid xs ys zs c →
       let k := (cix c + ciy c * length xs + ciz c * length xs * length ys)%nat in
       images container !! k
       = Some (image_of xs ys zs x_labels y_labels z_labels draw_individual_labels f c)
       ∧ all_prompts container !! k = Some (prompt_of f c)
       ∧ all_seeds container !! k = Some (seed_of f c)
       ∧ infotexts container !! k = Some (infotext_of f c))
  ∧ (draw_xyz_grid p xs ys zs x_labels y_labels z_labels cell draw_legend
       draw_individual_labels first_axes second_axes margin_size s).1
    = (draw_xyz_grid p xs ys zs x_labels y_labels z_labels cell draw_legend
         draw_individual_labels first_axes' second_axes' margin_size s).1.
Proof.
  intros Hcell Hs Hlab Hwf Hplan Hplan' container.
  split; [by eapply loops_filled|]. split.
  { intros c Hc k.
    exact (filled_lookup xs ys zs x_labels y_labels z_labels draw_individual_labels
             f c Hc). }
  unfold draw_xyz_grid.
  destruct (decide (list_size xs ys zs = 0%nat)) as [Hn|Hn].
  - apply list_size_0 in Hn. unfold bind. rewrite !loops_order.
    by rewrite !(order_nil xs ys zs) by done.
  - pose proof (loops_filled xs ys zs x_labels y_labels z_labels draw_individual_labels
                  f inv cell first_axes second_axes s Hcell Hs Hlab Hplan Hwf) as Hl1.
    pose proof (loops_filled xs ys zs x_labels y_labels z_labels draw_individual_labels
                  f inv cell first_axes' second_axes' s Hcell Hs Hlab Hplan' Hwf) as Hl2.
    rewrite decide_False in Hl1, Hl2 by done. fold container in Hl1, Hl2.
    unfold bind at 1 3.
    destruct (loops _ _ _ _ _ _ _ _ first_axes second_axes s) as [r1 s1].
    destruct (loops _ _ _ _ _ _ _ _ first_axes' second_axes' s) as [r2 s2].
    cbn [fst] in Hl1, Hl2. subst r1 r2.
    destruct (negb (existsb truthy (images container))) eqn:Hany.
    + exfalso. apply negb_true_iff in Hany.
      pose proof (filled_images_truthy xs ys zs x_labels y_labels z_labels
                    draw_individual_labels f Hwf) as Hall.
      fold container in Hall.
      assert (length (images container) = list_size xs ys zs) as Hlen.
      { unfold container, filled. cbn [images]. by rewrite length_fmap, length_seq. }
      destruct (images container) as [|oi rest]; [simpl in Hlen; lia|].
      apply Forall_cons in Hall as [Hoi _]. cbn [existsb] in Hany.
      rewrite Hoi in Hany. done.
    + apply stateless_result, stateless_bind.
      * apply stateless_for_each. intros i r. apply stateless_insert_sub_grid.
      * intros r. apply stateless_insert_z_grid.
Qed.

End Traversal.

(** *** Examples *)

(** A renderer that writes to the state and whose result is a function of
    the values of the cell. *)
Definition demo_result (c : coords) : Processed :=
  match cx c, cy c with
  | VInt a, VInt b =>
      mkProcessed [Some (Rendered "RGB" (64, 64) (a + b))] [Some "a cat"] [Some (a + b)]
        [Some "a cat, Steps: 20"] "a cat" (a + b) 64 64 0
  | _, _ => mkProcessed [] [] [] [] "a cat" 5 64 64 0
  end.

Definition demo_cell (x y z : value) (ix iy iz : nat) : M Processed :=
  bind (alloc (HList [x; y; z])) (λ _, ret (demo_result (mkCoords x y z ix iy iz))).

(** Witness of [draw_xyz_grid_any_order]: two values on X, two on Y, the
    nestings x-then-y and z-then-y. *)
Lemma draw_xyz_grid_any_order_witness :
  let xs := [VInt 1; VInt 2] in
  let ys := [VInt 10; VInt 20] in
  (draw_xyz_grid 0 xs ys nothing xs ys nothing demo_cell true false "x" "y" 0 state0).1
  = (draw_xyz_grid 0 xs ys nothing xs ys nothing demo_cell true false "z" "y" 0 state0).1.
Proof.
  intros xs ys.
  apply (draw_xyz_grid_any_order 0 xs ys nothing xs ys nothing true false 0 demo_cell
           demo_result (λ _, True) "x" "y" "z" "y" state0).
  - intros x y z ix iy iz s _. split; [reflexivity|exact I].
  - exact I.
  - intros Hd. discriminate Hd.
  - intros c (Hx & Hy & _). unfold well_formed, demo_result.
    assert (∃ a, cx c = VInt a) as [a ->].
    { destruct (cix c) as [|[|?]]; simpl in Hx; inversion Hx; eauto. }
    assert (∃ b, cy c = VInt b) as [b ->].
    { destruct (ciy c) as [|[|?]]; simpl in Hy; inversion Hy; eauto. }
    right. eexists _, _. split; [reflexivity|discriminate].
  - left. split; [reflexivity|left; reflexivity].
  - right. right. split; [reflexivity|right; reflexivity].
Defined.

(** ** A renderer that fails: the [try] block *)

Section Failure.
Context `{Webui}.

Section Try.
Variables (p : loc) (x_opt y_opt z_opt : AxisOption) (draw_individual_labels : bool).
Variables (pc : loc) (x y z : value) (ix iy iz : nat).

Abbreviation render_cell' :=
  (render_cell p x_opt y_opt z_opt draw_individual_labels pc x y z ix iy iz).
Abbreviation try_render' :=
  (try_render p x_opt y_opt z_opt draw_individual_labels pc x y z ix iy iz).

Lemma render_cell_raise s e s1 :
  process_images pc s = (Raise e, s1) → render_cell' s = (Raise e, s1).
Proof. intros Hp. unfold render_cell, bind. by rewrite Hp. Qed.

Lemma render_cell_no_image s r s1 :
  process_images pc s = (Ok r, s1) → images r = [] → render_cell' s = (Ok r, s1).
Proof.
  intros Hp Hr. unfold render_cell, bind. rewrite Hp, Hr.
  by destruct draw_individual_labels.
Qed.

(** The state once the error is displayed. *)
Definition displayed (e : exn) (s : state) : state :=
  mkState (heap s) (errors_display e (wld s)).

(** Whatever the [try] block raises is caught. *)
Lemma try_render_caught s e s1 sd :
  render_cell' s = (Raise e, s1) → attr_of s1 p "seed" = Some sd →
  try_render' s = (Ok (new_Processed (displayed e s1) p [] sd ""), displayed e s1).
Proof.
  intros Hr Hsd. unfold try_render, try_except. rewrite Hr.
  unfold bind, on_world. fold (displayed e s1).
  by rewrite (failed_cell_seed p (displayed e s1) sd).
Qed.

Lemma try_render_returned s r s1 :
  render_cell' s = (Ok r, s1) → try_render' s = (Ok r, s1).
Proof. intros Hr. unfold try_render, try_except. by rewrite Hr. Qed.

End Try.

Lemma order_in_range xs ys zs first_axes second_axes :
  planned first_axes second_axes →
  Forall (in_range xs ys zs) (order xs ys zs first_axes second_axes).
Proof.
  intros Hplan. rewrite (order_Permutation xs ys zs _ _ Hplan).
  eapply Forall_impl; [apply order_zyx_valid|]. apply valid_in_range.
Qed.

End Failure.

(** ** The grids that [draw_xyz_grid] composes *)

Section Compose.
Context `{Webui}.
Variables (xs ys zs x_labels y_labels z_labels : list value).
Variables (draw_legend : bool) (margin_size : Z).

Abbreviation n := (list_size xs ys zs).
Abbreviation block := (length xs * length ys)%nat.

Lemma unwrap_images_Some (l : list image) : unwrap_images (Some <$> l) = Ok l.
Proof. induction l as [|i l IH]; [done|]. cbn. by rewrite IH. Qed.

(** The widest and the highest of the images. *)
Definition max_size_of (imgs : list image) : Z * Z :=
  match imgs with
  | [] => (0, 0)
  | i :: t =>
      foldl (λ wh j, (Z.max wh.1 (image_size j).1, Z.max wh.2 (image_size j).2))
        (image_size i) t
  end.

Lemma max_size_Ok (imgs : list image) : imgs ≠ [] → max_size imgs = Ok (max_size_of imgs).
Proof. by destruct imgs. Qed.

(** The cells of the slice [i]. *)
Definition slice {A : Type} (i : nat) (l : list A) : list A :=
  take block (drop (i * block) l).

(** The grid of the slice [i]. *)
Definition sub_grid (imgs : list image) (i : nat) : image :=
  let sl := slice i imgs in
  let grid := image_grid sl (length ys) in
  if draw_legend then
    draw_grid_annotations grid (max_size_of sl).1 (max_size_of sl).2
      (hor_texts x_labels) (ver_texts y_labels) margin_size
  else grid.

Definition heads {A : Type} (l : list (option A)) (j : nat) : list (option A) :=
  (λ i, default None (l !! (i * block)%nat)) <$> seq 0 j.

(** The container after [j] rounds of the loop over the slices. *)
Definition with_sub_grids (imgs : list image) (r : Processed) (j : nat) : Processed :=
  mkProcessed ((Some <$> (sub_grid imgs <$> seq 0 j)) ++ images r)
    (heads (all_prompts r) j ++ all_prompts r)
    (heads (all_seeds r) j ++ all_seeds r)
    (heads (infotexts r) j ++ infotexts r)
    (prompt r) (seed r) (width r) (height r) (index_of_first_image r).

Definition top_grid (imgs : list image) : image :=
  let grids := sub_grid imgs <$> seq 0 (length zs) in
  let z_grid := image_grid grids 1 in
  if draw_legend then
    draw_grid_annotations z_grid (max_size_of grids).1 (max_size_of grids).2
      (title_texts z_labels) [[VStr ""]] 0
  else z_grid.

(** What [draw_xyz_grid] returns for the filled container [r]. *)
Definition composed (imgs : list image) (r : Processed) : Processed :=
  let r' := with_sub_grids imgs r (length zs) in
  set_infotexts (set_images r' (Some (top_grid imgs) :: images r'))
    (default None (infotexts r' !! 0%nat) :: infotexts r').

Lemma length_heads {A : Type} (l : list (option A)) j : length (heads l j) = j.
Proof. unfold heads. by rewrite length_fmap, length_seq. Qed.

Lemma heads_S {A : Type} (l : list (option A)) j :
  heads l (S j) = heads l j ++ [default None (l !! (j * block)%nat)].
Proof. unfold heads. by rewrite seq_S, fmap_app. Qed.

Lemma insert_at_end {A : Type} (l1 l2 : list A) (j : nat) (a : A) :
  length l1 = j → py_insert (l1 ++ l2) j a = (l1 ++ [a]) ++ l2.
Proof.
  intros <-. unfold py_insert.
  rewrite take_app_length, drop_app_length. by rewrite <- app_assoc.
Qed.

Lemma index_past {A : Type} (l1 l2 : list (option A)) (k j : nat) :
  length l1 = j → (k < length l2)%nat →
  py_index (l1 ++ l2) (k + j) = Ok (default None (l2 !! k)).
Proof.
  intros <- Hk. unfold py_index. rewrite lookup_app_r by lia.
  replace (k + length l1 - length l1)%nat with k by lia.
  destruct (l2 !! k) eqn:E; [done|]. apply lookup_ge_None in E. lia.
Qed.

Lemma bind_lift_Ok {A B : Type} (a : A) (k : A → M B) s : bind (lift (Ok a)) k s = k a s.
Proof. done. Qed.

Section Filled.
Variables (imgs : list image) (r : Processed).
Hypothesis Himgs : images r = Some <$> imgs.
Hypothesis Hsized : sized xs ys zs r.
Hypothesis Hcells : n ≠ 0%nat.

Lemma block_pos : (block ≠ 0)%nat.
Proof. intros Hb. apply Hcells. unfold list_size. by rewrite Hb. Qed.

Lemma slice_nonempty i : (i < length zs)%nat → slice i imgs ≠ [].
Proof.
  intros Hi Hnil. apply (f_equal length) in Hnil.
  destruct Hsized as (Hlen & _). rewrite Himgs, length_fmap in Hlen.
  unfold slice in Hnil. rewrite length_take, length_drop, Hlen in Hnil.
  unfold list_size in Hnil. simpl in Hnil.
  assert (S i * block ≤ length zs * block)%nat by (apply Nat.mul_le_mono_r; lia).
  pose proof block_pos. lia.
Qed.

Lemma insert_sub_grid_round i s :
  (i < length zs)%nat →
  insert_sub_grid xs ys x_labels y_labels draw_legend margin_size i
    (with_sub_grids imgs r i) s
  = (Ok (with_sub_grids imgs r (S i)), s).
Proof.
  intros Hi. destruct Hsized as (Hli & Hlp & Hls & Hlt).
  assert (i * block < n)%nat as Hstart.
  { unfold list_size.
    assert (S i * block ≤ length zs * block)%nat by (apply Nat.mul_le_mono_r; lia).
    pose proof block_pos. lia. }
  unfold insert_sub_grid.
  set (G := Some <$> (sub_grid imgs <$> seq 0 i)).
  assert (length G = i) as HG by (unfold G; by rewrite !length_fmap, length_seq).
  assert ((i * length xs * length ys + i)%nat = (i * block + i)%nat) as -> by lia.
  replace (py_slice (images (with_sub_grids imgs r i)) (i * block + i)
             (i * block + i + block))
    with (Some <$> slice i imgs).
  2: { unfold py_slice, with_sub_grids. cbn [images]. fold G.
       replace (i * block + i + block - (i * block + i))%nat with block by lia.
       rewrite drop_app_ge by lia. rewrite HG.
       replace (i * block + i - i)%nat with (i * block)%nat by lia.
       rewrite Himgs. unfold slice. by rewrite fmap_take, fmap_drop. }
  rewrite unwrap_images_Some, bind_lift_Ok. cbv beta zeta.
  rewrite (max_size_Ok (slice i imgs)) by (by apply slice_nonempty).
  assert (images (with_sub_grids imgs r i) = G ++ images r) as HRi by done.
  assert (all_prompts (with_sub_grids imgs r i) = heads (all_prompts r) i ++ all_prompts r)
    as HRp by done.
  assert (all_seeds (with_sub_grids imgs r i) = heads (all_seeds r) i ++ all_seeds r)
    as HRs by done.
  assert (infotexts (with_sub_grids imgs r i) = heads (infotexts r) i ++ infotexts r)
    as HRt by done.
  rewrite HRi, HRp, HRs, HRt.
  rewrite (index_past (heads (all_prompts r) i) (all_prompts r) (i * block) i),
    (index_past (heads (all_seeds r) i) (all_seeds r) (i * block) i),
    (index_past (heads (infotexts r) i) (infotexts r) (i * block) i)
    by (apply length_heads || lia).
  assert ((if draw_legend
           then draw_grid_annotations (image_grid (slice i imgs) (length ys))
                  (max_size_of (slice i imgs)).1 (max_size_of (slice i imgs)).2
                  (hor_texts x_labels) (ver_texts y_labels) margin_size
           else image_grid (slice i imgs) (length ys)) = sub_grid imgs i) as Hgrid by done.
  cbv [bind lift ret].
  destruct draw_legend; rewrite Hgrid; clear Hgrid; f_equal; f_equal;
    rewrite (insert_at_end G _ i), (insert_at_end (heads (all_prompts r) i) _ i),
      (insert_at_end (heads (all_seeds r) i) _ i),
      (insert_at_end (heads (infotexts r) i) _ i) by (done || apply length_heads);
    unfold with_sub_grids, set_infotexts, set_all_seeds, set_all_prompts, set_images;
    cbn [images all_prompts all_seeds infotexts prompt seed width height
           index_of_first_image];
    rewrite !heads_S; unfold G; rewrite seq_S, !fmap_app; done.
Qed.

Lemma with_sub_grids_0 : with_sub_grids imgs r 0 = r.
Proof. by destruct r. Qed.

Lemma insert_sub_grid_rounds j m s :
  (j + m ≤ length zs)%nat →
  for_each (seq j m) (insert_sub_grid xs ys x_labels y_labels draw_legend margin_size)
    (with_sub_grids imgs r j) s
  = (Ok (with_sub_grids imgs r (j + m)), s).
Proof.
  revert j. induction m as [|m IH]; intros j Hjm.
  - by rewrite Nat.add_0_r.
  - cbn [seq for_each]. unfold bind. rewrite insert_sub_grid_round by lia.
    rewrite IH by lia. by rewrite Nat.add_succ_r.
Qed.

Lemma insert_z_grid_filled s :
  insert_z_grid zs z_labels draw_legend (with_sub_grids imgs r (length zs)) s
  = (Ok (composed imgs r), s).
Proof.
  destruct Hsized as (Hli & Hlp & Hls & Hlt).
  assert (length zs ≠ 0)%nat as Hz.
  { intros Hz. apply Hcells. unfold list_size. rewrite Hz. lia. }
  unfold insert_z_grid.
  set (grids := sub_grid imgs <$> seq 0 (length zs)).
  assert (length grids = length zs) as Hg by (unfold grids; by rewrite length_fmap, length_seq).
  assert (take (length zs) (images (with_sub_grids imgs r (length zs))) = Some <$> grids)
    as ->.
  { unfold with_sub_grids. cbn [images]. fold grids.
    rewrite take_app_length'; [done|by rewrite length_fmap]. }
  rewrite unwrap_images_Some, bind_lift_Ok. cbv beta zeta.
  rewrite (max_size_Ok grids) by (intros Hnil; rewrite Hnil in Hg; simpl in Hg; lia).
  rewrite bind_lift_Ok.
  assert (py_index (infotexts (with_sub_grids imgs r (length zs))) 0
          = Ok (default None (infotexts (with_sub_grids imgs r (length zs)) !! 0%nat)))
    as ->.
  { unfold py_index.
    destruct (infotexts (with_sub_grids imgs r (length zs)) !! 0%nat) eqn:E; [done|].
    apply lookup_ge_None in E. unfold with_sub_grids in E. cbn [infotexts] in E.
    rewrite length_app, length_heads in E. lia. }
  rewrite bind_lift_Ok. unfold ret, composed, top_grid. fold grids.
  by destruct draw_legend.
Qed.

Lemma compose_filled s :
  bind (for_each (seq 0 (length zs))
          (insert_sub_grid xs ys x_labels y_labels draw_legend margin_size) r)
    (insert_z_grid zs z_labels draw_legend) s
  = (Ok (composed imgs r), s).
Proof.
  unfold bind. rewrite <- with_sub_grids_0 at 1.
  rewrite insert_sub_grid_rounds by lia. apply insert_z_grid_filled.
Qed.

End Filled.

End Compose.

(** ** What [draw_xyz_grid] returns when every cell is rendered *)

Section Drawn.
Context `{Webui}.
Variables (p : loc) (xs ys zs x_labels y_labels z_labels : list value).
Variables (draw_legend draw_individual_labels : bool) (margin_size : Z).
Variable cell : value → value → value → nat → nat → nat → M Processed.
Variable f : coords → Processed.
Variable inv : state → Prop.

Abbreviation n := (list_size xs ys zs).

(** The renderer gives the cell an image and an infotext. *)
Definition renders (c : coords) : Prop :=
  ∃ i rest, images (f c) = Some i :: rest ∧ infotexts (f c) ≠ [].

(** The image that is kept of a cell. *)
Definition picture (c : coords) : image :=
  default (Image_new "P" (width (f c), height (f c)))
    (shown x_labels y_labels z_labels draw_individual_labels (f c) c).

Definition pictures : list image := (λ k, picture (cell_at xs ys zs k)) <$> seq 0 n.

Lemma cell_at_valid k : (k < n)%nat → valid xs ys zs (cell_at xs ys zs k).
Proof.
  intros Hk.
  assert (k ∈ idx xs ys <$> order_zyx xs ys zs) as Hin.
  { rewrite order_zyx_idx. apply elem_of_seq. lia. }
  apply list_elem_of_fmap_1 in Hin as (c & -> & Hc).
  pose proof (order_zyx_valid xs ys zs) as Hall.
  rewrite Forall_forall in Hall. rewrite cell_at_idx by auto. auto.
Qed.

Lemma filled_pictures :
  (∀ c, valid xs ys zs c → renders c) →
  images (filled xs ys zs x_labels y_labels z_labels draw_individual_labels f)
  = Some <$> pictures.
Proof.
  intros Hr. unfold filled, pictures. cbn [images]. rewrite <- list_fmap_compose.
  apply list_fmap_ext. intros i k Hk%lookup_seq. destruct Hk as [-> Hi].
  cbn [Nat.add compose]. unfold entry_image, picture.
  destruct (Hr _ (cell_at_valid i Hi)) as (im & rest & Him & _).
  rewrite Him. unfold shown. by rewrite Him.
Qed.

Lemma renders_well_formed c : renders c → well_formed (f c).
Proof. intros (i & rest & Hi & Hinfo). right. by exists i, rest. Qed.

(** The result: the grid of the slice grids, the slice grids, the cells. *)
Lemma draw_xyz_grid_composed first_axes second_axes s :
  determined f inv cell → inv s →
  labels_fit xs ys zs x_labels y_labels z_labels draw_individual_labels →
  planned first_axes second_axes →
  (∀ c, valid xs ys zs c → renders c) → n ≠ 0%nat →
  (draw_xyz_grid p xs ys zs x_labels y_labels z_labels cell draw_legend
     draw_individual_labels first_axes second_axes margin_size s).1
  = Ok (composed xs ys zs x_labels y_labels z_labels draw_legend margin_size pictures
          (filled xs ys zs x_labels y_labels z_labels draw_individual_labels f)).
Proof.
  intros Hcell Hs Hlab Hplan Hr Hn.
  assert (∀ c, valid xs ys zs c → well_formed (f c)) as Hwf
    by (intros c Hc; by apply renders_well_formed, Hr).
  pose proof (loops_filled xs ys zs x_labels y_labels z_labels draw_individual_labels
                f inv cell first_axes second_axes s Hcell Hs Hlab Hplan Hwf) as Hloops.
  rewrite decide_False in Hloops by done.
  unfold draw_xyz_grid. unfold bind at 1.
  destruct (loops _ _ _ _ _ _ _ _ first_axes second_axes s) as [r1 s1].
  cbn [fst] in Hloops. subst r1.
  set (r := filled xs ys zs x_labels y_labels z_labels draw_individual_labels f).
  assert (sized xs ys zs r) as Hsz.
  { unfold sized, r, filled. cbn. by rewrite !length_fmap, !length_seq. }
  assert (images r = Some <$> pictures) as Himg by apply (filled_pictures Hr).
  rewrite Himg.
  assert (existsb truthy (Some <$> pictures) = true) as ->.
  { unfold pictures. destruct n; [done|]. done. }
  cbn [negb].
  exact (f_equal fst
           (compose_filled xs ys zs x_labels y_labels z_labels draw_legend margin_size
              pictures r Himg Hsz Hn s1)).
Qed.

End Drawn.

(** ** Chunks *)

Section Chunks.
Context {A : Type}.

Lemma chunks_fuel_nil fuel k : chunks_fuel fuel k ([] : list A) = [].
Proof. by destruct fuel. Qed.

Lemma chunks_fuel_spec (k fuel : nat) (l : list A) :
  (0 < k)%nat → (length l ≤ fuel)%nat →
  concat (chunks_fuel fuel k l) = l
  ∧ Forall (λ c, 0 < length c ≤ k)%nat (chunks_fuel fuel k l)
  ∧ ∀ i c, chunks_fuel fuel k l !! i = Some c →
           (S i < length (chunks_fuel fuel k l))%nat → length c = k.
Proof.
  intros Hk. revert l. induction fuel as [|fuel IH]; intros l Hl.
  - destruct l; [|simpl in Hl; lia]. repeat split; [constructor|]. by intros i c [=].
  - destruct l as [|a l]; [repeat split; [constructor|]; by intros i c [=]|].
    cbn [chunks_fuel].
    destruct (IH (drop k (a :: l))) as (Hcat & Hsz & Hfull).
    { rewrite length_drop. simpl in *. lia. }
    repeat split.
    + cbn [concat]. rewrite Hcat. apply take_drop.
    + constructor; [|done]. rewrite length_take. simpl. lia.
    + intros [|i] c Hc Hi.
      * injection Hc as <-. rewrite length_take. cbn [length] in Hi.
        destruct (drop k (a :: l)) as [|b rest] eqn:Hd.
        { rewrite chunks_fuel_nil in Hi. simpl in Hi. lia. }
        apply (f_equal length) in Hd. rewrite length_drop in Hd. simpl in *. lia.
      * apply (Hfull i c Hc). cbn [length] in Hi. lia.
Qed.

(** The chunks are consecutive, none is empty or longer than asked for, and
    all but the last have the size asked for. *)
Lemma chunks_spec (k : nat) (l : list A) :
  (0 < k)%nat →
  concat (chunks k l) = l
  ∧ Forall (λ c, 0 < length c ≤ k)%nat (chunks k l)
  ∧ ∀ i c, chunks k l !! i = Some c → (S i < length (chunks k l))%nat → length c = k.
Proof. intros Hk. by apply chunks_fuel_spec. Qed.

Lemma chunks_10_4 (l : list A) : length l = 10%nat → length <$> chunks 4 l = [4; 4; 2]%nat.
Proof. intros Hl. do 11 (destruct l as [|? l]; try done). Qed.

End Chunks.

(** ** The cells of a sweep, by their values *)

Section Triples.
Context `{Webui}.

(** The cells in the order of their slots: X runs fastest, then Y, then Z. *)
Definition triples (xs ys zs : list value) : list (value * value * value) :=
  z ← zs; y ← ys; x ← xs; [(x, y, z)].

Definition values_of (c : coords) : value * value * value := (cx c, cy c, cz c).

Lemma enumerate_snd {B : Type} (l : list B) : (enumerate l).*2 = l.
Proof. unfold enumerate. apply snd_zip. by rewrite length_seq. Qed.

Lemma bind_enumerate_snd {B C : Type} (l : list B) (F : B → list C) :
  enumerate l ≫= (λ ia, F ia.2) = l ≫= F.
Proof. by rewrite <- (enumerate_snd l) at 2; rewrite list_fmap_bind. Qed.

Lemma order_zyx_values xs ys zs : values_of <$> order_zyx xs ys zs = triples xs ys zs.
Proof.
  unfold order_zyx, triples. rewrite fmap_bind.
  rewrite <- (bind_enumerate_snd zs). apply list_bind_ext; [|done]. intros izz.
  rewrite fmap_bind.
  rewrite <- (bind_enumerate_snd ys). apply list_bind_ext; [|done]. intros iyy.
  rewrite fmap_bind.
  rewrite <- (bind_enumerate_snd xs). by apply list_bind_ext.
Qed.

Lemma order_zyx_cell_at xs ys zs :
  order_zyx xs ys zs = cell_at xs ys zs <$> seq 0 (list_size xs ys zs).
Proof.
  rewrite <- order_zyx_idx, <- list_fmap_compose.
  rewrite <- (list_fmap_id (order_zyx xs ys zs)) at 1.
  apply Forall_fmap_ext_1. eapply Forall_impl; [apply order_zyx_valid|].
  intros c Hc. cbn. by rewrite cell_at_idx.
Qed.

Lemma triples_cell_at xs ys zs :
  (λ k, values_of (cell_at xs ys zs k)) <$> seq 0 (list_size xs ys zs) = triples xs ys zs.
Proof.
  rewrite <- order_zyx_values, order_zyx_cell_at. by rewrite <- list_fmap_compose.
Qed.

Lemma triples_concat_z xs ys (cs : list (list value)) :
  concat ((λ c, triples xs ys c) <$> cs) = triples xs ys (concat cs).
Proof.
  induction cs as [|c cs IH]; [done|].
  cbn [fmap list_fmap concat]. rewrite IH. unfold triples. by rewrite bind_app.
Qed.

Lemma triples_concat_y xs zs (cs : list (list value)) :
  concat ((λ c, triples xs c zs) <$> cs) ≡ₚ triples xs (concat cs) zs.
Proof.
  induction cs as [|c cs IH].
  - cbn. unfold triples. induction zs as [|z l IHl]; [done|]. by rewrite bind_cons.
  - cbn [fmap list_fmap concat]. rewrite IH. unfold triples.
    rewrite <- bind_app_Permutation. apply bind_Permutation_ext. intros z.
    by rewrite bind_app.
Qed.

Lemma triples_concat_x ys zs (cs : list (list value)) :
  concat ((λ c, triples c ys zs) <$> cs) ≡ₚ triples (concat cs) ys zs.
Proof.
  induction cs as [|c cs IH].
  - cbn. unfold triples. induction zs as [|z l IHl]; [done|].
    rewrite bind_cons, <- IHl, app_nil_r. clear. induction ys as [|y l IHl]; [done|].
    by rewrite bind_cons.
  - cbn [fmap list_fmap concat]. rewrite IH. unfold triples.
    rewrite <- bind_app_Permutation. apply bind_Permutation_ext. intros z.
    rewrite <- bind_app_Permutation. apply bind_Permutation_ext. intros y.
    by rewrite bind_app.
Qed.

Lemma triples_concat_y_eq xs zs (cs : list (list value)) :
  length zs = 1%nat → concat ((λ c, triples xs c zs) <$> cs) = triples xs (concat cs) zs.
Proof.
  intros Hz. destruct zs as [|z [|]]; try done. clear Hz.
  induction cs as [|c cs IH]; [done|].
  cbn [fmap list_fmap concat]. rewrite IH. unfold triples.
  by rewrite !bind_singleton, bind_app.
Qed.

Lemma triples_concat_x_eq ys zs (cs : list (list value)) :
  length ys = 1%nat → length zs = 1%nat →
  concat ((λ c, triples c ys zs) <$> cs) = triples (concat cs) ys zs.
Proof.
  intros Hy Hz. destruct ys as [|y [|]], zs as [|z [|]]; try done. clear Hy Hz.
  induction cs as [|c cs IH]; [done|].
  cbn [fmap list_fmap concat]. rewrite IH. unfold triples.
  by rewrite !bind_singleton, bind_app.
Qed.

End Triples.

(** ** Chunked processing *)

Section Chunked.
Context `{Webui}.
Variables (p : loc) (x_opt y_opt z_opt : AxisOption).
Variables (draw_legend draw_individual_labels : bool) (margin_size : Z).
Variable the_cell : value → value → value → nat → nat → nat → M Processed.
Variables (first_axes second_axes : string).
Variable g : value → value → value → Processed.
Variables fx fy fz : value → value.
Variable inv : state → Prop.

(** The result of the renderer is a function of the values of the cell. *)
Definition value_determined : Prop :=
  ∀ x y z ix iy iz s, inv s →
    (the_cell x y z ix iy iz s).1 = Ok (g x y z) ∧ inv (the_cell x y z ix iy iz s).2.

Definition always_renders : Prop :=
  ∀ x y z, ∃ i rest, images (g x y z) = Some i :: rest ∧ infotexts (g x y z) ≠ [].

(** The labels of the axis are [fmt] of its values. *)
Definition formats (opt : AxisOption) (fmt : value → value) : Prop :=
  ∀ v, format_value opt p (label opt) v = Ok (fmt v).

(** The image that is kept of the cell of values [t]. *)
Definition kept (t : value * value * value) : image :=
  match images (g t.1.1 t.1.2 t.2) with
  | Some i :: _ =>
      if draw_individual_labels then
        draw_label_on_image i
          ("X: " +:+ py_str (fx t.1.1) +:+ nl +:+ "Y: " +:+ py_str (fy t.1.2) +:+ nl
           +:+ "Z: " +:+ py_str (fz t.2))
      else i
  | _ => Image_new "P" (width (g t.1.1 t.1.2 t.2), height (g t.1.1 t.1.2 t.2))
  end.

Definition by_values (c : coords) : Processed := g (cx c) (cy c) (cz c).

Lemma rmapM_formats opt fmt vs : formats opt fmt →
  rmapM (format_value opt p (label opt)) vs = Ok (fmt <$> vs).
Proof.
  intros Hf. induction vs as [|v vs IH]; [done|]. cbn [rmapM]. by rewrite Hf, IH.
Qed.

Section Sweep.
Variables xs ys zs : list value.

Abbreviation x_labels := (fx <$> xs).
Abbreviation y_labels := (fy <$> ys).
Abbreviation z_labels := (fz <$> zs).

Lemma picture_kept c :
  valid xs ys zs c →
  picture x_labels y_labels z_labels draw_individual_labels by_values c
  = kept (values_of c).
Proof.
  intros (Hx & Hy & Hz). unfold picture, kept, shown, label_text, by_values, values_of.
  cbn [fst snd]. rewrite !list_lookup_fmap, Hx, Hy, Hz. cbn [fmap option_fmap option_map default].
  by destruct (images (g (cx c) (cy c) (cz c))) as [|[i|] rest].
Qed.

Lemma pictures_kept :
  pictures xs ys zs x_labels y_labels z_labels draw_individual_labels by_values
  = kept <$> triples xs ys zs.
Proof.
  rewrite <- triples_cell_at, <- list_fmap_compose. unfold pictures.
  apply list_fmap_ext. intros i k Hk%lookup_seq. destruct Hk as [-> Hi].
  cbn [Nat.add compose]. apply picture_kept, cell_at_valid. done.
Qed.

(** The result of [draw_xyz_grid] on the axes, with the labels of the axes:
    a grid, the grids of the slices, and the images of the cells. *)
Lemma draw_kept s :
  value_determined → always_renders →
  formats x_opt fx → formats y_opt fy → formats z_opt fz →
  planned first_axes second_axes → inv s →
  xs ≠ [] → ys ≠ [] → zs ≠ [] →
  ∃ r top grids,
    (draw p x_opt y_opt z_opt draw_legend draw_individual_labels margin_size the_cell
       first_axes second_axes xs ys zs s).1 = Ok r
    ∧ length grids = length zs
    ∧ images r = Some top :: (Some <$> grids) ++ (Some <$> (kept <$> triples xs ys zs))
    ∧ infotexts r ≠ [] ∧ all_prompts r ≠ [] ∧ all_seeds r ≠ [].
Proof.
  intros Hcell Hg Hfx Hfy Hfz Hplan Hs Hxs Hys Hzs.
  assert (list_size xs ys zs ≠ 0%nat) as Hn.
  { intros [?|[?|?]]%list_size_0; done. }
  assert (length zs ≠ 0%nat) as Hnz by (by destruct zs).
  unfold draw, labels.
  rewrite (rmapM_formats x_opt fx xs Hfx), (rmapM_formats y_opt fy ys Hfy),
    (rmapM_formats z_opt fz zs Hfz). rewrite !bind_lift_Ok.
  rewrite (draw_xyz_grid_composed p xs ys zs x_labels y_labels z_labels draw_legend
             draw_individual_labels margin_size the_cell by_values inv
             first_axes second_axes s); try done.
  - eexists _, _, (sub_grid xs ys x_labels y_labels draw_legend margin_size _
                     <$> seq 0 (length zs)).
    split; [reflexivity|]. split; [by rewrite length_fmap, length_seq|].
    unfold composed, with_sub_grids, set_infotexts, set_images.
    cbn [images infotexts all_prompts all_seeds].
    rewrite (filled_pictures xs ys zs x_labels y_labels z_labels draw_individual_labels
               by_values).
    2: { intros c _. apply Hg. }
    rewrite pictures_kept. split; [done|]. split; [discriminate|].
    split.
    + intros Hnil. apply (f_equal length) in Hnil.
      rewrite length_app, length_heads in Hnil. simpl in Hnil. lia.
    + intros Hnil. apply (f_equal length) in Hnil.
      rewrite length_app, length_heads in Hnil. simpl in Hnil. lia.
  - intros _. by rewrite !length_fmap.
  - intros c _. apply Hg.
Qed.

End Sweep.

Lemma keep_lone_cons {A : Type} (z_count : nat) (a : A) (t : list A) :
  keep_lone z_count (a :: t) = Ok (a :: drop z_count t).
Proof. unfold keep_lone, py_index. cbn. by rewrite Nat.add_1_r. Qed.

Section Paged.
Variables xs ys zs : list value.

(** The axes of the sweep of one chunk, and the values that are chunked. *)
Definition chunk_axes (chunk : list value) : list value * list value * list value :=
  (if String.eqb (main_axis xs ys zs) "x" then chunk else xs,
   if String.eqb (main_axis xs ys zs) "y" then chunk else ys,
   if String.eqb (main_axis xs ys zs) "z" then chunk else zs).

Definition main_values : list value :=
  if String.eqb (main_axis xs ys zs) "x" then xs
  else if String.eqb (main_axis xs ys zs) "y" then ys else zs.

Definition chunk_triples (chunk : list value) : list (value * value * value) :=
  triples (chunk_axes chunk).1.1 (chunk_axes chunk).1.2 (chunk_axes chunk).2.

(** Every axis that is slower than the one that is chunked has one value. *)
Definition slower_axes_single : Prop :=
  if String.eqb (main_axis xs ys zs) "x" then length ys = 1%nat ∧ length zs = 1%nat
  else if String.eqb (main_axis xs ys zs) "y" then length zs = 1%nat
  else True.

Lemma main_axis_cases :
  main_axis xs ys zs = "x" ∨ main_axis xs ys zs = "y" ∨ main_axis xs ys zs = "z".
Proof.
  unfold main_axis.
  destruct (_ && _); [auto|]. destruct (_ <=? _)%nat; auto.
Qed.

Lemma chunk_triples_Permutation (cs : list (list value)) :
  concat cs = main_values → concat (chunk_triples <$> cs) ≡ₚ triples xs ys zs.
Proof.
  unfold main_values, chunk_triples, chunk_axes. cbn [fst snd].
  destruct main_axis_cases as [-> | [-> | ->]]; cbn [String.eqb Ascii.eqb Bool.eqb];
    cbn; intros <-.
  - apply triples_concat_x.
  - apply triples_concat_y.
  - by rewrite triples_concat_z.
Qed.

Lemma chunk_triples_eq (cs : list (list value)) :
  slower_axes_single →
  concat cs = main_values → concat (chunk_triples <$> cs) = triples xs ys zs.
Proof.
  unfold slower_axes_single, main_values, chunk_triples, chunk_axes. cbn [fst snd].
  destruct main_axis_cases as [-> | [-> | ->]]; cbn [String.eqb Ascii.eqb Bool.eqb];
    cbn; intros Hone <-.
  - destruct Hone. by apply triples_concat_x_eq.
  - by apply triples_concat_y_eq.
  - apply triples_concat_z.
Qed.

(** What a chunk yields when the lone images are kept: its grid, then the
    images of its cells. *)
Lemma chunk_output_kept chunk s :
  value_determined → always_renders →
  formats x_opt fx → formats y_opt fy → formats z_opt fz →
  planned first_axes second_axes → inv s →
  chunk ≠ [] → xs ≠ [] → ys ≠ [] → zs ≠ [] →
  ∃ r top,
    (chunk_output p x_opt y_opt z_opt xs ys zs draw_legend draw_individual_labels
       false true margin_size the_cell first_axes second_axes chunk s).1 = Ok r
    ∧ images r = Some top :: (Some <$> (kept <$> chunk_triples chunk)).
Proof.
  intros Hcell Hg Hfx Hfy Hfz Hplan Hs Hc Hxs Hys Hzs.
  unfold chunk_output, chunk_triples, chunk_axes. cbn [fst snd lone_images].
  set (xs' := if String.eqb (main_axis xs ys zs) "x" then chunk else xs).
  set (ys' := if String.eqb (main_axis xs ys zs) "y" then chunk else ys).
  set (zs' := if String.eqb (main_axis xs ys zs) "z" then chunk else zs).
  assert (xs' ≠ []) as Hx'.
  { clear -Hc Hxs. subst xs'. destruct (String.eqb _ _); assumption. }
  assert (ys' ≠ []) as Hy'.
  { clear -Hc Hys. subst ys'. destruct (String.eqb _ _); assumption. }
  assert (zs' ≠ []) as Hz'.
  { clear -Hc Hzs. subst zs'. destruct (String.eqb _ _); assumption. }
  destruct (draw_kept xs' ys' zs' s Hcell Hg Hfx Hfy Hfz Hplan Hs Hx' Hy' Hz')
    as (r & top & grids & Hd & Hlen & Himg & Hinfo & Hp & Hsd).
  unfold bind at 1.
  destruct (draw _ _ _ _ _ _ _ _ _ _ xs' ys' zs' s) as [res s1].
  cbn [fst] in Hd. subst res.
  destruct (infotexts r) as [|info infos] eqn:Einfo; [done|].
  destruct (all_prompts r) as [|pr prs] eqn:Epr; [done|].
  destruct (all_seeds r) as [|sd sds] eqn:Esd; [done|].
  rewrite Himg, !keep_lone_cons. rewrite !bind_lift_Ok.
  eexists _, top. split; [reflexivity|]. cbn [images set_images set_infotexts
    set_all_prompts set_all_seeds]. f_equal.
  rewrite drop_app_length'; [done|by rewrite length_fmap].
Qed.

End Paged.

End Chunked.

(** *** Examples *)

Definition value_id (v : value) : Z :=
  match v with VInt n => n | _ => 0 end.

(** A renderer that writes to the state and draws, for every cell, an
    image named after its values. *)
Definition paged_result (x y z : value) : Processed :=
  mkProcessed [Some (Rendered "RGB" (64, 64) (value_id x + 100 * value_id y))]
    [Some "a cat"] [Some (value_id x)] [Some "a cat, Steps: 20"] "a cat" (value_id x)
    64 64 0.

Definition paged_cell (x y z : value) (ix iy iz : nat) : M Processed :=
  bind (alloc (HList [x; y; z])) (λ _, ret (paged_result x y z)).

Definition rounded (v : value) : value :=
  match v with VFloat f => VFloat (float_round8 f) | _ => v end.

Definition ten : list value := VInt <$> [1; 2; 3; 4; 5; 6; 7; 8; 9; 10].


(** What [run] returns in that case: the output of the second chunk.  The
    first chunk is named by [final_processed] and by [chunk_processed], and
    its lists are emptied at the end of the first round. *)
Lemma run_chunked_keeps_the_last_chunk :
  ∃ r s',
    run p0 opt_Seed opt_Size opt_Nothing [VInt 1; VInt 2; VInt 3]
      [VStr "32x32"; VStr "64x64"] nothing "1,2,3" "32x32,64x64" ""
      false false false 2 true false false false false false 0 state0
    = (Ok r, s')
    ∧ images r
      = [Some (Grid [Grid [Rendered "RGB" (32, 32) 3; Rendered "RGB" (64, 64) 3] 2] 1);
         Some (Rendered "RGB" (32, 32) 3); Some (Rendered "RGB" (64, 64) 3)].
Proof. eexists _, _. split; [vm_eq|]. done. Qed.

(** With the saving on the same run raises: the images of the first chunk
    are saved, and then a prompt is asked for that is not there, the
    prompts being one fewer than the images. *)
Lemma run_chunked_raises_when_saving :
  let saving := mkState (heap state0) (mkWorld false false true [] []) in
  ∃ s',
    run p0 opt_Seed opt_Size opt_Nothing [VInt 1; VInt 2; VInt 3]
      [VStr "32x32"; VStr "64x64"] nothing "1,2,3" "32x32,64x64" ""
      false false false 2 true false false false false false 0 saving
    = (Raise IndexError, s')
    ∧ w_saved (wld s') = ["xyz_grid_1_3"; "xyz_grid_1_2"; "xyz_grid_1_1"; "xyz_grid_1"]
    ∧ length (w_rendered (wld s')) = 4%nat.
Proof. intros saving. eexists. split; [vm_eq|]. split; reflexivity. Qed.

(** * More of the script

    ** [itertools.permutations], as the axis "Prompt order" uses it *)

Section Permutations.
Context {A : Type}.

Lemma flat_map_bind {B C : Type} (f : B → list C) (l : list B) : flat_map f l = l ≫= f.
Proof. induction l as [|b l IH]; [done|]. cbn. by rewrite IH. Qed.

Lemma picks_app (l1 l2 : list A) (a : A) : (a, l1 ++ l2) ∈ picks (l1 ++ a :: l2).
Proof.
  induction l1 as [|b l1 IH]; cbn [picks app].
  - apply list_elem_of_here.
  - apply list_elem_of_further.
    apply (list_elem_of_fmap_2 (λ br : A * list A, (br.1, b :: br.2)) _ _ IH).
Qed.

Lemma picks_inv (l : list A) (a : A) (r : list A) :
  (a, r) ∈ picks l → ∃ l1 l2, l = l1 ++ a :: l2 ∧ r = l1 ++ l2.
Proof.
  revert r. induction l as [|b l IH]; intros r; cbn [picks].
  - by intros ?%elem_of_nil.
  - intros [[= -> ->]|Hin]%elem_of_cons; [by exists [], l|].
    apply list_elem_of_fmap_1 in Hin as ([a' r'] & [= -> ->] & Hin).
    destruct (IH r' Hin) as (l1 & l2 & -> & ->). by exists (b :: l1), l2.
Qed.

Lemma length_picks (l : list A) : length (picks l) = length l.
Proof. induction l as [|b l IH]; [done|]. cbn. by rewrite length_fmap, IH. Qed.

Lemma NoDup_picks (l : list A) : NoDup l → NoDup (picks l).*1.
Proof.
  induction l as [|b l IH]; [done|]. cbn [picks fmap list_fmap fst].
  rewrite <- list_fmap_compose. intros [Hb Hl]%NoDup_cons.
  assert ((fst ∘ (λ br : A * list A, (br.1, b :: br.2)) <$> picks l) = (picks l).*1)
    as -> by (by apply list_fmap_ext).
  apply NoDup_cons. split; [|by apply IH].
  intros ([a r] & -> & (l1 & l2 & -> & _)%picks_inv)%list_elem_of_fmap_1.
  apply Hb. cbn. apply elem_of_app. right. apply list_elem_of_here.
Qed.

Lemma length_bind_const {B C : Type} (f : B → list C) (l : list B) (k : nat) :
  (∀ b, b ∈ l → length (f b) = k) → length (l ≫= f) = (length l * k)%nat.
Proof.
  induction l as [|b l IH]; intros Hf; [done|].
  rewrite bind_cons, length_app, IH, Hf; [done|apply list_elem_of_here|].
  intros b' Hb'. apply Hf. by apply list_elem_of_further.
Qed.

Lemma permutations_n_length (n : nat) (l : list A) :
  length l = n → length (permutations_n n l) = fact n.
Proof.
  revert l. induction n as [|n IH]; intros l Hl; [done|].
  cbn [permutations_n]. rewrite flat_map_bind.
  rewrite (length_bind_const _ _ (fact n)).
  - rewrite length_picks, Hl. done.
  - intros [a r] (l1 & l2 & -> & ->)%picks_inv. rewrite length_fmap. apply IH.
    cbn [snd]. rewrite length_app in *. cbn in Hl. lia.
Qed.

Lemma permutations_n_elem (n : nat) (l l' : list A) :
  length l = n → l' ∈ permutations_n n l ↔ l' ≡ₚ l.
Proof.
  revert l l'. induction n as [|n IH]; intros l l' Hl.
  - destruct l; [|done]. cbn. rewrite list_elem_of_singleton. split; [by intros ->|].
    by intros ->%Permutation_nil_r.
  - cbn [permutations_n]. rewrite flat_map_bind, list_elem_of_bind. split.
    + intros ([a r] & Hin & (l1 & l2 & -> & ->)%picks_inv).
      apply list_elem_of_fmap_1 in Hin as (q & -> & Hq). cbn [fst snd] in *.
      apply IH in Hq; [|rewrite length_app in *; cbn in Hl; lia].
      rewrite Hq. by rewrite Permutation_middle.
    + intros Hperm. destruct l' as [|a q].
      { apply Permutation_length in Hperm. by rewrite Hl in Hperm. }
      apply Permutation_cons_inv_l in Hperm as (l1 & l2 & -> & Hq).
      exists (a, l1 ++ l2). split; [|apply picks_app].
      cbn [fst snd]. apply list_elem_of_fmap_2. apply IH; [|done].
      rewrite length_app in *. cbn in Hl. lia.
Qed.

Lemma permutations_n_head (n : nat) (l : list A) :
  length l = n → head (permutations_n n l) = Some l.
Proof.
  revert l. induction n as [|n IH]; intros l Hl; [by destruct l|].
  destruct l as [|a l]; [done|]. cbn [permutations_n picks flat_map fst snd].
  specialize (IH l ltac:(by injection Hl)).
  destruct (permutations_n n l) as [|q qs]; [done|]. by injection IH as ->.
Qed.

Lemma permutations_n_NoDup (n : nat) (l : list A) :
  length l = n → NoDup l → NoDup (permutations_n n l).
Proof.
  revert l. induction n as [|n IH]; intros l Hl Hnd.
  - cbn. apply NoDup_singleton.
  - cbn [permutations_n]. rewrite flat_map_bind. apply NoDup_bind.
    + intros [a1 r1] [a2 r2] q Hin1 Hin2
        (q1 & -> & _)%list_elem_of_fmap_1 (q2 & [= -> ->] & _)%list_elem_of_fmap_1.
      cbn [fst snd] in *. f_equal.
      apply picks_inv in Hin1 as (l1 & l2 & -> & ->).
      apply picks_inv in Hin2 as (l1' & l2' & Heq & ->).
      assert (l1 = l1') as ->.
      { clear -Heq Hnd. revert l1' Heq Hnd.
        induction l1 as [|b l1 IHl]; intros [|b' l1'] Heq Hnd; cbn in *.
        - done.
        - injection Heq as <- ->. apply NoDup_cons in Hnd as [Hnd _].
          exfalso. apply Hnd, elem_of_app. right. apply list_elem_of_here.
        - injection Heq as -> <-. apply NoDup_cons in Hnd as [Hnd _].
          exfalso. apply Hnd, elem_of_app. right. apply list_elem_of_here.
        - injection Heq as <- Heq. apply NoDup_cons in Hnd as [_ Hnd].
          f_equal. by apply IHl. }
      apply app_inv_head in Heq. by injection Heq as ->.
    + intros [a r] (l1 & l2 & -> & ->)%picks_inv. cbn [fst snd].
      apply NoDup_fmap_2; [apply _|]. apply IH.
      * rewrite length_app in *. cbn in Hl. lia.
      * apply NoDup_app in Hnd as (H1 & H2 & [_ H3]%NoDup_cons).
        apply NoDup_app. split; [done|]. split; [|done].
        intros x Hx Hx2. apply (H2 x Hx). by apply list_elem_of_further.
    + apply (NoDup_fmap_1 fst). by apply NoDup_picks.
Qed.


End Permutations.

(** [itertools.permutations] lists every arrangement of the values: there are
    factorial-many, the first is the list as it stands, each is a
    rearrangement of the list and every rearrangement is listed; no
    arrangement comes twice when no value does. *)
Theorem py_permutations_all {A : Type} (l : list A) :
  length (py_permutations l) = fact (length l)
  ∧ head (py_permutations l) = Some l
  ∧ (∀ l', l' ∈ py_permutations l ↔ l' ≡ₚ l)
  ∧ (NoDup l → NoDup (py_permutations l)).
Proof.
  unfold py_permutations. split; [by apply permutations_n_length|].
  split; [by apply permutations_n_head|]. split.
  - intros l'. by apply permutations_n_elem.
  - by apply permutations_n_NoDup.
Qed.

(** ** [draw_xyz_grid]: no cell, and every cell *)

Section DrawTotal.
Context `{Webui}.
Variables (p : loc) (xs ys zs x_labels y_labels z_labels : list value).
Variables (draw_legend draw_individual_labels : bool) (margin_size : Z).
Variable cell : value → value → value → nat → nat → nat → M Processed.

Abbreviation n := (list_size xs ys zs).
Abbreviation visit' :=
  (visit xs ys zs x_labels y_labels z_labels cell draw_individual_labels).

(** X1. With an axis that has no value no cell is visited: the outcome is the
    same whatever the cell is, and it is the result without image,
    [Processed(p, [])], made in the state that the function returns in. *)
Theorem draw_xyz_grid_no_cell first_axes second_axes s :
  xs = [] ∨ ys = [] ∨ zs = [] →
  (∃ s',
     draw_xyz_grid p xs ys zs x_labels y_labels z_labels cell draw_legend
       draw_individual_labels first_axes second_axes margin_size s
     = (Ok (new_Processed s' p [] (VInt (-1)) ""), s')
     ∧ images (new_Processed s' p [] (VInt (-1)) "") = [])
  ∧ (∀ cell',
       draw_xyz_grid p xs ys zs x_labels y_labels z_labels cell' draw_legend
         draw_individual_labels first_axes second_axes margin_size s
       = draw_xyz_grid p xs ys zs x_labels y_labels z_labels cell draw_legend
           draw_individual_labels first_axes second_axes margin_size s).
Proof.
  intros Hempty.
  assert (∀ c, draw_xyz_grid p xs ys zs x_labels y_labels z_labels c draw_legend
                 draw_individual_labels first_axes second_axes margin_size s
               = (Ok (new_Processed s p [] (VInt (-1)) ""), s)) as Hdraw.
  { intros c. unfold draw_xyz_grid, bind.
    rewrite loops_order, (order_nil xs ys zs) by done. reflexivity. }
  split.
  - exists s. split; [apply Hdraw|by rewrite new_Processed_images].
  - intros cell'. by rewrite !Hdraw.
Qed.

(** The slots of the cells in [V] hold an image. *)
Definition filled_at (V : list nat) (r : Processed) : Prop :=
  ∀ k, k ∈ V → ∃ i, images r !! k = Some (Some i).

Lemma stored_filled V r processed c :
  well_formed processed → sized xs ys zs r → in_range xs ys zs c → filled_at V r →
  filled_at (idx xs ys c :: V)
    (stored xs ys x_labels y_labels z_labels draw_individual_labels r processed c).
Proof.
  intros Hwf (Hlen & _) Hc HV k Hk.
  pose proof (index_lt xs ys zs c Hc) as Hidx.
  assert (∃ e, images (stored xs ys x_labels y_labels z_labels draw_individual_labels
                         r processed c)
               = <[idx xs ys c := Some e]> (images r)) as [e ->].
  { unfold stored. destruct Hwf as [Hno|(i & rest & Himg & _)].
    - rewrite Hno. by eexists.
    - unfold shown. rewrite Himg. by eexists. }
  destruct (decide (k = idx xs ys c)) as [->|Hne].
  - exists e. apply list_lookup_insert_eq. lia.
  - rewrite list_lookup_insert_ne by done. apply HV.
    apply elem_of_cons in Hk as [?|?]; done.
Qed.

Lemma visits_fill inv (o : list coords) pr s V :
  total_cell cell inv → inv s →
  labels_fit xs ys zs x_labels y_labels z_labels draw_individual_labels →
  Forall (in_range xs ys zs) o →
  (∀ r, pr = Some r → sized xs ys zs r ∧ filled_at V r) → (pr = None → V = []) →
  ∃ pr' s', for_each o visit' pr s = (Ok pr', s') ∧ inv s'
            ∧ (∀ r, pr' = Some r →
                 sized xs ys zs r ∧ filled_at (rev (idx xs ys <$> o) ++ V) r)
            ∧ (is_Some pr ∨ o ≠ [] → is_Some pr').
Proof.
  intros Hcell Hs Hlab Ho. revert pr s V Hs.
  induction Ho as [|c o Hc Ho IH]; intros pr s V Hs Hpr HV.
  - exists pr, s. split; [done|]. split; [done|]. split; [done|]. by intros [?|?].
  - destruct (Hcell (cx c) (cy c) (cz c) (cix c) (ciy c) (ciz c) s Hs)
      as (r & s1 & Hr & Hwf & Hs1).
    assert (sized xs ys zs (base_of xs ys zs pr r)
            ∧ filled_at V (base_of xs ys zs pr r)) as [Hb Hf].
    { destruct pr as [r0|]; [by apply Hpr|]. split; [apply template_sized|].
      intros k Hk. rewrite HV in Hk by done. by apply elem_of_nil in Hk. }
    destruct (IH (Some (stored xs ys x_labels y_labels z_labels draw_individual_labels
                          (base_of xs ys zs pr r) r c)) s1 (idx xs ys c :: V) Hs1)
      as (pr' & s' & Hloop & Hs' & Hfin & Hsome).
    { intros r' [= <-]. split; [by apply stored_sized|by apply stored_filled]. }
    { done. }
    exists pr', s'. split; [|split; [done|split]].
    + cbn [for_each]. unfold visit at 1, process_cell, bind, lift.
      rewrite Hr. rewrite (store_cell_stored xs ys zs _ _ _ _ r c pr) by done.
      exact Hloop.
    + intros r' Hr'. destruct (Hfin r' Hr') as [Hsz Hfill]. split; [done|].
      rewrite fmap_cons. cbn [rev]. by rewrite <- app_assoc.
    + intros _. apply Hsome. by left.
Qed.

Lemma all_Some {B : Type} (l : list (option B)) :
  (∀ k, (k < length l)%nat → ∃ b, l !! k = Some (Some b)) → ∃ l', l = Some <$> l'.
Proof.
  induction l as [|o l IH]; intros Hl; [by exists []|].
  destruct (Hl 0%nat ltac:(simpl; lia)) as [b [= ->]].
  destruct IH as [l' ->].
  { intros k Hk. apply (Hl (S k)). simpl. lia. }
  by exists (b :: l').
Qed.

Lemma draw_xyz_grid_total inv first_axes second_axes s :
  total_cell cell inv → inv s →
  labels_fit xs ys zs x_labels y_labels z_labels draw_individual_labels →
  planned first_axes second_axes →
  xs ≠ [] → ys ≠ [] → zs ≠ [] →
  ∃ r s',
    draw_xyz_grid p xs ys zs x_labels y_labels z_labels cell draw_legend
      draw_individual_labels first_axes second_axes margin_size s = (Ok r, s')
    ∧ inv s'
    ∧ Forall (λ oi, is_Some oi) (images r)
    ∧ length (images r) = (1 + length zs + n)%nat
    ∧ length (infotexts r) = (1 + length zs + n)%nat
    ∧ length (all_prompts r) = (length zs + n)%nat
    ∧ length (all_seeds r) = (length zs + n)%nat.
Proof.
  intros Hcell Hs Hlab Hplan Hxs Hys Hzs.
  assert (n ≠ 0%nat) as Hn by (intros [?|[?|?]]%list_size_0; done).
  set (o := order xs ys zs first_axes second_axes).
  pose proof (order_Permutation xs ys zs _ _ Hplan) as Hperm. fold o in Hperm.
  assert (idx xs ys <$> o ≡ₚ seq 0 n) as Hpi by (by rewrite Hperm, order_zyx_idx).
  destruct (visits_fill inv o None s [] Hcell Hs Hlab) as (pr & s1 & Hloop & Hs1 & Hfin & Hsome).
  { by apply order_in_range. }
  { by intros r. }
  { done. }
  destruct Hsome as [r ->].
  { right. intros Ho. rewrite Ho in Hpi. symmetry in Hpi.
    apply Permutation_nil_r in Hpi. by destruct n. }
  destruct (Hfin r eq_refl) as [Hsz Hfill].
  destruct (all_Some (images r)) as [imgs Himgs].
  { intros k Hk. apply Hfill. rewrite app_nil_r, rev_alt. apply (elem_of_reverse k).
    rewrite Hpi. apply elem_of_seq. destruct Hsz as [Hlen _]. lia. }
  exists (composed xs ys zs x_labels y_labels z_labels draw_legend margin_size imgs r), s1.
  destruct Hsz as (Hli & Hlp & Hls & Hlt).
  split; [|split; [done|]].
  - unfold draw_xyz_grid. unfold bind at 1. rewrite loops_order. fold o. rewrite Hloop.
    rewrite Himgs.
    assert (existsb truthy (Some <$> imgs) = true) as ->.
    { destruct imgs; [|done]. rewrite Himgs in Hli. simpl in Hli. lia. }
    cbn [negb].
    exact (compose_filled xs ys zs x_labels y_labels z_labels draw_legend margin_size
             imgs r Himgs (conj Hli (conj Hlp (conj Hls Hlt))) Hn s1).
  - unfold composed, with_sub_grids, set_infotexts, set_images.
    cbn [images infotexts all_prompts all_seeds length].
    rewrite !length_app, !length_heads, !length_fmap, length_seq, Hlp, Hls, Hlt.
    rewrite Himgs, length_fmap in Hli. rewrite Himgs, length_fmap, Hli.
    split; [|done].
    constructor; [by eexists|]. apply Forall_app. split.
    + apply Forall_fmap, Forall_forall. intros x _. cbn. by eexists.
    + apply Forall_fmap, Forall_forall. intros x _. cbn. by eexists.
Qed.

(** X2. When every call of the cell returns a result that is well formed, so
    does [draw_xyz_grid]: every slot holds an image (a placeholder for a
    cell without image), the images and the infotexts are the grid, the
    grids of the slices and the cells, and the prompts and the seeds are
    those of the slices and the cells. *)
Theorem draw_xyz_grid_returns inv first_axes second_axes s :
  total_cell cell inv → inv s →
  labels_fit xs ys zs x_labels y_labels z_labels draw_individual_labels →
  planned first_axes second_axes →
  xs ≠ [] → ys ≠ [] → zs ≠ [] →
  ∃ r s',
    draw_xyz_grid p xs ys zs x_labels y_labels z_labels cell draw_legend
      draw_individual_labels first_axes second_axes margin_size s = (Ok r, s')
    ∧ inv s'
    ∧ Forall (λ oi, is_Some oi) (images r)
    ∧ length (images r) = (1 + length zs + n)%nat
    ∧ length (infotexts r) = (1 + length zs + n)%nat
    ∧ length (all_prompts r) = (length zs + n)%nat
    ∧ length (all_seeds r) = (length zs + n)%nat.
Proof. apply draw_xyz_grid_total. Qed.

End DrawTotal.

(** Witness of [draw_xyz_grid_no_cell]: no value on X. *)
Lemma draw_xyz_grid_no_cell_witness :
  ∃ s',
    draw_xyz_grid p0 [] nothing nothing [] nothing nothing demo_cell true false "z" "y" 0
      state0
    = (Ok (new_Processed s' p0 [] (VInt (-1)) ""), s')
    ∧ images (new_Processed s' p0 [] (VInt (-1)) "") = [].
Proof.
  apply (draw_xyz_grid_no_cell p0 [] nothing nothing [] nothing nothing true false 0
           demo_cell "z" "y" state0).
  left. reflexivity.
Defined.

(** Witness of [draw_xyz_grid_returns]: three cells, the first without
    image. *)
Lemma draw_xyz_grid_returns_witness :
  let xs := [VStr "no"; VInt 1; VInt 2] in
  let ys := [VInt 10] in
  ∃ r s',
    draw_xyz_grid p0 xs ys nothing xs ys nothing demo_cell true false "x" "y" 0 state0
    = (Ok r, s')
    ∧ length (images r) = 5%nat.
Proof.
  intros xs ys.
  destruct (draw_xyz_grid_returns p0 xs ys nothing xs ys nothing true false 0 demo_cell
              (λ _, True) "x" "y" state0)
    as (r & s' & Hdraw & _ & _ & Hlen & _).
  - intros x y z ix iy iz s _. eexists _, _. split; [reflexivity|]. split; [|exact I].
    unfold well_formed, demo_result. cbn [cx cy].
    destruct x; try (by left). destruct y; try (by left).
    right. eexists _, _. split; [reflexivity|discriminate].
  - exact I.
  - intros Hd. discriminate Hd.
  - left. split; [reflexivity|left; reflexivity].
  - discriminate.
  - discriminate.
  - discriminate.
  - exists r, s'. split; [exact Hdraw|exact Hlen].
Defined.

(** ** A renderer that fails: the sweep goes on *)

Section Contained.
Context `{Webui}.
Variables (p : loc) (x_opt y_opt z_opt : AxisOption) (xs ys zs : list value).
Variables (x_values y_values z_values : string).
Variables (vary_seeds_x vary_seeds_y vary_seeds_z : bool).
Variables (draw_individual_labels no_fixed_seeds : bool).
Variable grid_infotext : loc.
Variables (x_labels y_labels z_labels : list value).

Abbreviation the_cell :=
  (cell p x_opt y_opt z_opt xs ys zs x_values y_values z_values
     vary_seeds_x vary_seeds_y vary_seeds_z draw_individual_labels no_fixed_seeds
     grid_infotext).
Abbreviation call c := (the_cell (cx c) (cy c) (cz c) (cix c) (ciy c) (ciz c)).
Abbreviation request c :=
  (cell_request p x_opt y_opt z_opt xs ys zs vary_seeds_x vary_seeds_y vary_seeds_z
     (cx c) (cy c) (cz c) (cix c) (ciy c) (ciz c)).
Abbreviation try_block pc c :=
  (render_cell p x_opt y_opt z_opt draw_individual_labels pc
     (cx c) (cy c) (cz c) (cix c) (ciy c) (ciz c)).
Abbreviation bookkeeping pc c :=
  (record_grid_infotext x_opt y_opt z_opt xs ys zs x_values y_values z_values
     no_fixed_seeds grid_infotext pc (cix c) (ciy c) (ciz c)).

(** The cell is not left at its first line. *)
Definition running (s : state) : Prop :=
  interrupted (wld s) || stopping_generation (wld s) = false.

(** What the call of the cell on [c] in the state [s] asks of the code of
    the cell that is not in the [try] block.  A cell that is left at its
    first line reads the seed of the template request.  Otherwise the
    request of the cell is built and, once the [try] block is left, the
    infotexts of the grids are recorded.  The outcome of the block is left
    open: when it is a result, the result is well formed, and when it is
    an exception, the seed of the template request can be read. *)
Definition around_try (c : coords) (s : state) : Prop :=
  if interrupted (wld s) || stopping_generation (wld s)
  then is_Some (attr_of s p "seed")
  else
    ∃ pc s1,
      request c s = (Ok pc, s1)
      ∧ match try_block pc c s1 with
        | (Ok r, s2) =>
            well_formed r ∧ ∃ s3, bookkeeping pc c s2 = (Ok (), s3)
        | (Raise e, s2) =>
            is_Some (attr_of s2 p "seed")
            ∧ ∃ s3, bookkeeping pc c (displayed e s2) = (Ok (), s3)
        end.

(** The same along the cells of [o], each one called in the state that the
    one before it left. *)
Fixpoint around_tries (o : list coords) (s : state) : Prop :=
  match o with
  | [] => True
  | c :: o' => around_try c s ∧ around_tries o' (call c s).2
  end.

(** The same, as a test that can be run. *)
Definition returned {A : Type} (out : result A * state) : bool :=
  match out.1 with Ok _ => true | Raise _ => false end.

Definition well_formed_test (r : Processed) : bool :=
  match images r, infotexts r with
  | [], _ => true
  | Some _ :: _, _ :: _ => true
  | _, _ => false
  end.

Definition has_seed_test (s : state) : bool :=
  match attr_of s p "seed" with Some _ => true | None => false end.

Definition around_try_test (c : coords) (s : state) : bool :=
  if interrupted (wld s) || stopping_generation (wld s) then has_seed_test s
  else
    match request c s with
    | (Ok pc, s1) =>
        match try_block pc c s1 with
        | (Ok r, s2) => well_formed_test r && returned (bookkeeping pc c s2)
        | (Raise e, s2) =>
            has_seed_test s2 && returned (bookkeeping pc c (displayed e s2))
        end
    | (Raise _, _) => false
    end.

Fixpoint around_tries_test (o : list coords) (s : state) : bool :=
  match o with
  | [] => true
  | c :: o' => around_try_test c s && around_tries_test o' (call c s).2
  end.

Lemma returned_Ok (out : result unit * state) :
  returned out = true → ∃ s3, out = (Ok (), s3).
Proof. destruct out as [[[]|e] s3]; [by exists s3|done]. Qed.

Lemma has_seed_test_is_Some s : has_seed_test s = true → is_Some (attr_of s p "seed").
Proof. unfold has_seed_test. by destruct (attr_of s p "seed"). Qed.

Lemma well_formed_test_sound r : well_formed_test r = true → well_formed r.
Proof.
  unfold well_formed_test, well_formed.
  destruct (images r) as [|[i|] rest]; [by left| |done].
  destruct (infotexts r); [done|]. intros _. right. by eexists _, _.
Qed.

Lemma around_try_test_sound c s : around_try_test c s = true → around_try c s.
Proof.
  unfold around_try_test, around_try.
  destruct (interrupted (wld s) || stopping_generation (wld s));
    [apply has_seed_test_is_Some|].
  destruct (request c s) as [[pc|e] s1]; [|done]. intros Hrest. exists pc, s1.
  split; [done|]. destruct (try_block pc c s1) as [[r|e] s2].
  - apply andb_prop in Hrest as [Hwf Hbook]. split; [by apply well_formed_test_sound|].
    by apply returned_Ok.
  - apply andb_prop in Hrest as [Hsd' Hbook]. split; [by apply has_seed_test_is_Some|].
    by apply returned_Ok.
Qed.

Lemma around_tries_test_sound o s : around_tries_test o s = true → around_tries o s.
Proof.
  revert s. induction o as [|c o IH]; intros s; [done|]. cbn [around_tries_test around_tries].
  intros [Hc Ho]%andb_prop. split; [by apply around_try_test_sound|by apply IH].
Qed.

Lemma cell_caught c s pc s1 e s2 sd :
  running s → request c s = (Ok pc, s1) →
  try_block pc c s1 = (Raise e, s2) → attr_of s2 p "seed" = Some sd →
  call c s
  = bind (bookkeeping pc c) (λ _, ret (new_Processed (displayed e s2) p [] sd ""))
      (displayed e s2).
Proof.
  intros Hrun Hreq Htry Hsd. unfold cell. unfold bind at 1, get_state.
  unfold running in Hrun. rewrite Hrun.
  rewrite (bind_Ok _ _ _ _ _ Hreq).
  by rewrite (bind_Ok _ _ _ _ _
                (try_render_caught p x_opt y_opt z_opt draw_individual_labels pc
                   _ _ _ _ _ _ s1 e s2 sd Htry Hsd)).
Qed.

Lemma cell_returned c s pc s1 r s2 :
  running s → request c s = (Ok pc, s1) → try_block pc c s1 = (Ok r, s2) →
  call c s = bind (bookkeeping pc c) (λ _, ret r) s2.
Proof.
  intros Hrun Hreq Htry. unfold cell. unfold bind at 1, get_state.
  unfold running in Hrun. rewrite Hrun.
  rewrite (bind_Ok _ _ _ _ _ Hreq).
  by rewrite (bind_Ok _ _ _ _ _
                (try_render_returned p x_opt y_opt z_opt draw_individual_labels pc
                   _ _ _ _ _ _ s1 r s2 Htry)).
Qed.

(** The call returns, whatever the [try] block does. *)
Lemma around_try_returns c s :
  around_try c s → ∃ r, call c s = (Ok r, (call c s).2) ∧ well_formed r.
Proof.
  unfold around_try.
  destruct (interrupted (wld s) || stopping_generation (wld s)) eqn:Hi.
  - intros [sd Hsd].
    rewrite (cell_interrupted _ _ _ _ _ _ _ _ _ _ _ _ _ _ _ _ _ _ _ _ _ _ _ Hi).
    rewrite (failed_cell_seed p s sd Hsd). eexists. split; [reflexivity|].
    left. by rewrite new_Processed_images.
  - intros (pc & s1 & Hreq & Htry).
    destruct (try_block pc c s1) as [[r|e] s2] eqn:Hb.
    + destruct Htry as (Hwf & s3 & Hbook).
      rewrite (cell_returned c s pc s1 r s2 Hi Hreq Hb).
      rewrite (bind_Ok _ _ _ _ _ Hbook). by exists r.
    + destruct Htry as ([sd' Hsd'] & s3 & Hbook).
      rewrite (cell_caught c s pc s1 e s2 sd' Hi Hreq Hb Hsd').
      rewrite (bind_Ok _ _ _ _ _ Hbook). eexists. split; [reflexivity|].
      left. by rewrite new_Processed_images.
Qed.

Abbreviation visit' :=
  (visit xs ys zs x_labels y_labels z_labels the_cell draw_individual_labels).

Lemma visits_contained (o : list coords) pr s V :
  around_tries o s →
  labels_fit xs ys zs x_labels y_labels z_labels draw_individual_labels →
  Forall (in_range xs ys zs) o →
  (∀ r, pr = Some r → sized xs ys zs r ∧ filled_at V r) → (pr = None → V = []) →
  ∃ pr' s', for_each o visit' pr s = (Ok pr', s')
            ∧ (∀ r, pr' = Some r →
                 sized xs ys zs r ∧ filled_at (rev (idx xs ys <$> o) ++ V) r)
            ∧ (is_Some pr ∨ o ≠ [] → is_Some pr').
Proof.
  intros Halong Hlab Ho. revert pr s V Halong.
  induction Ho as [|c o Hc Ho IH]; intros pr s V Halong Hpr HV.
  - exists pr, s. split; [done|]. split; [done|]. by intros [?|?].
  - destruct Halong as [Hhere Halong].
    destruct (around_try_returns c s Hhere) as (r & Hr & Hwf).
    assert (sized xs ys zs (base_of xs ys zs pr r)
            ∧ filled_at V (base_of xs ys zs pr r)) as [Hb Hf].
    { destruct pr as [r0|]; [by apply Hpr|]. split; [apply template_sized|].
      intros k Hk. rewrite HV in Hk by done. by apply elem_of_nil in Hk. }
    destruct (IH (Some (stored xs ys x_labels y_labels z_labels draw_individual_labels
                          (base_of xs ys zs pr r) r c)) (call c s).2 (idx xs ys c :: V)
                Halong)
      as (pr' & s' & Hloop & Hfin & Hsome).
    { intros r' [= <-]. split; [by apply stored_sized|by apply (stored_filled xs ys zs)]. }
    { done. }
    exists pr', s'. split; [|split].
    + cbn [for_each]. unfold visit at 1, process_cell, bind, lift.
      rewrite Hr. rewrite (store_cell_stored xs ys zs _ _ _ _ r c pr) by done.
      exact Hloop.
    + intros r' Hr'. destruct (Hfin r' Hr') as [Hsz Hfill]. split; [done|].
      rewrite fmap_cons. cbn [rev]. by rewrite <- app_assoc.
    + intros _. apply Hsome. by left.
Qed.

(** C7, as the code has it.  A renderer that raises does not end the call
    of the cell: the [try] block replaces the exception by a result without
    image, the error displayed, and the cell goes on to the bookkeeping
    that follows the block; a renderer that returns no image is carried on
    in the same way.  What the block does not cover can still raise: the
    reading of the seed of the template request, the building of the
    request and that bookkeeping.  When these return along the sweep, the
    loops return whatever the renderer does in any cell, and every slot of
    the container holds an image.  A result without image puts a blank
    placeholder in the slot of its cell: of the mode and size of the image
    in slot 0 of the container, or of mode "P" and of the width and height
    of the container when slot 0 is still unfilled. *)
Theorem renderer_failure_is_contained first_axes second_axes s :
  around_tries (order xs ys zs first_axes second_axes) s →
  labels_fit xs ys zs x_labels y_labels z_labels draw_individual_labels →
  planned first_axes second_axes →
  (∀ c s0 pc s1 e s2 sd,
     running s0 → request c s0 = (Ok pc, s1) →
     process_images pc s1 = (Raise e, s2) → attr_of s2 p "seed" = Some sd →
     call c s0
     = bind (bookkeeping pc c) (λ _, ret (new_Processed (displayed e s2) p [] sd ""))
         (displayed e s2)
     ∧ images (new_Processed (displayed e s2) p [] sd "") = [])
  ∧ (∀ c s0 pc s1 r s2,
       running s0 → request c s0 = (Ok pc, s1) →
       process_images pc s1 = (Ok r, s2) → images r = [] →
       call c s0 = bind (bookkeeping pc c) (λ _, ret r) s2)
  ∧ (∃ pr s',
       loops xs ys zs x_labels y_labels z_labels the_cell draw_individual_labels
         first_axes second_axes s
       = (Ok pr, s')
       ∧ (list_size xs ys zs ≠ 0%nat →
          ∃ r, pr = Some r ∧ sized xs ys zs r
               ∧ ∀ c, valid xs ys zs c → ∃ i, images r !! idx xs ys c = Some (Some i)))
  ∧ (∀ processed c r,
       images processed = [] → in_range xs ys zs c → sized xs ys zs r →
       ∃ slot0,
         images r !! 0%nat = Some slot0
         ∧ store_cell xs ys zs x_labels y_labels z_labels draw_individual_labels
             processed (cix c) (ciy c) (ciz c) (Some r)
           = Ok (Some (set_images r
                         (<[index xs ys (cix c) (ciy c) (ciz c) :=
                              Some (Image_new
                                      (match slot0 with
                                       | Some i => image_mode i
                                       | None => "P"
                                       end)
                                      (match slot0 with
                                       | Some i => image_size i
                                       | None => (width r, height r)
                                       end))]> (images r))))).
Proof.
  intros Halong Hlab Hplan. split; [|split; [|split]].
  - intros c s0 pc s1 e s2 sd Hrun Hreq Hp Hsd. split.
    + apply (cell_caught c s0 pc s1 e s2 sd Hrun Hreq); [|done].
      by apply render_cell_raise.
    + by rewrite new_Processed_images.
  - intros c s0 pc s1 r s2 Hrun Hreq Hp Hr.
    apply (cell_returned c s0 pc s1 r s2 Hrun Hreq).
    by apply render_cell_no_image.
  - rewrite loops_order.
    set (o := order xs ys zs first_axes second_axes) in *.
    pose proof (order_Permutation xs ys zs _ _ Hplan) as Hperm. fold o in Hperm.
    assert (idx xs ys <$> o ≡ₚ seq 0 (list_size xs ys zs)) as Hpi
      by (by rewrite Hperm, order_zyx_idx).
    destruct (visits_contained o None s [] Halong Hlab)
      as (pr & s' & Hloop & Hfin & Hsome).
    { by apply order_in_range. }
    { by intros r. }
    { done. }
    exists pr, s'. split; [done|]. intros Hn.
    destruct Hsome as [r ->].
    { right. intros Ho. rewrite Ho in Hpi. symmetry in Hpi.
      apply Permutation_nil_r in Hpi. by destruct (list_size xs ys zs). }
    destruct (Hfin r eq_refl) as [Hsz Hfill].
    exists r. split; [done|]. split; [done|]. intros c Hc. apply Hfill.
    rewrite app_nil_r, rev_alt. apply (elem_of_reverse (idx xs ys c)).
    rewrite Hpi. apply elem_of_seq.
    pose proof (index_lt xs ys zs c (valid_in_range xs ys zs c Hc)). lia.
  - intros processed c r Himg Hc Hr.
    pose proof (index_lt xs ys zs c Hc) as Hk.
    destruct (images r !! 0%nat) as [slot0|] eqn:Hslot.
    2: { apply lookup_ge_None in Hslot. destruct Hr as (Hi & _). lia. }
    exists slot0. split; [done|].
    rewrite (store_cell_stored xs ys zs x_labels y_labels z_labels
               draw_individual_labels processed c (Some r)); [|by left|done..].
    cbn [base_of]. unfold stored, placeholder, idx. by rewrite Himg, Hslot.
Qed.

End Contained.

(** Witness of [renderer_failure_is_contained]: three sizes on X, of which
    the first and the last are too large for the renderer of the small
    host, which raises on them. *)
Lemma renderer_failure_is_contained_witness :
  let xs := [VStr "100x100"; VStr "32x32"; VStr "200x200"] in
  let s := (alloc (HList (replicate 2 VNone)) state0).2 in
  let the_cell :=
    cell p0 opt_Size opt_Nothing opt_Nothing xs nothing nothing
      "100x100,32x32,200x200" "" "" false false false false false 4%nat in
  (∃ pc s1 s2,
     cell_request p0 opt_Size opt_Nothing opt_Nothing xs nothing nothing
       false false false (VStr "100x100") (VInt 0) (VInt 0) 0 0 0 s
     = (Ok pc, s1)
     ∧ process_images pc s1 = (Raise (OtherException "OutOfMemoryError"), s2))
  ∧ ∃ pr s',
      loops xs nothing nothing xs nothing nothing the_cell false "z" "y" s = (Ok pr, s')
      ∧ (list_size xs nothing nothing ≠ 0%nat →
         ∃ r, pr = Some r ∧ sized xs nothing nothing r
              ∧ ∀ c, valid xs nothing nothing c →
                     ∃ i, images r !! idx xs nothing c = Some (Some i)).
Proof.
  intros xs s the_cell. split.
  { eexists _, _, _. split; [vm_eq|]. vm_eq. }
  refine (proj1 (proj2 (proj2
            (renderer_failure_is_contained p0 opt_Size opt_Nothing opt_Nothing
               xs nothing nothing "100x100,32x32,200x200" "" "" false false false
               false false 4%nat xs nothing nothing "z" "y" s _ _ _)))).
  - apply around_tries_test_sound. vm_eq.
  - intros Hd. discriminate Hd.
  - right. right. split; [reflexivity|right; reflexivity].
Defined.

(** The small host again, but for [create_infotext], which here looks up
    the seeds it is given and so fails on [None], the value of
    [pc.all_seeds] of a request that the renderer gave up on. *)
Definition strict_webui : Webui := {|
  process_images := demo_process_images;
  new_Processed := demo_new_Processed;
  new_Processed_images := λ _ _ _ _ _, eq_refl;
  create_infotext := λ pc ap asd ass,
    match asd with
    | VNone => raise TypeError
    | _ =>
        bind (attr_str pc "prompt") (λ pr,
          bind (attr_int pc "seed") (λ sd, ret (pr +:+ ", Seed: " +:+ Z_str sd)))
    end;
  save_image := demo_save_image;
  errors_display := λ e w, w;
  reload_model_weights := λ w, w;
  reload_vae_weights := λ w, w;
|}.

(** C7, as stated, fails twice.  The sizes 100x100 and 200x200 are too
    large for the renderer of the example, which raises; 32x32 is rendered.
    On the small host the third cell fails after the second one succeeded,
    and its placeholder has the size of the placeholder in slot 0, not the
    size of the image that was rendered.  On the host whose
    [create_infotext] looks up the seeds, the failure of the first cell
    ends the sweep: the infotext of the grid is asked for after the [try]
    block, the exception of [create_infotext] leaves the cell, and no other
    cell is rendered. *)
Lemma failed_cell_is_not_handled_as_claimed :
  (∃ r s',
     run p0 opt_Size opt_Nothing opt_Nothing
       [VStr "100x100"; VStr "32x32"; VStr "200x200"] nothing nothing
       "100x100,32x32,200x200" "" "" false false false 0 true false
       false false false false 0 state0
     = (Ok r, s')
     ∧ images r !! 2%nat = Some (Some (Rendered "RGB" (32, 32) 5))
     ∧ images r !! 3%nat = Some (Some (Blank "P" (64, 64)))
     ∧ image_size (Blank "P" (64, 64)) ≠ image_size (Rendered "RGB" (32, 32) 5))
  ∧ (∃ s',
       @run runtime imaging the_world strict_webui p0 opt_Size opt_Nothing opt_Nothing
         [VStr "100x100"; VStr "32x32"; VStr "200x200"] nothing nothing
         "100x100,32x32,200x200" "" "" false false false 0 true false
         false false false false 0 state0
       = (Raise TypeError, s')
       ∧ w_rendered (wld s') = [5%nat]).
Proof.
  split.
  - eexists _, _. split; [vm_eq|]. repeat split. discriminate.
  - eexists. split; [vm_eq|]. reflexivity.
Qed.

(** When the first cell is rendered, the same host contains the failures
    of the next two. *)
Lemma later_failures_are_contained :
  ∃ r s',
    @run runtime imaging the_world strict_webui p0 opt_Size opt_Nothing opt_Nothing
      [VStr "32x32"; VStr "100x100"; VStr "200x200"] nothing nothing
      "32x32,100x100,200x200" "" "" false false false 0 true false
      false false false false 0 state0
    = (Ok r, s')
    ∧ w_rendered (wld s') = [5%nat; 9%nat; 11%nat].
Proof. eexists _, _. split; [vm_eq|]. reflexivity. Qed.

(** ** What [run] makes of the chunks *)

Section Keeps.
Context `{Webui}.
Variable P : state → Prop.

(** The statement [m] ends, however it ends, in a state of [P] when it
    starts in one. *)
Definition keeps {A : Type} (m : M A) : Prop := ∀ s, P s → P (m s).2.

Lemma keeps_ret {A : Type} (a : A) : keeps (ret a).
Proof. by intros s Hs. Qed.

Lemma keeps_lift {A : Type} (r : result A) : keeps (lift r).
Proof. by intros s Hs. Qed.

Lemma keeps_get_state : keeps get_state.
Proof. by intros s Hs. Qed.

Lemma keeps_bind {A B : Type} (m : M A) (k : A → M B) :
  keeps m → (∀ a, keeps (k a)) → keeps (bind m k).
Proof.
  intros Hm Hk s Hs. unfold bind. specialize (Hm s Hs).
  destruct (m s) as [[a|e] s1]; [by apply Hk|done].
Qed.

Lemma keeps_for_each {A V : Type} (l : list A) (body : A → V → M V) (v : V) :
  (∀ a v, keeps (body a v)) → keeps (for_each l body v).
Proof.
  intros Hbody. revert v. induction l as [|a l IH]; intros v; [apply keeps_ret|].
  cbn [for_each]. apply keeps_bind; [apply Hbody|]. intros v'. apply IH.
Qed.

Lemma keeps_draw_xyz_grid p xs ys zs x_labels y_labels z_labels cell draw_legend
    draw_individual_labels first_axes second_axes margin_size :
  (∀ x y z ix iy iz, keeps (cell x y z ix iy iz)) →
  keeps (draw_xyz_grid p xs ys zs x_labels y_labels z_labels cell draw_legend
           draw_individual_labels first_axes second_axes margin_size).
Proof.
  intros Hcell. unfold draw_xyz_grid. apply keeps_bind.
  - intros s Hs. rewrite loops_order. revert s Hs. apply keeps_for_each.
    intros c v. unfold visit, process_cell. apply keeps_bind; [apply Hcell|].
    intros r. apply keeps_lift.
  - intros [r|]; [|apply keeps_bind; [apply keeps_get_state|intros; apply keeps_ret]].
    destruct (negb _); [apply keeps_bind; [apply keeps_get_state|intros; apply keeps_ret]|].
    apply keeps_bind.
    + apply keeps_for_each. intros i r'. unfold insert_sub_grid.
      repeat first [apply keeps_ret | apply keeps_lift
                   | apply keeps_bind; [|intros ?] | destruct draw_legend].
    + intros r'. unfold insert_z_grid.
      repeat first [apply keeps_ret | apply keeps_lift | apply keeps_bind; [|intros ?]].
Qed.

End Keeps.

Section PagedRun.
Context `{Webui}.
Local Open Scope m_scope.
Variables (p : loc) (x_opt y_opt z_opt : AxisOption).
Variables (draw_legend draw_individual_labels : bool) (margin_size : Z).
Variable the_cell : value → value → value → nat → nat → nat → M Processed.
Variables (first_axes second_axes : string).
Variable g : value → value → value → Processed.
Variables fx fy fz : value → value.
Variable inv : state → Prop.
Variables xs ys zs : list value.

Abbreviation determined' := (value_determined the_cell g inv).
Abbreviation renders' := (always_renders g).
Abbreviation kept' := (kept draw_individual_labels g fx fy fz).
Abbreviation cells_of chunk := (kept' <$> chunk_triples xs ys zs chunk).
Abbreviation chunk_output' :=
  (chunk_output p x_opt y_opt z_opt xs ys zs draw_legend draw_individual_labels
     false true margin_size the_cell first_axes second_axes).
Abbreviation chunk_round' :=
  (chunk_round p x_opt y_opt z_opt xs ys zs draw_legend draw_individual_labels
     false true margin_size the_cell first_axes second_axes).

(** The renderer and the result objects that [run] makes for the chunks are
    apart: the states of [inv] stay so when such an object is made or
    written, and the cell leaves these objects as they are. *)
Definition results_apart : Prop :=
  (∀ s o, inv s → inv (mkState (heap s ++ [HProcessed o]) (wld s)))
  ∧ (∀ s l o o', inv s → heap s !! l = Some (HProcessed o) →
       inv (mkState (<[l := HProcessed o']> (heap s)) (wld s)))
  ∧ (∀ x y z ix iy iz s l o, inv s → heap s !! l = Some (HProcessed o) →
       heap (the_cell x y z ix iy iz s).2 !! l = Some (HProcessed o)).

(** [opts.grid_save] is off, or on, in the states of [inv]. *)
Definition never_saves : Prop := ∀ s, inv s → grid_save (wld s) = false.
Definition always_saves : Prop := ∀ s, inv s → grid_save (wld s) = true.

Lemma chunk_output_keeps (P : state → Prop) chunk :
  (∀ x y z ix iy iz, keeps P (the_cell x y z ix iy iz)) → keeps P (chunk_output' chunk).
Proof.
  intros Hcell. unfold chunk_output. apply keeps_bind.
  - unfold draw, labels.
    repeat (apply keeps_bind; [apply keeps_lift|intros ?]).
    by apply keeps_draw_xyz_grid.
  - intros r. cbn [lone_images].
    repeat first [apply keeps_ret | apply keeps_lift | apply keeps_bind; [|intros ?]].
Qed.

Lemma cell_keeps_inv :
  determined' → ∀ x y z ix iy iz, keeps inv (the_cell x y z ix iy iz).
Proof. intros Hcell x y z ix iy iz s Hs. by apply Hcell. Qed.

Lemma cell_keeps_result fp F :
  determined' → results_apart →
  ∀ x y z ix iy iz,
    keeps (λ s, inv s ∧ heap s !! fp = Some (HProcessed F)) (the_cell x y z ix iy iz).
Proof.
  intros Hcell (_ & _ & Hframe) x y z ix iy iz s [Hs Hfp]. split.
  - by apply Hcell.
  - by apply Hframe.
Qed.

Section Rounds.
Hypothesis Hcell : determined'.
Hypothesis Hg : renders'.
Hypothesis Hfx : formats p x_opt fx.
Hypothesis Hfy : formats p y_opt fy.
Hypothesis Hfz : formats p z_opt fz.
Hypothesis Hplan : planned first_axes second_axes.
Hypothesis Hxs : xs ≠ [].
Hypothesis Hys : ys ≠ [].
Hypothesis Hzs : zs ≠ [].

Lemma chunk_output_returns chunk s :
  inv s → chunk ≠ [] →
  ∃ r top,
    chunk_output' chunk s = (Ok r, (chunk_output' chunk s).2)
    ∧ images r = Some top :: (Some <$> cells_of chunk).
Proof.
  intros Hs Hc.
  destruct (chunk_output_kept p x_opt y_opt z_opt draw_legend draw_individual_labels
              margin_size the_cell first_axes second_axes g fx fy fz inv xs ys zs
              chunk s) as (r & top & Hr & Himg); try done.
  exists r, top. split; [|done].
  destruct (chunk_output' chunk s) as [res s1]. cbn [fst snd] in *. by subst res.
Qed.

Lemma chunks_first k (l : list value) :
  (0 < k)%nat → l ≠ [] → ∃ c0 rest, chunks k l = c0 :: rest.
Proof. intros Hk Hl. destruct l as [|a l]; [done|]. by eexists _, _. Qed.

Lemma main_values_not_nil : main_values xs ys zs ≠ [].
Proof. unfold main_values. by repeat destruct (String.eqb _ _). Qed.

Section Off.
Hypothesis Hapart : results_apart.
Hypothesis Hoff : never_saves.

(** The first round: the object of the chunk is made, named by
    [final_processed], and emptied. *)
Lemma first_round chunk s :
  inv s → chunk ≠ [] →
  ∃ fp F s', chunk_round' (0%nat, chunk) None s = (Ok (Some fp), s')
             ∧ inv s' ∧ heap s' !! fp = Some (HProcessed F) ∧ images F = [].
Proof.
  intros Hs Hc. destruct Hapart as (Hnew & Hset & _).
  destruct (chunk_output_returns chunk s Hs Hc) as (r & top & Hout & _).
  set (s1 := (chunk_output' chunk s).2) in *.
  assert (inv s1) as Hs1.
  { apply (chunk_output_keeps inv chunk (cell_keeps_inv Hcell) s Hs). }
  unfold chunk_round. cbn [fst snd]. rewrite (bind_Ok _ _ _ _ _ Hout).
  unfold bind at 1, alloc at 1.
  set (s2 := mkState (heap s1 ++ [HProcessed r]) (wld s1)).
  unfold bind at 1, get_state at 1. cbn [wld s2]. rewrite (Hoff s1 Hs1).
  unfold bind at 1, ret at 1. cbn [Nat.eqb]. unfold bind at 1, ret at 1.
  assert (heap s2 !! length (heap s1) = Some (HProcessed r)) as Hcp.
  { unfold s2. cbn [heap]. rewrite lookup_app_r by lia. by rewrite Nat.sub_diag. }
  unfold load_Processed. unfold bind at 1. unfold bind at 1, load at 1. rewrite Hcp.
  cbn [of_option]. unfold ret at 1. unfold bind, store, ret.
  eexists _, _, _. split; [reflexivity|]. split; [|split].
  - unfold s2. cbn [heap wld]. apply (Hset s2 _ r); [by apply Hnew|done].
  - cbn [heap]. apply list_lookup_insert_eq. by eapply lookup_lt_Some.
  - done.
Qed.

(** A later round: the lists of the chunk are appended to those of the
    object that [final_processed] names. *)
Lemma later_round i chunk fp F s :
  i ≠ 0%nat → inv s → chunk ≠ [] → heap s !! fp = Some (HProcessed F) →
  ∃ F' top s', chunk_round' (i, chunk) (Some fp) s = (Ok (Some fp), s')
               ∧ inv s' ∧ heap s' !! fp = Some (HProcessed F')
               ∧ images F' = images F ++ Some top :: (Some <$> cells_of chunk).
Proof.
  intros Hi Hs Hc Hfp. destruct Hapart as (Hnew & Hset & _).
  destruct (chunk_output_returns chunk s Hs Hc) as (r & top & Hout & Himg).
  set (s1 := (chunk_output' chunk s).2) in *.
  assert (inv s1 ∧ heap s1 !! fp = Some (HProcessed F)) as [Hs1 Hfp1].
  { apply (chunk_output_keeps (λ s, inv s ∧ heap s !! fp = Some (HProcessed F)) chunk
             (cell_keeps_result fp F Hcell Hapart) s). by split. }
  pose proof (lookup_lt_Some _ _ _ Hfp1) as Hlt.
  unfold chunk_round. cbn [fst snd]. rewrite (bind_Ok _ _ _ _ _ Hout).
  unfold bind at 1, alloc at 1.
  set (s2 := mkState (heap s1 ++ [HProcessed r]) (wld s1)).
  assert (inv s2) as Hs2 by (by apply Hnew).
  unfold bind at 1, get_state at 1. cbn [wld s2]. rewrite (Hoff s1 Hs1).
  unfold bind at 1, ret at 1. apply Nat.eqb_neq in Hi. rewrite Hi.
  assert (heap s2 !! length (heap s1) = Some (HProcessed r)) as Hcp.
  { unfold s2. cbn [heap]. rewrite lookup_app_r by lia. by rewrite Nat.sub_diag. }
  assert (heap s2 !! fp = Some (HProcessed F)) as Hfp2.
  { unfold s2. cbn [heap]. by rewrite lookup_app_l. }
  assert (∀ l o st, heap st !! l = Some (HProcessed o) →
            load_Processed l st = (Ok o, st)) as Hload.
  { intros l o st Hl. unfold load_Processed, bind, load. by rewrite Hl. }
  set (s3 := mkState (<[fp := HProcessed (extend F r)]> (heap s2)) (wld s2)).
  assert ((f <- load_Processed fp ;; c <- load_Processed (length (heap s1)) ;;
           store fp (HProcessed (extend f c)) ;; ret (Some fp)) s2
          = (Ok (Some fp), s3)) as Hinner.
  { rewrite (bind_Ok _ _ _ _ _ (Hload _ _ _ Hfp2)).
    by rewrite (bind_Ok _ _ _ _ _ (Hload _ _ _ Hcp)). }
  rewrite (bind_Ok _ _ _ _ _ Hinner).
  assert (heap s3 !! length (heap s1) = Some (HProcessed r)) as Hcp3.
  { unfold s3. cbn [heap]. rewrite list_lookup_insert_ne by lia. done. }
  rewrite (bind_Ok _ _ _ _ _ (Hload _ _ _ Hcp3)).
  unfold bind, store, ret.
  exists (extend F r), top. eexists. split; [reflexivity|]. split; [|split].
  - apply (Hset s3 _ r); [|done]. unfold s3. by apply (Hset s2 _ F).
  - cbn [heap]. rewrite list_lookup_insert_ne by lia. unfold s3. cbn [heap].
    apply list_lookup_insert_eq. unfold s2. cbn [heap]. rewrite length_app. lia.
  - cbn [extend images set_images set_all_prompts set_all_seeds set_infotexts].
    by rewrite Himg.
Qed.

(** The rounds after the first one. *)
Lemma later_rounds (l : list (list value)) i fp F s :
  i ≠ 0%nat → Forall (λ c, c ≠ []) l → inv s → heap s !! fp = Some (HProcessed F) →
  ∃ F' tops s',
    for_each (zip (seq i (length l)) l) chunk_round' (Some fp) s = (Ok (Some fp), s')
    ∧ heap s' !! fp = Some (HProcessed F')
    ∧ length tops = length l
    ∧ images F'
      = images F ++ concat (zip_with (λ top c, Some top :: (Some <$> cells_of c)) tops l).
Proof.
  intros Hi Hl. revert i F s Hi.
  induction Hl as [|c l Hc Hl IH]; intros i F s Hi Hs Hfp.
  - exists F, [], s. split; [done|]. split; [done|]. split; [done|].
    cbn. by rewrite app_nil_r.
  - destruct (later_round i c fp F s Hi Hs Hc Hfp)
      as (F1 & top & s1 & Hround & Hs1 & Hfp1 & Himg1).
    destruct (IH (S i) F1 s1 ltac:(lia) Hs1 Hfp1) as (F' & tops & s' & Hloop & Hfp' & Hlen & Himg').
    exists F', (top :: tops), s'. split; [|split; [done|split]].
    + cbn [length seq zip zip_with for_each]. rewrite (bind_Ok _ _ _ _ _ Hround).
      exact Hloop.
    + cbn. by rewrite Hlen.
    + rewrite Himg', Himg1. cbn [zip_with concat]. by rewrite <- app_assoc.
Qed.

(** With the saving off [run] returns: the result holds the outputs of the
    chunks but the first. *)
Lemma run_chunked_off (k : nat) c0 rest s :
  (0 < k)%nat → chunks k (main_values xs ys zs) = c0 :: rest → inv s →
  ∃ R tops s',
    run_chunked p x_opt y_opt z_opt xs ys zs draw_legend draw_individual_labels false
      (Z.of_nat k) true margin_size the_cell first_axes second_axes
      (main_values xs ys zs) s
    = (Ok R, s')
    ∧ length tops = length rest
    ∧ images R
      = concat (zip_with (λ top c, Some top :: (Some <$> cells_of c)) tops rest).
Proof.
  intros Hk Hcs Hs.
  destruct (chunks_spec k (main_values xs ys zs) Hk) as (_ & Hsz & _).
  rewrite Hcs in Hsz.
  assert (Forall (λ c : list value, c ≠ []) (c0 :: rest)) as Hne.
  { eapply Forall_impl; [exact Hsz|]. intros c Hc ->. simpl in Hc. lia. }
  apply Forall_cons in Hne as [Hc0 Hrest].
  destruct (first_round c0 s Hs Hc0) as (fp & F & s1 & Hfirst & Hs1 & Hfp & HF).
  destruct (later_rounds rest 1 fp F s1 ltac:(lia) Hrest Hs1 Hfp)
    as (F' & tops & s' & Hloop & Hfp' & Hlen & Himg).
  exists F', tops, s'. split; [|split; [done|]].
  - unfold run_chunked. rewrite Nat2Z.id, Hcs.
    unfold enumerate. cbn [length seq zip zip_with for_each].
    unfold bind at 1. unfold bind at 1. rewrite Hfirst.
    change (zip_with pair (seq 1 (length rest)) rest) with (zip (seq 1 (length rest)) rest).
    rewrite Hloop. unfold load_Processed, bind, load. by rewrite Hfp'.
  - by rewrite Himg, HF.
Qed.

End Off.

Lemma for_each_raises {A V : Type} (l : list A) (body : A → V → M V) (a : A) :
  a ∈ l → (∀ v s, ∃ e s', body a v s = (Raise e, s')) →
  ∀ v s, ∃ e s', for_each l body v s = (Raise e, s').
Proof.
  intros Ha Hbody. induction l as [|b l IH]; intros v s.
  - by apply elem_of_nil in Ha.
  - cbn [for_each]. unfold bind.
    destruct (body b v s) as [[v1|e] s1] eqn:Hb; [|by eexists _, _].
    apply elem_of_cons in Ha as [<-|Ha].
    + destruct (Hbody v s) as (e & s' & He). congruence.
    + by apply IH.
Qed.

(** The prompts fall short of the images: the loop that saves the chunk
    does not end. *)
Lemma save_chunk_raises i r s :
  (length (all_prompts r) < length (images r))%nat →
  ∃ e s', save_chunk i r s = (Raise e, s').
Proof.
  intros Hshort. unfold save_chunk.
  apply (for_each_raises _ _ (length (all_prompts r))).
  - apply elem_of_seq. lia.
  - intros [] s0. unfold save_entry, bind, lift, py_index.
    destruct (images r !! length (all_prompts r)) as [img|]; [|by eexists _, _].
    cbn [of_option].
    destruct (infotexts r !! length (all_prompts r)) as [info|]; [|by eexists _, _].
    cbn [of_option].
    rewrite (proj2 (lookup_ge_None (all_prompts r) _)) by lia. by eexists _, _.
Qed.

Lemma keep_lone_length {B : Type} (z_count : nat) (l : list B) :
  l ≠ [] → ∃ l', keep_lone z_count l = Ok l'
                 ∧ length l' = (1 + (length l - 1 - z_count))%nat.
Proof.
  destruct l as [|a t]; [done|]. intros _. rewrite keep_lone_cons. eexists.
  split; [done|]. cbn [length]. rewrite length_drop. lia.
Qed.

Lemma total_of_determined : total_cell the_cell inv.
Proof.
  intros x y z ix iy iz s Hs. destruct (Hcell x y z ix iy iz s Hs) as [Hr Hs'].
  exists (g x y z), (the_cell x y z ix iy iz s).2. split; [|split; [|done]].
  - destruct (the_cell x y z ix iy iz s) as [res s1]. cbn [fst snd] in *. by subst res.
  - right. apply Hg.
Qed.

(** The output of a chunk holds one prompt fewer than it holds images. *)
Lemma chunk_output_short chunk s :
  inv s → chunk ≠ [] →
  ∃ r s1, chunk_output' chunk s = (Ok r, s1)
          ∧ (length (all_prompts r) < length (images r))%nat.
Proof.
  intros Hs Hc. unfold chunk_output.
  set (xs' := if String.eqb (main_axis xs ys zs) "x" then chunk else xs).
  set (ys' := if String.eqb (main_axis xs ys zs) "y" then chunk else ys).
  set (zs' := if String.eqb (main_axis xs ys zs) "z" then chunk else zs).
  assert (xs' ≠ []) as Hx'.
  { clear -Hc Hxs. subst xs'. destruct (String.eqb _ _); assumption. }
  assert (ys' ≠ []) as Hy'.
  { clear -Hc Hys. subst ys'. destruct (String.eqb _ _); assumption. }
  assert (zs' ≠ []) as Hz'.
  { clear -Hc Hzs. subst zs'. destruct (String.eqb _ _); assumption. }
  destruct (draw_xyz_grid_total p xs' ys' zs' (fx <$> xs') (fy <$> ys') (fz <$> zs')
              draw_legend draw_individual_labels margin_size the_cell inv
              first_axes second_axes s total_of_determined Hs)
    as (r & s1 & Hd & _ & _ & Hli & Hlt & Hlp & Hls); try done.
  { intros _. by rewrite !length_fmap. }
  assert (list_size xs' ys' zs' ≠ 0%nat) as Hn.
  { intros [?|[?|?]]%list_size_0; done. }
  assert (length zs' ≠ 0%nat) as Hnz by (by destruct zs').
  unfold bind at 1. unfold draw, labels.
  rewrite (rmapM_formats p x_opt fx xs' Hfx), (rmapM_formats p y_opt fy ys' Hfy),
    (rmapM_formats p z_opt fz zs' Hfz). rewrite !bind_lift_Ok. rewrite Hd.
  cbn [lone_images].
  destruct (keep_lone_length (length zs') (images r)) as (imgs & -> & Himgs).
  { intros Hnil. rewrite Hnil in Hli. simpl in Hli. lia. }
  destruct (keep_lone_length (length zs') (infotexts r)) as (infos & -> & Hinfos).
  { intros Hnil. rewrite Hnil in Hlt. simpl in Hlt. lia. }
  destruct (keep_lone_length (length zs') (all_prompts r)) as (prompts & -> & Hprompts).
  { intros Hnil. rewrite Hnil in Hlp. simpl in Hlp. lia. }
  destruct (keep_lone_length (length zs') (all_seeds r)) as (seeds & -> & Hseeds).
  { intros Hnil. rewrite Hnil in Hls. simpl in Hls. lia. }
  rewrite !bind_lift_Ok. eexists _, _. split; [reflexivity|].
  cbn [images all_prompts set_images set_infotexts set_all_prompts set_all_seeds].
  rewrite Himgs, Hprompts, Hli, Hlp. lia.
Qed.

Section On.
Hypothesis Hon : always_saves.

(** With the saving on [run] does not return: the first round raises. *)
Lemma run_chunked_on (k : nat) s :
  (0 < k)%nat → inv s →
  ∃ e s',
    run_chunked p x_opt y_opt z_opt xs ys zs draw_legend draw_individual_labels false
      (Z.of_nat k) true margin_size the_cell first_axes second_axes
      (main_values xs ys zs) s
    = (Raise e, s').
Proof.
  intros Hk Hs.
  destruct (chunks_first k (main_values xs ys zs) Hk main_values_not_nil)
    as (c0 & rest & Hcs).
  destruct (chunks_spec k (main_values xs ys zs) Hk) as (_ & Hsz & _).
  rewrite Hcs in Hsz. apply Forall_cons in Hsz as [Hc0 _].
  assert (c0 ≠ []) as Hne by (intros ->; simpl in Hc0; lia).
  destruct (chunk_output_short c0 s Hs Hne) as (r & s1 & Hout & Hshort).
  assert (inv s1) as Hs1.
  { pose proof (chunk_output_keeps inv c0 (cell_keeps_inv Hcell) s Hs) as Hk1.
    by rewrite Hout in Hk1. }
  set (s2 := mkState (heap s1 ++ [HProcessed r]) (wld s1)).
  destruct (save_chunk_raises 0 r s2 Hshort) as (e & s' & Hsave).
  exists e, s'.
  unfold run_chunked. rewrite Nat2Z.id, Hcs.
  unfold enumerate. cbn [length seq zip zip_with for_each].
  unfold bind at 1. unfold bind at 1. unfold chunk_round. cbn [fst snd].
  rewrite (bind_Ok _ _ _ _ _ Hout).
  unfold bind at 1, alloc at 1. fold s2.
  unfold bind at 1, get_state at 1. cbn [wld s2]. rewrite (Hon s1 Hs1).
  unfold bind at 1. by rewrite Hsave.
Qed.

End On.

End Rounds.

(** The branch that [run] takes. *)
Lemma run_body_chunked (k : nat) include_sub_grids grid_infotext s :
  (0 < k)%nat → (1 < length (main_values xs ys zs))%nat →
  run_body p x_opt y_opt z_opt xs ys zs draw_legend draw_individual_labels false
    (Z.of_nat k) true include_sub_grids margin_size the_cell first_axes second_axes
    grid_infotext s
  = run_chunked p x_opt y_opt z_opt xs ys zs draw_legend draw_individual_labels false
      (Z.of_nat k) true margin_size the_cell first_axes second_axes
      (main_values xs ys zs) s.
Proof.
  intros Hk Hlen. unfold run_body. fold (main_values xs ys zs).
  apply Nat.ltb_lt in Hlen. rewrite Hlen.
  assert ((0 <? Z.of_nat k) = true) as -> by (apply Z.ltb_lt; lia). done.
Qed.


End PagedRun.


(** ** The clone of the request *)

Section Objects.
Context `{Webui}.

Lemma load_Some l o s : heap s !! l = Some o → load l s = (Ok o, s).
Proof. intros Hl. unfold load. by rewrite Hl. Qed.

Lemma getattr_Some o a name v s :
  heap s !! o = Some (HObj a) → a !! name = Some v → getattr o name s = (Ok v, s).
Proof.
  intros Ho Hv. unfold getattr. rewrite (bind_Ok _ _ _ _ _ (load_Some _ _ _ Ho)).
  unfold lift. by rewrite Hv.
Qed.

Lemma setattr_Some o a name v s :
  heap s !! o = Some (HObj a) →
  setattr o name v s
  = (Ok (), mkState (<[o := HObj (<[name := v]> a)]> (heap s)) (wld s)).
Proof.
  intros Ho. unfold setattr. by rewrite (bind_Ok _ _ _ _ _ (load_Some _ _ _ Ho)).
Qed.

Lemma copy_Some o obj s :
  heap s !! o = Some obj →
  copy o s = (Ok (length (heap s)), mkState (heap s ++ [obj]) (wld s)).
Proof.
  intros Ho. unfold copy. by rewrite (bind_Ok _ _ _ _ _ (load_Some _ _ _ Ho)).
Qed.

End Objects.

Section Clone.
Context `{Webui}.
Variables (p : loc) (attrs : gmap string value) (l : loc) (items : list value).
Variable s : state.
Hypothesis Hp : heap s !! p = Some (HObj attrs).
Hypothesis Hstyles : attrs !! "styles" = Some (VRef l).
Hypothesis Hl : heap s !! l = Some (HList items).

(** The clone and its list of styles are two new objects. *)
Definition cloned : state :=
  mkState (heap s ++ [HObj (<["styles" := VRef (S (length (heap s)))]> attrs); HList items])
    (wld s).

Lemma cloned_clone : heap cloned !! length (heap s)
                     = Some (HObj (<["styles" := VRef (S (length (heap s)))]> attrs)).
Proof. unfold cloned. cbn [heap]. rewrite lookup_app_r by lia. by rewrite Nat.sub_diag. Qed.

Lemma cloned_styles : heap cloned !! S (length (heap s)) = Some (HList items).
Proof.
  unfold cloned. cbn [heap]. rewrite lookup_app_r by lia.
  by replace (S (length (heap s)) - length (heap s))%nat with 1%nat by lia.
Qed.

Lemma clone_request_cloned : clone_request p s = (Ok (length (heap s)), cloned).
Proof.
  unfold clone_request.
  rewrite (bind_Ok _ _ _ _ _ (copy_Some p _ s Hp)).
  set (s1 := mkState (heap s ++ [HObj attrs]) (wld s)).
  assert (heap s1 !! length (heap s) = Some (HObj attrs)) as Hpc.
  { unfold s1. cbn [heap]. rewrite lookup_app_r by lia. by rewrite Nat.sub_diag. }
  rewrite (bind_Ok _ _ _ _ _ (getattr_Some _ _ "styles" _ s1 Hpc Hstyles)).
  assert (heap s1 !! l = Some (HList items)) as Hl1.
  { unfold s1. cbn [heap]. rewrite lookup_app_l; [done|by eapply lookup_lt_Some]. }
  assert (slice_all (VRef l) s1
          = (Ok (VRef (S (length (heap s)))),
             mkState (heap s1 ++ [HList items]) (wld s1))) as Hslice.
  { unfold slice_all. rewrite (bind_Ok _ _ _ _ _ (load_Some _ _ _ Hl1)).
    unfold bind, alloc, ret. do 3 f_equal. unfold s1. cbn [heap].
    rewrite length_app. simpl. lia. }
  rewrite (bind_Ok _ _ _ _ _ Hslice).
  set (s2 := mkState (heap s1 ++ [HList items]) (wld s1)).
  assert (heap s2 !! length (heap s) = Some (HObj attrs)) as Hpc2.
  { unfold s2. cbn [heap]. rewrite lookup_app_l; [done|by eapply lookup_lt_Some]. }
  rewrite (bind_Ok _ _ _ _ _ (setattr_Some _ _ "styles" _ s2 Hpc2)).
  unfold ret, cloned. f_equal. unfold s2, s1. cbn [heap wld]. f_equal.
  rewrite <- app_assoc. cbn [app].
  rewrite insert_app_r_alt by lia. by rewrite Nat.sub_diag.
Qed.

(** X3. The clone is a shallow copy but for the styles: an axis that sets a
    field, or that adds styles, writes to the two new objects only, so that
    the template request, its list of styles and every other object of the
    caller are as they were. *)
Theorem clone_keeps_the_template :
  (∀ field x xs,
     ∃ s', bind (clone_request p) (λ pc, apply_field field pc x xs) s = (Ok (), s')
           ∧ take (length (heap s)) (heap s') = heap s
           ∧ attr_of s' (length (heap s)) field = Some x)
  ∧ (∀ t xs,
       ∃ s', bind (clone_request p) (λ pc, apply_styles pc (VStr t) xs) s = (Ok (), s')
             ∧ take (length (heap s)) (heap s') = heap s
             ∧ heap s' !! S (length (heap s))
               = Some (HList (items ++ (VStr <$> split_comma [] (chars t))))).
Proof.
  split.
  - intros field x xs. rewrite (bind_Ok _ _ _ _ _ clone_request_cloned).
    unfold apply_field. rewrite (setattr_Some _ _ _ _ _ cloned_clone).
    eexists. split; [reflexivity|]. unfold cloned, attr_of. cbn [heap]. split.
    + rewrite insert_app_r_alt by lia. by rewrite take_app_length.
    + rewrite insert_app_r_alt by lia. rewrite Nat.sub_diag.
      rewrite lookup_app_r by lia. rewrite Nat.sub_diag. cbn.
      apply lookup_insert_eq.
  - intros t xs. rewrite (bind_Ok _ _ _ _ _ clone_request_cloned).
    unfold apply_styles.
    rewrite (bind_Ok _ _ _ _ _
               (getattr_Some _ _ "styles" _ _ cloned_clone (lookup_insert_eq _ _ _))).
    rewrite (bind_Ok _ _ _ _ _ (load_Some _ _ _ cloned_styles)).
    eexists. split; [reflexivity|]. unfold cloned. cbn [heap]. split.
    + rewrite insert_app_r_alt by lia. by rewrite take_app_length.
    + rewrite insert_app_r_alt by lia. rewrite lookup_app_r by lia.
      by replace (S (length (heap s)) - length (heap s))%nat with 1%nat by lia.
Qed.

End Clone.

(** Witness of [clone_keeps_the_template]: the seed 7 on a clone of the
    template request of the small host. *)
Lemma clone_keeps_the_template_witness :
  ∃ s', bind (clone_request p0) (λ pc, apply_field "seed" pc (VInt 7) []) state0 = (Ok (), s')
        ∧ take 4 (heap s') = heap state0
        ∧ attr_of s' 4%nat "seed" = Some (VInt 7).
Proof.
  refine (proj1 (clone_keeps_the_template p0 _ 1%nat [] state0 _ _ _) "seed" (VInt 7) []).
  - reflexivity.
  - reflexivity.
  - reflexivity.
Defined.

(** ** The csv reader on a line of unquoted fields *)

Section CsvFields.

(** The characters the writer does not quote. *)
Definition csv_safe (c : ascii) : bool :=
  negb (is_newline c || Ascii.eqb c dquote || Ascii.eqb c ",").

(** A field that is written as it stands and read back as it stands: no
    character is quoted, and [strip] leaves it as it is. *)
Definition clean (f : list ascii) : Prop :=
  Forall (λ c, csv_safe c = true) f ∧ rstrip is_space (lstrip is_space f) = f.

(** The fields with commas between them. *)
Fixpoint commas (fields : list (list ascii)) : list ascii :=
  match fields with
  | [] => []
  | [f] => f
  | f :: rest => f ++ ","%char :: commas rest
  end.

Lemma csv_safe_facts c :
  csv_safe c = true →
  is_newline c = false ∧ Ascii.eqb c dquote = false ∧ Ascii.eqb c "," = false
  ∧ Ascii.eqb c LF = false.
Proof.
  unfold csv_safe, is_newline. rewrite negb_true_iff, !orb_false_iff. tauto.
Qed.

Lemma clean_head c f : clean (c :: f) → is_space c = false.
Proof.
  intros [_ Hs]. destruct (is_space c) eqn:Hc; [|done]. exfalso.
  cbn [lstrip] in Hs. rewrite Hc in Hs.
  assert (∀ l, length (lstrip is_space l) ≤ length l)%nat as Hle.
  { induction l as [|a l IH]; cbn; [lia|]. destruct (is_space a); cbn; lia. }
  apply (f_equal length) in Hs. unfold rstrip in Hs. rewrite length_rev in Hs.
  pose proof (Hle (rev (lstrip is_space f))) as H1. pose proof (Hle f) as H2.
  rewrite length_rev in H1. cbn in Hs. lia.
Qed.

Lemma csv_line_safe (fs : list string) (cur l rest : list ascii) :
  Forall (λ c, csv_safe c = true) l →
  csv_line {| csv_fields := fs; csv_field := cur; csv_st := IN_FIELD |} (l ++ rest)
  = csv_line {| csv_fields := fs; csv_field := cur ++ l; csv_st := IN_FIELD |} rest.
Proof.
  intros Hl. revert cur. induction Hl as [|c l Hc Hl IH]; intros cur.
  - by rewrite app_nil_r.
  - cbn [app csv_line]. unfold parse_process_char. cbn [csv_st].
    apply csv_safe_facts in Hc as (-> & _ & -> & _). cbn [rbind].
    unfold parse_add_char. cbn [csv_fields csv_field]. rewrite IH.
    by rewrite <- app_assoc.
Qed.

(** One field, from the start of a field up to the comma or to the end of
    the line. *)
Lemma csv_line_field (fs : list string) (f rest : list ascii) :
  clean f →
  csv_line {| csv_fields := fs; csv_field := []; csv_st := START_FIELD |}
    (f ++ ","%char :: rest)
  = csv_line {| csv_fields := fs ++ [str f]; csv_field := []; csv_st := START_FIELD |} rest
  ∧ csv_line {| csv_fields := fs; csv_field := []; csv_st := START_FIELD |} f
    = Ok {| csv_fields := fs ++ [str f]; csv_field := []; csv_st := START_RECORD |}.
Proof.
  intros Hf. destruct f as [|c f]; [done|].
  pose proof (clean_head c f Hf) as Hsp. destruct Hf as [Hsafe _].
  pose proof (Forall_inv Hsafe) as Hc. pose proof (Forall_inv_tail Hsafe) as Hf.
  apply csv_safe_facts in Hc as (Hnl & Hq & Hcomma & _).
  assert (Ascii.eqb c " " = false) as Hblank.
  { destruct (Ascii.eqb_spec c " ") as [->|]; [|done]. by vm_compute in Hsp. }
  assert (∀ tl, csv_line {| csv_fields := fs; csv_field := []; csv_st := START_FIELD |}
                  (c :: tl)
                = csv_line {| csv_fields := fs; csv_field := [c]; csv_st := IN_FIELD |} tl)
    as Hstart.
  { intros tl. cbn [csv_line]. unfold parse_process_char. cbn [csv_st].
    by rewrite Hnl, Hq, Hblank, Hcomma. }
  split.
  - cbn [app]. rewrite Hstart, csv_line_safe by done.
    cbn [csv_line]. unfold parse_process_char. cbn [csv_st].
    change (is_newline ","%char) with false. cbn. done.
  - rewrite Hstart. rewrite <- (app_nil_r f) at 1. rewrite csv_line_safe by done.
    done.
Qed.

Lemma csv_line_commas (fs : list string) (fields : list (list ascii)) :
  fields ≠ [] → Forall clean fields →
  csv_line {| csv_fields := fs; csv_field := []; csv_st := START_FIELD |} (commas fields)
  = Ok {| csv_fields := fs ++ (str <$> fields); csv_field := []; csv_st := START_RECORD |}.
Proof.
  intros Hne Hall. revert fs. induction Hall as [|f rest Hf Hrest IH]; intros fs; [done|].
  destruct rest as [|g rest].
  - cbn [commas fmap list_fmap]. by apply csv_line_field.
  - change (commas (f :: g :: rest)) with (f ++ ","%char :: commas (g :: rest)).
    rewrite (proj1 (csv_line_field fs f _ Hf)). rewrite IH by done.
    by rewrite fmap_cons, <- app_assoc.
Qed.

(** At the start of a record a line that is not empty is read as at the
    start of a field. *)
Lemma csv_line_record (c : ascii) (l : list ascii) :
  is_newline c = false →
  csv_line csv_reset (c :: l)
  = csv_line {| csv_fields := []; csv_field := []; csv_st := START_FIELD |} (c :: l).
Proof.
  intros Hc. cbn [csv_line]. unfold parse_process_char. cbn [csv_st csv_reset].
  by rewrite Hc.
Qed.

Lemma split_lines_one (cur l : list ascii) :
  Forall (λ c, Ascii.eqb c LF = false) l → (cur ++ l)%list ≠ [] →
  split_lines cur l = [(rev cur ++ l)%list].
Proof.
  intros Hl. revert cur. induction Hl as [|c l Hc Hl IH]; intros cur Hne.
  - simpl. rewrite !app_nil_r in *. by destruct cur.
  - cbn [split_lines]. rewrite Hc. rewrite IH by (by destruct cur).
    cbn. by rewrite <- app_assoc.
Qed.

Lemma commas_safe (fields : list (list ascii)) :
  Forall clean fields → Forall (λ c, Ascii.eqb c LF = false) (commas fields).
Proof.
  intros Hall. induction Hall as [|f rest Hf Hrest IH]; [by cbn|].
  destruct Hf as [Hf _].
  assert (Forall (λ c, Ascii.eqb c LF = false) f) as Hf'.
  { eapply Forall_impl; [exact Hf|]. intros c Hc.
    by apply csv_safe_facts in Hc as (_ & _ & _ & ?). }
  destruct rest as [|g rest]; [done|].
  change (commas (f :: g :: rest)) with (f ++ ","%char :: commas (g :: rest)).
  apply Forall_app. split; [done|]. by constructor.
Qed.

Lemma commas_head (fields : list (list ascii)) c l :
  Forall clean fields → commas fields = c :: l → is_newline c = false.
Proof.
  intros Hall Heq. destruct Hall as [|f rest Hf Hrest]; [done|].
  destruct Hf as [Hf _].
  destruct f as [|d f].
  - destruct rest; [done|]. by injection Heq as <- _.
  - assert (c = d) as -> by (destruct rest; by injection Heq).
    by apply Forall_inv, csv_safe_facts in Hf as (? & _).
Qed.

Lemma strip_clean f : clean f → strip (str f) = str f.
Proof. intros [_ Hs]. unfold strip. by rewrite chars_str, Hs. Qed.

(** The fields of a line of clean fields are read back as they are, but for
    the line that is empty: it holds no field. *)
Lemma csv_commas (fields : list (list ascii)) :
  Forall clean fields → commas fields ≠ [] →
  csv_string_to_list_strip (str (commas fields)) = Ok (str <$> fields).
Proof.
  intros Hall Hne. unfold csv_string_to_list_strip, csv_reader_rows.
  rewrite chars_str.
  rewrite split_lines_one by (by apply commas_safe || done).
  cbn [rev app csv_rows].
  destruct (commas fields) as [|c l] eqn:Hline; [done|].
  rewrite csv_line_record by (by eapply commas_head).
  rewrite <- Hline. rewrite csv_line_commas by (done || by destruct fields).
  cbn [rbind csv_st csv_rows csv_reset csv_field csv_fields app concat].
  rewrite app_nil_r. f_equal.
  rewrite <- list_fmap_compose. apply Forall_fmap_ext_1.
  eapply Forall_impl; [exact Hall|]. intros f Hf. cbn. by apply strip_clean.
Qed.

End CsvFields.

(** ** [list_to_csv_string], and back

    [csv.writer(o).writerow(data_list)] in the default dialect: the fields
    with commas between them and a line terminator; a field is put between
    double quotes, its own double quotes doubled, when it holds a comma, a
    double quote or a newline, and so is the empty field of a row that has
    no other field. *)

Section CsvWriter.

Definition needs_quotes (f : list ascii) : bool :=
  existsb (λ c, negb (csv_safe c)) f.

Definition csv_escape (f : list ascii) : list ascii :=
  c ← f; if Ascii.eqb c dquote then [dquote; dquote] else [c].

Definition csv_field_out (alone : bool) (f : list ascii) : list ascii :=
  if needs_quotes f || (alone && bool_decide (f = []))
  then dquote :: csv_escape f ++ [dquote]
  else f.

Definition writerow (data_list : list string) : string :=
  let alone := (length data_list =? 1)%nat in
  str (commas ((λ f, csv_field_out alone (chars f)) <$> data_list) ++ [CR; LF]).

Definition list_to_csv_string (data_list : list string) : string :=
  strip (writerow data_list).

Lemma clean_no_quotes f : clean f → needs_quotes f = false.
Proof.
  intros [Hf _]. unfold needs_quotes. induction Hf as [|c f Hc Hf IH]; [done|].
  cbn. by rewrite Hc.
Qed.

Lemma lstrip_le p (l : list ascii) : (length (lstrip p l) ≤ length l)%nat.
Proof. induction l as [|a l IH]; cbn; [lia|]. destruct (p a); cbn; lia. Qed.

Lemma lstrip_id p (l : list ascii) :
  lstrip p l = l → match l with c :: _ => p c = false | [] => True end.
Proof.
  destruct l as [|c l]; [done|]. cbn. destruct (p c); [|done].
  intros Heq. apply (f_equal length) in Heq. pose proof (lstrip_le p l). cbn in Heq. lia.
Qed.

Lemma clean_last f : clean f → match rev f with c :: _ => is_space c = false | [] => True end.
Proof.
  intros Hf. destruct f as [|c f]; [done|].
  pose proof (clean_head c f Hf) as Hc. destruct Hf as [_ Hs].
  rewrite lstrip_head in Hs by done. unfold rstrip in Hs.
  apply (f_equal (@rev ascii)) in Hs. rewrite rev_involutive in Hs.
  by apply lstrip_id in Hs.
Qed.

Lemma strip_line (l : list ascii) :
  match l with c :: _ => is_space c = false | [] => False end →
  match rev l with c :: _ => is_space c = false | [] => False end →
  rstrip is_space (lstrip is_space (l ++ [CR; LF])) = l.
Proof.
  intros Hhead Hlast. destruct l as [|c l]; [done|].
  cbn [app]. rewrite lstrip_head by done. unfold rstrip.
  change (c :: l ++ [CR; LF]) with ((c :: l) ++ [CR; LF]).
  rewrite rev_app_distr. change (rev [CR; LF]) with [LF; CR]. cbn [app lstrip].
  change (is_space LF) with true. change (is_space CR) with true. cbn [lstrip].
  destruct (rev (c :: l)) as [|d t] eqn:Hrev; [done|].
  rewrite lstrip_head by done. rewrite <- Hrev. apply rev_involutive.
Qed.

Lemma commas_rev_head (fields : list (list ascii)) :
  fields ≠ [] → Forall clean fields → commas fields ≠ [] →
  match rev (commas fields) with c :: _ => is_space c = false | [] => False end.
Proof.
  intros Hne Hall. induction Hall as [|f rest Hf Hrest IH]; [done|]. intros Hline.
  destruct rest as [|g rest].
  - cbn [commas] in *. pose proof (clean_last f Hf) as Hl.
    destruct (rev f) as [|c t] eqn:Hrev; [|done].
    apply (f_equal (@rev ascii)) in Hrev. rewrite rev_involutive in Hrev. done.
  - change (commas (f :: g :: rest)) with (f ++ ","%char :: commas (g :: rest)).
    change (f ++ ","%char :: commas (g :: rest))
      with (f ++ [","%char] ++ commas (g :: rest)).
    rewrite !rev_app_distr.
    destruct (commas (g :: rest)) as [|c t] eqn:Hg; [done|].
    specialize (IH ltac:(done) ltac:(done)).
    destruct (rev (c :: t)) as [|d u]; [done|]. done.
Qed.

Lemma commas_fst (fields : list (list ascii)) :
  Forall clean fields → commas fields ≠ [] →
  match commas fields with c :: _ => is_space c = false | [] => False end.
Proof.
  intros Hall Hline. destruct Hall as [|f rest Hf Hrest]; [done|].
  destruct f as [|c f].
  - destruct rest; [done|]. done.
  - pose proof (clean_head c f Hf). by destruct rest.
Qed.

Lemma list_to_csv_string_read (data_list : list string) :
  Forall (λ f, clean (chars f)) data_list →
  csv_string_to_list_strip (list_to_csv_string data_list) = Ok data_list.
Proof.
  intros Hall. unfold list_to_csv_string, writerow.
  destruct data_list as [|f [|g rest]].
  - reflexivity.
  - destruct (chars f) as [|c l] eqn:Hf.
    + assert (f = "") as -> by (by rewrite <- (str_chars f), Hf).
      reflexivity.
    + apply Forall_inv in Hall. rewrite Hf in Hall.
      cbn [length Nat.eqb fmap list_fmap commas]. unfold csv_field_out.
      rewrite Hf, clean_no_quotes by done.
      rewrite bool_decide_eq_false_2 by done. cbn [orb andb].
      unfold strip. rewrite chars_str.
      rewrite strip_line.
      * transitivity (csv_string_to_list_strip (str (commas [c :: l]))); [done|].
        rewrite (csv_commas [c :: l]) by (by constructor || done).
        cbn [fmap list_fmap]. by rewrite <- Hf, str_chars.
      * by eapply clean_head.
      * pose proof (clean_last _ Hall). by destruct (rev (c :: l)) eqn:E;
          [apply (f_equal (@rev ascii)) in E; rewrite rev_involutive in E|].
  - set (data := f :: g :: rest) in *.
    assert ((length data =? 1)%nat = false) as -> by done.
    set (fields := chars <$> data).
    assert (Forall clean fields) as Hclean.
    { unfold fields. by apply Forall_fmap. }
    assert ((λ f0, csv_field_out false (chars f0)) <$> data = fields) as ->.
    { unfold fields. apply Forall_fmap_ext_1. eapply Forall_impl; [exact Hall|].
      intros h Hh. cbn. unfold csv_field_out. by rewrite clean_no_quotes. }
    assert (commas fields ≠ []) as Hline.
    { unfold fields, data. cbn [fmap list_fmap].
      change (commas (chars f :: chars g :: (chars <$> rest)))
        with (chars f ++ ","%char :: commas (chars g :: (chars <$> rest))).
      by destruct (chars f). }
    unfold strip. rewrite chars_str.
    rewrite strip_line; [|by apply commas_fst|by apply commas_rev_head].
    rewrite csv_commas by done. f_equal. unfold fields.
    rewrite <- list_fmap_compose. rewrite <- (list_fmap_id data) at 2.
    apply list_fmap_ext. intros i h _. cbn. apply str_chars.
Qed.

End CsvWriter.


(** ** The chunks of the longest axis *)

Section ChunkSlices.
Context {A : Type}.

Lemma chunk_count (k n : nat) :
  (0 < k)%nat → (0 < n)%nat → ((n + k - 1) / k = S ((n - k + k - 1) / k))%nat.
Proof.
  intros Hk Hn. destruct (decide (k ≤ n)%nat) as [Hle|Hlt].
  - replace (n + k - 1)%nat with ((n - k + k - 1) + 1 * k)%nat by lia.
    rewrite Nat.div_add by lia. lia.
  - replace (n - k + k - 1)%nat with (k - 1)%nat by lia.
    rewrite (Nat.div_small (k - 1)) by lia.
    symmetry. apply (Nat.div_unique _ _ _ (n - 1)%nat); lia.
Qed.

Lemma chunks_fuel_slices (k fuel : nat) (l : list A) :
  (0 < k)%nat → (length l ≤ fuel)%nat →
  chunks_fuel fuel k l
  = (λ i, take k (drop (i * k) l)) <$> seq 0 ((length l + k - 1) / k).
Proof.
  intros Hk. revert l. induction fuel as [|fuel IH]; intros l Hl.
  - destruct l; [|simpl in Hl; lia]. cbn [length Nat.add chunks_fuel].
    by rewrite Nat.div_small by lia.
  - destruct l as [|a l].
    { cbn [length Nat.add chunks_fuel]. by rewrite Nat.div_small by lia. }
    cbn [chunks_fuel]. rewrite IH by (rewrite length_drop; simpl in *; lia).
    rewrite (chunk_count k (length (a :: l))) by (simpl; lia).
    rewrite length_drop. cbn [seq fmap list_fmap]. f_equal.
    rewrite <- fmap_S_seq, <- list_fmap_compose. apply list_fmap_ext.
    intros i j _. cbn. by rewrite drop_drop, (Nat.add_comm k).
Qed.

End ChunkSlices.

(** X5. The chunks are the slices [values[i : i + n]] for [i] in
    [range(0, length, n)], as many as the length divided by [n], rounded
    up; put end to end they are the values, and only the last can be
    shorter than [n]. *)
Theorem chunks_slices {A : Type} (n : nat) (values : list A) :
  (0 < n)%nat →
  chunks n values
  = (λ i, take n (drop (i * n) values)) <$> seq 0 ((length values + n - 1) / n)
  ∧ length (chunks n values) = ((length values + n - 1) / n)%nat
  ∧ concat (chunks n values) = values
  ∧ ∀ i c, chunks n values !! i = Some c →
      if decide (S i < length (chunks n values))%nat then length c = n
      else (0 < length c ≤ n)%nat.
Proof.
  intros Hn. pose proof (chunks_fuel_slices n (length values) values Hn (le_n _)) as Hs.
  fold (chunks n values) in Hs.
  destruct (chunks_spec n values Hn) as (Hcat & Hsz & Hfull).
  split; [done|]. split; [by rewrite Hs, length_fmap, length_seq|].
  split; [done|]. intros i c Hc. destruct (decide _) as [Hi|Hi].
  - by apply (Hfull i c).
  - rewrite Forall_forall in Hsz. apply Hsz. by eapply list_elem_of_lookup_2.
Qed.

(** Ten values by four: three chunks, the last of two values. *)
Lemma chunks_slices_witness :
  (0 < 4)%nat
  ∧ length (chunks 4 (seq 0 10)) = 3%nat
  ∧ concat (chunks 4 (seq 0 10)) = seq 0 10.
Proof.
  split; [lia|].
  destruct (chunks_slices 4 (seq 0 10) ltac:(lia)) as (_ & Hlen & Hcat & _).
  split; [exact Hlen|exact Hcat].
Defined.

(** ** The axis "Size" *)

Section Size.
Context `{Webui}.

Lemma partition_x_app (cur W rest : list ascii) :
  Forall (λ c, Ascii.eqb c "x" = false) W →
  partition_x cur (W ++ "x"%char :: rest) = (str (rev cur ++ W), str rest).
Proof.
  intros HW. revert cur. induction HW as [|c W Hc HW IH]; intros cur.
  - cbn. by rewrite app_nil_r.
  - cbn [app partition_x]. rewrite Hc, IH. cbn [rev]. by rewrite <- app_assoc.
Qed.

Lemma partition_x_none (cur l : list ascii) :
  "x"%char ∉ l → partition_x cur l = (str (rev cur ++ l), "").
Proof.
  revert cur. induction l as [|c l IH]; intros cur Hl.
  - cbn. by rewrite app_nil_r.
  - cbn [partition_x]. destruct (Ascii.eqb_spec c "x") as [->|Hc].
    + exfalso. apply Hl. apply list_elem_of_here.
    + rewrite IH by (intros Hin; apply Hl; by apply list_elem_of_further).
      cbn [rev]. by rewrite <- app_assoc.
Qed.

Lemma literal_char_no_x c :
  is_digit c = true ∨ is_sign c = true → Ascii.eqb c "x" = false.
Proof.
  destruct c as [[] [] [] [] [] [] [] []]; vm_compute; intros [?|?]; done.
Qed.

Lemma int_literal_no_x l n :
  int_literal l n → Forall (λ c, Ascii.eqb c "x" = false) l.
Proof.
  assert (∀ ds, all_digits ds → Forall (λ c, Ascii.eqb c "x" = false) ds) as Hds.
  { intros ds [_ Hd]. eapply Forall_impl; [exact Hd|].
    intros c Hc. apply literal_char_no_x. by left. }
  intros [ds Hd|l' n' Hs]; [by apply Hds|].
  apply signed_literal_chars in Hs as (c & ds & -> & Hc & Hd).
  constructor; [apply literal_char_no_x; by right|by apply Hds].
Qed.

Definition with_size (p : loc) (attrs : gmap string value) (w h : Z) (s : state) : state :=
  mkState (<[p := HObj (<["height" := VInt h]> (<["width" := VInt w]> attrs))]> (heap s))
    (wld s).

Lemma set_size p attrs w h s :
  heap s !! p = Some (HObj attrs) →
  bind (setattr p "width" (VInt w)) (λ _, setattr p "height" (VInt h)) s
  = (Ok (), with_size p attrs w h s).
Proof.
  intros Hp. rewrite (bind_Ok _ _ _ _ _ (setattr_Some _ _ _ _ _ Hp)).
  erewrite setattr_Some.
  - unfold with_size. cbn [heap wld]. by rewrite list_insert_insert_eq.
  - cbn [heap]. apply list_lookup_insert_eq. by eapply lookup_lt_Some.
Qed.

(** X6. A size is applied as a whole or not at all: the width and the height
    are both set, or the request is left as it is, and no error is raised
    either way.  Two integer literals around an "x" are applied; a text
    without "x" never is. *)
Theorem apply_size_both_or_none (p : loc) (attrs : gmap string value)
    (x : string) (xs : list value) (s : state) :
  heap s !! p = Some (HObj attrs) →
  ((∃ w h, apply_size p (VStr x) xs s = (Ok (), with_size p attrs w h s))
   ∨ apply_size p (VStr x) xs s = (Ok (), s))
  ∧ (∀ W w Hh h, x = str (W ++ "x"%char :: Hh) → int_literal W w → int_literal Hh h →
       apply_size p (VStr x) xs s = (Ok (), with_size p attrs w h s))
  ∧ ("x"%char ∉ chars x → apply_size p (VStr x) xs s = (Ok (), s)).
Proof.
  intros Hp. split; [|split].
  - unfold apply_size.
    destruct (py_int (strip (partition_x [] (chars x)).1)) as [w|e]; [|by right].
    destruct (py_int (strip (partition_x [] (chars x)).2)) as [h|e]; [|by right].
    left. exists w, h. by apply set_size.
  - intros W w Hh h -> HW HH. unfold apply_size. rewrite chars_str.
    rewrite partition_x_app by (by eapply int_literal_no_x). cbn [rev app fst snd].
    pose proof (int_literal_field _ _ HW) as [_ HfW].
    pose proof (int_literal_field _ _ HH) as [_ HfH].
    rewrite !strip_field by done.
    rewrite (py_int_literal _ _ HW), (py_int_literal _ _ HH). by apply set_size.
  - intros Hx. unfold apply_size. rewrite partition_x_none by done. cbn [snd].
    change (py_int (strip "")) with (@Raise Z ValueError).
    by destruct (py_int _).
Qed.

End Size.

(** Witness of [apply_size_both_or_none]: "512x768" on the template request
    of the small host. *)
Lemma apply_size_both_or_none_witness :
  ∃ attrs, heap state0 !! p0 = Some (HObj attrs)
  ∧ apply_size p0 (VStr "512x768") [] state0 = (Ok (), with_size p0 attrs 512 768 state0).
Proof.
  eexists. split; [reflexivity|].
  refine (proj1 (proj2 (apply_size_both_or_none p0 _ "512x768" [] state0 eq_refl))
            (chars "512") 512 (chars "768") 768 eq_refl _ _).
  - apply (literal_digits (chars "512")). split; [done|]. by repeat constructor.
  - apply (literal_digits (chars "768")). split; [done|]. by repeat constructor.
Defined.

(** ** The axis "Prompt S/R" *)

(** [a.startswith(p)] *)
Fixpoint is_prefix (p a : list ascii) : bool :=
  match p, a with
  | [], _ => true
  | c :: p', d :: a' => Ascii.eqb c d && is_prefix p' a'
  | _ :: _, [] => false
  end.

(** [sub in a], for two strings *)
Fixpoint contains (sub a : list ascii) : bool :=
  is_prefix sub a
  || match a with
     | [] => false
     | _ :: t => contains sub t
     end.

(** [a.replace(old, new)] for [old] that is not empty, from left to right:
    [skip] counts the characters of the occurrence just replaced that are
    still to be passed over. *)
Fixpoint replace_from (old new : list ascii) (skip : nat) (a : list ascii) : list ascii :=
  match a with
  | [] => []
  | c :: t =>
      match skip with
      | S k => replace_from old new k t
      | O =>
          if is_prefix old a then new ++ replace_from old new (length old - 1) t
          else c :: replace_from old new 0 t
      end
  end.

(** [a.replace(old, new)]; an empty [old] is found before every character
    and at the end. *)
Definition replace (old new a : list ascii) : list ascii :=
  match old with
  | [] => new ++ flat_map (λ c, c :: new) a
  | _ :: _ => replace_from old new 0 a
  end.

Section Prompt.
Context `{Webui}.
Local Open Scope m_scope.

(** [a in b] and [b.replace(a, x)] on the values of an axis and the
    prompts, which are strings. *)
Definition py_in (a b : value) : result bool :=
  match a, b with
  | VStr a, VStr b => Ok (contains (chars a) (chars b))
  | _, _ => Raise TypeError
  end.

Definition py_replace (b a x : value) : result value :=
  match b, a, x with
  | VStr b, VStr a, VStr x => Ok (VStr (str (replace (chars a) (chars x) (chars b))))
  | VStr _, _, _ => Raise TypeError
  | _, _, _ => Raise AttributeError
  end.

Definition apply_prompt (p : loc) (x : value) (xs : list value) : M unit :=
  x0 <- lift (py_index xs 0) ;;
  prompt <- getattr p "prompt" ;;
  found <- lift (py_in x0 prompt) ;;
  found <-
    (if found then ret true
     else
       x0 <- lift (py_index xs 0) ;;
       negative_prompt <- getattr p "negative_prompt" ;;
       lift (py_in x0 negative_prompt)) ;;
  if negb found then raise RuntimeError
  else
    prompt <- getattr p "prompt" ;;
    x0 <- lift (py_index xs 0) ;;
    prompt <- lift (py_replace prompt x0 x) ;;
    setattr p "prompt" prompt ;;
    negative_prompt <- getattr p "negative_prompt" ;;
    x0 <- lift (py_index xs 0) ;;
    negative_prompt <- lift (py_replace negative_prompt x0 x) ;;
    setattr p "negative_prompt" negative_prompt.

Lemma is_prefix_app (p a : list ascii) :
  is_prefix p a = true → a = p ++ drop (length p) a.
Proof.
  revert a. induction p as [|c p IH]; intros a Hp; [done|].
  destruct a as [|d a]; [done|]. cbn in Hp. apply andb_true_iff in Hp as [Hc Hp].
  apply Ascii.eqb_eq in Hc as ->. cbn. f_equal. by apply IH.
Qed.

Lemma replace_from_same (old : list ascii) (k : nat) (a : list ascii) :
  old ≠ [] → (k ≤ length a)%nat → replace_from old old k a = drop k a.
Proof.
  intros Hold. revert k. induction a as [|c t IH]; intros k Hk.
  - cbn in Hk. by replace k with 0%nat by lia.
  - destruct k as [|k]; cbn [replace_from drop].
    + destruct (is_prefix old (c :: t)) eqn:Hp.
      * pose proof (is_prefix_app _ _ Hp) as Happ.
        destruct old as [|o old]; [done|]. cbn [length drop] in Happ.
        assert (length old ≤ length t)%nat as Hlen.
        { apply (f_equal length) in Happ. rewrite length_app, length_drop in Happ.
          cbn [length] in Happ. lia. }
        replace (length (o :: old) - 1)%nat with (length old) by (cbn; lia).
        rewrite IH by done. symmetry. exact Happ.
      * rewrite (IH 0%nat) by lia. done.
    + apply IH. cbn in Hk. lia.
Qed.

Lemma replace_same (old a : list ascii) : replace old old a = a.
Proof.
  destruct old as [|o old].
  - cbn. induction a as [|c a IH]; [done|]. cbn. by rewrite IH.
  - cbn [replace]. by rewrite replace_from_same by (done || lia).
Qed.

Lemma replace_absent (old new a : list ascii) :
  contains old a = false → replace old new a = a.
Proof.
  intros Ha. destruct old as [|o old]; [by destruct a|]. cbn [replace].
  induction a as [|c a IH]; [done|].
  cbn [contains] in Ha. apply orb_false_iff in Ha as [Hp Ha].
  cbn [replace_from]. rewrite Hp. by rewrite IH.
Qed.

Section Request.
Variables (p : loc) (attrs : gmap string value) (prompt negative_prompt : string).
Variable s : state.
Hypothesis Hp : heap s !! p = Some (HObj attrs).
Hypothesis Hprompt : attrs !! "prompt" = Some (VStr prompt).
Hypothesis Hneg : attrs !! "negative_prompt" = Some (VStr negative_prompt).

(** The request with its two prompts replaced. *)
Definition prompted (prompt' negative_prompt' : string) : state :=
  mkState
    (<[p := HObj (<["negative_prompt" := VStr negative_prompt']>
                    (<["prompt" := VStr prompt']> attrs))]> (heap s))
    (wld s).

Lemma prompted_same : prompted prompt negative_prompt = s.
Proof.
  unfold prompted. rewrite (insert_id attrs "prompt") by done.
  rewrite (insert_id attrs "negative_prompt") by done.
  rewrite list_insert_id by done. by destruct s.
Qed.

Lemma apply_prompt_found (x0 x : string) (xs : list value) :
  contains (chars x0) (chars prompt) || contains (chars x0) (chars negative_prompt) = true →
  apply_prompt p (VStr x) (VStr x0 :: xs) s
  = (Ok (), prompted (str (replace (chars x0) (chars x) (chars prompt)))
              (str (replace (chars x0) (chars x) (chars negative_prompt)))).
Proof.
  intros Hfound. unfold apply_prompt.
  rewrite (bind_Ok _ _ _ _ s (eq_refl : lift (py_index (VStr x0 :: xs) 0) s = (Ok (VStr x0), s))).
  rewrite (bind_Ok _ _ _ _ _ (getattr_Some _ _ _ _ _ Hp Hprompt)).
  rewrite (bind_Ok _ _ _ _ s
             (eq_refl : lift (py_in (VStr x0) (VStr prompt)) s = (Ok _, s))).
  erewrite (bind_Ok _ _ _ true s); cycle 1.
  { destruct (contains (chars x0) (chars prompt)); [done|]. cbn [orb] in Hfound.
    rewrite (bind_Ok _ _ _ _ s
               (eq_refl : lift (py_index (VStr x0 :: xs) 0) s = (Ok (VStr x0), s))).
    rewrite (bind_Ok _ _ _ _ _ (getattr_Some _ _ _ _ _ Hp Hneg)).
    unfold lift, py_in. by rewrite Hfound. }
  cbn [negb].
  rewrite (bind_Ok _ _ _ _ _ (getattr_Some _ _ _ _ _ Hp Hprompt)).
  rewrite (bind_Ok _ _ _ _ s (eq_refl : lift (py_index (VStr x0 :: xs) 0) s = (Ok (VStr x0), s))).
  rewrite (bind_Ok _ _ _ _ s
             (eq_refl : lift (py_replace (VStr prompt) (VStr x0) (VStr x)) s = (Ok _, s))).
  rewrite (bind_Ok _ _ _ _ _ (setattr_Some _ _ _ _ _ Hp)).
  match goal with |- bind _ _ ?st = _ => set (s1 := st) end.
  assert (heap s1 !! p
          = Some (HObj (<["prompt" := VStr (str (replace (chars x0) (chars x) (chars prompt)))]>
                          attrs))) as Hp1.
  { subst s1. cbn [heap]. apply list_lookup_insert_eq. by eapply lookup_lt_Some. }
  rewrite (bind_Ok _ _ _ _ _
             (getattr_Some _ _ "negative_prompt" (VStr negative_prompt) _ Hp1
                ltac:(by rewrite lookup_insert_ne))).
  rewrite (bind_Ok _ _ _ _ s1 (eq_refl : lift (py_index (VStr x0 :: xs) 0) s1 = (Ok (VStr x0), s1))).
  rewrite (bind_Ok _ _ _ _ s1
             (eq_refl : lift (py_replace (VStr negative_prompt) (VStr x0) (VStr x)) s1
                        = (Ok _, s1))).
  rewrite (setattr_Some _ _ _ _ _ Hp1). subst s1. unfold prompted. cbn [heap wld].
  by rewrite list_insert_insert_eq.
Qed.

Lemma apply_prompt_absent (x0 : string) (x : value) (xs : list value) :
  contains (chars x0) (chars prompt) = false →
  contains (chars x0) (chars negative_prompt) = false →
  apply_prompt p x (VStr x0 :: xs) s = (Raise RuntimeError, s).
Proof.
  intros Hpr Hng. unfold apply_prompt.
  rewrite (bind_Ok _ _ _ _ s (eq_refl : lift (py_index (VStr x0 :: xs) 0) s = (Ok (VStr x0), s))).
  rewrite (bind_Ok _ _ _ _ _ (getattr_Some _ _ _ _ _ Hp Hprompt)).
  rewrite (bind_Ok _ _ _ _ s
             (eq_refl : lift (py_in (VStr x0) (VStr prompt)) s = (Ok _, s))).
  rewrite Hpr.
  erewrite (bind_Ok _ _ _ false s); [done|].
  rewrite (bind_Ok _ _ _ _ s
             (eq_refl : lift (py_index (VStr x0 :: xs) 0) s = (Ok (VStr x0), s))).
  rewrite (bind_Ok _ _ _ _ _ (getattr_Some _ _ _ _ _ Hp Hneg)).
  unfold lift, py_in. by rewrite Hng.
Qed.

(** X7. The first value of the axis is the text that is searched for.  When it
    occurs in neither prompt the cell fails with a RuntimeError and the
    request is as it was; when it occurs, every occurrence is replaced in
    both prompts, so that the cell of the first value renders the prompts
    as they are, and a prompt without the text is kept. *)
Theorem apply_prompt_search_and_replace (x0 : string) (xs : list value) :
  (contains (chars x0) (chars prompt) = false →
   contains (chars x0) (chars negative_prompt) = false →
   ∀ x, apply_prompt p x (VStr x0 :: xs) s = (Raise RuntimeError, s))
  ∧ (contains (chars x0) (chars prompt) || contains (chars x0) (chars negative_prompt) = true →
     (∀ x, apply_prompt p (VStr x) (VStr x0 :: xs) s
           = (Ok (), prompted (str (replace (chars x0) (chars x) (chars prompt)))
                       (str (replace (chars x0) (chars x) (chars negative_prompt)))))
     ∧ apply_prompt p (VStr x0) (VStr x0 :: xs) s = (Ok (), s)
     ∧ (contains (chars x0) (chars prompt) = false →
        ∀ x, replace (chars x0) (chars x) (chars prompt) = chars prompt)
     ∧ (contains (chars x0) (chars negative_prompt) = false →
        ∀ x, replace (chars x0) (chars x) (chars negative_prompt) = chars negative_prompt)).
Proof.
  split.
  - intros Hpr Hng x. by apply apply_prompt_absent.
  - intros Hfound. split; [intros x; by apply apply_prompt_found|]. split.
    + rewrite apply_prompt_found by done. rewrite !replace_same, !str_chars.
      by rewrite prompted_same.
    + split; intros Hno x; by apply replace_absent.
Qed.

End Request.
End Prompt.

(** Witness of [apply_prompt_search_and_replace]: "cat" for "dog", in a
    request whose prompt is "a dog, a big dog". *)
Lemma apply_prompt_search_and_replace_witness :
  let s := mkState [HObj (<["prompt" := VStr "a dog, a big dog"]>
                            (<["negative_prompt" := VStr "blurry"]> ∅))] world0 in
  apply_prompt 0%nat (VStr "cat") [VStr "dog"; VStr "cat"] s
  = (Ok (), prompted 0%nat (<["prompt" := VStr "a dog, a big dog"]>
                              (<["negative_prompt" := VStr "blurry"]> ∅)) s
              "a cat, a big cat" "blurry").
Proof.
  intros s.
  exact (proj1 (proj2 (apply_prompt_search_and_replace 0%nat _ "a dog, a big dog" "blurry" s
                         eq_refl eq_refl eq_refl "dog" [VStr "cat"]) eq_refl) "cat").
Defined.

(** ** The form: [fill] and [select_axis] *)

(** What [select_axis] returns: the updates of the fill button, of the text
    box and of the dropdown of an axis. *)
Record axis_update : Type := mkAxisUpdate {
  button_visible : bool;
  textbox_visible : bool;
  textbox_value : string;
  dropdown_choices : option (list string);
  dropdown_visible : bool;
  dropdown_value : list string;
}.

Section Form.
Context `{Webui}.
(** [self.current_axis_options] *)
Variable current_axis_options : list AxisOption.
Variable w : world.

(** [fill(axis_type, csv_mode)]: the new text and the new selection, [None]
    for [gr.update()], which changes nothing. *)
Definition fill (axis_type : nat) (csv_mode : bool)
    : result (option string * option (list string)) :=
  (axis <- py_index current_axis_options axis_type ;;
   match choices axis with
   | Some choices =>
       if csv_mode then Ok (Some (list_to_csv_string (choices w)), None)
       else Ok (None, Some (choices w))
   | None => Ok (None, None)
   end)%res.

Definition select_axis (axis_type : option nat) (axis_values : string)
    (axis_values_dropdown : list string) (csv_mode : bool) : result axis_update :=
  (let axis_type := default 0%nat axis_type in
   axis <- py_index current_axis_options axis_type ;;
   match choices axis with
   | Some choices =>
       let choices := choices w in
       va <-
         (if csv_mode then
            match axis_values_dropdown with
            | _ :: _ =>
                Ok (list_to_csv_string
                      (filter (λ x, x ∈ choices) axis_values_dropdown), [])
            | [] => Ok (axis_values, axis_values_dropdown)
            end
          else
            if negb (String.eqb axis_values "") then
              l <- csv_string_to_list_strip axis_values ;;
              Ok ("", filter (λ x, x ∈ choices) l)
            else Ok (axis_values, axis_values_dropdown)) ;;
       Ok (mkAxisUpdate true csv_mode va.1 (Some choices) (negb csv_mode) va.2)
   | None =>
       Ok (mkAxisUpdate false true axis_values None false axis_values_dropdown)
   end)%res.

(** [get_dropdown_update_from_params(axis, params)]: the new selection *)
Definition get_dropdown_update_from_params (axis : string) (params : gmap string string)
    : result (list string) :=
  let val_key := axis +:+ " Values" in
  let vals := default "" (params !! val_key) in
  csv_string_to_list_strip vals.

Lemma filter_all {A : Type} (P : A → Prop) `{∀ x, Decision (P x)} (l : list A) :
  Forall P l → filter P l = l.
Proof.
  induction 1 as [|x l Hx Hl IH]; [done|]. rewrite filter_cons_True by done. by rewrite IH.
Qed.

Lemma Forall_kept {A : Type} (P Q : A → Prop) `{∀ x, Decision (P x)} (l : list A) :
  Forall Q l → Forall Q (filter P l).
Proof.
  rewrite !Forall_forall. intros Hl x [_ Hx]%list_elem_of_filter. by apply Hl.
Qed.

(** X8. Turning the csv mode on writes the selection of the dropdown, without
    the values that are no choice, as text, and turning it off again reads
    that text back into the dropdown: the selection is the same but for the
    values that were no choice, and the text box is empty. *)
Theorem select_axis_toggle (axis_type : option nat) (opt : AxisOption)
    (c : world → list string) (axis_values : string) (axis_values_dropdown : list string) :
  current_axis_options !! default 0%nat axis_type = Some opt →
  choices opt = Some c →
  axis_values_dropdown ≠ [] →
  Forall (λ f, clean (chars f)) axis_values_dropdown →
  ∃ u1 u2,
    select_axis axis_type axis_values axis_values_dropdown true = Ok u1
    ∧ textbox_value u1
      = list_to_csv_string (filter (λ x, x ∈ c w) axis_values_dropdown)
    ∧ dropdown_value u1 = []
    ∧ select_axis axis_type (textbox_value u1) (dropdown_value u1) false = Ok u2
    ∧ textbox_value u2 = ""
    ∧ dropdown_value u2 = filter (λ x, x ∈ c w) axis_values_dropdown
    ∧ (axis_values_dropdown ⊆ c w → dropdown_value u2 = axis_values_dropdown).
Proof.
  intros Hopt Hc Hne Hclean.
  set (kept := filter (λ x, x ∈ c w) axis_values_dropdown).
  assert (csv_string_to_list_strip (list_to_csv_string kept) = Ok kept) as Hread.
  { apply list_to_csv_string_read. by apply Forall_kept. }
  assert (select_axis axis_type axis_values axis_values_dropdown true
          = Ok (mkAxisUpdate true true (list_to_csv_string kept) (Some (c w)) false []))
    as Hon.
  { unfold select_axis, py_index. rewrite Hopt. cbn [of_option rbind]. rewrite Hc.
    by destruct axis_values_dropdown. }
  eexists _, (mkAxisUpdate true false "" (Some (c w)) true kept).
  split; [exact Hon|]. cbn [textbox_value dropdown_value].
  split; [done|]. split; [done|]. split; [|split; [done|split; [done|]]].
  - unfold select_axis, py_index. rewrite Hopt. cbn [of_option rbind]. rewrite Hc.
    destruct (String.eqb_spec (list_to_csv_string kept) "") as [Hempty|Hfull].
    + rewrite Hempty in Hread |- *. cbn [negb String.eqb rbind fst snd].
      assert (csv_string_to_list_strip "" = Ok []) as Hnone by reflexivity.
      rewrite Hnone in Hread. by injection Hread as <-.
    + cbn [negb]. rewrite Hread. cbn [rbind fst snd]. do 2 f_equal.
      subst kept. apply list_filter_filter_l. by intros x.
  - intros Hsub. subst kept. apply filter_all. apply Forall_forall. intros x Hx.
    by apply Hsub.
Qed.

(** X9. The fill button gives the same values to the run in either mode: the
    text it writes in csv mode is read as the choices it selects
    otherwise. *)
Theorem fill_either_mode (axis_type : nat) (opt : AxisOption) (c : world → list string)
    (p : loc) (vals : string) (vals_dropdown : list string) :
  current_axis_options !! axis_type = Some opt →
  choices opt = Some c →
  prepare opt = None →
  Forall (λ f, clean (chars f)) (c w) →
  ∃ text,
    fill axis_type true = Ok (Some text, None)
    ∧ fill axis_type false = Ok (None, Some (c w))
    ∧ process_axis p true opt text vals_dropdown = process_axis p false opt vals (c w).
Proof.
  intros Hopt Hc Hprep Hclean. exists (list_to_csv_string (c w)).
  unfold fill, py_index. rewrite Hopt. cbn [of_option rbind]. rewrite Hc.
  split; [done|]. split; [done|].
  unfold process_axis. rewrite Hc, Hprep.
  by rewrite list_to_csv_string_read.
Qed.

End Form.

(** ** The csv text of a selection, written and read back *)

(** X4. A selection is read back from its csv text as it is, when no value
    needs quotes and none starts or ends with a blank: so the values that
    [run] writes for an axis with choices, pasted back, are the selection
    again, and no such values pasted are the empty selection. *)
Theorem csv_round_trip (data_list : list string) (axis : string)
    (params : gmap string string) :
  Forall (λ f, clean (chars f)) data_list →
  csv_string_to_list_strip (list_to_csv_string data_list) = Ok data_list
  ∧ get_dropdown_update_from_params axis
      (<[axis +:+ " Values" := list_to_csv_string data_list]> params)
    = Ok data_list
  ∧ (params !! (axis +:+ " Values") = None →
     get_dropdown_update_from_params axis params = Ok []).
Proof.
  intros Hclean. pose proof (list_to_csv_string_read data_list Hclean) as Hread.
  split; [done|]. unfold get_dropdown_update_from_params. split.
  - by rewrite lookup_insert_eq.
  - by intros ->.
Qed.

(** Witness of [csv_round_trip]: three names of samplers. *)
Lemma csv_round_trip_witness :
  csv_string_to_list_strip (list_to_csv_string ["Euler a"; "DPM++ 2M"; "LMS"])
  = Ok ["Euler a"; "DPM++ 2M"; "LMS"]
  ∧ get_dropdown_update_from_params "X"
      (<["X Values" := list_to_csv_string ["Euler a"; "DPM++ 2M"; "LMS"]]> ∅)
    = Ok ["Euler a"; "DPM++ 2M"; "LMS"].
Proof.
  destruct (csv_round_trip ["Euler a"; "DPM++ 2M"; "LMS"] "X" ∅) as (Hread & Hpaste & _).
  - repeat constructor.
  - split; [exact Hread|exact Hpaste].
Defined.

(** Witness of [select_axis_toggle]: two styles are selected, one of them
    no longer a choice. *)
Lemma select_axis_toggle_witness :
  let options := [opt_Nothing; opt_Styles_with (λ _, ["anime"; "photo"])] in
  ∃ u1 u2,
    select_axis options world0 (Some 1%nat) "" ["photo"; "sketch"] true = Ok u1
    ∧ textbox_value u1 = "photo"
    ∧ select_axis options world0 (Some 1%nat) (textbox_value u1) (dropdown_value u1) false
      = Ok u2
    ∧ dropdown_value u2 = ["photo"].
Proof.
  intros options.
  destruct (select_axis_toggle options world0 (Some 1%nat) _ (λ _, ["anime"; "photo"])
              "" ["photo"; "sketch"] eq_refl eq_refl ltac:(done) ltac:(repeat constructor))
    as (u1 & u2 & H1 & H2 & _ & H4 & _ & H6 & _).
  exists u1, u2. split; [exact H1|]. split; [exact H2|]. split; [exact H4|exact H6].
Defined.

(** Witness of [fill_either_mode]: the styles, on an axis of the run. *)
Lemma fill_either_mode_witness :
  let styles := opt_Styles_with (λ _, ["anime"; "photo"]) in
  ∃ text,
    fill [opt_Nothing; styles] world0 1 true = Ok (Some text, None)
    ∧ fill [opt_Nothing; styles] world0 1 false = Ok (None, Some ["anime"; "photo"])
    ∧ process_axis p0 true styles text [] = process_axis p0 false styles "" ["anime"; "photo"].
Proof.
  intros styles.
  apply (fill_either_mode [opt_Nothing; styles] world0 1 styles (λ _, ["anime"; "photo"])
           p0 "" []); [reflexivity|reflexivity|reflexivity|repeat constructor].
Defined.

(** ** The axis "VAE" *)

Section Vae.
Context `{Webui}.
Local Open Scope m_scope.
(** The names in [modules.sd_vae.vae_dict], in the order of the dictionary. *)
Variable vae_dict : list string.

Definition find_vae (name : string) : string :=
  let name := lower (strip name) in
  if String.eqb name "auto" || String.eqb name "automatic" then "Automatic"
  else if String.eqb name "none" then "None"
  else default "Automatic" (head (filter (λ k, lower k = name) vae_dict)).

Definition apply_vae (p : loc) (x : value) (xs : list value) : M unit :=
  match x with
  | VStr name =>
      d <- getattr p "override_settings" ;;
      dict_setitem d "sd_vae" (VStr (find_vae name))
  | _ => raise AttributeError
  end.

(** A text without a blank at either end. *)
Definition trimmed (l : list ascii) : Prop :=
  match l with c :: _ => is_space c = false | [] => True end
  ∧ match rev l with c :: _ => is_space c = false | [] => True end.

Lemma lstrip_trimmed p (l : list ascii) :
  match lstrip p l with c :: _ => p c = false | [] => True end.
Proof.
  induction l as [|c l IH]; [done|]. cbn. by destruct (p c) eqn:Hc.
Qed.

Lemma lstrip_suffix p (l : list ascii) : ∃ k, l = k ++ lstrip p l.
Proof.
  induction l as [|c l [k IH]]; [by exists []|]. cbn. destruct (p c).
  - exists (c :: k). cbn. by f_equal.
  - by exists [].
Qed.

Lemma strip_is_trimmed (l : list ascii) : trimmed (rstrip is_space (lstrip is_space l)).
Proof.
  unfold trimmed, rstrip. rewrite rev_involutive. split; [|apply lstrip_trimmed].
  pose proof (lstrip_trimmed is_space l) as Hhead.
  destruct (lstrip_suffix is_space (rev (lstrip is_space l))) as [k Hk].
  set (m := lstrip is_space l) in *. set (r := lstrip is_space (rev m)) in *.
  destruct (rev r) as [|c t] eqn:Hr; [done|].
  apply (f_equal (@rev ascii)) in Hk. rewrite rev_involutive, rev_app_distr, Hr in Hk.
  rewrite Hk in Hhead. exact Hhead.
Qed.

Lemma trimmed_strip (l : list ascii) : trimmed l → rstrip is_space (lstrip is_space l) = l.
Proof.
  intros [Hhead Hlast].
  assert (∀ m, match m with c :: _ => is_space c = false | [] => True end
               → lstrip is_space m = m) as Hid.
  { intros [|c m] Hm; [done|]. by apply lstrip_head. }
  unfold rstrip. rewrite (Hid l Hhead), (Hid (rev l) Hlast). apply rev_involutive.
Qed.

Lemma is_space_lower c : is_space (lower_char c) = is_space c.
Proof. destruct c as [[] [] [] [] [] [] [] []]; reflexivity. Qed.

Lemma trimmed_lower (l : list ascii) : trimmed (lower_char <$> l) ↔ trimmed l.
Proof.
  unfold trimmed. rewrite <- (map_rev lower_char).
  destruct l as [|c l]; [done|]. cbn [fmap list_fmap]. rewrite is_space_lower.
  change (map lower_char (rev (c :: l))) with (lower_char <$> rev (c :: l)).
  destruct (rev (c :: l)) as [|d t]; [done|]. cbn [fmap list_fmap].
  by rewrite is_space_lower.
Qed.

Lemma find_vae_key (name k : string) :
  head (filter (λ k, lower k = lower (strip name)) vae_dict) = Some k →
  lower (strip k) = lower (strip name).
Proof.
  intros Hk. apply head_Some_elem_of, list_elem_of_filter in Hk as [Hk _].
  rewrite <- Hk. f_equal. unfold strip. rewrite trimmed_strip; [apply str_chars|].
  apply trimmed_lower. apply (f_equal chars) in Hk. unfold lower in Hk.
  rewrite !chars_str in Hk. rewrite Hk. apply trimmed_lower.
  unfold strip. rewrite chars_str. apply strip_is_trimmed.
Qed.

Lemma head_filter_first {A : Type} (P : A → Prop) `{∀ x, Decision (P x)}
    (l : list A) (k : A) :
  head (filter P l) = Some k →
  ∃ i, l !! i = Some k ∧ P k ∧ ∀ j a, (j < i)%nat → l !! j = Some a → ¬ P a.
Proof.
  induction l as [|a l IH]; [done|]. rewrite filter_cons. destruct (decide (P a)) as [Ha|Ha].
  - intros [= ->]. exists 0%nat. split; [done|]. split; [done|]. intros j b Hj. lia.
  - intros (i & Hi & Hk & Hfirst)%IH. exists (S i). split; [done|]. split; [done|].
    intros [|j] b Hj Hb; [by injection Hb as <-|]. apply (Hfirst j); [lia|done].
Qed.

(** X10. [find_vae] never fails: it answers "Automatic", "None" or the first
    name of the dictionary that is the asked one but for the case of the
    letters and the blanks around it, and "Automatic" when there is none.
    What it answers it maps to itself, and [apply_vae] stores it in the
    settings of the request. *)
Theorem find_vae_known (name : string) :
  (find_vae name = "Automatic" ∨ find_vae name = "None"
   ∨ ∃ i, vae_dict !! i = Some (find_vae name)
          ∧ lower (find_vae name) = lower (strip name)
          ∧ ∀ j k, (j < i)%nat → vae_dict !! j = Some k → lower k ≠ lower (strip name))
  ∧ find_vae (find_vae name) = find_vae name
  ∧ ∀ pc attrs d entries xs s,
      heap s !! pc = Some (HObj attrs) →
      attrs !! "override_settings" = Some (VRef d) →
      heap s !! d = Some (HDict entries) →
      apply_vae pc (VStr name) xs s
      = (Ok (), mkState (<[d := HDict (<["sd_vae" := VStr (find_vae name)]> entries)]>
                           (heap s)) (wld s)).
Proof.
  cut ((find_vae name = "Automatic" ∨ find_vae name = "None"
        ∨ ∃ i, vae_dict !! i = Some (find_vae name)
               ∧ lower (find_vae name) = lower (strip name)
               ∧ ∀ j k, (j < i)%nat → vae_dict !! j = Some k
                        → lower k ≠ lower (strip name))
       ∧ find_vae (find_vae name) = find_vae name).
  { intros [Hknown Hsame]. split; [done|]. split; [done|].
    intros pc attrs d entries xs s Hpc Hd Hentries. unfold apply_vae.
    rewrite (bind_Ok _ _ _ _ _ (getattr_Some _ _ _ _ _ Hpc Hd)).
    unfold dict_setitem. by rewrite (bind_Ok _ _ _ _ _ (load_Some _ _ _ Hentries)). }
  assert (find_vae "Automatic" = "Automatic") as Hauto by reflexivity.
  assert (find_vae "None" = "None") as Hnone by reflexivity.
  destruct (String.eqb (lower (strip name)) "auto"
            || String.eqb (lower (strip name)) "automatic") eqn:Ha.
  { assert (find_vae name = "Automatic") as -> by (unfold find_vae; by rewrite Ha).
    split; [by left|done]. }
  destruct (String.eqb (lower (strip name)) "none") eqn:Hn.
  { assert (find_vae name = "None") as -> by (unfold find_vae; by rewrite Ha, Hn).
    split; [right; by left|done]. }
  destruct (head (filter (λ k, lower k = lower (strip name)) vae_dict)) as [k|] eqn:Hk.
  - assert (find_vae name = k) as -> by (unfold find_vae; by rewrite Ha, Hn, Hk).
    split.
    + right. right. by apply head_filter_first in Hk.
    + unfold find_vae. by rewrite (find_vae_key _ _ Hk), Ha, Hn, Hk.
  - assert (find_vae name = "Automatic") as -> by (unfold find_vae; by rewrite Ha, Hn, Hk).
    split; [by left|done].
Qed.

End Vae.

(** Witness of [find_vae_known]: a name in capitals, among two files. *)
Lemma find_vae_known_witness :
  find_vae ["vae-ft-mse.safetensors"; "Anything.vae.pt"] " ANYTHING.VAE.PT "
  = "Anything.vae.pt"
  ∧ find_vae ["vae-ft-mse.safetensors"; "Anything.vae.pt"] "Anything.vae.pt"
    = "Anything.vae.pt".
Proof.
  pose proof (proj1 (proj2 (find_vae_known ["vae-ft-mse.safetensors"; "Anything.vae.pt"]
                              " ANYTHING.VAE.PT "))) as Hsame.
  split; [reflexivity|exact Hsame].
Defined.

(** ** [fix_axis_seeds]

    The random generator is a parameter: a state [rng], and [random.randrange]
    as a function that draws a number and gives the next state. *)

Section FixSeeds.
Context `{Webui}.
Variable rng : Type.
Variable randrange : Z → rng → Z * rng.
(** [x == n] for a float [x] and an integer [n] *)
Variable float_is : float → Z → bool.
Hypothesis randrange_range : ∀ n g, 0 < n → 0 ≤ (randrange n g).1 < n.

(** [val is None or val == "" or val == -1] *)
Definition no_seed (val : value) : bool :=
  match val with
  | VNone => true
  | VStr s => String.eqb s ""
  | VInt n => n =? -1
  | VFloat x => float_is x (-1)
  | VBool _ | VTuple _ | VRef _ => false
  end.

(** The list comprehension of [fix_axis_seeds], from left to right. *)
Fixpoint fix_seeds (axis_list : list value) (g : rng) : list value * rng :=
  match axis_list with
  | [] => ([], g)
  | val :: rest =>
      if no_seed val then
        let ng := randrange 4294967294 g in
        let r := fix_seeds rest ng.2 in
        (VInt ng.1 :: r.1, r.2)
      else
        let r := fix_seeds rest g in
        (val :: r.1, r.2)
  end.

Definition fix_axis_seeds (axis_opt : AxisOption) (axis_list : list value) (g : rng)
    : list value * rng :=
  if bool_decide (label axis_opt ∈ ["Seed"; "Var. seed"]) then fix_seeds axis_list g
  else (axis_list, g).

Lemma fix_seeds_spec (axis_list : list value) (g : rng) :
  length (fix_seeds axis_list g).1 = length axis_list
  ∧ ∀ i val, axis_list !! i = Some val →
      if no_seed val
      then ∃ n, (fix_seeds axis_list g).1 !! i = Some (VInt n) ∧ 0 ≤ n < 4294967294
      else (fix_seeds axis_list g).1 !! i = Some val.
Proof.
  revert g. induction axis_list as [|v rest IH]; intros g; [done|].
  cbn [fix_seeds]. destruct (no_seed v) eqn:Hv; cbn [fst length].
  - destruct (IH (randrange 4294967294 g).2) as [Hlen Hat]. split; [by rewrite Hlen|].
    intros [|i] val Hval.
    + injection Hval as <-. rewrite Hv. eexists. split; [done|].
      by apply randrange_range.
    + by apply Hat.
  - destruct (IH g) as [Hlen Hat]. split; [by rewrite Hlen|].
    intros [|i] val Hval.
    + injection Hval as <-. by rewrite Hv.
    + by apply Hat.
Qed.

(** X11. On the axes "Seed" and "Var. seed" every value that stands for no seed
    (None, the empty text, -1) gets a random seed of its own, which is not
    negative, and the seeds that were given stay where they are; the values
    of any other axis are not touched, and no number is drawn. *)
Theorem fix_axis_seeds_fixes (axis_opt : AxisOption) (axis_list : list value) (g : rng) :
  length (fix_axis_seeds axis_opt axis_list g).1 = length axis_list
  ∧ (∀ i val, axis_list !! i = Some val → no_seed val = false →
       (fix_axis_seeds axis_opt axis_list g).1 !! i = Some val)
  ∧ (label axis_opt = "Seed" ∨ label axis_opt = "Var. seed" →
     (∀ i val, axis_list !! i = Some val → no_seed val = true →
        ∃ n, (fix_axis_seeds axis_opt axis_list g).1 !! i = Some (VInt n)
             ∧ 0 ≤ n < 4294967294)
     ∧ Forall (λ val, no_seed val = false) (fix_axis_seeds axis_opt axis_list g).1)
  ∧ (label axis_opt ≠ "Seed" → label axis_opt ≠ "Var. seed" →
     fix_axis_seeds axis_opt axis_list g = (axis_list, g)).
Proof.
  destruct (fix_seeds_spec axis_list g) as [Hlen Hat].
  unfold fix_axis_seeds. destruct (bool_decide_reflect (label axis_opt ∈ ["Seed"; "Var. seed"]))
    as [Hin|Hout].
  - split; [done|]. split.
    { intros i val Hval Hv. specialize (Hat i val Hval). by rewrite Hv in Hat. }
    split.
    + intros _. split.
      { intros i val Hval Hv. specialize (Hat i val Hval). by rewrite Hv in Hat. }
      apply Forall_lookup. intros i val' Hval'.
      destruct (lookup_lt_is_Some_2 axis_list i) as [val Hval].
      { rewrite <- Hlen. by eapply lookup_lt_Some. }
      specialize (Hat i val Hval). destruct (no_seed val) eqn:Hv.
      * destruct Hat as (n & Hn & Hrange). rewrite Hn in Hval'. injection Hval' as <-.
        cbn. lia.
      * rewrite Hat in Hval'. by injection Hval' as <-.
    + intros Hs Hv. exfalso. apply elem_of_cons in Hin as [?|Hin]; [done|].
      apply elem_of_cons in Hin as [?|Hin]; [done|]. by apply elem_of_nil in Hin.
  - split; [done|]. split; [done|]. split; [|done].
    intros Hl. exfalso. apply Hout. destruct Hl as [-> | ->].
    + apply list_elem_of_here.
    + apply list_elem_of_further, list_elem_of_here.
Qed.

End FixSeeds.

(** Witness of [fix_axis_seeds_fixes]: a generator that counts, on a Seed
    axis with two seeds to draw. *)
Lemma fix_axis_seeds_fixes_witness :
  let randrange := λ (n g : Z), (g mod n, g + 1) in
  (fix_axis_seeds Z randrange (λ _ _, false) opt_Seed [VInt (-1); VInt 7; VInt (-1)] 100).1
  !! 1%nat = Some (VInt 7).
Proof.
  intros randrange.
  refine (proj1 (proj2 (fix_axis_seeds_fixes Z randrange (λ _ _, false) _ opt_Seed
                          [VInt (-1); VInt 7; VInt (-1)] 100)) 1%nat (VInt 7) eq_refl eq_refl).
  intros n g Hn. cbn. apply Z.mod_pos_bound. lia.
Defined.

(** ** An interrupted run of individual images *)

Section Interrupted.
Context `{Webui}.
Variables (p : loc) (xs ys zs : list value).
Variable the_cell : value → value → value → nat → nat → nat → M Processed.

Lemma for_each_same {A V : Type} (l : list A) (body : A → V → M V) v s :
  (∀ a, body a v s = (Ok v, s)) → for_each l body v s = (Ok v, s).
Proof.
  intros Hbody. induction l as [|a l IH]; [done|].
  cbn [for_each]. by rewrite (bind_Ok _ _ _ _ _ (Hbody a)).
Qed.

Lemma for_break_at_once {A V : Type} (l : list A) (body : A → V → M (bool * V)) v s :
  (∀ a, body a v s = (Ok (true, v), s)) → for_break l body v s = (Ok v, s).
Proof.
  intros Hbody. destruct l as [|a l]; [done|].
  cbn [for_break]. by rewrite (bind_Ok _ _ _ _ _ (Hbody a)).
Qed.

(** X12. When the job is interrupted before the run of individual images
    starts, the cell is not called for any value: whatever the cell is,
    the run returns the result with four empty lists, saves nothing and
    leaves the state as it is. *)
Theorem run_skip_grid_interrupted (s : state) (sd : value) :
  interrupted (wld s) = true →
  attr_of s p "seed" = Some sd →
  run_skip_grid p xs ys zs the_cell s = (Ok (clear (new_Processed s p [] sd "")), s)
  ∧ images (clear (new_Processed s p [] sd "")) = []
  ∧ infotexts (clear (new_Processed s p [] sd "")) = []
  ∧ all_prompts (clear (new_Processed s p [] sd "")) = []
  ∧ all_seeds (clear (new_Processed s p [] sd "")) = [].
Proof.
  intros Hi Hseed. split; [|apply clear_lists]. unfold run_skip_grid.
  rewrite (bind_Ok _ _ _ _ _ (failed_cell_seed _ _ _ Hseed)).
  erewrite bind_Ok; cycle 1.
  { apply for_each_same. intros izz. apply for_each_same. intros iyy.
    apply for_break_at_once. intros ixx.
    unfold skip_grid_round, bind, get_state. by rewrite Hi. }
  unfold bind, get_state. by destruct (grid_save (wld s)).
Qed.

End Interrupted.

(** Witness of [run_skip_grid_interrupted]: the small host, interrupted,
    with a cell that would fail if it were called. *)
Lemma run_skip_grid_interrupted_witness :
  let s := mkState (heap state0) (mkWorld true false false [] []) in
  run_skip_grid p0 [VInt 1; VInt 2] [VInt 0] [VInt 0]
    (λ _ _ _ _ _ _, raise RuntimeError) s
  = (Ok (clear (new_Processed s p0 [] (VInt 5) "")), s).
Proof.
  intros s.
  exact (proj1 (run_skip_grid_interrupted p0 [VInt 1; VInt 2] [VInt 0] [VInt 0]
                  (λ _ _ _ _ _ _, raise RuntimeError) s (VInt 5) eq_refl eq_refl)).
Defined.

(** ** The parser on values that are no range *)

Section Language.

(** The texts a pattern can match, whatever the priorities. *)
Fixpoint lang (r : regex) (l : list ascii) : Prop :=
  match r with
  | Eps => l = []
  | Chr p => ∃ c, l = [c] ∧ p c = true
  | Star p => Forall (λ c, p c = true) l
  | Seq a b => ∃ l1 l2, l = l1 ++ l2 ∧ lang a l1 ∧ lang b l2
  | Opt a => l = [] ∨ lang a l
  | Grp _ a => lang a l
  end.

Lemma star_sound {R : Type} p (k : list ascii → option R) s r :
  star p k s = Some r →
  ∃ l s', s = l ++ s' ∧ Forall (λ c, p c = true) l ∧ k s' = Some r.
Proof.
  induction s as [|c t IH]; cbn [star].
  - intros Hk. by exists [], [].
  - destruct (p c) eqn:Hc; [|intros Hk; by exists [], (c :: t)].
    destruct (star p k t) as [r'|] eqn:Ht.
    + intros [= <-]. destruct (IH eq_refl) as (l & s' & -> & Hl & Hk).
      exists (c :: l), s'. split; [done|]. split; [by constructor|done].
    + intros Hk. by exists [], (c :: t).
Qed.

Lemma rmatch_sound (r : regex) s cs k res :
  rmatch r s cs k = Some res →
  ∃ l s' cs', s = l ++ s' ∧ lang r l ∧ k s' cs' = Some res.
Proof.
  revert s cs k res. induction r as [|p|p|a IHa b IHb|a IHa|i a IHa];
    intros s cs k res; cbn [rmatch lang].
  - intros Hk. by exists [], s, cs.
  - destruct s as [|c t]; [done|]. destruct (p c) eqn:Hc; [|done].
    intros Hk. exists [c], t, cs. split; [done|]. split; [by exists c|done].
  - intros (l & s' & -> & Hl & Hk)%star_sound. by exists l, s', cs.
  - intros (l1 & s1 & cs1 & -> & H1 & Hb)%IHa.
    apply IHb in Hb as (l2 & s2 & cs2 & -> & H2 & Hk).
    exists (l1 ++ l2), s2, cs2. split; [by rewrite app_assoc|].
    split; [by exists l1, l2|done].
  - destruct (rmatch a s cs k) as [r'|] eqn:Ha.
    + intros [= <-]. apply IHa in Ha as (l & s' & cs' & -> & Hl & Hk).
      exists l, s', cs'. split; [done|]. split; [by right|done].
    + intros Hk. exists [], s, cs. split; [done|]. split; [by left|done].
  - intros (l & s' & cs' & -> & Hl & Hk)%IHa. by eexists l, s', _.
Qed.

Lemma fullmatch_lang (r : regex) (s : string) m :
  fullmatch r s = Some m → lang r (chars s).
Proof.
  unfold fullmatch. intros (l & s' & cs' & Hs & Hl & Hk)%rmatch_sound.
  destruct s' as [|? ?]; [|done]. rewrite app_nil_r in Hs. by rewrite Hs.
Qed.

(** A minus sign somewhere after a digit. *)
Definition dash_after_digit (l : list ascii) : Prop :=
  ∃ l1 d l2 l3, l = l1 ++ d :: l2 ++ "-"%char :: l3 ∧ is_digit d = true.

Lemma dash_after_digit_app (l l' : list ascii) :
  dash_after_digit l → dash_after_digit (l ++ l').
Proof.
  intros (l1 & d & l2 & l3 & -> & Hd). exists l1, d, l2, (l3 ++ l'). split; [|done].
  repeat (rewrite <- app_assoc || rewrite <- app_comm_cons). done.
Qed.

Lemma lang_Seq_dash (a b : regex) (l : list ascii) :
  (∀ g, lang a g → dash_after_digit g) → lang (a ⋅ b) l → dash_after_digit l.
Proof.
  intros Ha (l1 & l2 & -> & H1 & _). by apply dash_after_digit_app, Ha.
Qed.

(** The four patterns start alike: blanks, a number, blanks, a minus sign. *)
Lemma lang_range_head (number : regex) (l : list ascii) :
  (∀ g, lang number g → ∃ g1 d g2, g = g1 ++ d :: g2 ∧ is_digit d = true) →
  lang (ws ⋅ Grp 1 number ⋅ ws ⋅ lit "-") l → dash_after_digit l.
Proof.
  intros Hnumber (l3 & ldash & -> & (l2 & lws & -> & (lws0 & g & -> & _ & Hg) & _)
                  & (c & -> & Hc)).
  apply Hnumber in Hg as (g1 & d & g2 & -> & Hd).
  apply Ascii.eqb_eq in Hc as <-.
  exists (lws0 ++ g1), d, (g2 ++ lws), []. split; [|done].
  repeat (rewrite <- app_assoc || rewrite <- app_comm_cons). done.
Qed.

Lemma lang_digits g : lang digits g → ∃ d g2, g = d :: g2 ∧ is_digit d = true.
Proof. intros (l1 & l2 & -> & (d & -> & Hd) & _). by exists d, l2. Qed.

Lemma lang_int_number g :
  lang int_number g → ∃ g1 d g2, g = g1 ++ d :: g2 ∧ is_digit d = true.
Proof.
  intros (l1 & l2 & -> & _ & (d & g2 & -> & Hd)%lang_digits). by exists l1, d, g2.
Qed.

Lemma lang_float_number g :
  lang float_number g → ∃ g1 d g2, g = g1 ++ d :: g2 ∧ is_digit d = true.
Proof.
  intros (l1 & l3 & -> & (l0 & l2 & -> & _ & (d & g2 & -> & Hd)%lang_digits) & _).
  exists l0, d, (g2 ++ l3). split; [|done]. by rewrite <- app_assoc.
Qed.

Lemma range_patterns_dash (s : string) m :
  fullmatch re_range s = Some m ∨ fullmatch re_range_count s = Some m
  ∨ fullmatch re_range_float s = Some m ∨ fullmatch re_range_count_float s = Some m →
  dash_after_digit (chars s).
Proof.
  intros [Hm|[Hm|[Hm|Hm]]]; apply fullmatch_lang in Hm; revert Hm;
    do 4 (apply lang_Seq_dash; intros ?); apply lang_range_head;
    (apply lang_int_number || apply lang_float_number).
Qed.

Lemma int_literal_no_dash l n : int_literal l n → ¬ dash_after_digit l.
Proof.
  intros Hl (l1 & d & l2 & l3 & Heq & Hd).
  assert (∃ c ds, l = c :: ds ∧ Forall (λ c, is_digit c = true) ds) as (c & ds & -> & Hds).
  { destruct Hl as [ds [Hne Hds]|l' n' (c & ds & -> & _ & _ & Hds)%signed_literal_chars].
    - destruct ds as [|c ds]; [done|]. exists c, ds. split; [done|].
      by eapply Forall_inv_tail.
    - by exists c, ds. }
  assert ("-"%char ∈ ds) as Hin.
  { destruct l1 as [|c' l1]; injection Heq as -> ->.
    - apply elem_of_app. right. apply list_elem_of_here.
    - apply elem_of_app. right. apply list_elem_of_further.
      apply elem_of_app. right. apply list_elem_of_here. }
  rewrite Forall_forall in Hds. by apply Hds in Hin.
Qed.

End Language.

Section Tokens.

(** A value as it is written between two commas: blanks ([ahead] of them),
    the text of the value, and blanks of any kind after it. *)
Record token : Type := mkToken {
  ahead : nat;
  text : list ascii;
  behind : list ascii;
}.

Definition written (tk : token) : list ascii :=
  replicate (ahead tk) " "%char ++ text tk ++ behind tk.

Definition blanks (t : list ascii) : Prop :=
  Forall (λ c, is_space c = true ∧ csv_safe c = true) t.

(** The text is not empty, needs no quotes and has no blank at either end. *)
Definition plain (tk : token) : Prop :=
  clean (text tk) ∧ text tk ≠ [] ∧ blanks (behind tk).

Lemma csv_line_skip (fs : list string) (a : nat) (rest : list ascii) :
  csv_line {| csv_fields := fs; csv_field := []; csv_st := START_FIELD |}
    (replicate a " "%char ++ rest)
  = csv_line {| csv_fields := fs; csv_field := []; csv_st := START_FIELD |} rest.
Proof. induction a as [|a IH]; [done|]. cbn [replicate app csv_line]. exact IH. Qed.

Lemma csv_line_token (fs : list string) (tk : token) (rest : list ascii) :
  plain tk →
  csv_line {| csv_fields := fs; csv_field := []; csv_st := START_FIELD |}
    (written tk ++ ","%char :: rest)
  = csv_line {| csv_fields := fs ++ [str (text tk ++ behind tk)]; csv_field := [];
                csv_st := START_FIELD |} rest
  ∧ csv_line {| csv_fields := fs; csv_field := []; csv_st := START_FIELD |} (written tk)
    = Ok {| csv_fields := fs ++ [str (text tk ++ behind tk)]; csv_field := [];
            csv_st := START_RECORD |}.
Proof.
  destruct tk as [a f t]. unfold plain, written. cbn [ahead text behind].
  intros (Hf & Hne & Ht). destruct f as [|c f]; [done|].
  pose proof (clean_head c f Hf) as Hsp. destruct Hf as [Hsafe _].
  pose proof (Forall_inv Hsafe) as Hc. pose proof (Forall_inv_tail Hsafe) as Hf.
  apply csv_safe_facts in Hc as (Hnl & Hq & Hcomma & _).
  assert (Ascii.eqb c " " = false) as Hblank.
  { destruct (Ascii.eqb_spec c " ") as [->|]; [|done]. by vm_compute in Hsp. }
  assert (Forall (λ c, csv_safe c = true) (f ++ t)) as Hft.
  { apply Forall_app. split; [done|]. eapply Forall_impl; [exact Ht|]. by intros ? [_ ?]. }
  assert (∀ tl, csv_line {| csv_fields := fs; csv_field := []; csv_st := START_FIELD |}
                  (c :: tl)
                = csv_line {| csv_fields := fs; csv_field := [c]; csv_st := IN_FIELD |} tl)
    as Hstart.
  { intros tl. cbn [csv_line]. unfold parse_process_char. cbn [csv_st].
    by rewrite Hnl, Hq, Hblank, Hcomma. }
  split.
  - rewrite <- app_assoc, csv_line_skip. cbn [app]. rewrite Hstart.
    rewrite csv_line_safe by done.
    cbn [csv_line]. unfold parse_process_char. cbn [csv_st].
    change (is_newline ","%char) with false. cbn. done.
  - rewrite csv_line_skip. cbn [app]. rewrite Hstart.
    rewrite <- (app_nil_r (f ++ t)) at 1. rewrite csv_line_safe by done.
    done.
Qed.

Lemma csv_line_tokens (fs : list string) (tokens : list token) :
  tokens ≠ [] → Forall plain tokens →
  csv_line {| csv_fields := fs; csv_field := []; csv_st := START_FIELD |}
    (commas (written <$> tokens))
  = Ok {| csv_fields := fs ++ ((λ tk, str (text tk ++ behind tk)) <$> tokens);
          csv_field := []; csv_st := START_RECORD |}.
Proof.
  intros Hne Hall. revert fs. induction Hall as [|tk rest Htk Hrest IH]; intros fs; [done|].
  destruct rest as [|tk' rest].
  - cbn [commas fmap list_fmap]. exact (proj2 (csv_line_token fs tk [] Htk)).
  - change (commas (written <$> tk :: tk' :: rest))
      with (written tk ++ ","%char :: commas (written <$> tk' :: rest)).
    rewrite (proj1 (csv_line_token fs tk _ Htk)). rewrite IH by done.
    by rewrite fmap_cons, <- app_assoc.
Qed.

Lemma written_safe (tk : token) :
  plain tk → Forall (λ c, csv_safe c = true) (written tk) ∧ written tk ≠ [].
Proof.
  intros ((Hf & _) & Hne & Ht). unfold written. split.
  - apply Forall_app. split; [apply Forall_replicate; done|].
    apply Forall_app. split; [done|]. eapply Forall_impl; [exact Ht|]. by intros ? [_ ?].
  - intros Heq. apply app_eq_nil in Heq as [_ Heq]. by apply app_eq_nil in Heq as [? _].
Qed.

Lemma commas_written (tokens : list token) :
  tokens ≠ [] → Forall plain tokens →
  Forall (λ c, Ascii.eqb c LF = false) (commas (written <$> tokens))
  ∧ ∃ c l, commas (written <$> tokens) = c :: l ∧ is_newline c = false.
Proof.
  intros Hne Hall. induction Hall as [|tk rest Htk Hrest IH]; [done|].
  destruct (written_safe tk Htk) as [Hsafe Hw].
  assert (Forall (λ c, Ascii.eqb c LF = false) (written tk)) as Hlf.
  { eapply Forall_impl; [exact Hsafe|]. intros c Hc.
    by apply csv_safe_facts in Hc as (_ & _ & _ & ?). }
  assert (∀ tl, ∃ c l, written tk ++ tl = c :: l ∧ is_newline c = false) as Hhead.
  { intros tl. destruct (written tk) as [|c l]; [done|]. exists c, (l ++ tl).
    split; [done|]. by apply Forall_inv, csv_safe_facts in Hsafe as (? & _). }
  destruct rest as [|tk' rest].
  - cbn [commas fmap list_fmap]. split; [done|].
    destruct (Hhead []) as (c & l & Hcl & Hc). rewrite app_nil_r in Hcl. by exists c, l.
  - change (commas (written <$> tk :: tk' :: rest))
      with (written tk ++ ","%char :: commas (written <$> tk' :: rest)).
    split; [|apply Hhead].
    apply Forall_app. split; [done|]. constructor; [done|]. by apply IH.
Qed.

Lemma lstrip_all p (l r : list ascii) :
  Forall (λ c, p c = true) l → lstrip p (l ++ r) = lstrip p r.
Proof. induction 1 as [|c l Hc Hl IH]; [done|]. cbn. by rewrite Hc. Qed.

Lemma strip_token (tk : token) :
  plain tk → strip (str (text tk ++ behind tk)) = str (text tk).
Proof.
  destruct tk as [a f t]. unfold plain. cbn [text behind]. intros (Hf & Hne & Ht).
  unfold strip. rewrite chars_str. f_equal.
  destruct f as [|c f]; [done|]. pose proof (clean_head c f Hf) as Hc.
  change ((c :: f) ++ t) with (c :: (f ++ t)). rewrite lstrip_head by done.
  unfold rstrip. change (c :: f ++ t) with ((c :: f) ++ t). rewrite rev_app_distr.
  rewrite lstrip_all.
  - destruct Hf as [_ Hs]. rewrite lstrip_head in Hs by done. exact Hs.
  - apply Forall_rev. eapply Forall_impl; [exact Ht|]. by intros ? [? _].
Qed.

(** A line of plain values is read as their texts. *)
Lemma csv_tokens (tokens : list token) :
  tokens ≠ [] → Forall plain tokens →
  csv_string_to_list_strip (str (commas (written <$> tokens)))
  = Ok ((λ tk, str (text tk)) <$> tokens).
Proof.
  intros Hne Hall. unfold csv_string_to_list_strip, csv_reader_rows.
  rewrite chars_str.
  destruct (commas_written tokens Hne Hall) as (Hlf & c & l & Hline & Hc).
  rewrite split_lines_one by (done || by rewrite Hline).
  cbn [rev app csv_rows]. rewrite Hline, csv_line_record by done.
  rewrite <- Hline. rewrite csv_line_tokens by done.
  cbn [rbind csv_st csv_rows csv_reset csv_field csv_fields app concat].
  rewrite app_nil_r. f_equal.
  rewrite <- list_fmap_compose. apply Forall_fmap_ext_1.
  eapply Forall_impl; [exact Hall|]. intros tk Htk. cbn. by apply strip_token.
Qed.

End Tokens.

Section PlainValues.
Context `{Webui}.

Lemma no_range (f : list ascii) :
  ¬ dash_after_digit f →
  fullmatch re_range (str f) = None ∧ fullmatch re_range_count (str f) = None
  ∧ fullmatch re_range_float (str f) = None
  ∧ fullmatch re_range_count_float (str f) = None.
Proof.
  intros Hno.
  assert (∀ r, (∀ m, fullmatch r (str f) = Some m → dash_after_digit (chars (str f))) →
               fullmatch r (str f) = None) as Hnone.
  { intros r Hr. destruct (fullmatch r (str f)) as [m|] eqn:Hm; [|done].
    exfalso. apply Hno. rewrite <- (chars_str f). by apply (Hr m). }
  repeat split; apply Hnone; intros m Hm; apply (range_patterns_dash _ m); tauto.
Qed.

Lemma expand_plain (tk : token) :
  plain tk → ¬ dash_after_digit (text tk) →
  expand_int (str (text tk)) = Ok [VStr (str (text tk))]
  ∧ expand_float (str (text tk)) = Ok [VStr (str (text tk))].
Proof.
  intros (Hf & Hne & _) Hno. destruct (no_range _ Hno) as (Hr1 & Hr2 & Hr3 & Hr4).
  unfold expand_int, expand_float.
  rewrite (strip_clean _ Hf), (str_nonempty _ Hne). by rewrite Hr1, Hr2, Hr3, Hr4.
Qed.

Lemma rmapM_expand (tokens : list token) :
  Forall plain tokens → Forall (λ tk, ¬ dash_after_digit (text tk)) tokens →
  rmapM expand_int ((λ tk, str (text tk)) <$> tokens)
  = Ok ((λ tk, [VStr (str (text tk))]) <$> tokens)
  ∧ rmapM expand_float ((λ tk, str (text tk)) <$> tokens)
    = Ok ((λ tk, [VStr (str (text tk))]) <$> tokens).
Proof.
  intros Hall Hno. induction Hall as [|tk rest Htk Hrest IH]; [done|].
  destruct (expand_plain tk Htk (Forall_inv Hno)) as [Hi Hf].
  destruct (IH (Forall_inv_tail Hno)) as [IHi IHf].
  rewrite !fmap_cons. cbn [rmapM]. rewrite Hi, Hf. cbn [rbind]. by rewrite IHi, IHf.
Qed.

Lemma concat_singletons {A B : Type} (f : A → B) (l : list A) :
  concat ((λ a, [f a]) <$> l) = f <$> l.
Proof. induction l as [|a l IH]; [done|]. cbn. by rewrite IH. Qed.

Lemma rmapM_coerce_literals (tokens : list token) (ns : list Z) :
  Forall2 (λ tk n, int_literal (text tk) n) tokens ns →
  rmapM (coerce TInt) ((λ tk, VStr (str (text tk))) <$> tokens) = Ok (VInt <$> ns).
Proof.
  induction 1 as [|tk n tokens ns Hn Hrest IH]; [done|].
  rewrite !fmap_cons. cbn [rmapM coerce]. rewrite (py_int_literal _ _ Hn). cbn [rbind].
  by rewrite IH.
Qed.

(** X13. Values written one after the other with commas between them, blanks
    around them or not, are read one by one when none of them has a minus
    sign after a digit: no value is taken for a range, each is converted to
    the type of the axis, and the validator of the axis has the last word.
    So a list of integer literals, negative ones among them, is read as
    those integers. *)
Theorem process_axis_plain_values (p : loc) (csv_mode : bool) (opt : AxisOption)
    (tokens : list token) (dropdown : list string) :
  label opt ≠ "Nothing" →
  choices opt = None ∨ csv_mode = true →
  prepare opt = None →
  type opt ≠ TPermutations →
  tokens ≠ [] →
  Forall plain tokens →
  Forall (λ tk, ¬ dash_after_digit (text tk)) tokens →
  process_axis p csv_mode opt (str (commas (written <$> tokens))) dropdown
  = (vs <- rmapM (coerce (type opt)) ((λ tk, VStr (str (text tk))) <$> tokens) ;;
     confirmed p opt vs)%res
  ∧ ∀ ns, type opt = TInt → Forall2 (λ tk n, int_literal (text tk) n) tokens ns →
      process_axis p csv_mode opt (str (commas (written <$> tokens))) dropdown
      = confirmed p opt (VInt <$> ns).
Proof.
  intros Hlab Hcsv Hprep Hty Hne Hall Hno.
  destruct (rmapM_expand tokens Hall Hno) as [Hi Hf].
  assert (process_axis p csv_mode opt (str (commas (written <$> tokens))) dropdown
          = (vs <- rmapM (coerce (type opt)) ((λ tk, VStr (str (text tk))) <$> tokens) ;;
             confirmed p opt vs)%res) as Heq.
  { unfold process_axis.
    destruct (String.eqb_spec (label opt) "Nothing") as [|_]; [done|].
    rewrite Hprep.
    assert (match choices opt, csv_mode with
            | Some _, false => Ok dropdown
            | _, _ => csv_string_to_list_strip (str (commas (written <$> tokens)))
            end = Ok ((λ tk, str (text tk)) <$> tokens)) as ->.
    { rewrite csv_tokens by done.
      destruct Hcsv as [->| ->]; [done|]. by destruct (choices opt). }
    cbn [rbind].
    assert (VStr <$> ((λ tk, str (text tk)) <$> tokens)
            = (λ tk, VStr (str (text tk))) <$> tokens) as Hstr
      by (by rewrite <- list_fmap_compose).
    destruct (type opt); [| | |done].
    - rewrite Hi. cbn [rbind]. by rewrite concat_singletons.
    - rewrite Hf. cbn [rbind]. by rewrite concat_singletons.
    - cbn [rbind]. by rewrite Hstr. }
  split; [exact Heq|].
  intros ns Hint Hlit. rewrite Heq, Hint. by rewrite (rmapM_coerce_literals _ _ Hlit).
Qed.

End PlainValues.

(** Witness of [process_axis_plain_values]: three steps counts, one of
    them with blanks around it. *)
Lemma process_axis_plain_values_witness :
  process_axis p0 false opt_Steps "10, 20 ,+30" [] = Ok [VInt 10; VInt 20; VInt 30].
Proof.
  assert (∀ l, l ≠ [] → Forall (λ c, is_digit c = true) l → int_literal l (digits_value l))
    as Hlit by (intros l ? ?; by apply literal_digits).
  assert (int_literal (chars "10") 10) as H10 by (apply (Hlit (chars "10")); [done|by repeat constructor]).
  assert (int_literal (chars "20") 20) as H20 by (apply (Hlit (chars "20")); [done|by repeat constructor]).
  assert (int_literal (chars "+30") 30) as H30.
  { apply literal_signed. apply (literal_plus (chars "30")). split; [done|by repeat constructor]. }
  refine (proj2 (process_axis_plain_values p0 false opt_Steps
                   [mkToken 0 (chars "10") []; mkToken 1 (chars "20") (chars " ");
                    mkToken 0 (chars "+30") []] []
                   ltac:(discriminate) (or_introl eq_refl) eq_refl ltac:(discriminate)
                   ltac:(discriminate) _ _)
            [10; 20; 30] eq_refl _).
  - repeat constructor; done.
  - repeat constructor; by eapply int_literal_no_dash.
  - repeat constructor; done.
Defined.

(** ** The run that draws one grid *)

Section PlainRun.
Context `{Webui}.
Variables (p : loc) (x_opt y_opt z_opt : AxisOption) (xs ys zs : list value).
Variables (draw_legend draw_individual_labels : bool).
Variables (include_lone_images include_sub_grids : bool).
Variable margin_size : Z.
Variable the_cell : value → value → value → nat → nat → nat → M Processed.
Variables (first_axes second_axes : string).
Variable grid_infotext : loc.
Variable inv : state → Prop.

(** The labels of the values can be formatted. *)
Definition labelled (opt : AxisOption) : Prop :=
  ∀ v, ∃ l, format_value opt p (label opt) v = Ok l.

(** [grid_infotext] is the list that [run] made. *)
Definition has_grid_infotext : Prop :=
  ∀ s, inv s →
    ∃ items, heap s !! grid_infotext = Some (HList items)
             ∧ length items = (1 + length zs)%nat.

Lemma labels_total (opt : AxisOption) (vs : list value) s :
  labelled opt →
  ∃ ls, labels p opt vs s = (Ok ls, s) ∧ length ls = length vs.
Proof.
  intros Hopt. unfold labels, lift.
  assert (∃ ls, rmapM (format_value opt p (label opt)) vs = Ok ls ∧ length ls = length vs)
    as (ls & -> & Hlen).
  { induction vs as [|v vs (ls & IH & Hlen)]; [by exists []|].
    destruct (Hopt v) as [l Hl]. exists (l :: ls). cbn [rmapM]. rewrite Hl, IH.
    split; [done|]. cbn. by rewrite Hlen. }
  by exists ls.
Qed.

Lemma save_entry_at (r : Processed) (i : nat) (name : string) (grid : bool) s :
  save_returns inv → inv s → Forall (λ oi, is_Some oi) (images r) →
  (i < length (images r))%nat → (i < length (infotexts r))%nat →
  (i < length (all_prompts r))%nat → (i < length (all_seeds r))%nat →
  ∃ s', save_entry r i name grid s = (Ok (), s') ∧ inv s'.
Proof.
  intros Hsave Hs Hall Hi Hf Hp Hsd. unfold save_entry, bind, lift, py_index.
  destruct (lookup_lt_is_Some_2 (images r) i Hi) as [oi Hoi].
  destruct (lookup_lt_is_Some_2 (infotexts r) i Hf) as [info Hinfo].
  destruct (lookup_lt_is_Some_2 (all_prompts r) i Hp) as [pr Hpr].
  destruct (lookup_lt_is_Some_2 (all_seeds r) i Hsd) as [sd Hsd'].
  rewrite Hoi, Hinfo, Hpr, Hsd'. cbn [of_option].
  rewrite Forall_forall in Hall.
  destruct (Hall oi (list_elem_of_lookup_2 _ _ _ Hoi)) as [img ->]. cbn [of_option].
  by apply Hsave.
Qed.

Lemma save_lone_total (idx : nat) imgs infos prompts seeds s :
  save_returns inv → inv s → Forall (λ oi, is_Some oi) imgs →
  ∃ s', save_lone idx imgs infos prompts seeds s = (Ok (), s') ∧ inv s'.
Proof.
  intros Hsave Hs Hall. revert idx infos prompts seeds s Hs.
  induction Hall as [|oi imgs [img ->] Hall IH]; intros idx infos prompts seeds s Hs.
  - by exists s.
  - destruct infos as [|info infos]; [by exists s|].
    destruct prompts as [|pr prompts]; [by exists s|].
    destruct seeds as [|sd seeds]; [by exists s|].
    cbn [save_lone]. unfold bind at 1, lift. cbn [of_option].
    destruct (Hsave img ("xyz_grid_image_" +:+ Z_str (Z.of_nat idx + 1)) info pr sd false s Hs)
      as (s1 & Hsaved & Hs1).
    unfold bind. rewrite Hsaved. by apply IH.
Qed.

(** The run of one grid: no paging, and [skip_grid] off. *)
Definition plain_run : M Processed :=
  run_plain p x_opt y_opt z_opt xs ys zs draw_legend draw_individual_labels false
    include_lone_images include_sub_grids margin_size the_cell first_axes second_axes
    grid_infotext.

(** X14. When every call of the cell and of the saving returns, the run that
    draws one grid returns.  All its images are there: the grid, then the
    grids of the slices if they are included, then the images of the cells
    if they are included.  There are as many infotexts as images; the
    prompts and the seeds are as many when the images of the cells are left
    out, and one fewer when they are included. *)
Theorem run_plain_images s :
  total_cell the_cell inv → save_returns inv → has_grid_infotext →
  labelled x_opt → labelled y_opt → labelled z_opt →
  planned first_axes second_axes →
  xs ≠ [] → ys ≠ [] → zs ≠ [] → inv s →
  ∃ r s',
    plain_run s = (Ok r, s')
    ∧ inv s'
    ∧ Forall (λ oi, is_Some oi) (images r)
    ∧ length (images r)
      = (1 + (if include_sub_grids then length zs else 0)
         + (if include_lone_images then list_size xs ys zs else 0))%nat
    ∧ length (infotexts r) = length (images r)
    ∧ length (all_prompts r)
      = (length (images r) - (if include_lone_images then 1 else 0))%nat
    ∧ length (all_seeds r)
      = (length (images r) - (if include_lone_images then 1 else 0))%nat.
Proof.
  intros Hcell Hsave Hgi Hx Hy Hz Hplan Hxs Hys Hzs Hs.
  destruct (labels_total x_opt xs s Hx) as (xl & Hxl & Hxlen).
  destruct (labels_total y_opt ys s Hy) as (yl & Hyl & Hylen).
  destruct (labels_total z_opt zs s Hz) as (zl & Hzl & Hzlen).
  destruct (draw_xyz_grid_total p xs ys zs xl yl zl draw_legend draw_individual_labels
              margin_size the_cell inv first_axes second_axes s)
    as (r & s1 & Hr & Hs1 & Hall & Hli & Hlf & Hlp & Hls); [done|done| |done|done|done|done|].
  { by intros _. }
  assert (list_size xs ys zs ≠ 0%nat) as Hn by (intros [?|[?|?]]%list_size_0; done).
  set (n := list_size xs ys zs) in *.
  assert (draw p x_opt y_opt z_opt draw_legend draw_individual_labels margin_size the_cell
            first_axes second_axes xs ys zs s = (Ok r, s1)) as Hdraw.
  { unfold draw. rewrite (bind_Ok _ _ _ _ _ Hxl), (bind_Ok _ _ _ _ _ Hyl).
    by rewrite (bind_Ok _ _ _ _ _ Hzl). }
  unfold plain_run, run_plain. rewrite (bind_Ok _ _ _ _ _ Hdraw).
  assert (∃ i0 irest, images r = i0 :: irest) as (i0 & irest & Himg).
  { destruct (images r); [simpl in Hli; lia|by eexists _, _]. }
  rewrite Himg.
  destruct (Hgi s1 Hs1) as (items & Hitems & Hilen).
  rewrite (bind_Ok _ _ _ _ _ (load_Some _ _ _ Hitems)).
  rewrite (bind_Ok _ _ _ items s1 eq_refl).
  set (P := set_infotexts r _).
  assert (images P = images r ∧ all_prompts P = all_prompts r ∧ all_seeds P = all_seeds r
          ∧ length (infotexts P) = (1 + length zs + n)%nat) as (HPi & HPp & HPs & HPf).
  { subst P. unfold set_infotexts. cbn [images all_prompts all_seeds infotexts].
    split; [done|]. split; [done|]. split; [done|].
    rewrite length_app, length_fmap, length_take, length_drop. lia. }
  clearbody P. unfold lone_images, sub_grids.
  unfold bind at 1, get_state.
  match goal with
  | |- ∃ r0 s', bind ?m ?k s1 = _ ∧ _ =>
      assert (∃ s2, m s1 = (Ok (), s2) ∧ inv s2) as (s2 & Hsaved & Hs2)
  end.
  { destruct (grid_save (wld s1)); [|by exists s1].
    destruct (save_entry_at P 0 "xyz_grid" true s1) as (sa & Ha & Hsa);
      [done|done|by rewrite HPi|rewrite HPi; lia|lia|rewrite HPp; lia|rewrite HPs; lia|].
    rewrite (bind_Ok _ _ _ _ _ Ha).
    match goal with
    | |- ∃ s2, bind ?m ?k sa = _ ∧ _ =>
        assert (∃ sb, m sa = (Ok (), sb) ∧ inv sb) as (sb & Hb & Hsb)
    end.
    { destruct include_sub_grids; [|by exists sa].
      destruct (for_each_total (λ _ s, inv s) (seq 1 (length zs))
                  (λ idx _, save_entry P idx ("xyz_grid_z_" +:+ Z_str (Z.of_nat idx)) true))
        with (v := ()) (s := sa) as ([] & sb & Hloop & Hsb); [|done|by exists sb].
      intros idx [] s0 Hidx%elem_of_seq Hs0.
      destruct (save_entry_at P idx ("xyz_grid_z_" +:+ Z_str (Z.of_nat idx)) true s0)
        as (s' & Hs' & Hinv');
        [done|done|by rewrite HPi|rewrite HPi; lia|lia|rewrite HPp; lia|rewrite HPs; lia|].
      by exists (), s'. }
    rewrite (bind_Ok _ _ _ _ _ Hb).
    destruct include_lone_images; [|by exists sb].
    apply save_lone_total; [done|done|]. rewrite HPi. by apply Forall_drop. }
  rewrite (bind_Ok _ _ _ _ _ Hsaved).
  destruct (infotexts P) as [|f0 frest] eqn:Hinfo; [simpl in HPf; lia|].
  destruct (all_prompts r) as [|p0 prest] eqn:Hprompts; [simpl in Hlp; lia|].
  destruct (all_seeds r) as [|d0 drest] eqn:Hseeds; [simpl in Hls; lia|].
  rewrite HPi, HPp, HPs, Himg in *.
  cbn [length] in Hli, HPf, Hlp, Hls.
  pose proof (Forall_inv Hall) as Hi0. pose proof (Forall_inv_tail Hall) as Hirest.
  clear Hsaved Hdraw Hr Hxl Hyl Hzl Hitems. clearbody n.
  destruct include_lone_images, include_sub_grids.
  - eexists _, s2. split; [reflexivity|]. split; [done|].
    cbn [images infotexts all_prompts all_seeds set_images set_infotexts set_all_prompts
           set_all_seeds].
    unfold py_slice. replace (length zs + 1)%nat with (S (length zs)) by lia.
    cbn [drop length]. rewrite !length_app, !length_take, !length_drop.
    split.
    + constructor; [done|]. apply Forall_app.
      split; [by apply Forall_take|by apply Forall_drop].
    + revert Hli HPf Hlp Hls Hn.
      generalize (length irest), (length frest), (length prest), (length drest),
        (length zs), n.
      clear. intros. repeat split; lia.
  - eexists _, s2. split; [reflexivity|]. split; [done|].
    cbn [images infotexts all_prompts all_seeds set_images set_infotexts set_all_prompts
           set_all_seeds app].
    replace (length zs + 1)%nat with (S (length zs)) by lia. cbn [drop length].
    rewrite !length_drop.
    split.
    + constructor; [done|]. by apply Forall_drop.
    + revert Hli HPf Hlp Hls Hn.
      generalize (length irest), (length frest), (length prest), (length drest),
        (length zs), n.
      clear. intros. repeat split; lia.
  - eexists _, s2. split; [reflexivity|]. split; [done|].
    cbn [images infotexts all_prompts all_seeds set_images set_infotexts set_all_prompts
           set_all_seeds].
    replace (length zs + 1)%nat with (S (length zs)) by lia. cbn [take length].
    rewrite !length_take.
    split.
    + constructor; [done|]. by apply Forall_take.
    + revert Hli HPf Hlp Hls Hn.
      generalize (length irest), (length frest), (length prest), (length drest),
        (length zs), n.
      clear. intros. repeat split; lia.
  - eexists _, s2. split; [reflexivity|]. split; [done|].
    cbn. split; [by constructor|]. done.
Qed.


End PlainRun.

(** Witness of [run_plain_images]: two seeds on X, with the grid of the
    slice and the two images of the cells. *)
Lemma run_plain_images_witness :
  let s := mkState (heap state0 ++ [HList [VNone; VNone]]) world0 in
  ∃ r s',
    plain_run p0 opt_Seed opt_Nothing opt_Nothing [VInt 1; VInt 2] nothing nothing
      true false true true 0 demo_cell "x" "y" 4%nat s = (Ok r, s')
    ∧ length (images r) = 4%nat
    ∧ length (all_prompts r) = 3%nat.
Proof.
  intros s.
  destruct (run_plain_images p0 opt_Seed opt_Nothing opt_Nothing [VInt 1; VInt 2] nothing
              nothing true false true true 0 demo_cell "x" "y" 4%nat
              (λ s, heap s !! 4%nat = Some (HList [VNone; VNone])) s)
    as (r & s' & Hrun & _ & _ & Hlen & _ & Hlp & _).
  - intros x y z ix iy iz s0 Hs0. eexists _, _. split; [reflexivity|]. split.
    + unfold well_formed, demo_result. cbn [cx cy].
      destruct x; try (by left). destruct y; try (by left).
      right. eexists _, _. split; [reflexivity|discriminate].
    + cbn [heap]. by apply lookup_app_l_Some.
  - intros img name info pr sd grid s0 Hs0. eexists. split; [reflexivity|exact Hs0].
  - intros s0 Hs0. by exists [VNone; VNone].
  - intros v. by eexists.
  - intros v. by eexists.
  - intros v. by eexists.
  - left. split; [reflexivity|left; reflexivity].
  - discriminate.
  - discriminate.
  - discriminate.
  - reflexivity.
  - exists r, s'. split; [exact Hrun|]. split; [exact Hlen|].
    rewrite Hlp, Hlen. reflexivity.
Defined.

(** ** The axis "Prompt order" *)

Section Orderings.
Context `{Webui}.

Lemma rmapM_coerce_permutations (vs : list value) :
  rmapM (coerce TPermutations) vs = Ok vs.
Proof. induction vs as [|v vs IH]; [done|]. cbn [rmapM coerce rbind]. by rewrite IH. Qed.

(** X15. The words of an axis of orderings, written with commas between them,
    are read as every arrangement of the words: as many values as the
    factorial of their number, the first being the words as they are
    written, each being a rearrangement of them, and no arrangement coming
    twice when no word does. *)
Theorem process_axis_permutations (p : loc) (csv_mode : bool) (opt : AxisOption)
    (tokens : list token) (dropdown : list string) :
  label opt ≠ "Nothing" →
  choices opt = None ∨ csv_mode = true →
  prepare opt = None →
  type opt = TPermutations →
  tokens ≠ [] →
  Forall plain tokens →
  let words := (λ tk, str (text tk)) <$> tokens in
  let values := VTuple <$> py_permutations words in
  process_axis p csv_mode opt (str (commas (written <$> tokens))) dropdown
  = confirmed p opt values
  ∧ length values = fact (length tokens)
  ∧ head values = Some (VTuple words)
  ∧ (∀ t, VTuple t ∈ values ↔ t ≡ₚ words)
  ∧ (NoDup words → NoDup values).
Proof.
  intros Hlab Hcsv Hprep Hty Hne Hall words values.
  destruct (py_permutations_all words) as (Hlen & Hhead & Helem & Hnd).
  split; [|split; [|split; [|split]]].
  - unfold process_axis.
    destruct (String.eqb_spec (label opt) "Nothing") as [|_]; [done|].
    rewrite Hprep, Hty.
    assert (match choices opt, csv_mode with
            | Some _, false => Ok dropdown
            | _, _ => csv_string_to_list_strip (str (commas (written <$> tokens)))
            end = Ok words) as ->.
    { rewrite csv_tokens by done.
      destruct Hcsv as [->| ->]; [done|]. by destruct (choices opt). }
    cbn [rbind]. by rewrite rmapM_coerce_permutations.
  - subst values words. by rewrite length_fmap, Hlen, length_fmap.
  - subst values. destruct (py_permutations words); [done|]. by injection Hhead as ->.
  - intros t. subst values. rewrite <- Helem. split.
    + by intros (t' & [= ->] & Ht)%list_elem_of_fmap_1.
    + intros Ht. by apply list_elem_of_fmap_2.
  - intros Hw. subst values. apply NoDup_fmap_2; [|by apply Hnd].
    by intros ? ? [=].
Qed.

End Orderings.

(** Witness of [process_axis_permutations]: three words. *)
Lemma process_axis_permutations_witness :
  process_axis p0 true (opt_Prompt_order_with do_nothing) "cat, dog ,bird" []
  = Ok (VTuple <$> [["cat"; "dog"; "bird"]; ["cat"; "bird"; "dog"]; ["dog"; "cat"; "bird"];
                    ["dog"; "bird"; "cat"]; ["bird"; "cat"; "dog"]; ["bird"; "dog"; "cat"]]).
Proof.
  refine (proj1 (process_axis_permutations p0 true (opt_Prompt_order_with do_nothing)
                   [mkToken 0 (chars "cat") []; mkToken 1 (chars "dog") (chars " ");
                    mkToken 0 (chars "bird") []] []
                   ltac:(discriminate) (or_intror eq_refl) eq_refl eq_refl
                   ltac:(discriminate) _)).
  repeat constructor; done.
Defined.

(** ** The axis "Prompt order": [apply_order] *)

(** [a.find(sub)], counted from [i]: the first position of [sub], or -1 *)
Fixpoint find_from (sub a : list ascii) (i : Z) : Z :=
  if is_prefix sub a then i
  else
    match a with
    | [] => -1
    | _ :: t => find_from sub t (i + 1)
    end.

Definition find (a sub : string) : Z := find_from (chars sub) (chars a) 0.

(** The position that the index [i] of a slice stands for in a text of
    [len] characters. *)
Definition slice_pos (len : nat) (i : Z) : nat :=
  Z.to_nat (if i <? 0 then Z.max 0 (Z.of_nat len + i) else Z.min i (Z.of_nat len)).

(** [a[i:j]], and [a[i:]] for no [j] *)
Definition str_slice (a : string) (i : Z) (j : option Z) : string :=
  let len := length (chars a) in
  let i' := slice_pos len i in
  let j' := match j with Some j => slice_pos len j | None => len end in
  str (take (j' - i') (drop i' (chars a))).

(** [l.sort(key=lambda t: t[0])]: entries of one key stay in their order. *)
Fixpoint insert_by_key {A : Type} (x : Z * A) (l : list (Z * A)) : list (Z * A) :=
  match l with
  | [] => [x]
  | y :: t => if x.1 <=? y.1 then x :: l else y :: insert_by_key x t
  end.

Definition sort_by_key {A : Type} (l : list (Z * A)) : list (Z * A) :=
  foldr insert_by_key [] l.

Section Order.
Context `{Webui}.
Local Open Scope m_scope.

(** [p.prompt], for a method of [str] to be called on it *)
Definition get_prompt (p : loc) : M string :=
  v <- getattr p "prompt" ;;
  match v with
  | VStr a => ret a
  | _ => raise AttributeError
  end.

(** A value as an argument that has to be a text *)
Definition as_token (v : value) : M string :=
  match v with
  | VStr t => ret t
  | _ => raise TypeError
  end.

(** What [for token in x] goes through: the words of a tuple, the
    characters of a text, the items of a list. *)
Definition iter (x : value) : M (list value) :=
  match x with
  | VTuple t => ret (VStr <$> t)
  | VStr a => ret ((λ c, VStr (String c "")) <$> chars a)
  | VRef l =>
      o <- load l ;;
      match o with
      | HList items => ret items
      | _ => raise TypeError
      end
  | _ => raise TypeError
  end.

Definition apply_order (p : loc) (x : value) (xs : list value) : M unit :=
  items <- iter x ;;
  token_order <-
    for_each items (λ token token_order,
      prompt <- get_prompt p ;;
      token <- as_token token ;;
      ret (token_order ++ [(find prompt token, token)])) [] ;;
  let token_order := sort_by_key token_order in
  prompt_parts <-
    for_each token_order (λ nt prompt_parts,
      prompt <- get_prompt p ;;
      let n := find prompt nt.2 in
      let part := str_slice prompt 0 (Some n) in
      setattr p "prompt"
        (VStr (str_slice prompt (n + Z.of_nat (String.length nt.2)) None)) ;;
      ret (prompt_parts ++ [part])) [] ;;
  prompt_tmp <-
    for_each (enumerate prompt_parts) (λ ip prompt_tmp,
      token <- lift (py_index items ip.1) ;;
      token <- as_token token ;;
      ret ((prompt_tmp +:+ ip.2) +:+ token)) "" ;;
  v <- getattr p "prompt" ;;
  match v with
  | VStr prompt => setattr p "prompt" (VStr (prompt_tmp +:+ prompt))
  | _ => raise TypeError
  end.

(** *** Texts *)

Lemma chars_app (a b : string) : chars (a +:+ b) = chars a ++ chars b.
Proof. unfold chars. induction a as [|c a IH]; [done|]. simpl. by rewrite IH. Qed.

Lemma length_chars (a : string) : length (chars a) = String.length a.
Proof. unfold chars. induction a as [|c a IH]; [done|]. simpl. by rewrite IH. Qed.

Lemma string_app_assoc (a b c : string) : (a +:+ b) +:+ c = a +:+ b +:+ c.
Proof.
  rewrite <- (str_chars ((a +:+ b) +:+ c)), <- (str_chars (a +:+ b +:+ c)).
  by rewrite !chars_app, app_assoc.
Qed.

Lemma string_app_nil_r (a : string) : a +:+ "" = a.
Proof.
  rewrite <- (str_chars (a +:+ "")), chars_app. cbn. by rewrite app_nil_r, str_chars.
Qed.

(** *** [find] *)

(** [sub] is at position [k] of [a], and nowhere before. *)
Definition first_at (sub a : list ascii) (k : nat) : Prop :=
  (k ≤ length a)%nat ∧ is_prefix sub (drop k a) = true
  ∧ ∀ j, (j < k)%nat → is_prefix sub (drop j a) = false.

Lemma find_from_first (sub a : list ascii) (i : Z) (k : nat) :
  first_at sub a k → find_from sub a i = i + Z.of_nat k.
Proof.
  revert i k. induction a as [|c a IH]; intros i k (Hk & Hat & Hbefore).
  - cbn in Hk. assert (k = 0%nat) as -> by lia. cbn in Hat. cbn. rewrite Hat. lia.
  - cbn [find_from]. destruct k as [|k].
    + cbn in Hat. rewrite Hat. lia.
    + pose proof (Hbefore 0%nat ltac:(lia)) as Hnot. cbn [drop] in Hnot. rewrite Hnot.
      rewrite (IH (i + 1) k); [lia|].
      split; [cbn in Hk; lia|]. split; [done|].
      intros j Hj. apply (Hbefore (S j)). lia.
Qed.

Lemma first_at_suffix (sub pre a : list ascii) (k : nat) :
  first_at sub (pre ++ a) (length pre + k) → first_at sub a k.
Proof.
  intros (Hk & Hat & Hbefore). split; [rewrite length_app in Hk; lia|].
  split.
  - by rewrite drop_app_add in Hat.
  - intros j Hj. specialize (Hbefore (length pre + j)%nat ltac:(lia)).
    by rewrite drop_app_add in Hbefore.
Qed.

Lemma find_from_range (sub a : list ascii) (i : Z) :
  find_from sub a i = -1
  ∨ ∃ k, find_from sub a i = i + Z.of_nat k ∧ first_at sub a k.
Proof.
  revert i. induction a as [|c a IH]; intros i; cbn [find_from].
  - destruct (is_prefix sub []) eqn:Hp; [|by left].
    right. exists 0%nat. split; [lia|]. split; [done|]. split; [done|]. intros j Hj. lia.
  - destruct (is_prefix sub (c :: a)) eqn:Hp.
    + right. exists 0%nat. split; [lia|]. split; [cbn; lia|]. split; [done|].
      intros j Hj. lia.
    + destruct (IH (i + 1)) as [Hnone|(k & Hk & Hle & Hat & Hbefore)]; [by left|].
      right. exists (S k). split; [lia|]. split; [cbn; lia|]. split; [done|].
      intros [|j] Hj; [done|]. apply Hbefore. lia.
Qed.

Lemma find_first (a sub : string) (k : nat) :
  find a sub = Z.of_nat k ↔ first_at (chars sub) (chars a) k.
Proof.
  unfold find. split.
  - intros Hk. destruct (find_from_range (chars sub) (chars a) 0)
      as [Hnone|(k' & Hk' & Hfirst)]; [lia|].
    by assert (k = k') as -> by lia.
  - intros Hfirst. by rewrite (find_from_first _ _ 0 k).
Qed.

Lemma length_string_app (a b : string) :
  String.length (a +:+ b) = (String.length a + String.length b)%nat.
Proof. by rewrite <- !length_chars, chars_app, length_app. Qed.

(** *** Slices *)

Lemma slice_pos_in (len k : nat) : (k ≤ len)%nat → slice_pos len (Z.of_nat k) = k.
Proof.
  intros Hk. unfold slice_pos. destruct (Z.ltb_spec (Z.of_nat k) 0); lia.
Qed.

Lemma str_slice_head (a b : string) :
  str_slice (a +:+ b) 0 (Some (Z.of_nat (String.length a))) = a.
Proof.
  unfold str_slice. rewrite chars_app, length_app, <- length_chars.
  change 0 with (Z.of_nat 0). rewrite !slice_pos_in by lia.
  rewrite drop_0, Nat.sub_0_r, take_app_length. apply str_chars.
Qed.

Lemma str_slice_tail (a b : string) :
  str_slice (a +:+ b) (Z.of_nat (String.length a)) None = b.
Proof.
  unfold str_slice. rewrite chars_app, length_app, <- length_chars.
  rewrite slice_pos_in by lia.
  rewrite drop_app_length, take_ge by lia. apply str_chars.
Qed.

(** *** The sort *)

(** The keys grow along the list. *)
Fixpoint increasing {A : Type} (l : list (Z * A)) : Prop :=
  match l with
  | [] => True
  | x :: t => Forall (λ y, x.1 < y.1) t ∧ increasing t
  end.

Lemma increasing_middle {A : Type} (l1 l2 : list (Z * A)) (x : Z * A) :
  increasing (l1 ++ x :: l2) →
  Forall (λ a, a.1 < x.1) l1 ∧ Forall (λ b, x.1 < b.1) l2 ∧ increasing (l1 ++ l2).
Proof.
  induction l1 as [|a l1 IH]; cbn [app increasing].
  - intros [Hx Hl2]. by split.
  - intros [Ha Hinc]. destruct (IH Hinc) as (Hl1 & Hl2 & Hrest).
    apply Forall_app in Ha as [Ha1 Ha2].
    split; [constructor; [by apply Forall_inv in Ha2|done]|].
    split; [done|]. split; [|done].
    apply Forall_app. split; [done|]. by eapply Forall_inv_tail.
Qed.

Lemma insert_by_key_middle {A : Type} (l1 l2 : list (Z * A)) (x : Z * A) :
  Forall (λ a, a.1 < x.1) l1 → Forall (λ b, x.1 < b.1) l2 →
  insert_by_key x (l1 ++ l2) = l1 ++ x :: l2.
Proof.
  intros Hl1 Hl2. induction Hl1 as [|a l1 Ha Hl1 IH]; cbn [app insert_by_key].
  - destruct Hl2 as [|b l2 Hb Hl2]; [done|]. cbn [insert_by_key].
    cbn beta in Hb. destruct (Z.leb_spec x.1 b.1); [done|lia].
  - cbn beta in Ha. destruct (Z.leb_spec x.1 a.1); [lia|]. by rewrite IH.
Qed.

Lemma sort_by_key_increasing {A : Type} (l sorted : list (Z * A)) :
  increasing sorted → l ≡ₚ sorted → sort_by_key l = sorted.
Proof.
  revert sorted. induction l as [|x l IH]; intros sorted Hinc Hperm.
  - by apply Permutation_nil in Hperm as ->.
  - assert (x ∈ sorted) as (l1 & l2 & ->)%list_elem_of_split.
    { rewrite <- Hperm. apply list_elem_of_here. }
    apply Permutation_cons_app_inv in Hperm.
    apply increasing_middle in Hinc as (Hl1 & Hl2 & Hinc).
    cbn [sort_by_key foldr]. fold (sort_by_key l). rewrite (IH (l1 ++ l2)) by done.
    by apply insert_by_key_middle.
Qed.

(** *** A prompt laid out as gaps and words *)

(** The text made of each gap followed by its word, and of [rest]. *)
Fixpoint laid (layout : list (string * string)) (rest : string) : string :=
  match layout with
  | [] => rest
  | gt :: t => gt.1 +:+ gt.2 +:+ laid t rest
  end.

(** The places of the words, the text starting at [base], with the words. *)
Fixpoint offsets (layout : list (string * string)) (base : nat) : list (Z * string) :=
  match layout with
  | [] => []
  | gt :: t =>
      (Z.of_nat (base + String.length gt.1), gt.2)
      :: offsets t (base + String.length gt.1 + String.length gt.2)
  end.

(** Each word is found first after its gap in what is left of the text. *)
Fixpoint found_in_turn (layout : list (string * string)) (rest : string) : Prop :=
  match layout with
  | [] => True
  | gt :: t =>
      find (laid layout rest) gt.2 = Z.of_nat (String.length gt.1)
      ∧ found_in_turn t rest
  end.

Lemma laid_app (layout : list (string * string)) (rest : string) :
  laid layout "" +:+ rest = laid layout rest.
Proof.
  induction layout as [|gt t IH]; [done|]. cbn [laid].
  by rewrite !string_app_assoc, IH.
Qed.

Lemma length_laid_next (gt : string * string) (t : list (string * string)) (i : nat)
    (gap : string) :
  String.length (laid (take (S i) (gt :: t)) "" +:+ gap)
  = (String.length gt.1 + String.length gt.2
     + String.length (laid (take i t) "" +:+ gap))%nat.
Proof. cbn [take laid]. rewrite !string_app_assoc, !length_string_app. lia. Qed.

Lemma keys_offsets (prompt : string) (layout : list (string * string)) (base : nat) :
  (∀ i gt, layout !! i = Some gt →
     find prompt gt.2
     = Z.of_nat (base + String.length (laid (take i layout) "" +:+ gt.1))) →
  (λ gt, (find prompt gt.2, gt.2)) <$> layout = offsets layout base.
Proof.
  revert base. induction layout as [|gt t IH]; intros base Hat; [done|].
  cbn [fmap list_fmap offsets]. f_equal.
  - by rewrite (Hat 0%nat gt eq_refl).
  - apply IH. intros i gt' Hi. rewrite (Hat (S i) gt' Hi), length_laid_next. f_equal. lia.
Qed.

Lemma offsets_lower (layout : list (string * string)) (base : nat) :
  Forall (λ y, Z.of_nat base ≤ y.1) (offsets layout base).
Proof.
  revert base. induction layout as [|gt t IH]; intros base; [constructor|].
  cbn [offsets]. constructor; [cbn; lia|].
  eapply Forall_impl; [apply IH|]. intros y Hy. cbn beta in *. lia.
Qed.

Lemma offsets_increasing (layout : list (string * string)) (base : nat) :
  Forall (λ gt, gt.2 ≠ "") layout → increasing (offsets layout base).
Proof.
  intros Hwords. revert base. induction Hwords as [|gt t Hgt Hwords IH]; intros base; [done|].
  cbn [offsets increasing]. split; [|apply IH].
  eapply Forall_impl; [apply offsets_lower|]. intros y Hy. cbn beta in *. cbn [fst].
  assert (String.length gt.2 ≠ 0)%nat by (by destruct gt.2). lia.
Qed.

Lemma first_found (pre : list ascii) (layout : list (string * string)) (rest : string) :
  (∀ i gt, layout !! i = Some gt →
     first_at (chars gt.2) (pre ++ chars (laid layout rest))
       (length pre + String.length (laid (take i layout) "" +:+ gt.1))) →
  found_in_turn layout rest.
Proof.
  revert pre. induction layout as [|gt t IH]; intros pre Hat; [done|].
  cbn [found_in_turn]. split.
  - apply find_first. apply (first_at_suffix _ pre). apply (Hat 0%nat gt eq_refl).
  - apply (IH (pre ++ chars gt.1 ++ chars gt.2)). intros i gt' Hi.
    specialize (Hat (S i) gt' Hi). rewrite length_laid_next in Hat.
    cbn [laid] in Hat. rewrite !chars_app in Hat.
    rewrite <- !app_assoc, !length_app, !length_chars.
    replace (length pre + (String.length gt.1 + String.length gt.2)
             + String.length (laid (take i t) "" +:+ gt'.1))%nat
      with (length pre + (String.length gt.1 + String.length gt.2
                          + String.length (laid (take i t) "" +:+ gt'.1)))%nat by lia.
    exact Hat.
Qed.

Section Reorder.
Variables (p : loc) (attrs : gmap string value) (s : state).
Hypothesis Hp : heap s !! p = Some (HObj attrs).

(** The state with the prompt of the request replaced. *)
Definition with_prompt (a : string) : state :=
  mkState (<[p := HObj (<["prompt" := VStr a]> attrs)]> (heap s)) (wld s).

Lemma with_prompt_request (a : string) :
  heap (with_prompt a) !! p = Some (HObj (<["prompt" := VStr a]> attrs)).
Proof. cbn [with_prompt heap]. apply list_lookup_insert_eq. by eapply lookup_lt_Some. Qed.

Lemma getattr_with_prompt (a : string) :
  getattr p "prompt" (with_prompt a) = (Ok (VStr a), with_prompt a).
Proof.
  apply (getattr_Some _ _ _ _ _ (with_prompt_request a)). apply lookup_insert_eq.
Qed.

Lemma get_prompt_with_prompt (a : string) :
  get_prompt p (with_prompt a) = (Ok a, with_prompt a).
Proof. unfold get_prompt. by rewrite (bind_Ok _ _ _ _ _ (getattr_with_prompt a)). Qed.

Lemma set_prompt_with_prompt (a b : string) :
  setattr p "prompt" (VStr b) (with_prompt a) = (Ok (), with_prompt b).
Proof.
  rewrite (setattr_Some _ _ _ _ _ (with_prompt_request a)).
  unfold with_prompt. cbn [heap wld]. by rewrite list_insert_insert_eq, insert_insert_eq.
Qed.

Lemma with_prompt_same (a : string) : attrs !! "prompt" = Some (VStr a) → with_prompt a = s.
Proof.
  intros Ha. unfold with_prompt. rewrite (insert_id attrs) by done.
  rewrite list_insert_id by done. by destruct s.
Qed.

(** The first loop: the places of the words. *)
Lemma token_order_loop (a : string) (x : list string) (acc : list (Z * string)) :
  for_each (VStr <$> x) (λ token token_order,
    prompt <- get_prompt p ;;
    token <- as_token token ;;
    ret (token_order ++ [(find prompt token, token)])) acc (with_prompt a)
  = (Ok (acc ++ ((λ t, (find a t, t)) <$> x)), with_prompt a).
Proof.
  revert acc. induction x as [|t x IH]; intros acc.
  - cbn. by rewrite app_nil_r.
  - cbn [fmap list_fmap for_each].
    erewrite bind_Ok; cycle 1.
    { rewrite (bind_Ok _ _ _ _ _ (get_prompt_with_prompt a)). reflexivity. }
    rewrite IH. by rewrite <- app_assoc.
Qed.

(** The second loop: the gaps, the words being taken out one by one. *)
Lemma prompt_parts_loop (layout : list (string * string)) (rest : string)
    (order : list (Z * string)) (acc : list string) :
  order.*2 = layout.*2 →
  found_in_turn layout rest →
  for_each order (λ nt prompt_parts,
    prompt <- get_prompt p ;;
    let n := find prompt nt.2 in
    let part := str_slice prompt 0 (Some n) in
    setattr p "prompt"
      (VStr (str_slice prompt (n + Z.of_nat (String.length nt.2)) None)) ;;
    ret (prompt_parts ++ [part])) acc (with_prompt (laid layout rest))
  = (Ok (acc ++ layout.*1), with_prompt rest).
Proof.
  revert order acc. induction layout as [|[gap t] layout IH]; intros order acc Horder Hfound.
  - destruct order; [|done]. cbn. by rewrite app_nil_r.
  - destruct order as [|[n t'] order]; [done|]. injection Horder as -> Horder.
    destruct Hfound as [Hfind Hfound]. cbn [fst snd] in Hfind.
    cbn [for_each].
    erewrite bind_Ok; cycle 1.
    { rewrite (bind_Ok _ _ _ _ _ (get_prompt_with_prompt _)). cbn [snd]. rewrite Hfind.
      cbn [laid fst snd].
      rewrite <- Nat2Z.inj_add, <- length_string_app, <- string_app_assoc.
      rewrite str_slice_tail.
      rewrite (bind_Ok _ _ _ _ _ (set_prompt_with_prompt _ _)).
      rewrite string_app_assoc, str_slice_head. reflexivity. }
    rewrite IH by done. cbn [fmap list_fmap fst]. by rewrite <- app_assoc.
Qed.

(** The third loop: the gaps, each followed by a word of [x] in turn. *)
Lemma prompt_tmp_loop (x : list string) (gaps : list string) (k : nat) (acc : string)
    (st : state) :
  (k + length gaps ≤ length x)%nat →
  for_each (zip (seq k (length gaps)) gaps) (λ ip prompt_tmp,
    token <- lift (py_index (VStr <$> x) ip.1) ;;
    token <- as_token token ;;
    ret ((prompt_tmp +:+ ip.2) +:+ token)) acc st
  = (Ok (acc +:+ laid (zip gaps (drop k x)) ""), st).
Proof.
  revert k acc. induction gaps as [|g gaps IH]; intros k acc Hk.
  - cbn. by rewrite string_app_nil_r.
  - cbn [length seq zip zip_with for_each]. cbn [length] in Hk.
    destruct (lookup_lt_is_Some_2 x k ltac:(lia)) as [t Ht].
    assert (py_index (VStr <$> x) k = Ok (VStr t)) as Hidx.
    { unfold py_index. by rewrite list_lookup_fmap, Ht. }
    erewrite bind_Ok; cycle 1.
    { cbn [fst snd]. unfold bind, lift. rewrite Hidx. reflexivity. }
    rewrite IH by lia. rewrite (drop_S _ _ _ Ht). cbn [zip zip_with laid fst snd].
    by rewrite !string_app_assoc.
Qed.

Lemma offsets_words (layout : list (string * string)) (base : nat) :
  (offsets layout base).*2 = layout.*2.
Proof.
  revert base. induction layout as [|gt t IH]; intros base; [done|].
  cbn [offsets fmap list_fmap snd]. by rewrite IH.
Qed.

Lemma zip_gaps_words (layout : list (string * string)) : zip layout.*1 layout.*2 = layout.
Proof. induction layout as [|[g t] l IH]; [done|]. cbn. by rewrite IH. Qed.

(** X16. When each word has its first occurrence at its place in the prompt,
    the words being the words of [x] in some order and none of them empty,
    the prompt is rebuilt with the words of [x] in the places of the words,
    one after the other; with the words in the order in which they stand,
    the request is as it was. *)
Theorem apply_order_reorders (layout : list (string * string)) (rest : string)
    (x : list string) (xs : list value) :
  attrs !! "prompt" = Some (VStr (laid layout rest)) →
  Forall (λ gt, gt.2 ≠ "") layout →
  (∀ i gt, layout !! i = Some gt →
     find (laid layout rest) gt.2
     = Z.of_nat (String.length (laid (take i layout) "" +:+ gt.1))) →
  x ≡ₚ layout.*2 →
  apply_order p (VTuple x) xs s = (Ok (), with_prompt (laid (zip layout.*1 x) rest))
  ∧ (x = layout.*2 → apply_order p (VTuple x) xs s = (Ok (), s)).
Proof.
  intros Hprompt Hwords Hfirst Hperm.
  assert (apply_order p (VTuple x) xs (with_prompt (laid layout rest))
          = (Ok (), with_prompt (laid (zip layout.*1 x) rest))) as Happly.
  { unfold apply_order.
    rewrite (bind_Ok _ _ _ _ _ (eq_refl : iter (VTuple x) _ = (Ok (VStr <$> x), _))).
    rewrite (bind_Ok _ _ _ _ _ (token_order_loop _ x [])). cbn [app].
    assert (sort_by_key ((λ t, (find (laid layout rest) t, t)) <$> x) = offsets layout 0)
      as ->.
    { apply sort_by_key_increasing; [by apply offsets_increasing|].
      rewrite Hperm, <- list_fmap_compose. rewrite <- (keys_offsets (laid layout rest)).
      - done.
      - intros i gt Hi. by rewrite (Hfirst i gt Hi). }
    rewrite (bind_Ok _ _ _ _ _ (prompt_parts_loop layout rest (offsets layout 0) []
                                  (offsets_words layout 0)
                                  (first_found [] layout rest
                                     (λ i gt Hi, proj1 (find_first _ _ _) (Hfirst i gt Hi))))).
    cbn [app]. unfold enumerate.
    rewrite (bind_Ok _ _ _ _ _ (prompt_tmp_loop x layout.*1 0 "" _
                                  ltac:(rewrite (Permutation_length Hperm), !length_fmap; lia))).
    rewrite (bind_Ok _ _ _ _ _ (getattr_with_prompt rest)).
    rewrite set_prompt_with_prompt. rewrite drop_0.
    change ("" +:+ laid (zip layout.*1 x) "") with (laid (zip layout.*1 x) "").
    by rewrite laid_app. }
  rewrite (with_prompt_same _ Hprompt) in Happly. split; [exact Happly|].
  intros ->. rewrite Happly, zip_gaps_words. f_equal. by apply with_prompt_same.
Qed.

End Reorder.

End Order.

(** Witness of [apply_order_reorders]: the two words of "a cat and a dog",
    the other way round. *)
Lemma apply_order_reorders_witness :
  let attrs : gmap string value := <["prompt" := VStr "a cat and a dog"]> ∅ in
  let s := mkState [HObj attrs] world0 in
  apply_order 0%nat (VTuple ["dog"; "cat"]) [] s
  = (Ok (), with_prompt 0%nat attrs s "a dog and a cat").
Proof.
  intros attrs s.
  refine (proj1 (apply_order_reorders 0%nat attrs s eq_refl
                   [("a ", "cat"); (" and a ", "dog")] "" ["dog"; "cat"] []
                   eq_refl _ _ _)).
  - repeat constructor; discriminate.
  - intros [|[|i]] gt Hi; [injection Hi as <-; reflexivity..|discriminate Hi].
  - apply perm_swap.
Defined.

(** ** The checks of the samplers and of the checkpoints

    The table of the samplers and the search for a checkpoint belong to
    the host: they are parameters here. *)

Section Confirm.
Context `{Webui}.
Local Open Scope m_scope.
(** The keys of [sd_samplers.samplers_map] *)
Variable samplers_map : list string.
(** [modules.sd_models.get_closet_checkpoint_match(x)]: the name of the
    checkpoint found, if any *)
Variable get_closet_checkpoint_match : value → option string.

Definition confirm_samplers (p : loc) (xs : list value) : result unit :=
  (rmapM (λ x,
     match x with
     | VStr name =>
         if bool_decide (lower name ∈ samplers_map) then Ok () else Raise RuntimeError
     | _ => Raise AttributeError
     end) xs ;; Ok ())%res.

Definition apply_checkpoint (p : loc) (x : value) (xs : list value) : M unit :=
  match get_closet_checkpoint_match x with
  | None => raise RuntimeError
  | Some name =>
      d <- getattr p "override_settings" ;;
      dict_setitem d "sd_model_checkpoint" (VStr name)
  end.

Definition confirm_checkpoints (p : loc) (xs : list value) : result unit :=
  (rmapM (λ x,
     match get_closet_checkpoint_match x with
     | None => Raise RuntimeError
     | Some _ => Ok ()
     end) xs ;; Ok ())%res.

(** [x in (None, "", "None", "none")] *)
Definition no_checkpoint (x : value) : bool :=
  match x with
  | VNone => true
  | VStr name => bool_decide (name ∈ [""; "None"; "none"])
  | _ => false
  end.

Definition confirm_checkpoints_or_none (p : loc) (xs : list value) : result unit :=
  (rmapM (λ x,
     if no_checkpoint x then Ok ()
     else
       match get_closet_checkpoint_match x with
       | None => Raise RuntimeError
       | Some _ => Ok ()
       end) xs ;; Ok ())%res.

Lemma rmapM_units {A : Type} (f : A → result unit) (l : list A) :
  (rmapM f l ;; Ok ())%res = Ok () ↔ Forall (λ a, f a = Ok ()) l.
Proof.
  induction l as [|a l IH]; [split; [intros _; constructor|done]|].
  cbn [rmapM]. destruct (f a) as [[]|e] eqn:Ha; cbn [rbind].
  - destruct (rmapM f l) as [bs|e]; cbn [rbind] in *.
    + split; [intros _; constructor; [done|by apply IH]|done].
    + split; [done|]. intros Hall. apply Forall_inv_tail in Hall. by apply IH in Hall.
  - split; [done|]. intros Hall%Forall_inv. cbn beta in Hall. congruence.
Qed.

(** X17. The checks pass exactly when every value is known: a sampler by its
    name in small letters, a checkpoint by the search of the host, which
    the spellings of no checkpoint need not pass.  A checkpoint that has
    passed the check is one that [apply_checkpoint] stores, without an
    error, in the settings of the request. *)
Theorem confirm_known (p : loc) (xs : list value) :
  (confirm_samplers p xs = Ok ()
   ↔ Forall (λ x, ∃ name, x = VStr name ∧ lower name ∈ samplers_map) xs)
  ∧ (confirm_checkpoints p xs = Ok ()
     ↔ Forall (λ x, is_Some (get_closet_checkpoint_match x)) xs)
  ∧ (confirm_checkpoints_or_none p xs = Ok ()
     ↔ Forall (λ x, no_checkpoint x = true ∨ is_Some (get_closet_checkpoint_match x)) xs)
  ∧ (confirm_checkpoints p xs = Ok () →
     ∀ x pc attrs d entries s,
       x ∈ xs →
       heap s !! pc = Some (HObj attrs) →
       attrs !! "override_settings" = Some (VRef d) →
       heap s !! d = Some (HDict entries) →
       ∃ name,
         get_closet_checkpoint_match x = Some name
         ∧ apply_checkpoint pc x xs s
           = (Ok (), mkState (<[d := HDict (<["sd_model_checkpoint" := VStr name]> entries)]>
                                (heap s)) (wld s))).
Proof.
  assert (confirm_checkpoints p xs = Ok ()
          ↔ Forall (λ x, is_Some (get_closet_checkpoint_match x)) xs) as Hcheck.
  { unfold confirm_checkpoints. rewrite rmapM_units. apply Forall_iff. intros x.
    destruct (get_closet_checkpoint_match x); split; intros Hx; try done;
      try (by eexists); by destruct Hx. }
  split; [|split; [done|split]].
  - unfold confirm_samplers. rewrite rmapM_units. apply Forall_iff. intros x.
    destruct x as [| | | |name| |]; try (split; [done|by intros (? & ? & _)]).
    destruct (bool_decide_reflect (lower name ∈ samplers_map)) as [Hin|Hout].
    + split; [by exists name|done].
    + split; [done|]. by intros (? & [= <-] & ?).
  - unfold confirm_checkpoints_or_none. rewrite rmapM_units. apply Forall_iff. intros x.
    destruct (no_checkpoint x); [by split; [left|]|].
    destruct (get_closet_checkpoint_match x); split; intros Hx; try done.
    + right. by eexists.
    + destruct Hx as [?|Hx]; [done|by destruct Hx].
  - intros Hok x pc attrs d entries s Hx Hpc Hd Hentries.
    apply Hcheck in Hok. rewrite Forall_forall in Hok.
    destruct (Hok x Hx) as [name Hname]. exists name. split; [done|].
    unfold apply_checkpoint. rewrite Hname.
    rewrite (bind_Ok _ _ _ _ _ (getattr_Some _ _ _ _ _ Hpc Hd)).
    unfold dict_setitem. by rewrite (bind_Ok _ _ _ _ _ (load_Some _ _ _ Hentries)).
Qed.

End Confirm.

(** ** The run as a whole *)

Section RunPaths.
Context `{Webui}.
Variables (p : loc) (x_opt y_opt z_opt : AxisOption) (xs ys zs : list value).
Variables (x_values y_values z_values : string).
Variables (draw_legend draw_individual_labels skip_grid : bool).
Variables (include_lone_images include_sub_grids no_fixed_seeds : bool).
Variables (vary_seeds_x vary_seeds_y vary_seeds_z : bool).
Variable margin_size : Z.

(** The run with [items_per_grid] items per grid. *)
Definition run_paged (items_per_grid : Z) : M Processed :=
  run p x_opt y_opt z_opt xs ys zs x_values y_values z_values draw_legend
    draw_individual_labels skip_grid items_per_grid include_lone_images include_sub_grids
    no_fixed_seeds vary_seeds_x vary_seeds_y vary_seeds_z margin_size.

(** The body of the run, in the state where [grid_infotext] has just been
    made. *)
Definition run_inside (items_per_grid : Z) (s : state) : result Processed * state :=
  let grid_infotext := length (heap s) in
  let fs := axes_processed x_opt y_opt z_opt in
  run_body p x_opt y_opt z_opt xs ys zs draw_legend draw_individual_labels skip_grid
    items_per_grid include_lone_images include_sub_grids margin_size
    (cell p x_opt y_opt z_opt xs ys zs x_values y_values z_values
       vary_seeds_x vary_seeds_y vary_seeds_z draw_individual_labels no_fixed_seeds
       grid_infotext)
    fs.1 fs.2 grid_infotext
    (mkState (heap s ++ [HList (replicate (1 + length zs) VNone)]) (wld s)).

(** X18. The weights of the model and of the VAE are loaded again when the run
    ends, be it with a result or with an error, and the run ends as its
    body does.  The number of items per grid plays no part when the images
    are made one by one, or when no axis has more than one value. *)
Theorem run_reloads_weights (items_per_grid : Z) (s : state) :
  run_paged items_per_grid s
  = ((run_inside items_per_grid s).1,
     mkState (heap (run_inside items_per_grid s).2)
       (reload_vae_weights (reload_model_weights (wld (run_inside items_per_grid s).2))))
  ∧ (skip_grid = true
     ∨ ((length xs ≤ 1)%nat ∧ (length ys ≤ 1)%nat ∧ (length zs ≤ 1)%nat) →
     run_paged items_per_grid s = run_paged 0 s).
Proof.
  assert (∀ n, run_paged n s
               = ((run_inside n s).1,
                  mkState (heap (run_inside n s).2)
                    (reload_vae_weights (reload_model_weights (wld (run_inside n s).2)))))
    as Hrun.
  { intros n. unfold run_paged, run, run_inside.
    unfold bind at 1, alloc at 1, finally. cbv zeta.
    destruct (run_body _ _ _ _ _ _ _ _ _ _ _ _ _ _ _ _ _ _ _) as [r s1]. done. }
  split; [apply Hrun|].
  intros Hpaging. rewrite !Hrun.
  assert (run_inside items_per_grid s = run_inside 0 s) as ->; [|done].
  unfold run_inside, run_body.
  assert ((0 <? items_per_grid) && negb skip_grid
          && (1 <? length (if String.eqb (main_axis xs ys zs) "x" then xs
                           else if String.eqb (main_axis xs ys zs) "y" then ys else zs))%nat
          = false) as ->.
  { destruct Hpaging as [->|(Hx & Hy & Hz)]; [by rewrite andb_false_r|].
    apply andb_false_iff. right. apply Nat.ltb_ge.
    destruct (String.eqb (main_axis xs ys zs) "x"); [done|].
    by destruct (String.eqb (main_axis xs ys zs) "y"). }
  done.
Qed.

End RunPaths.

(** ** The infotexts of the grids *)

Section GridInfotext.
Context `{Webui}.
Variables (x_opt y_opt z_opt : AxisOption) (xs ys zs : list value).
Variables (x_values y_values z_values : string).
Variable no_fixed_seeds : bool.
Variable grid_infotext : loc.

(** X19. The infotexts of the grids are written by the first cell of a
    slice only, and only into a slot that is empty: a cell that is not the
    first of its row and column, and a cell that finds the slot of its
    slice filled and is not the one to fill an empty slot of the whole
    grid, leaves the list, and the state, as they are. *)
Theorem record_grid_infotext_once (pc : loc) (ix iy iz : nat) (s : state)
    (items : list value) (g g0 : value) :
  heap s !! grid_infotext = Some (HList items) →
  items !! (1 + iz)%nat = Some g →
  items !! 0%nat = Some g0 →
  (ix ≠ 0%nat ∨ iy ≠ 0%nat) ∨ (g ≠ VNone ∧ (iz ≠ 0%nat ∨ g0 ≠ VNone)) →
  record_grid_infotext x_opt y_opt z_opt xs ys zs x_values y_values z_values
    no_fixed_seeds grid_infotext pc ix iy iz s
  = (Ok (), s).
Proof.
  intros Hlist Hg Hg0 Hcase. unfold record_grid_infotext.
  assert (∀ i v, items !! i = Some v → grid_infotext_get grid_infotext i s = (Ok v, s))
    as Hget.
  { intros i v Hv. unfold grid_infotext_get.
    rewrite (bind_Ok _ _ _ _ _ (load_Some _ _ _ Hlist)). unfold lift, py_index.
    by rewrite Hv. }
  rewrite (bind_Ok _ _ _ _ _ (Hget _ _ Hg)).
  assert (is_None g && (ix =? 0)%nat && (iy =? 0)%nat = false) as ->.
  { destruct Hcase as [[Hix|Hiy]|[Hfilled _]].
    - apply Nat.eqb_neq in Hix. rewrite Hix. by rewrite andb_false_r.
    - apply Nat.eqb_neq in Hiy. rewrite Hiy. by rewrite andb_false_r.
    - by destruct g. }
  rewrite (bind_Ok _ _ _ _ _ (eq_refl : ret () s = (Ok (), s))).
  rewrite (bind_Ok _ _ _ _ _ (Hget _ _ Hg0)).
  assert (is_None g0 && (ix =? 0)%nat && (iy =? 0)%nat && (iz =? 0)%nat = false) as ->.
  { destruct Hcase as [[Hix|Hiy]|[_ [Hiz|Hfilled]]].
    - apply Nat.eqb_neq in Hix. rewrite Hix. by rewrite !andb_false_r.
    - apply Nat.eqb_neq in Hiy. rewrite Hiy. by rewrite !andb_false_r.
    - apply Nat.eqb_neq in Hiz. rewrite Hiz. by rewrite !andb_false_r.
    - by destruct g0. }
  done.
Qed.

End GridInfotext.

(** Witness of [record_grid_infotext_once]: the second cell of a row. *)
Lemma record_grid_infotext_once_witness :
  let s := mkState (heap state0 ++ [HList [VNone; VNone]]) world0 in
  record_grid_infotext opt_Seed opt_Nothing opt_Nothing [VInt 1; VInt 2] nothing nothing
    "1,2" "" "" false 4%nat p0 1 0 0 s
  = (Ok (), s).
Proof.
  intros s.
  apply (record_grid_infotext_once opt_Seed opt_Nothing opt_Nothing [VInt 1; VInt 2]
           nothing nothing "1,2" "" "" false 4%nat p0 1 0 0 s [VNone; VNone] VNone VNone);
    [reflexivity|reflexivity|reflexivity|].
  left. left. discriminate.
Defined.
